(* ===== verification/_CoqProject ===== *)
-Q . S2P
Prelude.v
GoText.v
GoStrings.v
Selector.v
PData.v
PromNaming.v
Demand.v
DemandFilter.v
SelectorCache.v
LogFilter.v
TraceFilter.v
TraceRouter.v
MetricsIndex.v
KnownCache.v
DiscoveredCache.v
DemandCache.v
DemandMatcher.v
Backoff.v
QueryHandler.v
ConfigManager.v
ConfigRace.v
Diagnostics.v
Tracker.v
Delivery.v
IndexSync.v
IndexSessions.v
AckProtocol.v
Controller.v
DemandSwitch.v
Telemetry.v
Lifecycle.v
AgentIndex.v
Ingest.v
Pipeline.v
Components.v
Wire.v
ServerWire.v
Resolve.v
Factories.v
