(* ===== verification/Prelude.v ===== *)
(** * A verification of the LeanSignal agent

    The agent is an OpenTelemetry collector distribution whose own code lives
    under src/components and src/internal. Telemetry flows through processors
    that drop what nobody demands; a control stream to the backend delivers the
    demand, collects an index of the series seen, answers queries against the
    local stores and edits the agent's configuration. This library models that
    code as executable definitions and proves what makes each part correct.

    ** The program's parts, and where they are modelled

    Shared vocabulary
    - [Prelude]: results, machine integers, byte strings, sorting, [RemoveIf].
    - [GoText], [GoStrings]: the parts of utf8, unicode, strings, strconv, hex
      and net/url the sources use.
    - [PData]: the collector's telemetry data (metrics, logs, traces). Attribute
      maps belong to the collector library, so they are the class [PData] with
      their documented laws; [AssocPData] is a concrete instance.

    Demand selection, the pipelines
    - [Selector]: selectormatch/selector.go, the selector grammar ([parse] keeps
      the byte positions and errors of the parser) and matching. Regular
      expressions are the class [Regexp].
    - [PromNaming]: internal/promnaming, metric and label names. The name builder
      of otlptranslator is the class [Namer].
    - [Demand]: the provider interfaces the filters look up among the host's
      extensions, as the class [DemandHost]; tracedemand/route.go.
    - [DemandFilter]: demandfilter, the metric filter, in name and selector mode.
    - [SelectorCache], [LogFilter]: logdemandfilter.
    - [TraceFilter]: tracedemandfilter; [TraceRouter]: tracerouter, which pushes
      the spans the filter stamped to the ingestion rules they belong to.
    - [Backoff]: ingestbackoff, the valve that pauses pushes after a 403.

    The index of series
    - [MetricsIndex]: metricsindex, keys and batches; [Tracker]: metricstracker,
      which turns metrics into series and fingerprints; [Ingest]: a batch on its
      way from the tracker through the registry into the controller's caches;
      [Pipeline]: the same batch on to the demand filter.
    - [KnownCache], [DiscoveredCache]: the controller's two series caches.
    - [Delivery]: [ReceiveTimeseriesBatch], as a function and call by call;
      [IndexSync]: timeseries_processor.go, one index processor; [IndexSessions]: the
      processors of overlapping sessions and the batches between them; [AgentIndex]:
      the agent of [Lifecycle] over these sessions.

    The control stream (components/edgecontroller)
    - [DemandCache], [DemandMatcher]: the demand in force and its accounting.
    - [QueryHandler]: query_handler.go; [ConfigManager]: config_manager.go;
      [ConfigRace]: the same update and snapshot split at their system calls and
      interleaved; [Diagnostics]: diagnostics.go, the dump of the caches.
    - [AckProtocol]: correlation ids and acknowledgements of extension.go.
    - [Controller]: message dispatch, replies, ping and diagnosis of
      extension.go, config_handler.go; the instance of [DemandHost] the filters
      run against. [DemandSwitch]: a demand set arriving while batches run.
    - [Telemetry]: telemetry.go; [Lifecycle]: start, the connection loop, the
      sessions' goroutines and shutdown of extension.go, around the controller.
    - [Components]: the configuration structs, defaults, checks and construction
      of the components (config.go and factory.go); [Factories]: what each package
      registers with the collector.
    - [Wire]: the messages the agent sends as the protocol definition
      (proto/leansignal/agent/v1/agent_control.proto) lays them out, their encoded
      sizes, and what the connection refuses to send. The protobuf encoder is the
      class [Protobuf]; [WireFormat] is a concrete instance. [ServerWire]: the messages
      the agent receives, from the bytes to the dispatch, with the class
      [ProtobufReader].
    - [Resolve]: resolveprovider, the config provider that finds the endpoints.

    ** How the code is represented

    A struct is a record, a handler a function from the state to the new state
    and what it sends; a Go error is [Err] of an enumeration of the source's
    errors; a run-time panic or a blocked channel is [None]. Integers are [Z]
    with the wrap-around of their width written out, strings are byte sequences,
    maps are [gmap] and the iteration order of a map is an argument. Clocks,
    files, the network and third-party packages are arguments or classes. Where
    goroutines interleave ([Delivery], [IndexSync], [IndexSessions], [AckProtocol],
    [Controller], [ConfigRace], [Lifecycle], the semaphore of [QueryHandler]) the
    operations are split at their lock and channel operations, or at their system
    calls, and a step relation interleaves them; a select with several ready cases
    may take any of them. [Lifecycle] runs [Controller]'s machine, which embeds the
    steps of [IndexSync] and [AckProtocol], so an invariant proved of a part holds
    in the whole agent. In [Controller] a config update is one step; [ConfigRace]
    shows that updates taken call by call are such steps. [Ingest], [Pipeline] and
    [Wire] take a batch of series whole, which is what its calls amount to when
    nothing comes in between. The lemmas that extend a
    step's invariant, simulation or measure to runs are at the end of this file.

    ** What the theorems show

    - Grammar: printing and parsing round-trip for arbitrary bytes, only
      well-formed selectors are accepted, parsing terminates.
    - Filters: over any sequence of batches and demand changes each filter
      equals a reference that re-reads the demand for every batch, so indexes,
      fast paths and caches are invisible; they fail closed; name mode is the
      special case of selector mode; a demand set takes effect with the next
      batch of every pipeline, and a batch that races with it is filtered by the
      old set or the new one, up to two mode changes that are spelled out.
    - Routing: grouping partitions a batch, a rule receives exactly the spans it
      demands, repeated pushes deliver every group, and what each outcome of a push means.
    - Index: fingerprints identify series, the tracker counts occurrences, the
      ring buffers refine a log of samples, batches follow the histories, known
      series are announced whatever fails and however many sessions and batches
      overlap, short of a refusal, a lost answer to a deletion, or a report that a
      deletion overtakes, and what these do; every
      series of a consumed batch becomes known and, when new, queued; from end to
      end, a query within the demand finds in the forwarded batch what it would find
      in the complete one, and what is forwarded is known and counted as demanded;
      what the agent bounds fits a message and is sent when its texts are valid, and a
      series that fits none keeps the index back.
    - Control: acknowledgements reach their callers and nobody blocks, every
      command has one answer, which goes out or is lost with its stream, ping and
      diagnosis agree, the tunnel reaches
      only read endpoints with bounded answers, a rejected configuration changes
      nothing but, where the last rename fails, the backup, and an accepted one was
      validated, updates are atomic and snapshots report whole versions whatever they
      race with, where no source is the backup of another, a complaint is reported within
      bounds, endpoints are looked up once; what the control plane sends, also a newer
      one, is what is dispatched, and what cannot be read ends the session.
    - Life: the wait group counts what runs and is never raised from zero, the
      whole agent is a run of the controller's machine, shutdown finishes within
      a bound in whatever order its goroutines wind down and nothing happens after
      it; with remote writes
      switched off no file but the diagnosis changes; the diagnosis reports the
      caches whatever fails, and the gauges agree with the heartbeat.

    ** Fuel

    Three loops that are not structural carry a counter: [parse_matchers] runs
    [len input + 1] rounds, the rune loops [len s] steps and the unquoting loop
    [len s] steps. Every round consumes at least one byte; [parse_terminates]
    shows the first bound is never reached, and the round trips use the others.

    ** What is not modelled

    The generated protobuf code and what gRPC does below [Connect], [Send] and
    [Recv], in particular that a refused [Send] also ends the stream; what the
    collector does with the factories, its queue and its pacing of retries; logging
    other than the lines of the tracker; the length of timers, which only pace a
    loop; and Windows paths. Symbolic links are not distinguished from the files
    they name. *)

From stdpp Require Export base numbers option gmap strings sorting vector.
From stdpp Require Export list.
From stdpp Require Import options.
From Stdlib Require Export Ascii.

#[global] Set Default Goal Selector "1".

(** ** Scope and shared notation *)

Declare Scope go_scope.
Delimit Scope go_scope with go.

(** The result of a fallible Go function: the pair [(value, err)] of the source
    with [err == nil] read as [Ok] and [err != nil] as [Err]. *)
Inductive result (E A : Type) : Type :=
| Ok (a : A)
| Err (e : E).
Arguments Ok {E A} a.
Arguments Err {E A} e.

#[export] Instance result_eq_dec {E A} `{EqDecision E, EqDecision A} :
  EqDecision (result E A).
Proof. solve_decision. Defined.

#[export] Instance result_ret {E} : MRet (result E) := λ A a, Ok a.
#[export] Instance result_bind {E} : MBind (result E) := λ A B f r,
  match r with Ok a => f a | Err e => Err e end.
#[export] Instance result_fmap {E} : FMap (result E) := λ A B f r,
  match r with Ok a => Ok (f a) | Err e => Err e end.

(** [values_of] keeps the successful results of a list, the shape of every
    "parse each entry, skip the bad ones with a warning" loop. *)
Definition values_of {E A} (rs : list (result E A)) : list A :=
  omap (λ r, match r with Ok a => Some a | Err _ => None end) rs.

(** ** Machine integers *)

(** Conversions to Go's fixed-width integer types: two's complement
    wrap-around. [int] is 64 bits wide on every platform the agent ships for. *)
Definition wrap_u (w z : Z) : Z := z mod 2 ^ w.
Definition wrap_s (w z : Z) : Z := (z + 2 ^ (w - 1)) mod 2 ^ w - 2 ^ (w - 1).

Definition uint8 : Z → Z := wrap_u 8.
Definition uint64 : Z → Z := wrap_u 64.
Definition int32 : Z → Z := wrap_s 32.
Definition int64 : Z → Z := wrap_s 64.

(** ** Strings as byte sequences *)

(** A Go string is an immutable byte sequence; [string] is the same thing with
    [ascii] for byte. [code] is the numeric value of a byte. *)
Definition code (c : ascii) : Z := Z.of_N (N_of_ascii c).
Definition byte_of (z : Z) : ascii := ascii_of_N (Z.to_N (z mod 256)).

Definition bytes (s : string) : list ascii := String.list_ascii_of_string s.
Definition of_bytes (l : list ascii) : string := String.string_of_list_ascii l.

Definition len (s : string) : nat := String.length s.

(** [from i s] is the slice [s[i:]]; [upto i s] is [s[:i]]. *)
Fixpoint from (i : nat) (s : string) : string :=
  match i, s with
  | O, _ => s
  | S i, String _ s => from i s
  | S _, EmptyString => ""
  end.

Fixpoint upto (i : nat) (s : string) : string :=
  match i, s with
  | O, _ => ""
  | S i, String c s => String c (upto i s)
  | S _, EmptyString => ""
  end.

(** [strings.CutPrefix], [strings.HasPrefix] and [strings.TrimPrefix]. *)
Fixpoint CutPrefix (s p : string) {struct p} : option string :=
  match p, s with
  | EmptyString, _ => Some s
  | String a p, String b s => if decide (a = b) then CutPrefix s p else None
  | String _ _, EmptyString => None
  end.

Definition HasPrefix (s p : string) : bool :=
  match CutPrefix s p with Some _ => true | None => false end.

Definition TrimPrefix (s p : string) : string :=
  match CutPrefix s p with Some r => r | None => s end.

(** [strings.HasSuffix] and [strings.TrimSuffix]. *)
Definition HasSuffix (s x : string) : bool :=
  bool_decide (len x ≤ len s) && bool_decide (from (len s - len x) s = x).

Definition TrimSuffix (s x : string) : string :=
  if HasSuffix s x then upto (len s - len x) s else s.

(** [strings.Join]. *)
Fixpoint Join (l : list string) (sep : string) : string :=
  match l with
  | [] => ""
  | [s] => s
  | s :: l => s +:+ sep +:+ Join l sep
  end.

(** [strings.IndexByte]-style search and [strings.Cut] with a one-byte
    separator: the text before the first [c], the text after it, and whether
    [c] occurs. *)
Fixpoint CutByte (s : string) (c : ascii) : string * string * bool :=
  match s with
  | EmptyString => ("", "", false)
  | String a s' =>
      if decide (a = c) then ("", s', true)
      else let '(b, r, ok) := CutByte s' c in (String a b, r, ok)
  end.

Definition Contains (s : string) (c : ascii) : bool := (CutByte s c).2.

(** [strings.TrimRight] with a one-byte cutset. *)
Fixpoint TrimRightByte (s : string) (c : ascii) : string :=
  match s with
  | EmptyString => ""
  | String a s' =>
      match TrimRightByte s' c with
      | EmptyString => if decide (a = c) then "" else String a ""
      | r => String a r
      end
  end.

(** Every byte of the string satisfies [p]. *)
Fixpoint str_forall (p : ascii → bool) (s : string) : bool :=
  match s with
  | EmptyString => true
  | String c s => p c && str_forall p s
  end.

(** [sort.Strings]: Go compares strings bytewise, which is [String.le]. *)
Definition sort_strings (l : list string) : list string := merge_sort String.le l.

(** [for _, x := range l { if !f(x) { keep } }]: pdata's [RemoveIf], where the
    callback may rewrite the element it is given before it answers. *)
Fixpoint remove_if {A} (f : A → A * bool) (l : list A) : list A :=
  match l with
  | [] => []
  | x :: l => let '(x', drop) := f x in
              if drop then remove_if f l else x' :: remove_if f l
  end.

(** ** Tactics *)

(** Destruct the scrutinee of the innermost [match] or [if] of the goal. *)
Ltac break_match :=
  match goal with
  | |- context [ match ?x with _ => _ end ] =>
      lazymatch x with context [ match _ with _ => _ end ] => fail | _ => idtac end;
      let E := fresh "E" in destruct x eqn:E
  end.

Ltac break_match_hyp H :=
  match type of H with
  | context [ match ?x with _ => _ end ] =>
      lazymatch x with context [ match _ with _ => _ end ] => fail | _ => idtac end;
      let E := fresh "E" in destruct x eqn:E
  end.

(** Case analysis over every byte; for goals that compute on each of them. *)
Ltac all_bytes c := destruct c as [[][][][][][][][]].

Create HintDb leansignal.
Create Rewrite HintDb go_str.

(** ** Integer lemmas *)

Lemma wrap_u_id w z : (0 ≤ z < 2 ^ w)%Z → wrap_u w z = z.
Proof. apply Z.mod_small. Qed.

Lemma wrap_s_range w z : (0 < w)%Z → (- 2 ^ (w - 1) ≤ wrap_s w z < 2 ^ (w - 1))%Z.
Proof.
  intros. unfold wrap_s.
  pose proof (Z.mod_pos_bound (z + 2 ^ (w - 1)) (2 ^ w)) as B.
  assert (2 ^ w = 2 * 2 ^ (w - 1))%Z as E.
  { rewrite <- Z.pow_succ_r by lia. f_equal. lia. }
  assert (0 < 2 ^ (w - 1))%Z by (apply Z.pow_pos_nonneg; lia). lia.
Qed.

Lemma wrap_s_mod w z : (0 < w)%Z → (wrap_s w z `mod` 2 ^ w = z `mod` 2 ^ w)%Z.
Proof. intros. unfold wrap_s. rewrite Zminus_mod_idemp_l. f_equal. lia. Qed.

Lemma wrap_s_id w z :
  (0 < w)%Z → (- 2 ^ (w - 1) ≤ z < 2 ^ (w - 1))%Z → wrap_s w z = z.
Proof.
  intros. unfold wrap_s.
  assert (2 ^ w = 2 * 2 ^ (w - 1))%Z as E.
  { rewrite <- Z.pow_succ_r by lia. f_equal. lia. }
  rewrite Z.mod_small; lia.
Qed.

Lemma wrap_s_add_l w a b : (0 < w)%Z → wrap_s w (wrap_s w a + b) = wrap_s w (a + b).
Proof.
  intros. unfold wrap_s. f_equal.
  replace ((a + 2 ^ (w - 1)) `mod` 2 ^ w - 2 ^ (w - 1) + b + 2 ^ (w - 1))%Z
    with ((a + 2 ^ (w - 1)) `mod` 2 ^ w + b)%Z by lia.
  rewrite Zplus_mod_idemp_l. f_equal. lia.
Qed.

Lemma int64_add_l a b : int64 (int64 a + b) = int64 (a + b).
Proof. apply wrap_s_add_l. lia. Qed.

Lemma int64_add_r a b : int64 (a + int64 b) = int64 (a + b).
Proof. rewrite Z.add_comm, int64_add_l, Z.add_comm. done. Qed.

Lemma int64_id a : (- 2 ^ 63 ≤ a < 2 ^ 63)%Z → int64 a = a.
Proof. intros. apply wrap_s_id; simpl in *; lia. Qed.

Lemma code_range c : (0 ≤ code c < 256)%Z.
Proof. unfold code. pose proof (N_ascii_bounded c). lia. Qed.

Lemma byte_of_code c : byte_of (code c) = c.
Proof.
  unfold byte_of. rewrite Z.mod_small by apply code_range.
  unfold code. rewrite N2Z.id. apply ascii_N_embedding.
Qed.

Lemma code_byte_of z : (0 ≤ z < 256)%Z → code (byte_of z) = z.
Proof.
  intros. unfold byte_of, code. rewrite Z.mod_small by done.
  rewrite N_ascii_embedding by lia. lia.
Qed.

#[export] Instance code_inj : Inj (=) (=) code.
Proof. intros a b E. rewrite <- (byte_of_code a), E. apply byte_of_code. Qed.

(** ** String lemmas *)

Lemma app_cons c s t : String c s +:+ t = String c (s +:+ t).
Proof. done. Qed.

Lemma app_empty_l s : "" +:+ s = s.
Proof. done. Qed.

Lemma app_empty_r s : s +:+ "" = s.
Proof. induction s; [done|]. rewrite app_cons. by f_equal. Qed.

Lemma app_assoc_str (s t u : string) : (s +:+ t) +:+ u = s +:+ t +:+ u.
Proof. induction s; [done|]. rewrite !app_cons. by f_equal. Qed.

Lemma len_cons c s : len (String c s) = S (len s).
Proof. done. Qed.

Lemma len_app s t : len (s +:+ t) = len s + len t.
Proof. induction s; [done|]. rewrite app_cons, !len_cons. lia. Qed.

Lemma len_0_inv s : len s = 0 → s = "".
Proof. destruct s; [done|]. rewrite len_cons. lia. Qed.

#[export] Hint Rewrite app_cons app_empty_l app_empty_r app_assoc_str len_cons len_app : go_str.

Lemma of_bytes_bytes s : of_bytes (bytes s) = s.
Proof. apply String.string_of_list_ascii_of_string. Qed.

#[export] Instance bytes_inj : Inj (=) (=) bytes.
Proof. intros s t E. rewrite <- (of_bytes_bytes s), E. apply of_bytes_bytes. Qed.

Lemma from_app p s : from (len p) (p +:+ s) = s.
Proof. induction p; [done|]. rewrite app_cons. done. Qed.

Lemma from_len s i : len (from i s) = len s - i.
Proof.
  revert s; induction i as [|i IH]; intros s; [simpl; lia|].
  destruct s; [done|]. simpl. rewrite IH. done.
Qed.

Lemma from_ge s i : len s ≤ i → from i s = "".
Proof. intros. apply len_0_inv. rewrite from_len. lia. Qed.

Lemma from_from i j s : from i (from j s) = from (j + i) s.
Proof.
  revert s; induction j as [|j IH]; intros s; [done|].
  destruct s; [by destruct i|]. simpl. apply IH.
Qed.

Lemma from_S i s c r : from i s = String c r → from (S i) s = r.
Proof. intros E. replace (S i) with (i + 1) by lia. rewrite <- from_from, E. done. Qed.

Lemma upto_app p s : upto (len p) (p +:+ s) = p.
Proof. induction p; [by destruct s|]. rewrite app_cons. simpl. by f_equal. Qed.

Lemma upto_from i s : upto i s +:+ from i s = s.
Proof.
  revert s; induction i as [|i IH]; intros s; [done|].
  destruct s; [done|]. simpl. rewrite app_cons. by f_equal.
Qed.

Lemma upto_len i s : i ≤ len s → len (upto i s) = i.
Proof.
  revert s; induction i as [|i IH]; intros s Hi; [done|].
  destruct s; simpl in *; [lia|]. rewrite IH by lia. done.
Qed.

Lemma get_from i s :
  String.get i s = match from i s with String c _ => Some c | EmptyString => None end.
Proof.
  revert i; induction s as [|a s IH]; intros [|i]; try done. simpl. apply IH.
Qed.

Lemma CutPrefix_Some s p r : CutPrefix s p = Some r ↔ s = p +:+ r.
Proof.
  revert s r; induction p as [|a p IH]; intros s r; simpl.
  { rewrite app_empty_l. naive_solver. }
  destruct s as [|b s]; [done|]. rewrite app_cons.
  case_decide; [subst; rewrite IH|]; clear IH; naive_solver.
Qed.

Lemma HasPrefix_iff s p : HasPrefix s p = true ↔ ∃ r, s = p +:+ r.
Proof.
  unfold HasPrefix. destruct (CutPrefix s p) as [r|] eqn:E.
  - apply CutPrefix_Some in E. naive_solver.
  - split; [done|]. intros [r Hr]. apply CutPrefix_Some in Hr. congruence.
Qed.

Lemma HasSuffix_iff s x : HasSuffix s x = true ↔ ∃ b, s = b +:+ x.
Proof.
  unfold HasSuffix. rewrite andb_true_iff, !bool_decide_eq_true. split.
  - intros [_ E]. exists (upto (len s - len x) s). etrans; [symmetry; apply (upto_from (len s - len x))|].
    by rewrite E.
  - intros [b ->]. rewrite len_app. split; [lia|].
    replace (len b + len x - len x) with (len b) by lia. apply from_app.
Qed.

(** Of two endings of one string the shorter ends the longer. *)
Lemma app_common_suffix s1 s2 x y :
  len x ≤ len y → s1 +:+ x = s2 +:+ y → HasSuffix y x = true.
Proof.
  revert s2. induction s1 as [|c s1 IH]; intros s2 L E.
  - autorewrite with go_str in E. assert (s2 = "") as ->.
    { apply len_0_inv. apply (f_equal len) in E. rewrite len_app in E. lia. }
    autorewrite with go_str in E. subst. apply HasSuffix_iff. by exists "".
  - destruct s2 as [|d s2].
    + autorewrite with go_str in E. subst. apply HasSuffix_iff. by exists (String c s1).
    + rewrite !app_cons in E. injection E as -> E. by eapply IH.
Qed.

Lemma TrimSuffix_app b x : TrimSuffix (b +:+ x) x = b.
Proof.
  unfold TrimSuffix.
  assert (HasSuffix (b +:+ x) x = true) as -> by (apply HasSuffix_iff; eauto).
  rewrite len_app. replace (len b + len x - len x) with (len b) by lia. apply upto_app.
Qed.

(** [CutByte] at the first occurrence of the separator, and without one. *)
Lemma CutByte_app b c r : Contains b c = false → CutByte (b +:+ String c r) c = (b, r, true).
Proof.
  unfold Contains. induction b as [|a b IH]; intros Hb.
  { simpl. by rewrite decide_True. }
  rewrite app_cons. simpl in *. case_decide; [done|].
  destruct (CutByte b c) as [[x y] z]. simpl in *. by rewrite IH.
Qed.

Lemma CutByte_none s c : Contains s c = false → CutByte s c = (s, "", false).
Proof.
  unfold Contains. induction s as [|a s IH]; intros Hs; [done|].
  simpl in *. case_decide; [done|].
  destruct (CutByte s c) as [[x y] z]; simpl in *. specialize (IH Hs). by simplify_eq.
Qed.

Lemma Contains_cons a s c : Contains (String a s) c = bool_decide (a = c) || Contains s c.
Proof.
  unfold Contains. simpl. case_decide; [by rewrite bool_decide_true|].
  rewrite bool_decide_false by done. by destruct (CutByte s c) as [[]].
Qed.

Lemma Contains_app s t c : Contains (s +:+ t) c = Contains s c || Contains t c.
Proof.
  induction s as [|a s IH]; [done|].
  rewrite app_cons, !Contains_cons, IH. by rewrite orb_assoc.
Qed.

Lemma str_forall_app p s t : str_forall p (s +:+ t) = str_forall p s && str_forall p t.
Proof.
  induction s as [|a s IH]; [done|]. rewrite app_cons. simpl. rewrite IH.
  by rewrite andb_assoc.
Qed.

(** Splitting on the first separator is unambiguous. *)
Lemma app_sep_inj c b1 r1 b2 r2 :
  Contains b1 c = false → Contains b2 c = false →
  b1 +:+ String c r1 = b2 +:+ String c r2 → b1 = b2 ∧ r1 = r2.
Proof.
  intros H1 H2 E. pose proof (CutByte_app b1 c r1 H1) as E1.
  rewrite E, (CutByte_app b2 c r2 H2) in E1. by simplify_eq.
Qed.

Lemma app_sep_none c b1 r1 b2 :
  Contains b1 c = false → Contains b2 c = false → b1 +:+ String c r1 ≠ b2.
Proof.
  intros H1 H2 E. pose proof (CutByte_app b1 c r1 H1) as E1.
  rewrite E, (CutByte_none b2 c H2) in E1. done.
Qed.

(** [strings.Join] with a separator byte that occurs in no element is
    injective on non-empty lists. *)
Lemma Join_cons2 s t l sep : Join (s :: t :: l) sep = s +:+ sep +:+ Join (t :: l) sep.
Proof. done. Qed.

Lemma Join_inj c l1 l2 :
  l1 ≠ [] → l2 ≠ [] →
  Forall (λ s, Contains s c = false) l1 → Forall (λ s, Contains s c = false) l2 →
  Join l1 (String c "") = Join l2 (String c "") → l1 = l2.
Proof.
  revert l2; induction l1 as [|s1 l1 IH]; intros l2 N1 N2 F1 F2 E; [done|].
  destruct l2 as [|s2 l2]; [done|].
  apply Forall_cons_1 in F1 as [Hs1 F1]; apply Forall_cons_1 in F2 as [Hs2 F2].
  destruct l1 as [|t1 l1], l2 as [|t2 l2]; [by simpl in E; subst|..];
    rewrite ?Join_cons2 in E; autorewrite with go_str in E.
  - symmetry in E. by apply app_sep_none in E.
  - by apply app_sep_none in E.
  - apply app_sep_inj in E as [-> E]; [|done..]. f_equal. by apply IH.
Qed.

(** ** Sorting *)

Lemma sort_strings_perm l : sort_strings l ≡ₚ l.
Proof. apply merge_sort_Permutation. Qed.

Lemma sort_strings_sorted l : StronglySorted String.le (sort_strings l).
Proof. apply StronglySorted_merge_sort; apply _. Qed.

(** Sorting forgets the iteration order of the map the strings came from. *)
Lemma sort_strings_proper l k : l ≡ₚ k → sort_strings l = sort_strings k.
Proof.
  intros E. eapply (StronglySorted_unique String.le); [apply sort_strings_sorted..|].
  by rewrite !sort_strings_perm.
Qed.

#[export] Instance sort_strings_Proper : Proper ((≡ₚ) ==> (=)) sort_strings.
Proof. intros l k E. by apply sort_strings_proper. Qed.

(** ** The result monad *)

Lemma result_bind_Ok {E A B} (r : result E A) (f : A → result E B) b :
  r ≫= f = Ok b → ∃ a, r = Ok a ∧ f a = Ok b.
Proof. destruct r as [a|e]; [by exists a|done]. Qed.

Lemma result_bind_Err {E A B} (r : result E A) (f : A → result E B) e :
  r ≫= f = Err e → r = Err e ∨ ∃ a, r = Ok a ∧ f a = Err e.
Proof. destruct r as [a|e']; [right; by exists a|intros [= ->]; by left]. Qed.

(** Invert one successful bind, naming the intermediate result. *)
Ltac bind_ok H a Ha :=
  apply result_bind_Ok in H as (a & Ha & H).

(** ** [RemoveIf] *)

Lemma filter_bind {A B} (P : B → Prop) `{∀ x, Decision (P x)} (f : A → list B) l :
  filter P (l ≫= f) = l ≫= (λ x, filter P (f x)).
Proof. induction l as [|x l IH]; [done|]. by rewrite !bind_cons, filter_app, IH. Qed.

Lemma bind_sublist {A B} (f g : A → list B) l :
  (∀ x, x ∈ l → f x `sublist_of` g x) → l ≫= f `sublist_of` l ≫= g.
Proof.
  induction l as [|x l IH]; intros E; [done|]. rewrite !bind_cons.
  apply sublist_app; [apply E; by left|]. apply IH. intros y Hy. apply E. by right.
Qed.

Lemma bind_ext_in {A B} (f g : A → list B) l : (∀ x, x ∈ l → f x = g x) → l ≫= f = l ≫= g.
Proof.
  induction l as [|x l IH]; intros E; [done|]. rewrite !bind_cons, E by left. f_equal.
  apply IH. intros y Hy. apply E. by right.
Qed.

Lemma bind_nil {A B} (f : A → list B) l : (∀ x, f x = []) → l ≫= f = [].
Proof. intros E. induction l as [|x l IH]; [done|]. by rewrite bind_cons, E. Qed.

(** What is left after a [RemoveIf] contributes what each element does. *)
Lemma remove_if_bind {A B} (f : A → A * bool) (g : A → list B) l :
  remove_if f l ≫= g = l ≫= λ x, if (f x).2 then [] else g (f x).1.
Proof.
  induction l as [|x l IH]; [done|]. rewrite bind_cons, <- IH. cbn [remove_if].
  by destruct (f x) as [y []].
Qed.

Lemma remove_if_filter {A} (p : A → bool) l :
  remove_if (λ x, (x, p x)) l = filter (λ x, p x = false) l.
Proof.
  induction l as [|x l IH]; [done|]. simpl. rewrite filter_cons.
  destruct (p x); rewrite IH; [by rewrite decide_False by done|by rewrite decide_True].
Qed.

Lemma remove_if_ext {A} (f g : A → A * bool) l :
  (∀ x, x ∈ l → f x = g x) → remove_if f l = remove_if g l.
Proof.
  induction l as [|x l IH]; intros E; [done|]. simpl.
  rewrite <- (E x) by left. destruct (f x) as [? []]; rewrite IH; auto;
    intros; apply E; by right.
Qed.

Lemma elem_of_values_of {E A} (rs : list (result E A)) a :
  a ∈ values_of rs ↔ Ok a ∈ rs.
Proof.
  unfold values_of. rewrite list_elem_of_omap. split.
  - intros ([b|e] & Hin & Hb); by simplify_eq.
  - intros H. by exists (Ok a).
Qed.

(** ** Lists *)

Lemma last_fmap_snoc {A B} (f : A → B) l x : last (f <$> (l ++ [x])) = Some (f x).
Proof. rewrite fmap_app. apply last_snoc. Qed.

Lemma filter_split {A} (p : A → bool) (l : list A) :
  filter (λ x, p x = true) l ++ filter (λ x, p x = false) l ≡ₚ l.
Proof.
  induction l as [|x l IH]; [done|]. rewrite !filter_cons. destruct (p x) eqn:E; simpl.
  - by rewrite IH.
  - by rewrite <- Permutation_middle, IH.
Qed.

Lemma filter_all {A} (P : A → Prop) `{∀ x, Decision (P x)} (l : list A) : (∀ x, x ∈ l → P x) → filter P l = l.
Proof.
  induction l as [|x l IH]; intros F; [done|]. rewrite filter_cons, decide_True by (apply F; left).
  by rewrite IH by (intros; apply F; by right).
Qed.

(** Filtering first by something weaker changes nothing. *)
Lemma filter_fmap_weaker {A B} (D : B → Prop) (Q : A → Prop) `{∀ x, Decision (D x), ∀ x, Decision (Q x)}
    (g : A → B) (l : list A) :
  (∀ x, x ∈ l → D (g x) → Q x) → filter D (g <$> filter Q l) = filter D (g <$> l).
Proof.
  induction l as [|x l IH]; intros F; [done|]. rewrite fmap_cons, !filter_cons.
  specialize (IH ltac:(intros; apply F; [by right|done])). pose proof (F x ltac:(left)) as Fx.
  destruct (decide (Q x)); rewrite ?fmap_cons, ?filter_cons, IH; [done|]. by rewrite decide_False by auto.
Qed.

Lemma filter_none {A} (P : A → Prop) `{∀ x, Decision (P x)} (l : list A) :
  filter P l = [] ↔ ∀ x, x ∈ l → ¬ P x.
Proof.
  split.
  - intros E x Hin HP. by apply (filter_nil_not_elem_of P l x E HP).
  - intros F. induction l as [|x l IH]; [done|]. rewrite filter_cons, decide_False by (apply F; left).
    apply IH. intros y Hy. apply F. by right.
Qed.

(** Looking the keys of a map up in any complete order finds its entries. *)
Lemma order_entries {K V} `{Countable K} (c : gmap K V) order :
  order ≡ₚ (map_to_list c).*1 → omap (λ k, (λ e, (k, e)) <$> c !! k) order ≡ₚ map_to_list c.
Proof.
  intros P. rewrite P. clear P.
  assert (∀ l : list (K * V), (∀ p, p ∈ l → c !! p.1 = Some p.2) →
    omap (λ k, (λ e, (k, e)) <$> c !! k) l.*1 = l) as E.
  { induction l as [|[k e] l IH]; intros Hl; [done|]. simpl.
    pose proof (Hl (k, e) ltac:(left)) as Hk. simpl in Hk. rewrite Hk. simpl.
    f_equal. apply IH. intros p Hp. apply Hl. by right. }
  rewrite E; [done|]. intros [k e] Hp. by apply elem_of_map_to_list in Hp.
Qed.

(** ** Step relations *)

(** Rule induction over runs: an invariant of the steps holds along them. *)
Lemma rtc_preserves {A} (R : relation A) (I : A → Prop) :
  (∀ a b, R a b → I a → I b) → ∀ a b, rtc R a b → I a → I b.
Proof. intros H a b. induction 1 as [|a b c S _ IH]; [done|]. intros Ia. by eapply IH, H. Qed.

(** A simulation under an invariant, extended from steps to runs. *)
Lemma rtc_simulates {A B} (R : relation A) (S : relation B) (I : A → Prop) (f : A → B) :
  (∀ a b, R a b → I a → I b ∧ rtc S (f a) (f b)) → ∀ a b, rtc R a b → I a → rtc S (f a) (f b).
Proof.
  intros H a b. induction 1 as [|a b c St _ IH]; [intros _; apply rtc_refl|]. intros Ia.
  destruct (H a b St Ia) as [Ib Sab]. etrans; [exact Sab|by apply IH].
Qed.

(** A measure that every step lowers bounds the length of the runs. *)
Lemma nsteps_measure {A} (R : relation A) (I : A → Prop) (m : A → nat) :
  (∀ a b, R a b → I a → I b ∧ m b < m a) → ∀ n a b, nsteps R n a b → I a → n + m b ≤ m a.
Proof.
  intros H n a b. induction 1 as [|n a b c St _ IH]; intros Ia; [lia|].
  destruct (H a b St Ia) as [Ib L]. specialize (IH Ib). lia.
Qed.
