(* ===== verification/GoText.v ===== *)
(** The parts of Go's text libraries the agent calls: UTF-8 (package
    [unicode/utf8]), [strconv.Quote] and [strconv.Unquote], and hexadecimal
    encoding ([encoding/hex]).

    The definitions follow the library's documented algorithm byte for byte.
    The Unicode character database itself (which runes above Latin-1 are
    letters, digits or printable) is data, not code: it is the parameter
    [UnicodeTables], and every theorem holds for whatever tables are compiled
    in. The headline lemmas are [decode_encode] and [encode_decode] (UTF-8 is a
    bijection between runes and their encodings, with invalid bytes kept apart)
    and [Unquote_Quote]. *)

From S2P Require Import Prelude.

Local Open Scope Z_scope.

(** Which runes above U+00FF are letters, decimal digits, printable. *)
Class UnicodeTables := {
  table_letter : Z → bool;
  table_digit : Z → bool;
  table_print : Z → bool;
}.

Definition RuneError : Z := 0xFFFD.
Definition MaxRune : Z := 0x10FFFF.
Definition MaxLatin1 : Z := 0xFF.

Definition between (lo x hi : Z) : bool := (lo <=? x) && (x <=? hi).

(** [utf8.ValidRune]. *)
Definition ValidRune (r : Z) : bool :=
  between 0 r 0xD7FF || between 0xE000 r MaxRune.

Definition cont (z : Z) : ascii := byte_of (128 + z mod 64).

(** [utf8.AppendRune] on an empty buffer. *)
Definition EncodeRune (r : Z) : string :=
  if between 0 r 0x7F then String (byte_of r) ""
  else if between 0x80 r 0x7FF then
    String (byte_of (0xC0 + r / 64)) (String (cont r) "")
  else if negb (ValidRune r) then
    String (byte_of 0xEF) (String (byte_of 0xBF) (String (byte_of 0xBD) ""))
  else if r <=? 0xFFFF then
    String (byte_of (0xE0 + r / 4096)) (String (cont (r / 64)) (String (cont r) ""))
  else
    String (byte_of (0xF0 + r / 262144))
      (String (cont (r / 4096)) (String (cont (r / 64)) (String (cont r) ""))).

Definition is_cont (z : Z) : bool := between 0x80 z 0xBF.

(** The range the second byte of a multi-byte sequence must lie in, by first
    byte (the [acceptRanges] table of [unicode/utf8]). *)
Definition accept2 (b0 b1 : Z) : bool :=
  if b0 =? 0xE0 then between 0xA0 b1 0xBF
  else if b0 =? 0xED then between 0x80 b1 0x9F
  else if b0 =? 0xF0 then between 0x90 b1 0xBF
  else if b0 =? 0xF4 then between 0x80 b1 0x8F
  else is_cont b1.

(** [utf8.DecodeRuneInString]: the rune, its width in bytes, and the rest of
    the string. An invalid or truncated sequence is [RuneError] of width 1; the
    empty string has width 0. *)
Definition DecodeRune (s : string) : Z * nat * string :=
  match s with
  | "" => (RuneError, 0%nat, "")
  | String c0 s1 =>
      let b0 := code c0 in
      let bad := (RuneError, 1%nat, s1) in
      if b0 <? 0x80 then (b0, 1%nat, s1)
      else if between 0xC2 b0 0xDF then
        match s1 with
        | String c1 s2 =>
            if is_cont (code c1)
            then ((b0 - 0xC0) * 64 + (code c1 - 128), 2%nat, s2) else bad
        | _ => bad
        end
      else if between 0xE0 b0 0xEF then
        match s1 with
        | String c1 (String c2 s3) =>
            if accept2 b0 (code c1) && is_cont (code c2)
            then ((b0 - 0xE0) * 4096 + (code c1 - 128) * 64 + (code c2 - 128), 3%nat, s3)
            else bad
        | _ => bad
        end
      else if between 0xF0 b0 0xF4 then
        match s1 with
        | String c1 (String c2 (String c3 s4)) =>
            if accept2 b0 (code c1) && is_cont (code c2) && is_cont (code c3)
            then ((b0 - 0xF0) * 262144 + (code c1 - 128) * 4096
                  + (code c2 - 128) * 64 + (code c3 - 128), 4%nat, s4)
            else bad
        | _ => bad
        end
      else bad
  end.

(** [for _, r := range s]: the runes of a string, invalid bytes as
    [RuneError]. Every step consumes at least one byte, so [len s] steps are
    enough. *)
Fixpoint runes_go (n : nat) (s : string) : list Z :=
  match n, s with
  | S n, String _ _ => let '(r, _, rest) := DecodeRune s in r :: runes_go n rest
  | _, _ => []
  end.

Definition runes (s : string) : list Z := runes_go (len s) s.

(** [strings.Map]: every rune replaced by the mapping's value, re-encoded. *)
Definition map_runes (f : Z → Z) (s : string) : string :=
  foldr (λ r acc, EncodeRune (f r) +:+ acc) "" (runes s).

(** [unicode.IsLetter], [unicode.IsDigit] and [strconv.IsPrint]: Latin-1 from
    the library's property table, the rest from the Unicode tables. *)
Definition IsLetter `{UnicodeTables} (r : Z) : bool :=
  if between 0 r MaxLatin1 then
    between 65 r 90 || between 97 r 122 || (r =? 0xAA) || (r =? 0xB5) || (r =? 0xBA)
    || between 0xC0 r 0xD6 || between 0xD8 r 0xF6 || between 0xF8 r 0xFF
  else table_letter r.

Definition IsDigit `{UnicodeTables} (r : Z) : bool :=
  if between 0 r MaxLatin1 then between 48 r 57 else table_digit r.

Definition IsPrint `{UnicodeTables} (r : Z) : bool :=
  if between 0 r MaxLatin1
  then between 0x20 r 0x7E || (between 0xA1 r 0xFF && negb (r =? 0xAD))
  else table_print r.

(** [unicode.IsSpace]: the White_Space property, complete. *)
Definition IsSpace (r : Z) : bool :=
  between 9 r 13 || (r =? 0x20) || (r =? 0x85) || (r =? 0xA0) || (r =? 0x1680)
  || between 0x2000 r 0x200A || (r =? 0x2028) || (r =? 0x2029) || (r =? 0x202F)
  || (r =? 0x205F) || (r =? 0x3000).

(** [strings.TrimSpace(s) == ``]: every rune is white space. *)
Definition blank (s : string) : bool := forallb IsSpace (runes s).

(** ** Hexadecimal digits *)

Definition lowerhex (z : Z) : ascii :=
  let d := z mod 16 in byte_of (if d <? 10 then 48 + d else 87 + d).

(** [unhex] accepts both cases. *)
Definition unhex (c : ascii) : option Z :=
  let b := code c in
  if between 48 b 57 then Some (b - 48)
  else if between 97 b 102 then Some (b - 87)
  else if between 65 b 70 then Some (b - 55)
  else None.

(** [n] hexadecimal digits of [z], most significant first. *)
Fixpoint hex_digits (n : nat) (z : Z) : string :=
  match n with
  | O => ""
  | S n => hex_digits n (z / 16) +:+ String (lowerhex z) ""
  end.

(** Read exactly [n] hexadecimal digits. *)
Fixpoint read_hex (n : nat) (acc : Z) (s : string) : option (Z * string) :=
  match n with
  | O => Some (acc, s)
  | S n => match s with
           | String c s' => d ← unhex c; read_hex n (acc * 16 + d) s'
           | "" => None
           end
  end.

(** [hex.EncodeToString] and [hex.DecodeString] (which fails on an odd length
    or a byte that is no hexadecimal digit). *)
Fixpoint hex_encode (l : list ascii) : string :=
  match l with
  | [] => ""
  | b :: l => String (lowerhex (code b / 16)) (String (lowerhex (code b)) (hex_encode l))
  end.

Fixpoint hex_decode (s : string) : option (list ascii) :=
  match s with
  | "" => Some []
  | String a (String b s) =>
      h ← unhex a; l ← unhex b; r ← hex_decode s; Some (byte_of (h * 16 + l) :: r)
  | String _ "" => None
  end.

(** ** [strconv.Quote] *)

Definition dquote : ascii := "034"%char.
Definition bslash : ascii := "\"%char.
Definition backquote : ascii := "`"%char.
Definition newline : ascii := "010"%char.

Definition escaped (c : ascii) : string := String bslash (String c "").

Definition appendEscapedRune `{UnicodeTables} (r : Z) : string :=
  if (r =? code dquote) || (r =? code bslash) then escaped (byte_of r)
  else if IsPrint r then EncodeRune r
  else if r =? 7 then escaped "a"
  else if r =? 8 then escaped "b"
  else if r =? 12 then escaped "f"
  else if r =? 10 then escaped "n"
  else if r =? 13 then escaped "r"
  else if r =? 9 then escaped "t"
  else if r =? 11 then escaped "v"
  else if (r <? 32) || (r =? 0x7F) then escaped "x" +:+ hex_digits 2 r
  else
    let r := if ValidRune r then r else RuneError in
    if r <? 0x10000 then escaped "u" +:+ hex_digits 4 r
    else escaped "U" +:+ hex_digits 8 r.

Fixpoint quote_body `{UnicodeTables} (n : nat) (s : string) : string :=
  match n, s with
  | S n, String c _ =>
      let '(r, width, rest) := DecodeRune s in
      (if bool_decide (width = 1%nat) && (r =? RuneError)
       then escaped "x" +:+ hex_digits 2 (code c)
       else appendEscapedRune r) +:+ quote_body n rest
  | _, _ => ""
  end.

Definition Quote `{UnicodeTables} (s : string) : string :=
  String dquote (quote_body (len s) s +:+ String dquote "").

#[global] Arguments Quote : simpl never.
#[global] Arguments EncodeRune : simpl never.
#[global] Arguments DecodeRune : simpl never.

(** ** [strconv.Unquote] *)

(** The one-letter escapes valid inside double quotes. *)
Definition simple_escape (e : ascii) : option Z :=
  match e with
  | "a"%char => Some 7 | "b"%char => Some 8 | "f"%char => Some 12
  | "n"%char => Some 10 | "r"%char => Some 13 | "t"%char => Some 9
  | "v"%char => Some 11 | "\"%char => Some 92 | "034"%char => Some 34
  | _ => None
  end.

Definition octal (c : ascii) : option Z :=
  if between 48 (code c) 55 then Some (code c - 48) else None.

(** A Unicode escape of [n] digits; the value is accumulated in a [rune], an
    [int32]. *)
Definition read_rune (n : nat) (t : string) : option (string * string) :=
  '(v, t') ← read_hex n 0 t;
  let v := int32 v in
  if ValidRune v then Some (EncodeRune v, t') else None.

(** [strconv.UnquoteChar] for the double quote: the bytes the next character
    stands for and the rest of the input; [None] is [ErrSyntax]. *)
Definition UnquoteChar (s : string) : option (string * string) :=
  match s with
  | "" => None
  | String c s1 =>
      if decide (c = dquote) then None
      else if 0x80 <=? code c then
        let '(r, _, rest) := DecodeRune s in Some (EncodeRune r, rest)
      else if decide (c ≠ bslash) then Some (String c "", s1)
      else match s1 with
      | "" => None
      | String e t =>
          match simple_escape e with
          | Some z => Some (String (byte_of z) "", t)
          | None =>
              if decide (e = "x"%char) then
                '(v, t') ← read_hex 2 0 t; Some (String (byte_of v) "", t')
              else if decide (e = "u"%char) then read_rune 4 t
              else if decide (e = "U"%char) then read_rune 8 t
              else match t with
              | String o2 (String o3 t') =>
                  a ← octal e; b ← octal o2; d ← octal o3;
                  let v := a * 64 + b * 8 + d in
                  if 255 <? v then None else Some (String (byte_of v) "", t')
              | _ => None
              end
          end
      end
  end.

(** The loop of [strconv.Unquote] on a double-quoted literal, after the opening
    quote: the decoded text and what follows the closing quote. *)
Fixpoint unquote_loop (n : nat) (s : string) : option (string * string) :=
  match n, s with
  | S n, String c rest =>
      if decide (c = dquote) then Some ("", rest)
      else if decide (c = newline) then None
      else '(b, s') ← UnquoteChar s; '(out, rem) ← unquote_loop n s'; Some (b +:+ out, rem)
  | _, _ => None
  end.

(** Raw literals discard carriage returns. *)
Fixpoint drop_cr (s : string) : string :=
  match s with
  | "" => ""
  | String c s => if decide (c = "013"%char) then drop_cr s else String c (drop_cr s)
  end.

(** [strconv.Unquote] of a double-quoted or back-quoted literal. *)
Definition Unquote (s : string) : option string :=
  match s with
  | String c s1 =>
      if decide (c = backquote) then
        let '(body, rem, ok) := CutByte s1 backquote in
        if ok && bool_decide (rem = "") then Some (drop_cr body) else None
      else if decide (c = dquote) then
        '(out, rem) ← unquote_loop (len s1) s1; if decide (rem = "") then Some out else None
      else None
  | "" => None
  end.

(** ** UTF-8 lemmas *)

Ltac div_mod := Z.to_euclidean_division_equations; lia.

Ltac zbool :=
  repeat match goal with
  | |- context [ if ?b then _ else _ ] =>
      first [ assert (b = true) as -> by (unfold is_cont, accept2, between, ValidRune, MaxRune in *; lia)
            | assert (b = false) as -> by (unfold is_cont, accept2, between, ValidRune, MaxRune in *; lia) ]
  end.

Lemma code_cont z : code (cont z) = 128 + z mod 64.
Proof. unfold cont. apply code_byte_of. div_mod. Qed.

Lemma accept2_cont b0 b1 : accept2 b0 b1 = true → is_cont b1 = true.
Proof. unfold accept2, is_cont, between. repeat case_match; lia. Qed.

(** Decoding an encoded rune gives it back. *)
Lemma decode_encode r s :
  ValidRune r = true → DecodeRune (EncodeRune r +:+ s) = (r, len (EncodeRune r), s).
Proof.
  intros V. unfold EncodeRune. rewrite V. simpl negb.
  destruct (between 0 r 0x7F) eqn:E1; [|destruct (between 0x80 r 0x7FF) eqn:E2;
    [|destruct (r <=? 0xFFFF) eqn:E3]]; autorewrite with go_str; unfold DecodeRune;
    unfold ValidRune, between, MaxRune in *; rewrite ?code_cont, ?code_byte_of by div_mod.
  - zbool. done.
  - assert (0xC2 <= 0xC0 + r / 64 <= 0xDF) by div_mod.
    assert (0 <= r mod 64 < 64) by div_mod. zbool. repeat f_equal. div_mod.
  - assert (0xE0 <= 0xE0 + r / 4096 <= 0xEF) by div_mod.
    assert (0 <= r mod 64 < 64) by div_mod. assert (0 <= r / 64 mod 64 < 64) by div_mod.
    assert (accept2 (0xE0 + r / 4096) (128 + r / 64 mod 64) && is_cont (128 + r mod 64) = true) as ->.
    { apply andb_true_iff; split; [|unfold is_cont, between; lia].
      unfold accept2, is_cont, between. repeat case_match; div_mod. }
    zbool. repeat f_equal. div_mod.
  - assert (0xF0 <= 0xF0 + r / 262144 <= 0xF4) by div_mod.
    assert (0 <= r mod 64 < 64) by div_mod. assert (0 <= r / 64 mod 64 < 64) by div_mod.
    assert (0 <= r / 4096 mod 64 < 64) by div_mod.
    assert (accept2 (0xF0 + r / 262144) (128 + r / 4096 mod 64)
      && is_cont (128 + r / 64 mod 64) && is_cont (128 + r mod 64) = true) as ->.
    { rewrite !andb_true_iff; split_and!; [|unfold is_cont, between; lia..].
      unfold accept2, is_cont, between. repeat case_match; div_mod. }
    zbool. repeat f_equal. div_mod.
Qed.

(** The three multi-byte shapes of a valid encoding. *)
Lemma encode2 c0 c1 :
  between 0xC2 (code c0) 0xDF = true → is_cont (code c1) = true →
  let r := (code c0 - 0xC0) * 64 + (code c1 - 128) in
  ValidRune r = true ∧ EncodeRune r = String c0 (String c1 "").
Proof.
  intros H0 H1 r. unfold is_cont, between in *.
  assert (ValidRune r = true) by (unfold ValidRune, between, MaxRune; subst r; lia).
  split; [done|]. unfold EncodeRune, between, cont. zbool.
  rewrite <- (byte_of_code c0), <- (byte_of_code c1).
  repeat f_equal; subst r; div_mod.
Qed.

Lemma encode3 c0 c1 c2 :
  between 0xE0 (code c0) 0xEF = true → accept2 (code c0) (code c1) = true →
  is_cont (code c2) = true →
  let r := (code c0 - 0xE0) * 4096 + (code c1 - 128) * 64 + (code c2 - 128) in
  ValidRune r = true ∧ EncodeRune r = String c0 (String c1 (String c2 "")).
Proof.
  intros H0 H1 H2 r. pose proof (accept2_cont _ _ H1) as H1'.
  unfold accept2, is_cont, between in *.
  assert (0x800 <= r <= 0xFFFF /\ ValidRune r = true) as [B V].
  { unfold ValidRune, between, MaxRune; subst r. repeat case_match; lia. }
  split; [done|]. unfold EncodeRune, cont. rewrite V. unfold between. zbool.
  rewrite <- (byte_of_code c0), <- (byte_of_code c1), <- (byte_of_code c2).
  clear H1. repeat f_equal; subst r; div_mod.
Qed.

Lemma encode4 c0 c1 c2 c3 :
  between 0xF0 (code c0) 0xF4 = true → accept2 (code c0) (code c1) = true →
  is_cont (code c2) = true → is_cont (code c3) = true →
  let r := (code c0 - 0xF0) * 262144 + (code c1 - 128) * 4096
           + (code c2 - 128) * 64 + (code c3 - 128) in
  ValidRune r = true ∧ EncodeRune r = String c0 (String c1 (String c2 (String c3 ""))).
Proof.
  intros H0 H1 H2 H3 r. pose proof (accept2_cont _ _ H1) as H1'.
  unfold accept2, is_cont, between in *.
  assert (0x10000 <= r <= MaxRune /\ ValidRune r = true) as [B V].
  { unfold ValidRune, between, MaxRune; subst r. repeat case_match; lia. }
  split; [done|]. unfold EncodeRune, cont. rewrite V. unfold between, MaxRune in *. zbool.
  rewrite <- (byte_of_code c0), <- (byte_of_code c1), <- (byte_of_code c2), <- (byte_of_code c3).
  clear H1. repeat f_equal; subst r; div_mod.
Qed.

(** A non-empty string either starts with an invalid byte, or with the
    encoding of the rune that is decoded from it. *)
Definition decode_ok (s : string) (r : Z) (w : nat) (rest : string) : Prop :=
  (w = 1%nat ∧ r = RuneError ∧ ∃ c, s = String c rest ∧ 128 <= code c) ∨
  (ValidRune r = true ∧ s = EncodeRune r +:+ rest ∧ (w = 1%nat → r ≠ RuneError)).

Lemma decode_ok_intro s r w e rest :
  (ValidRune r = true ∧ EncodeRune r = e) → s = e +:+ rest → w ≠ 1%nat → decode_ok s r w rest.
Proof. intros [V <-] -> Hw. right. done. Qed.

Lemma encode_decode s r w rest : s ≠ "" → DecodeRune s = (r, w, rest) → decode_ok s r w rest.
Proof.
  intros Hs. destruct s as [|c0 s1]; [done|]. unfold DecodeRune.
  assert (∀ c (s : string), 128 <= code c → decode_ok (String c s) RuneError 1 s) as Hbad.
  { intros. left. eauto. }
  destruct (code c0 <? 0x80) eqn:E0; [intros [= <- <- <-]|].
  { right. pose proof (code_range c0). unfold ValidRune, EncodeRune, between. zbool.
    rewrite byte_of_code. split_and!; [lia|done|unfold RuneError; lia]. }
  destruct (between 0xC2 (code c0) 0xDF) eqn:E1;
    [|destruct (between 0xE0 (code c0) 0xEF) eqn:E2;
      [|destruct (between 0xF0 (code c0) 0xF4) eqn:E3]];
    intros H; repeat case_match; simplify_eq; try (apply Hbad; lia);
    repeat match goal with X : _ && _ = true |- _ => apply andb_true_iff in X as [? ?] end.
  - eapply decode_ok_intro; [apply encode2| |]; done.
  - eapply decode_ok_intro; [apply encode3| |]; done.
  - eapply decode_ok_intro; [apply encode4| |]; done.
Qed.

Lemma EncodeRune_nonempty r : EncodeRune r ≠ "".
Proof. unfold EncodeRune. repeat case_match; done. Qed.

Lemma DecodeRune_shorter c s r w rest :
  DecodeRune (String c s) = (r, w, rest) → (len rest ≤ len s)%nat.
Proof.
  intros D. cut (len rest < len (String c s))%nat; [simpl; lia|]. revert D.
  intros [(_ & _ & d & -> & _)|(_ & -> & _)]%encode_decode; [simpl; lia| |done].
  rewrite len_app. assert (len (EncodeRune r) ≠ 0%nat); [|lia].
  intros H%len_0_inv. by apply EncodeRune_nonempty in H.
Qed.

(** ** Hexadecimal lemmas *)

Lemma unhex_lowerhex z : unhex (lowerhex z) = Some (z mod 16).
Proof.
  unfold lowerhex, unhex. assert (0 <= z mod 16 < 16) by div_mod.
  destruct (z mod 16 <? 10) eqn:E; rewrite code_byte_of by lia;
    unfold between; zbool; f_equal; lia.
Qed.

Lemma read_hex_snoc n acc s v c t :
  read_hex n acc s = Some (v, String c t) →
  read_hex (S n) acc s = (d ← unhex c; Some (v * 16 + d, t)).
Proof.
  revert acc s; induction n as [|n IH]; intros acc s; [by intros [= -> ->]|].
  change (read_hex (S n) acc s) with (match s with
    | String c s' => d ← unhex c; read_hex n (acc * 16 + d) s' | "" => None end).
  destruct s as [|a s]; [done|]. intros H. simpl read_hex at 1.
  destruct (unhex a) as [d|]; [|done]. simpl in H |- *. rewrite <- (IH _ _ H). done.
Qed.

Lemma read_hex_digits n z acc t :
  read_hex n acc (hex_digits n z +:+ t) = Some (acc * 16 ^ Z.of_nat n + z mod 16 ^ Z.of_nat n, t).
Proof.
  revert z acc t; induction n as [|n IH]; intros z acc t.
  { simpl. rewrite Z.mod_1_r. repeat f_equal. lia. }
  cbn [hex_digits]. autorewrite with go_str.
  erewrite read_hex_snoc by apply IH. rewrite unhex_lowerhex. simpl. do 2 f_equal.
  rewrite Nat2Z.inj_succ, Z.pow_succ_r, (Z.rem_mul_r z 16) by (try apply Z.pow_nonzero; lia).
  lia.
Qed.

Lemma len_hex_digits n z : len (hex_digits n z) = n.
Proof. revert z; induction n; intros; [done|]. cbn [hex_digits]. rewrite len_app, IHn. simpl. lia. Qed.

(** [hex.DecodeString] inverts [hex.EncodeToString]. *)
Lemma hex_decode_encode l : hex_decode (hex_encode l) = Some l.
Proof.
  induction l as [|b l IH]; [done|]. simpl. rewrite !unhex_lowerhex. simpl. rewrite IH. simpl.
  do 2 f_equal. pose proof (code_range b).
  replace (code b / 16 mod 16 * 16 + code b mod 16) with (code b) by div_mod.
  apply byte_of_code.
Qed.

(** ** [Unquote] inverts [Quote] *)

(** What the quoting of one rune must satisfy: it is read back whole, and its
    first byte is neither the closing quote nor a newline. *)
Definition unquotes_to (chunk b : string) : Prop :=
  (len b ≤ len chunk)%nat ∧
  ∀ t, ∃ c k, chunk +:+ t = String c k ∧ c ≠ dquote ∧ c ≠ newline ∧
              UnquoteChar (chunk +:+ t) = Some (b, t).

Lemma unquotes_escape e b (f : string → option (string * string)) :
  (∀ t, UnquoteChar (String bslash (String e t)) = f t) →
  ∀ body, (len b ≤ 2 + len body)%nat → (∀ t, f (body +:+ t) = Some (b, t)) →
  unquotes_to (escaped e +:+ body) b.
Proof.
  intros Hf body Hl Hb. split; [by rewrite len_app|]. intros t. unfold escaped. autorewrite with go_str.
  eexists _, _. split_and!; [done|done..|]. by rewrite Hf, Hb.
Qed.

Lemma unquotes_simple e z :
  simple_escape e = Some z → unquotes_to (escaped e) (String (byte_of z) "").
Proof.
  intros He. rewrite <- (app_empty_r (escaped e)).
  apply (unquotes_escape e _ (λ t, Some (String (byte_of z) "", t))); [|simpl; lia|done].
  intros t. simpl. by rewrite He.
Qed.

Lemma unquotes_hex z :
  0 <= z < 256 → unquotes_to (escaped "x" +:+ hex_digits 2 z) (String (byte_of z) "").
Proof.
  intros Hz.
  apply (unquotes_escape _ _ (λ t, '(v, t') ← read_hex 2 0 t; Some (String (byte_of v) "", t')));
    [done|simpl; lia|]. intros t. rewrite read_hex_digits. simpl. repeat f_equal.
  change (16 ^ Z.of_nat 2) with 256. rewrite Z.mod_small; lia.
Qed.

Lemma EncodeRune_len r : (len (EncodeRune r) ≤ 4)%nat.
Proof. unfold EncodeRune. repeat case_match; simpl; lia. Qed.

Lemma unquotes_rune e n r :
  (∀ t, UnquoteChar (String bslash (String e t)) = read_rune n t) → (2 ≤ n)%nat →
  ValidRune r = true → 0 <= r < 16 ^ Z.of_nat n →
  unquotes_to (escaped e +:+ hex_digits n r) (EncodeRune r).
Proof.
  intros He Hn V B. apply (unquotes_escape _ _ (read_rune n)); [done|rewrite len_hex_digits; pose proof (EncodeRune_len r); lia|].
  intros t. unfold read_rune. rewrite read_hex_digits.
  rewrite Z.mod_small by done. rewrite Z.mul_0_l, Z.add_0_l. simpl.
  assert (int32 r = r) as ->.
  { apply wrap_s_id; [lia|]. unfold ValidRune, between, MaxRune in V. lia. }
  by rewrite V.
Qed.

Lemma EncodeRune_ascii r : 0 <= r < 0x80 → EncodeRune r = String (byte_of r) "".
Proof. intros. unfold EncodeRune, between. zbool. done. Qed.

Lemma EncodeRune_high r :
  ValidRune r = true → 0x80 <= r → ∃ c k, EncodeRune r = String c k ∧ 128 <= code c.
Proof.
  intros V Hr. unfold EncodeRune. rewrite V. unfold ValidRune, between, MaxRune in V. simpl negb.
  unfold between. assert ((0 <=? r) && (r <=? 127) = false) as -> by lia.
  repeat case_match; eexists _, _; (split; [done|]); rewrite code_byte_of by div_mod; div_mod.
Qed.

Lemma unquotes_plain r :
  ValidRune r = true → 0x20 <= r → r ≠ code dquote → r ≠ code bslash →
  unquotes_to (EncodeRune r) (EncodeRune r).
Proof.
  intros V Hr Hq Hb. split; [done|]. intros t. destruct (decide (r < 0x80)) as [L|L].
  - rewrite EncodeRune_ascii by lia. autorewrite with go_str.
    assert (∀ c, r ≠ code c → byte_of r ≠ c) as N.
    { intros c Hc E. apply Hc. rewrite <- E, code_byte_of; lia. }
    eexists _, _. split_and!; [done|by apply N|apply N; change (code newline) with 10; lia|].
    simpl. rewrite decide_False by by apply N. rewrite code_byte_of by lia. zbool.
    by rewrite decide_True by by apply N.
  - destruct (EncodeRune_high r) as (c & k & E & Hc); [done|lia|].
    assert (∀ d, code d < 128 → c ≠ d) as N by (intros d Hd ->; lia).
    exists c, (k +:+ t). rewrite E. autorewrite with go_str.
    split_and!; [done|by apply N|by apply N|].
    unfold UnquoteChar. rewrite decide_False by by apply N. zbool.
    rewrite <- app_cons, <- E, decode_encode by done. done.
Qed.

Lemma unquotes_EscapedRune `{UnicodeTables} r :
  ValidRune r = true → unquotes_to (appendEscapedRune r) (EncodeRune r).
Proof.
  intros V. assert (0 <= r <= MaxRune) as B by (unfold ValidRune, between, MaxRune in *; lia).
  unfold MaxRune in B.
  assert (∀ e z, simple_escape e = Some z → 0 <= z < 128 → r = z →
    unquotes_to (escaped e) (EncodeRune r)) as Hsimple.
  { intros e z He Hz ->. rewrite EncodeRune_ascii by lia. by apply unquotes_simple. }
  unfold appendEscapedRune.
  destruct (r =? code dquote) eqn:E1; [|destruct (r =? code bslash) eqn:E2]; simpl orb; cbv iota.
  1,2: apply Z.eqb_eq in E1 || apply Z.eqb_eq in E2; subst r;
    rewrite byte_of_code; (eapply Hsimple; [reflexivity|vm_compute; split; done|done]).
  destruct (IsPrint r) eqn:P.
  { apply unquotes_plain; [done| |lia..]. revert P. unfold IsPrint, between, MaxLatin1.
    case_match; lia. }
  repeat match goal with |- context [if r =? ?z then _ else _] =>
    let E := fresh in destruct (r =? z) eqn:E;
    [apply Z.eqb_eq in E; eapply Hsimple; [reflexivity|vm_compute; split; done|done]|] end.
  destruct ((r <? 32) || (r =? 0x7F)) eqn:E3.
  { rewrite EncodeRune_ascii by lia. apply unquotes_hex. lia. }
  rewrite V. destruct (r <? 0x10000) eqn:E4.
  - by apply unquotes_rune; [|lia| |change (16 ^ Z.of_nat 4) with 65536; lia].
  - by apply unquotes_rune; [|lia| |change (16 ^ Z.of_nat 8) with 4294967296; lia].
Qed.

Lemma unquote_loop_chunk n chunk b t :
  unquotes_to chunk b →
  unquote_loop (S n) (chunk +:+ t) =
    ('(out, rem) ← unquote_loop n t; Some (b +:+ out, rem)).
Proof.
  intros [_ Hc]. destruct (Hc t) as (c & k & E & Hq & Hn & U). rewrite E. cbn [unquote_loop].
  rewrite !decide_False by done. rewrite <- E, U. done.
Qed.

(** The piece of output one step of the quoting loop emits. *)
Lemma quote_chunk `{UnicodeTables} c s r w rest :
  DecodeRune (String c s) = (r, w, rest) →
  ∃ b, String c s = b +:+ rest ∧
    unquotes_to (if bool_decide (w = 1%nat) && (r =? RuneError)
      then escaped "x" +:+ hex_digits 2 (code c) else appendEscapedRune r) b.
Proof.
  intros [(-> & -> & d & [= -> ->] & _)|(V & E & Hw)]%encode_decode; [..|done].
  - exists (String d ""). split; [done|]. rewrite bool_decide_true, Z.eqb_refl by done.
    pose proof (unquotes_hex (code d) (code_range d)) as U. by rewrite byte_of_code in U.
  - exists (EncodeRune r). split; [done|].
    assert (bool_decide (w = 1%nat) && (r =? RuneError) = false) as ->.
    { apply andb_false_iff. destruct (decide (w = 1%nat)).
      - right. apply Z.eqb_neq. auto.
      - left. by apply bool_decide_eq_false. }
    by apply unquotes_EscapedRune.
Qed.

Lemma unquote_quote_body `{UnicodeTables} n s t m :
  (len s ≤ n)%nat → (len s < m)%nat →
  unquote_loop m (quote_body n s +:+ String dquote t) = Some (s, t).
Proof.
  assert (∀ k m, unquote_loop (S m) (quote_body k "" +:+ String dquote t) = Some ("", t)) as Hend.
  { intros [] k; reflexivity. }
  revert s m; induction n as [|n IH]; intros s m Hn Hm.
  { assert (s = "") as -> by (apply len_0_inv; lia). destruct m; [lia|].
    by rewrite Hend. }
  destruct s as [|c s]; [destruct m; [simpl in *; lia|]; by rewrite Hend|].
  destruct m as [|m]; [lia|]. cbn [quote_body].
  destruct (DecodeRune (String c s)) as [[r w] rest] eqn:D.
  pose proof (DecodeRune_shorter _ _ _ _ _ D) as Hlen.
  rewrite app_assoc_str.
  destruct (quote_chunk _ _ _ _ _ D) as (b & Hb & Hu).
  rewrite (unquote_loop_chunk _ _ _ _ Hu), IH; [|simpl in *; lia..]. simpl. by rewrite Hb.
Qed.


Lemma quote_body_len `{UnicodeTables} n s : (len s ≤ n)%nat → (len s ≤ len (quote_body n s))%nat.
Proof.
  revert s; induction n as [|n IH]; intros s Hn; [lia|].
  destruct s as [|c s]; [simpl; lia|]. cbn [quote_body].
  destruct (DecodeRune (String c s)) as [[r w] rest] eqn:D.
  pose proof (DecodeRune_shorter _ _ _ _ _ D) as Hlen.
  destruct (quote_chunk _ _ _ _ _ D) as (b & Hb & [Hl _]).
  rewrite Hb, !len_app. specialize (IH rest). simpl in *. lia.
Qed.

Lemma Unquote_Quote_eq `{UnicodeTables} s : Unquote (Quote s) = Some s.
Proof.
  unfold Quote, Unquote. rewrite decide_False by done. rewrite decide_True by done.
  rewrite unquote_quote_body; [done|lia|].
  rewrite len_app. pose proof (quote_body_len (len s) s). simpl. lia.
Qed.

(** Tables for a build restricted to Latin-1 text, for concrete evaluations. *)
Definition latin1_tables : UnicodeTables :=
  {| table_letter _ := false; table_digit _ := false; table_print _ := false |}.
