(* ===== verification/GoStrings.v ===== *)
(** The parts of Go's packages [strings], [strconv], [unicode/utf8] and
    [net/url] that several components call, over the runes of [GoText]:
    [TrimSpace], [ReplaceAll], [ValidString], [Itoa] and [QueryEscape].

    The lemmas bound the results: trimming never lengthens a string and
    replacing a text that does not occur changes nothing. *)

From stdpp Require Import pretty.
From S2P Require Import Prelude GoText.

(** ** Runes *)

(** The string cut into its runes, each with the bytes it was decoded from. *)
Fixpoint rune_chunks (n : nat) (s : string) : list (Z * string) :=
  match n, s with
  | S n, String _ _ => let '(r, w, rest) := DecodeRune s in (r, upto w s) :: rune_chunks n rest
  | _, _ => []
  end.

Definition chunks (s : string) : list (Z * string) := rune_chunks (len s) s.

(** An invalid byte decodes to [RuneError] of width one. *)
Definition bad_chunk (c : Z * string) : bool := bool_decide (c.1 = RuneError) && bool_decide (len c.2 = 1).

(** [utf8.ValidString]. *)
Definition ValidString (s : string) : bool := forallb (λ c, negb (bad_chunk c)) (chunks s).

Fixpoint drop_spaces (l : list (Z * string)) : list (Z * string) :=
  match l with
  | (r, c) :: l' => if IsSpace r then drop_spaces l' else l
  | [] => []
  end.

Definition glue (l : list (Z * string)) : string := Join (snd <$> l) "".

(** [strings.TrimSpace]. *)
Definition TrimSpace (s : string) : string := glue (rev (drop_spaces (rev (drop_spaces (chunks s))))).

(** ** Replacement *)

(** The left-to-right scan for a non-empty [old]; every round consumes at least
    one byte. *)
Fixpoint replace_go (n : nat) (s old new : string) : string :=
  match n, s with
  | S n, String c s' =>
      match CutPrefix s old with
      | Some rest => new +:+ replace_go n rest old new
      | None => String c (replace_go n s' old new)
      end
  | _, _ => s
  end.

(** [strings.ReplaceAll]: the empty string matches before every rune and at the
    end. *)
Definition ReplaceAll (s old new : string) : string :=
  if decide (old = "") then new +:+ foldr (λ c acc, c.2 +:+ new +:+ acc) "" (chunks s)
  else replace_go (len s) s old new.

(** [strings.Contains]. *)
Fixpoint occurs (old s : string) : bool :=
  HasPrefix s old || match s with "" => false | String _ s => occurs old s end.

(** ** Numbers and URLs *)

(** [strconv.Itoa], and [%d] of the format verbs. *)
Definition Itoa (z : Z) : string := pretty z.

Definition unreserved (c : ascii) : bool :=
  let z := code c in
  between 48 z 57 || between 65 z 90 || between 97 z 122 ||
  bool_decide (c ∈ ["-"; "_"; "."; "~"]%char).

Definition upperhex (z : Z) : ascii := byte_of (if (z <? 10)%Z then 48 + z else 55 + z).

(** [url.QueryEscape]. *)
Fixpoint QueryEscape (s : string) : string :=
  match s with
  | "" => ""
  | String c s =>
      (if unreserved c then String c ""
       else if decide (c = " "%char) then "+"
       else String "%" (String (upperhex (code c / 16)) (String (upperhex (code c mod 16)) "")))
      +:+ QueryEscape s
  end.

(** ** Lemmas *)

Lemma DecodeRune_split s r w rest : DecodeRune s = (r, w, rest) → upto w s +:+ rest = s.
Proof.
  destruct s as [|c0 s1]; [by intros [= <- <- <-]|]. unfold DecodeRune.
  repeat (case_match; try (intros [= <- <- <-]; reflexivity)).
Qed.

Lemma glue_cons c l : glue (c :: l) = c.2 +:+ glue l.
Proof. unfold glue. rewrite fmap_cons. destruct l; simpl; [by rewrite app_empty_r|done]. Qed.

Lemma glue_app l k : glue (l ++ k) = glue l +:+ glue k.
Proof.
  induction l as [|c l IH]; [done|]. rewrite <- app_comm_cons, !glue_cons, IH. by rewrite app_assoc_str.
Qed.

Lemma glue_rune_chunks n s : len s ≤ n → glue (rune_chunks n s) = s.
Proof.
  revert s. induction n as [|n IH]; intros s L; [by destruct s; simpl in L; [|lia]|].
  destruct s as [|c s]; [done|]. cbn [rune_chunks]. destruct (DecodeRune (String c s)) as [[r w] rest] eqn:D.
  rewrite glue_cons. cbn [snd]. rewrite IH.
  - by apply DecodeRune_split in D.
  - apply DecodeRune_shorter in D. simpl in L. lia.
Qed.

Lemma glue_chunks s : glue (chunks s) = s.
Proof. by apply glue_rune_chunks. Qed.

Lemma drop_spaces_suffix l : ∃ k, l = k ++ drop_spaces l.
Proof.
  induction l as [|[r c] l [k IH]]; [by exists []|]. simpl. destruct (IsSpace r); [|by exists []].
  exists ((r, c) :: k). simpl. by rewrite <- IH.
Qed.

(** Trimming removes a prefix and a suffix. *)
Lemma TrimSpace_infix s : ∃ a b, s = a +:+ TrimSpace s +:+ b.
Proof.
  destruct (drop_spaces_suffix (chunks s)) as [k1 E1].
  destruct (drop_spaces_suffix (rev (drop_spaces (chunks s)))) as [k2 E2].
  exists (glue k1), (glue (rev k2)). unfold TrimSpace.
  rewrite <- (glue_chunks s) at 1. rewrite E1 at 1. rewrite glue_app. f_equal.
  rewrite <- glue_app, <- rev_app_distr. rewrite <- E2. by rewrite rev_involutive.
Qed.

Lemma TrimSpace_len s : len (TrimSpace s) ≤ len s.
Proof. destruct (TrimSpace_infix s) as (a & b & E). apply (f_equal len) in E. rewrite !len_app in E. lia. Qed.

Lemma replace_go_absent n s old new : occurs old s = false → replace_go n s old new = s.
Proof.
  revert s. induction n as [|n IH]; intros s O; [done|]. destruct s as [|c s]; [done|].
  cbn [replace_go]. simpl in O. apply orb_false_iff in O as [HP O]. unfold HasPrefix in HP.
  destruct (CutPrefix (String c s) old); [done|]. by rewrite IH.
Qed.

Lemma ReplaceAll_absent s old new : old ≠ "" → occurs old s = false → ReplaceAll s old new = s.
Proof. intros N O. unfold ReplaceAll. rewrite decide_False by done. by apply replace_go_absent. Qed.
