(* ===== verification/Selector.v ===== *)
(** Package [leansignalselectormatch] (components/selectormatch/selector.go):
    the parser and evaluator of normalized label selectors shared by the
    metric, log and trace demand filters.

    The parser is the source's byte scanner: a record holding the input and a
    position, one function per scanning method, the position in every error.
    The regular-expression engine is the parameter [Regexp]; a [Matcher]
    carries a compiled expression exactly when its operator is [OpRe] or
    [OpNre], as the source's [re] field does.

    Theorems: parsing terminates on every input and never rejects for lack of
    steps; whatever it accepts is well formed (at least one matcher, legal
    names, expressions compiled anchored); printing a well-formed selector and
    parsing it gives it back; an absent label matches like an empty one. *)

From S2P Require Import Prelude GoText.

(** Package [regexp]: [regexp.Compile] and [Regexp.MatchString]. *)
Class Regexp := {
  regexp : Type;
  Compile : string → option regexp;
  MatchString : regexp → string → bool;
}.

(** ** Data *)

Inductive Op := OpEq | OpNeq | OpRe | OpNre.

#[export] Instance Op_eq_dec : EqDecision Op.
Proof. solve_decision. Defined.

(** The scanner's errors, with the position the source reports. [ErrFuel] is
    not an error of the source: it marks an exhausted step budget and is shown
    unreachable. *)
Inductive ParseError :=
| ErrNoOpenBrace
| ErrExpectedCommaOrBrace (pos : nat)
| ErrTrailingInput (pos : nat)
| ErrEmptySelector
| ErrExpectedLabelName (pos : nat)
| ErrExpectedOp (pos : nat)
| ErrUnterminatedQuoted (start : nat)
| ErrUnterminatedRaw (start : nat)
| ErrExpectedQuoted (pos : nat)
| ErrUnquote
| ErrInvalidRegex (value : string)
| ErrFuel.

#[export] Instance ParseError_eq_dec : EqDecision ParseError.
Proof. solve_decision. Defined.

Section Selectormatch.
Context `{Regexp}.

(** The compiled expression, present exactly for the regex operators. *)
Definition re_field (op : Op) : Type :=
  match op with OpRe | OpNre => regexp | OpEq | OpNeq => unit end.

Record Matcher := MkMatcher {
  Name : string;
  MOp : Op;
  Value : string;
  re : re_field MOp;
}.

Record Selector := MkSelector { Matchers : list Matcher }.

(** ** Evaluation *)

Definition MatchValue (m : Matcher) (v : string) : bool :=
  match m with
  | MkMatcher _ op value r =>
      match op return re_field op → bool with
      | OpEq => λ _, bool_decide (v = value)
      | OpNeq => λ _, negb (bool_decide (v = value))
      | OpRe => λ r, MatchString r v
      | OpNre => λ r, negb (MatchString r v)
      end r
  end.

(** [labels[m.Name]]: an absent key reads as the empty string. *)
Definition label (labels : gmap string string) (k : string) : string :=
  default "" (labels !! k).

Definition Matcher_Matches (m : Matcher) (labels : gmap string string) : bool :=
  MatchValue m (label labels (Name m)).

Fixpoint all_match (ms : list Matcher) (labels : gmap string string) : bool :=
  match ms with
  | [] => true
  | m :: ms => if negb (Matcher_Matches m labels) then false else all_match ms labels
  end.

Definition Selector_Matches (s : Selector) (labels : gmap string string) : bool :=
  all_match (Matchers s) labels.

(** ** The scanner *)

Record parser := MkParser { p_s : string; p_pos : nat; allowDots : bool }.

Definition adv (n : nat) (p : parser) : parser :=
  MkParser (p_s p) (p_pos p + n) (allowDots p).

Definition eof (p : parser) : bool := bool_decide (len (p_s p) ≤ p_pos p).

(** The byte at the current position, 0 at the end of the input. *)
Definition peek (p : parser) : ascii :=
  match String.get (p_pos p) (p_s p) with Some c => c | None => "000"%char end.

Definition consume (p : parser) (c : ascii) : bool * parser :=
  if negb (eof p) && bool_decide (String.get (p_pos p) (p_s p) = Some c)
  then (true, adv 1 p) else (false, p).

Definition is_space (c : ascii) : bool :=
  bool_decide (c = " "%char) || bool_decide (c = "009"%char)
  || bool_decide (c = "010"%char) || bool_decide (c = "013"%char).

(** The number of leading bytes the [skipSpace] loop steps over. *)
Fixpoint space_run (s : string) : nat :=
  match s with
  | String c s => if is_space c then S (space_run s) else 0
  | "" => 0
  end.

Definition skipSpace (p : parser) : parser := adv (space_run (from (p_pos p) (p_s p))) p.

(** The condition of [parseLabelName]'s loop: [first] is [p.pos == start]. *)
Definition name_byte (dots first : bool) (c : ascii) : bool :=
  let b := code c in
  bool_decide (c = "_"%char) || between 97 b 122 || between 65 b 90
  || (negb first && between 48 b 57)
  || (negb first && dots && bool_decide (c = "."%char)).

Fixpoint name_run (dots first : bool) (s : string) : nat :=
  match s with
  | String c s => if name_byte dots first c then S (name_run dots false s) else 0
  | "" => 0
  end.

Definition parseLabelName (p : parser) : result ParseError (string * parser) :=
  let rest := from (p_pos p) (p_s p) in
  let n := name_run (allowDots p) true rest in
  if decide (n = 0) then Err (ErrExpectedLabelName (p_pos p))
  else Ok (upto n rest, adv n p).

Definition parseOp (p : parser) : result ParseError (Op * parser) :=
  let rest := from (p_pos p) (p_s p) in
  if HasPrefix rest "=~" then Ok (OpRe, adv 2 p)
  else if HasPrefix rest "!~" then Ok (OpNre, adv 2 p)
  else if HasPrefix rest "!=" then Ok (OpNeq, adv 2 p)
  else if HasPrefix rest "=" then Ok (OpEq, adv 1 p)
  else Err (ErrExpectedOp (p_pos p)).

(** The inner loops of [parseQuotedValue] after the opening quote: how many
    bytes up to and including the closing one. A backslash skips two bytes; an
    overshoot past the end leaves the literal unterminated. *)
Fixpoint dquoted_run (s : string) : option nat :=
  match s with
  | "" => None
  | String c s1 =>
      if decide (c = bslash) then
        match s1 with
        | String _ s2 => n ← dquoted_run s2; Some (2 + n)
        | "" => None
        end
      else if decide (c = dquote) then Some 1
      else n ← dquoted_run s1; Some (1 + n)
  end.

Fixpoint raw_run (s : string) : option nat :=
  match s with
  | "" => None
  | String c s => if decide (c = backquote) then Some 1 else n ← raw_run s; Some (1 + n)
  end.

(** [strconv.Unquote(p.s[start:p.pos])] with the position moved past it. *)
Definition unquote_token (n : nat) (p : parser) : result ParseError (string * parser) :=
  match Unquote (upto n (from (p_pos p) (p_s p))) with
  | Some v => Ok (v, adv n p)
  | None => Err ErrUnquote
  end.

Definition parseQuotedValue (p : parser) : result ParseError (string * parser) :=
  let body := from (S (p_pos p)) (p_s p) in
  if decide (peek p = dquote) then
    match dquoted_run body with
    | Some n => unquote_token (S n) p
    | None => Err (ErrUnterminatedQuoted (p_pos p))
    end
  else if decide (peek p = backquote) then
    match raw_run body with
    | Some n => unquote_token (S n) p
    | None => Err (ErrUnterminatedRaw (p_pos p))
    end
  else Err (ErrExpectedQuoted (p_pos p)).

(** The anchored pattern a regex value is compiled to. *)
Definition anchored (value : string) : string := "^(?:" +:+ value +:+ ")$".

Definition compile_value (value : string) : result ParseError regexp :=
  match Compile (anchored value) with
  | Some r => Ok r
  | None => Err (ErrInvalidRegex value)
  end.

(** The regex part of [parseMatcher]: compile only for [=~] and [!~]. *)
Definition build_matcher (name : string) (op : Op) (value : string) : result ParseError Matcher :=
  match op with
  | OpEq => Ok (MkMatcher name OpEq value ())
  | OpNeq => Ok (MkMatcher name OpNeq value ())
  | OpRe => r ← compile_value value; Ok (MkMatcher name OpRe value r)
  | OpNre => r ← compile_value value; Ok (MkMatcher name OpNre value r)
  end.

Definition parseMatcher (p : parser) : result ParseError (Matcher * parser) :=
  '(name, p) ← parseLabelName p;
  let p := skipSpace p in
  '(op, p) ← parseOp p;
  let p := skipSpace p in
  '(value, p) ← parseQuotedValue p;
  m ← build_matcher name op value;
  Ok (m, p).

(** The matcher loop of [parse]. Every round but the last consumes a comma, so
    [len input] rounds are enough ([parse_no_fuel]). *)
Fixpoint parse_matchers (fuel : nat) (p : parser) : result ParseError (list Matcher * parser) :=
  match fuel with
  | O => Err ErrFuel
  | S fuel =>
      let p := skipSpace p in
      if decide (peek p = "}"%char) then Ok ([], p)
      else
        '(m, p) ← parseMatcher p;
        let p := skipSpace p in
        let '(comma, p) := consume p "," in
        if comma : bool then
          '(ms, p) ← parse_matchers fuel p; Ok (m :: ms, p)
        else Ok ([m], p)
  end.

Definition parse (input : string) (dots : bool) : result ParseError Selector :=
  let p := skipSpace (MkParser input 0 dots) in
  let '(open, p) := consume p "{" in
  if negb open then Err ErrNoOpenBrace else
  '(ms, p) ← parse_matchers (S (len input)) p;
  let p := skipSpace p in
  let '(close, p) := consume p "}" in
  if negb close then Err (ErrExpectedCommaOrBrace (p_pos p)) else
  let p := skipSpace p in
  if negb (eof p) then Err (ErrTrailingInput (p_pos p)) else
  if decide (length ms = 0) then Err ErrEmptySelector else
  Ok (MkSelector ms).

Definition Parse (input : string) : result ParseError Selector := parse input false.
Definition ParseDotted (input : string) : result ParseError Selector := parse input true.

(** ** Specification *)

(** The label-name grammar: [[a-zA-Z_][a-zA-Z0-9_]*], with dots after the first
    byte in the dotted dialect. *)
Definition valid_name (dots : bool) (s : string) : bool :=
  match s with
  | "" => false
  | String c s => name_byte dots true c && str_forall (name_byte dots false) s
  end.

(** A matcher as the grammar allows it: a legal name, and the expression that
    its value compiles to under full anchoring. *)
Definition matcher_wf (dots : bool) (m : Matcher) : Prop :=
  valid_name dots (Name m) = true ∧ build_matcher (Name m) (MOp m) (Value m) = Ok m.

Definition selector_wf (dots : bool) (s : Selector) : Prop :=
  Matchers s ≠ [] ∧ Forall (matcher_wf dots) (Matchers s).

Definition print_op (op : Op) : string :=
  match op with OpEq => "=" | OpNeq => "!=" | OpRe => "=~" | OpNre => "!~" end.

(** The canonical text of a selector, the form the control plane sends. *)
Definition print_matcher `{UnicodeTables} (m : Matcher) : string :=
  Name m +:+ print_op (MOp m) +:+ Quote (Value m).

Definition print_selector `{UnicodeTables} (s : Selector) : string :=
  "{" +:+ Join (print_matcher <$> Matchers s) "," +:+ "}".

(** ** Scanner lemmas *)

(** The unread input. *)
Definition rest (p : parser) : string := from (p_pos p) (p_s p).

Lemma rest_adv n p : rest (adv n p) = from n (rest p).
Proof. unfold rest, adv. simpl. by rewrite from_from. Qed.

Lemma rest_adv_app p t r : rest p = t +:+ r → rest (adv (len t) p) = r.
Proof. intros E. by rewrite rest_adv, E, from_app. Qed.

Lemma adv_adv m n p : adv n (adv m p) = adv (m + n) p.
Proof. unfold adv. simpl. by rewrite Nat.add_assoc. Qed.

Lemma adv_0 p : adv 0 p = p.
Proof. destruct p. unfold adv. simpl. by rewrite Nat.add_0_r. Qed.

Lemma eof_rest p : eof p = bool_decide (rest p = "").
Proof.
  unfold eof, rest. apply bool_decide_ext. split; [apply from_ge|].
  intros E. pose proof (from_len (p_s p) (p_pos p)) as L. rewrite E in L. simpl in L. lia.
Qed.

Lemma peek_rest p : peek p = match rest p with String c _ => c | "" => "000"%char end.
Proof. unfold peek, rest. rewrite get_from. by destruct (from _ _). Qed.

Lemma consume_rest p c :
  consume p c = match rest p with
                | String d _ => if decide (d = c) then (true, adv 1 p) else (false, p)
                | "" => (false, p)
                end.
Proof.
  unfold consume. rewrite eof_rest, get_from. fold (rest p).
  destruct (rest p) as [|d r]; [done|]. rewrite bool_decide_false by done. simpl.
  case_decide; [subst; by rewrite bool_decide_true|].
  rewrite bool_decide_false; [done|naive_solver].
Qed.

Lemma skipSpace_noop p : space_run (rest p) = 0 → skipSpace p = p.
Proof. intros E. unfold skipSpace. fold (rest p). by rewrite E, adv_0. Qed.

Lemma skipSpace_adv p : ∃ n, skipSpace p = adv n p ∧ (n ≤ len (rest p)).
Proof.
  exists (space_run (rest p)). split; [done|].
  generalize (rest p). induction s as [|c s IH]; simpl; [done|]. destruct (is_space c); simpl; lia.
Qed.

(** *** Names *)

Definition stops_name (dots : bool) (s : string) : Prop :=
  match s with String c _ => name_byte dots false c = false | "" => True end.

Lemma name_run_tail dots s r :
  str_forall (name_byte dots false) s = true → stops_name dots r →
  name_run dots false (s +:+ r) = len s.
Proof.
  intros Hs Hr. induction s as [|c s IH]; simpl in *.
  - autorewrite with go_str. destruct r as [|c r]; [done|]. simpl in *. by rewrite Hr.
  - apply andb_true_iff in Hs as [Hc Hs]. autorewrite with go_str. simpl. by rewrite Hc, IH.
Qed.

Lemma name_run_valid dots s r :
  valid_name dots s = true → stops_name dots r → name_run dots true (s +:+ r) = len s.
Proof.
  destruct s as [|c s]; [done|]. simpl. intros [Hc Hs]%andb_true_iff Hr.
  autorewrite with go_str. simpl. by rewrite Hc, name_run_tail.
Qed.

Lemma name_run_tail_forall dots s :
  str_forall (name_byte dots false) (upto (name_run dots false s) s) = true.
Proof.
  induction s as [|c s IH]; simpl; [done|].
  destruct (name_byte dots false c) eqn:E; [simpl; by rewrite E, IH|done].
Qed.

Lemma name_run_sound dots s :
  name_run dots true s ≠ 0 → valid_name dots (upto (name_run dots true s) s) = true.
Proof.
  destruct s as [|c s]; simpl; [done|].
  destruct (name_byte dots true c) eqn:E; [|done]. intros _. simpl.
  by rewrite E, name_run_tail_forall.
Qed.

Lemma parseLabelName_ok p name r :
  rest p = name +:+ r → valid_name (allowDots p) name = true → stops_name (allowDots p) r →
  parseLabelName p = Ok (name, adv (len name) p).
Proof.
  intros E V S. unfold parseLabelName. fold (rest p). rewrite E, name_run_valid by done.
  destruct name; [done|]. rewrite decide_False by done. by rewrite upto_app.
Qed.

(** *** Quoted values *)

(** The scanner's idea of where a double-quoted literal ends agrees with the
    text [Quote] produces. *)
Definition no_break (s : string) : Prop :=
  ∀ r, dquoted_run (s +:+ r) = (n ← dquoted_run r; Some (len s + n)).

Lemma no_break_nil : no_break "".
Proof. intros r. autorewrite with go_str. by destruct (dquoted_run r). Qed.

Lemma no_break_app s t : no_break s → no_break t → no_break (s +:+ t).
Proof.
  intros Hs Ht r. rewrite app_assoc_str, Hs, Ht, len_app.
  destruct (dquoted_run r); [|done]. simpl. f_equal. lia.
Qed.

Lemma no_break_escaped c : no_break (escaped c).
Proof.
  intros r. unfold escaped. autorewrite with go_str.
  by destruct (dquoted_run r) eqn:E; cbn [dquoted_run]; rewrite decide_True by done; rewrite E.
Qed.

Lemma no_break_byte c : c ≠ bslash → c ≠ dquote → no_break (String c "").
Proof.
  intros Hb Hq r. autorewrite with go_str. cbn [dquoted_run]. by rewrite !decide_False by done.
Qed.

Lemma no_break_plain s :
  str_forall (λ c, negb (bool_decide (c = bslash)) && negb (bool_decide (c = dquote))) s = true →
  no_break s.
Proof.
  induction s as [|c s IH]; intros Hs; [apply no_break_nil|].
  simpl in Hs. rewrite !andb_true_iff, !negb_true_iff, !bool_decide_eq_false in Hs.
  destruct Hs as [[Hb Hq] Hs]. change (String c s) with (String c "" +:+ s).
  apply no_break_app; [by apply no_break_byte|by apply IH].
Qed.

Definition plain_byte (c : ascii) : bool :=
  negb (bool_decide (c = bslash)) && negb (bool_decide (c = dquote)).

Lemma plain_byte_code c : code c ≠ code bslash → code c ≠ code dquote → plain_byte c = true.
Proof.
  intros Hb Hq. unfold plain_byte.
  rewrite !bool_decide_false; [done|by intros ->..].
Qed.

Lemma plain_byte_of z :
  (0 ≤ z < 256)%Z → z ≠ code bslash → z ≠ code dquote → plain_byte (byte_of z) = true.
Proof. intros. apply plain_byte_code; by rewrite code_byte_of. Qed.

Lemma hex_digits_plain n z : str_forall plain_byte (hex_digits n z) = true.
Proof.
  revert z; induction n as [|n IH]; intros z; [done|]. cbn [hex_digits].
  rewrite str_forall_app, IH. simpl. rewrite andb_true_r.
  unfold lowerhex. assert (0 ≤ z mod 16 < 16)%Z by div_mod.
  apply plain_byte_of; change (code bslash) with 92%Z; change (code dquote) with 34%Z;
    case_match; lia.
Qed.

Lemma EncodeRune_plain r :
  ValidRune r = true → r ≠ code bslash → r ≠ code dquote →
  str_forall plain_byte (EncodeRune r) = true.
Proof.
  intros V Hb Hq. change (code bslash) with 92%Z in *; change (code dquote) with 34%Z in *.
  assert (∀ z, plain_byte (cont z) = true) as Hc.
  { intros z. apply plain_byte_code; rewrite code_cont; change (code bslash) with 92%Z;
      change (code dquote) with 34%Z; div_mod. }
  unfold EncodeRune. rewrite V. unfold ValidRune, between, MaxRune in *. simpl negb.
  repeat case_match; simpl; rewrite ?Hc, ?andb_true_r; apply plain_byte_of;
    change (code bslash) with 92%Z; change (code dquote) with 34%Z; div_mod.
Qed.

Lemma no_break_EscapedRune `{UnicodeTables} r :
  ValidRune r = true → no_break (appendEscapedRune r).
Proof.
  intros V. unfold appendEscapedRune.
  destruct ((r =? code dquote)%Z || (r =? code bslash)%Z) eqn:E; [apply no_break_escaped|].
  destruct (IsPrint r); [apply no_break_plain, EncodeRune_plain; [done|lia..]|].
  rewrite V.
  repeat case_match; first [apply no_break_escaped
    | apply no_break_app; [apply no_break_escaped|apply no_break_plain, hex_digits_plain]].
Qed.

Lemma no_break_quote_body `{UnicodeTables} n s : no_break (quote_body n s).
Proof.
  revert s; induction n as [|n IH]; intros s; [apply no_break_nil|].
  destruct s as [|c s]; [apply no_break_nil|]. cbn [quote_body].
  destruct (DecodeRune (String c s)) as [[r w] t] eqn:D.
  apply no_break_app; [|apply IH]. case_match eqn:Ew.
  - apply no_break_app; [apply no_break_escaped|apply no_break_plain, hex_digits_plain].
  - apply encode_decode in D as [(-> & -> & _)|(V & _ & _)]; [done..| |done].
    by apply no_break_EscapedRune.
Qed.

Lemma parseQuotedValue_ok `{UnicodeTables} p v r :
  rest p = Quote v +:+ r → parseQuotedValue p = Ok (v, adv (len (Quote v)) p).
Proof.
  intros E. unfold parseQuotedValue.
  assert (peek p = dquote) as -> by (rewrite peek_rest, E; reflexivity).
  rewrite decide_True by done.
  assert (from (S (p_pos p)) (p_s p) = (quote_body (len v) v) +:+ String dquote r) as ->.
  { eapply from_S. fold (rest p). rewrite E. unfold Quote. by autorewrite with go_str. }
  rewrite no_break_quote_body. simpl. unfold unquote_token. fold (rest p). rewrite E.
  replace (S (len (quote_body (len v) v) + 1)) with (len (Quote v))
    by (unfold Quote; autorewrite with go_str; simpl; lia).
  by rewrite upto_app, Unquote_Quote_eq.
Qed.

(** ** Round trip *)

Lemma parseOp_ok p op r :
  rest p = print_op op +:+ String dquote r → parseOp p = Ok (op, adv (len (print_op op)) p).
Proof. intros E. unfold parseOp. fold (rest p). rewrite E. by destruct op. Qed.

Lemma stops_name_op dots op r : stops_name dots (print_op op +:+ r).
Proof. by destruct dots, op. Qed.

Lemma space_run_name dots s r : valid_name dots s = true → space_run (s +:+ r) = 0.
Proof.
  destruct s as [|c s]; [done|]. simpl valid_name. intros [Hc _]%andb_true_iff.
  rewrite app_cons. simpl. assert (is_space c = false) as ->; [|done].
  revert Hc. unfold name_byte, is_space. destruct dots; by all_bytes c.
Qed.

Lemma parseMatcher_ok `{UnicodeTables} p m r :
  rest p = print_matcher m +:+ r → matcher_wf (allowDots p) m →
  parseMatcher p = Ok (m, adv (len (print_matcher m)) p).
Proof.
  intros E [V B]. unfold print_matcher in *. rewrite !app_assoc_str in E. unfold parseMatcher.
  rewrite (parseLabelName_ok p (Name m) _ E V) by apply stops_name_op. cbn.
  pose proof (rest_adv_app _ _ _ E) as E1.
  rewrite skipSpace_noop by (rewrite E1; by destruct (MOp m)).
  unfold Quote in E1 at 1. rewrite app_cons in E1. rewrite (parseOp_ok _ _ _ E1). cbn.
  rewrite <- app_cons in E1. pose proof (rest_adv_app _ _ _ E1) as E2.
  rewrite skipSpace_noop by by rewrite E2.
  rewrite (parseQuotedValue_ok _ (Value m) r) by done. cbn. rewrite B. cbn.
  rewrite !adv_adv, !len_app. reflexivity.
Qed.

Lemma peek_name p s r : rest p = s +:+ r → valid_name (allowDots p) s = true → peek p ≠ "}"%char.
Proof.
  intros E V. rewrite peek_rest, E. destruct s as [|c s]; [done|].
  simpl in V. apply andb_true_iff in V as [V _]. rewrite app_cons. intros ->.
  by destruct (allowDots p).
Qed.

Lemma parse_matchers_ok `{UnicodeTables} ms p fuel r :
  ms ≠ [] → Forall (matcher_wf (allowDots p)) ms → length ms ≤ fuel →
  rest p = Join (print_matcher <$> ms) "," +:+ String "}" r →
  parse_matchers fuel p = Ok (ms, adv (len (Join (print_matcher <$> ms) ",")) p).
Proof.
  revert p fuel; induction ms as [|m ms IH]; intros p fuel N F L E; [done|].
  apply Forall_cons_1 in F as [Wm F]. destruct fuel as [|fuel]; [simpl in L; lia|].
  assert (∃ t, rest p = print_matcher m +:+ t ∧ space_run t = 0) as (t & Et & St).
  { destruct ms as [|m2 ms]; cbn in E; [by exists (String "}" r)|].
    rewrite !app_assoc_str in E. eexists; split; [exact E|done]. }
  assert (rest p = Name m +:+ print_op (MOp m) +:+ Quote (Value m) +:+ t) as En
    by (rewrite Et; unfold print_matcher; by rewrite !app_assoc_str).
  cbn [parse_matchers]. rewrite skipSpace_noop by (rewrite En; by apply (space_run_name _ _ _ (proj1 Wm))).
  rewrite decide_False by (eapply peek_name; [exact En|apply Wm]).
  rewrite (parseMatcher_ok _ _ _ Et Wm). cbn.
  pose proof (rest_adv_app _ _ _ Et) as Er.
  rewrite skipSpace_noop by (by rewrite Er). rewrite consume_rest, Er.
  destruct ms as [|m2 ms]; cbn in E.
  - rewrite E in Et. apply (inj (String.append _)) in Et. subst t. by rewrite decide_False.
  - rewrite !app_assoc_str in E. rewrite E in Et. apply (inj (String.append _)) in Et. subst t.
    rewrite app_cons, decide_True by done.
    pose proof (rest_adv_app _ "," _ Er) as Er2.
    rewrite (IH (adv 1 (adv (len (print_matcher m)) p))); [|done..|simpl in *; lia|].
    2: { simpl len in Er2. rewrite Er2. done. }
    cbn. rewrite !adv_adv. do 3 f_equal. fold len. by rewrite !len_app.
Qed.

(** ** Soundness *)

Lemma parseLabelName_inv p name p' :
  parseLabelName p = Ok (name, p') → valid_name (allowDots p) name = true ∧ ∃ n, p' = adv n p.
Proof.
  unfold parseLabelName. case_decide as E; [done|]. intros [= <- <-].
  split; [by apply name_run_sound|eauto].
Qed.

Lemma parseOp_inv p op p' : parseOp p = Ok (op, p') → ∃ n, p' = adv n p.
Proof. unfold parseOp. repeat case_match; intros; simplify_eq; eauto. Qed.

Lemma parseQuotedValue_inv p v p' : parseQuotedValue p = Ok (v, p') → ∃ n, p' = adv n p.
Proof.
  unfold parseQuotedValue, unquote_token. repeat case_match; intros; simplify_eq; eauto.
Qed.

Lemma build_matcher_wf dots name op value m :
  valid_name dots name = true → build_matcher name op value = Ok m → matcher_wf dots m.
Proof.
  intros V B. assert (Name m = name ∧ MOp m = op ∧ Value m = value) as (E1 & E2 & E3).
  { destruct op; simpl in B; [by simplify_eq..|bind_ok B r Hr; by simplify_eq|bind_ok B r Hr; by simplify_eq]. }
  split; [by rewrite E1|by rewrite E1, E2, E3].
Qed.

Lemma parseMatcher_inv p m p' :
  parseMatcher p = Ok (m, p') → matcher_wf (allowDots p) m ∧ ∃ n, p' = adv n p.
Proof.
  unfold parseMatcher. intros B.
  bind_ok B x Hx. destruct x as [name p1]. apply parseLabelName_inv in Hx as [V [n1 ->]].
  bind_ok B x Hx. destruct x as [op p2].
  apply parseOp_inv in Hx as [n2 ->]. destruct (skipSpace_adv (adv n1 p)) as (k1 & -> & _) in B |- *.
  bind_ok B x Hx. destruct x as [v p3]. apply parseQuotedValue_inv in Hx as [n3 ->].
  destruct (skipSpace_adv (adv n2 (adv k1 (adv n1 p)))) as (k2 & -> & _) in B |- *.
  bind_ok B m' Hm. simplify_eq. split; [by eapply build_matcher_wf|].
  rewrite !adv_adv. eauto.
Qed.

Lemma consume_inv p c b p' : consume p c = (b, p') → p' = adv (Nat.b2n b) p.
Proof. unfold consume. case_match; intros [= <- <-]; simpl; by rewrite ?adv_0. Qed.

Lemma parse_matchers_inv fuel p ms p' :
  parse_matchers fuel p = Ok (ms, p') → Forall (matcher_wf (allowDots p)) ms ∧ ∃ n, p' = adv n p.
Proof.
  revert p ms p'; induction fuel as [|fuel IH]; intros p ms p' B; [done|].
  cbn [parse_matchers] in B. destruct (skipSpace_adv p) as (k & E & _). rewrite E in B.
  case_decide. { simplify_eq. eauto. }
  bind_ok B x Hx. destruct x as [m p1]. apply parseMatcher_inv in Hx as [Wm [n ->]].
  destruct (skipSpace_adv (adv n (adv k p))) as (k2 & E2 & _). rewrite E2 in B.
  destruct (consume _ _) as [comma p2] eqn:Ec. apply consume_inv in Ec as ->.
  destruct comma.
  - bind_ok B x Hx. destruct x as [ms' p3]. simplify_eq. apply IH in Hx as [Wms [n3 ->]].
    split; [by constructor|]. rewrite !adv_adv. eauto.
  - simplify_eq. split; [by constructor|]. rewrite !adv_adv. eauto.
Qed.

Lemma parse_wf input dots sel : parse input dots = Ok sel → selector_wf dots sel.
Proof.
  unfold parse. destruct (skipSpace_adv (MkParser input 0 dots)) as (k & -> & _).
  destruct (consume _ _) as [open p1] eqn:E1. apply consume_inv in E1 as ->.
  case_match; [done|]. intros B. bind_ok B x Hx. destruct x as [ms p2].
  apply parse_matchers_inv in Hx as [W [n ->]].
  destruct (consume _ _) as [close p3] eqn:E3. apply consume_inv in E3.
  repeat case_match; simplify_eq. split; [|done]. simpl. by intros ->.
Qed.

(** *** Termination *)

Lemma parseMatcher_no_fuel p : parseMatcher p ≠ Err ErrFuel.
Proof.
  unfold parseMatcher. intros [H1|([n p1] & _ & B)]%result_bind_Err.
  { revert H1. unfold parseLabelName. by case_decide. }
  apply result_bind_Err in B as [H2|([op p2] & _ & B)].
  { revert H2. unfold parseOp. by repeat case_match. }
  apply result_bind_Err in B as [H3|([v p3] & _ & B)].
  { revert H3. unfold parseQuotedValue, unquote_token. by repeat case_match. }
  apply result_bind_Err in B as [H4|(m & _ & B)]; [|done].
  revert H4. unfold build_matcher, compile_value. by destruct op; simpl; repeat case_match.
Qed.

Lemma rest_adv_len n p : len (rest (adv n p)) ≤ len (rest p).
Proof. rewrite rest_adv, from_len. lia. Qed.

Lemma parse_matchers_fuel fuel p : len (rest p) < fuel → parse_matchers fuel p ≠ Err ErrFuel.
Proof.
  revert p; induction fuel as [|fuel IH]; intros p L; [lia|].
  cbn [parse_matchers]. destruct (skipSpace_adv p) as (k & -> & _).
  case_decide; [done|]. intros [B|([m p1] & Hm & B)]%result_bind_Err.
  { by apply parseMatcher_no_fuel in B. }
  apply parseMatcher_inv in Hm as [_ [n ->]].
  destruct (skipSpace_adv (adv n (adv k p))) as (k2 & E2 & _). rewrite E2 in B.
  rewrite consume_rest in B. destruct (rest (adv k2 _)) as [|c r] eqn:Er; [done|].
  case_decide; [|done]. apply result_bind_Err in B as [B|([? ?] & _ & B)]; [|done].
  revert B. apply IH. rewrite rest_adv, Er. simpl.
  assert (len (String c r) ≤ len (rest p)); [|simpl in *; lia].
  rewrite <- Er, !adv_adv. apply rest_adv_len.
Qed.

Lemma parse_no_fuel_eq input dots : parse input dots ≠ Err ErrFuel.
Proof.
  unfold parse. destruct (skipSpace_adv (MkParser input 0 dots)) as (k & -> & _).
  destruct (consume _ _) as [open p1] eqn:E1. apply consume_inv in E1 as ->.
  case_match; [done|]. intros [B|([ms p2] & _ & B)]%result_bind_Err.
  - revert B. apply parse_matchers_fuel. pose proof (rest_adv_len (k + Nat.b2n open) (MkParser input 0 dots)).
    rewrite adv_adv. change (rest (MkParser input 0 dots)) with input in *. lia.
  - revert B. destruct (consume _ _) as [close p3]. by repeat case_match.
Qed.

Lemma Join_len_ms `{UnicodeTables} ms : length ms ≤ len (Join (print_matcher <$> ms) ",").
Proof.
  assert (∀ m, 1 ≤ len (print_matcher m)) as L.
  { intros m. unfold print_matcher. rewrite !len_app. destruct (MOp m); simpl; lia. }
  induction ms as [|m ms IH]; [simpl; lia|]. destruct ms as [|m2 ms]; [apply L|].
  cbn [fmap list_fmap] in *. rewrite Join_cons2, !len_app. specialize (L m). simpl in *. lia.
Qed.

Lemma parse_print_eq `{UnicodeTables} dots sel :
  selector_wf dots sel → parse (print_selector sel) dots = Ok sel.
Proof.
  intros [N F]. destruct sel as [ms]; simpl in *. unfold parse, print_selector. simpl Matchers.
  set (body := Join (print_matcher <$> ms) ",").
  assert (length ms ≤ S (len ("{" +:+ body +:+ "}"))) as Hfuel.
  { rewrite !len_app. pose proof (Join_len_ms ms) as L. change (length ms ≤ len body) in L. lia. }
  set (p0 := MkParser ("{" +:+ body +:+ "}") 0 dots).
  assert (rest p0 = "{" +:+ body +:+ "}") as E0 by done.
  rewrite skipSpace_noop by done. rewrite consume_rest, E0, app_cons, decide_True by done.
  simpl negb. cbv iota. pose proof (rest_adv_app _ _ _ E0) as E1.
  rewrite (parse_matchers_ok ms _ _ "") by done.
  cbn [mbind result_bind]. fold body. pose proof (rest_adv_app _ _ _ E1) as E2.
  change (len "{") with 1 in E2.
  rewrite skipSpace_noop by (by rewrite E2). rewrite consume_rest, E2, decide_True by done.
  simpl negb. cbv iota. pose proof (rest_adv_app _ "}" _ E2) as E3.
  change (len "}") with 1 in E3.
  rewrite skipSpace_noop by (by rewrite E3). rewrite eof_rest, E3. simpl.
  by destruct ms.
Qed.

End Selectormatch.

(** ** A concrete expression engine *)

(** The fragment of RE2 made of alternations of literal words, compiled fully
    anchored; everything else is refused. It instantiates [Regexp] wherever a
    theorem is evaluated on a concrete input. *)
Module LiteralRegexp.

Fixpoint split_bar (s : string) : list string :=
  match s with
  | "" => [""]
  | String c s =>
      if decide (c = "|"%char) then "" :: split_bar s
      else match split_bar s with
           | x :: xs => String c x :: xs
           | [] => [String c ""]
           end
  end.

Definition literal_byte (c : ascii) : bool :=
  name_byte false false c || bool_decide (c = "|"%char) || bool_decide (c = "-"%char).

Definition compile (p : string) : option (list string) :=
  match CutPrefix p "^(?:" with
  | Some r =>
      let v := TrimSuffix r ")$" in
      if HasSuffix r ")$" && str_forall literal_byte v then Some (split_bar v) else None
  | None => None
  end.

Definition engine : Regexp := {|
  regexp := list string;
  Compile := compile;
  MatchString alts v := bool_decide (v ∈ alts);
|}.

(** The selector [{app=~`api|web`,env!=`dev`}] as parsed by this engine. *)
Definition sample_text : string := "{app=~`api|web`, env!=`dev`}".

Definition sample : @Selector engine :=
  @MkSelector engine
    [@MkMatcher engine "app" OpRe "api|web" ["api"; "web"];
     @MkMatcher engine "env" OpNeq "dev" ()].

End LiteralRegexp.

(** ** Properties *)

(** C8: Printing a well-formed selector in its canonical form and parsing the
    text gives the selector back, in both label-name dialects: names,
    operators, every byte of the unquoted values and the compiled expressions
    survive. *)
Theorem parse_print_roundtrip `{Regexp} `{UnicodeTables} (dots : bool) (sel : Selector) :
  selector_wf dots sel → parse (print_selector sel) dots = Ok sel.
Proof. apply parse_print_eq. Qed.

Lemma parse_print_roundtrip_witness :
  @selector_wf LiteralRegexp.engine false LiteralRegexp.sample ∧
  @parse LiteralRegexp.engine
    (@print_selector LiteralRegexp.engine latin1_tables LiteralRegexp.sample) false
  = Ok LiteralRegexp.sample.
Proof.
  assert (@selector_wf LiteralRegexp.engine false LiteralRegexp.sample) as W.
  { split; [done|]. repeat constructor. }
  split; [exact W|]. apply (@parse_print_roundtrip LiteralRegexp.engine latin1_tables), W.
Defined.

(** C31: Whatever text the parser accepts, in either dialect, yields a
    well-formed selector: it has at least one matcher, so the empty selector
    that would match everything is refused, every name is a legal label name of
    the dialect, and every regex matcher carries the expression its value
    compiles to under full anchoring. *)
Theorem parse_accepts_only_wellformed `{Regexp} (input : string) (dots : bool) (sel : Selector) :
  parse input dots = Ok sel → selector_wf dots sel.
Proof. apply parse_wf. Qed.

Lemma parse_accepts_only_wellformed_witness :
  @parse LiteralRegexp.engine LiteralRegexp.sample_text false = Ok LiteralRegexp.sample ∧
  @selector_wf LiteralRegexp.engine false LiteralRegexp.sample.
Proof.
  assert (@parse LiteralRegexp.engine LiteralRegexp.sample_text false = Ok LiteralRegexp.sample) as E
    by reflexivity.
  split; [exact E|].
  exact (@parse_accepts_only_wellformed LiteralRegexp.engine LiteralRegexp.sample_text false _ E).
Defined.

(** C38: Parsing terminates on every input with a selector or one of the
    source's own errors: the matcher loop never runs out of its budget of
    [len input + 1] rounds. *)
Theorem parse_terminates `{Regexp} (input : string) (dots : bool) :
  (∃ sel, parse input dots = Ok sel) ∨
  (∃ e, parse input dots = Err e ∧ e ≠ ErrFuel).
Proof.
  pose proof (parse_no_fuel_eq input dots) as N.
  destruct (parse input dots) as [sel|e]; [left; eauto|right; exists e; naive_solver].
Qed.

(** A label that is absent from a label set matches exactly like a label
    present with the empty value, for whole selectors of any operators. *)
Theorem absent_label_matches_like_empty `{Regexp} (sel : Selector)
    (labels : gmap string string) (k : string) :
  labels !! k = None →
  Selector_Matches sel (<[k := ""]> labels) = Selector_Matches sel labels.
Proof.
  intros Hk. unfold Selector_Matches. induction (Matchers sel) as [|m ms IH]; [done|].
  simpl. rewrite IH. unfold Matcher_Matches, label.
  destruct (decide (k = Name m)) as [->|N]; [by rewrite lookup_insert_eq, Hk|].
  by rewrite lookup_insert_ne.
Qed.

Lemma absent_label_matches_like_empty_witness :
  (∅ : gmap string string) !! "env" = None ∧
  @Selector_Matches LiteralRegexp.engine LiteralRegexp.sample (<["env" := ""]> ∅)
  = @Selector_Matches LiteralRegexp.engine LiteralRegexp.sample ∅.
Proof.
  split; [reflexivity|].
  apply (@absent_label_matches_like_empty LiteralRegexp.engine); reflexivity.
Defined.
