(* ===== verification/PData.v ===== *)
(** The OTLP data model of the collector (modules [pcommon], [pmetric], [plog]
    and [ptrace] of go.opentelemetry.io/collector/pdata), as far as the agent's
    processors touch it.

    pdata is a third-party library: attribute values and attribute maps are the
    parameter [PData] with the laws its documentation states (lookup finds the
    first entry of the iteration order, [PutStr] and [Remove] affect one key).
    Slices ([ResourceMetricsSlice] and the like) are lists, and everything a
    processor only carries along is [Opaque]. [AssocPData] is a concrete
    instance, for evaluation. *)

From S2P Require Import Prelude GoText.

(** First entry of an association list. *)
Fixpoint assoc {A} (l : list (string * A)) (k : string) : option A :=
  match l with
  | [] => None
  | (k', a) :: l => if decide (k' = k) then Some a else assoc l k
  end.

Class PData := {
  (** [pcommon.Value]: its string rendering, its payload when it is a string
      (empty otherwise), and the string constructor. *)
  AttrValue : Type;
  AsString : AttrValue → string;
  Str : AttrValue → string;
  NewStr : string → AttrValue;
  (** [pcommon.Map]: its entries in iteration order, and its operations. *)
  AttrMap : Type;
  entries : AttrMap → list (string * AttrValue);
  Get : AttrMap → string → option AttrValue;
  PutStr : AttrMap → string → string → AttrMap;
  Remove : AttrMap → string → AttrMap;
  (** [float64] and [strconv.FormatFloat(v, 'g', -1, 64)]. *)
  float64 : Type;
  FormatFloat : float64 → string;
  (** Payload that is forwarded untouched: spans, log records, sample values,
      timestamps, scopes, schema URLs. *)
  Opaque : Type;
  AsString_NewStr s : AsString (NewStr s) = s;
  Str_NewStr s : Str (NewStr s) = s;
  Get_entries m k : Get m k = assoc (entries m) k;
  Get_PutStr_eq m k v : Get (PutStr m k v) k = Some (NewStr v);
  Get_PutStr_ne m k k' v : k ≠ k' → Get (PutStr m k v) k' = Get m k';
  NoDup_PutStr m k v : NoDup (entries m).*1 → NoDup (entries (PutStr m k v)).*1;
  Get_Remove_eq m k : NoDup (entries m).*1 → Get (Remove m k) k = None;
  Get_Remove_ne m k k' :
    NoDup (entries m).*1 → k ≠ k' → Get (Remove m k) k' = Get m k';
}.

Section Types.
Context `{PData}.

Inductive AggregationTemporality :=
| TemporalityUnspecified | TemporalityDelta | TemporalityCumulative.

(** [NumberDataPoint] and [ExponentialHistogramDataPoint]. *)
Record Point := MkPoint { dp_attrs : AttrMap; dp_data : Opaque }.

Record HistogramPoint := MkHistogramPoint {
  hp_attrs : AttrMap;
  hp_bounds : list float64;
  hp_hasSum : bool;
  hp_data : Opaque;
}.

Record SummaryPoint := MkSummaryPoint {
  sp_attrs : AttrMap;
  sp_quantiles : list float64;
  sp_data : Opaque;
}.

Inductive MetricData :=
| Gauge (dps : list Point)
| Sum (isMonotonic : bool) (temporality : AggregationTemporality) (dps : list Point)
| Histogram (dps : list HistogramPoint)
| ExponentialHistogram (dps : list Point)
| Summary (dps : list SummaryPoint)
| EmptyMetric.

Record Metric := MkMetric {
  m_name : string;
  m_unit : string;
  m_info : Opaque;
  m_data : MetricData;
}.

Record ScopeMetrics := MkScopeMetrics { sm_info : Opaque; sm_metrics : list Metric }.

Record ResourceMetrics := MkResourceMetrics {
  rm_attrs : AttrMap;
  rm_info : Opaque;
  rm_scopes : list ScopeMetrics;
}.

Definition MetricsBatch := list ResourceMetrics.

Record ScopeLogs := MkScopeLogs { sl_info : Opaque; sl_records : list Opaque }.

Record ResourceLogs := MkResourceLogs {
  rl_attrs : AttrMap;
  rl_info : Opaque;
  rl_scopes : list ScopeLogs;
}.

Record ScopeSpans := MkScopeSpans { ss_info : Opaque; ss_spans : list Opaque }.

Record ResourceSpans := MkResourceSpans {
  rs_attrs : AttrMap;
  rs_info : Opaque;
  rs_scopes : list ScopeSpans;
}.

(** [Traces.SpanCount]. *)
Definition SpanCount (td : list ResourceSpans) : nat :=
  sum_list_with (λ rs, sum_list_with (λ ss, length (ss_spans ss)) (rs_scopes rs)) td.

End Types.

(** ** A concrete instance *)

(** Attribute maps as association lists with string values: [PutStr] overwrites
    the first entry of the key or appends one, [Remove] deletes the entries of
    the key. *)
Module AssocPData.

Fixpoint put (l : list (string * string)) (k v : string) : list (string * string) :=
  match l with
  | [] => [(k, v)]
  | (k', v') :: l => if decide (k' = k) then (k', v) :: l else (k', v') :: put l k v
  end.

Definition remove (l : list (string * string)) (k : string) : list (string * string) :=
  filter (λ kv, kv.1 ≠ k) l.

Lemma assoc_put_eq l k v : assoc (put l k v) k = Some v.
Proof. induction l as [|[k' v'] l IH]; simpl; repeat (case_decide; simpl); congruence. Qed.

Lemma assoc_put_ne l k k' v : k ≠ k' → assoc (put l k v) k' = assoc l k'.
Proof. intros N. induction l as [|[k2 v'] l IH]; simpl; repeat (case_decide; simpl); congruence. Qed.

Lemma put_keys l k v x : x ∈ (put l k v).*1 → x = k ∨ x ∈ l.*1.
Proof.
  induction l as [|[k' v'] l IH]; simpl; [by intros ?%list_elem_of_singleton; left|].
  case_decide; simpl; rewrite !elem_of_cons; naive_solver.
Qed.

Lemma NoDup_put l k v : NoDup l.*1 → NoDup (put l k v).*1.
Proof.
  induction l as [|[k' v'] l IH]; simpl; [intros; apply NoDup_singleton|].
  rewrite NoDup_cons. intros [Hk Hl]. case_decide; simpl; rewrite NoDup_cons; [done|].
  split; [|by apply IH]. intros [->|?]%put_keys; done.
Qed.

Lemma assoc_remove_eq l k : assoc (remove l k) k = None.
Proof.
  induction l as [|[k' v'] l IH]; [done|]. unfold remove in *. rewrite filter_cons.
  case_decide; simpl in *; [by rewrite decide_False|done].
Qed.

Lemma assoc_remove_ne l k k' : k ≠ k' → assoc (remove l k) k' = assoc l k'.
Proof.
  intros N. induction l as [|[k2 v'] l IH]; [done|]. unfold remove in *. rewrite filter_cons.
  repeat (case_decide; simpl in *); congruence.
Qed.

Definition pdata : PData.
Proof.
  refine {|
    AttrValue := string; AsString s := s; Str s := s; NewStr s := s;
    AttrMap := list (string * string); entries l := l; Get := assoc;
    PutStr := put; Remove := remove;
    float64 := string; FormatFloat s := s; Opaque := unit |}; try done.
  - intros; apply assoc_put_eq.
  - intros; by apply assoc_put_ne.
  - intros; by apply NoDup_put.
  - intros; apply assoc_remove_eq.
  - intros; by apply assoc_remove_ne.
Defined.

End AssocPData.
