(* ===== verification/PromNaming.v ===== *)
(** Package [promnaming] (internal/promnaming/promnaming.go, labels.go): the
    Prometheus metric name and label view of an OTLP series, shared by the
    metrics tracker and the demand filter.

    [otlptranslator.MetricNamer] is third-party code: its [Build] method is the
    parameter [Namer]. The theorems show that the per-resource label map plus a
    datapoint-first lookup is the same label view as the flattened series
    labels, and that normalized names are legal, selectable label names. *)

From S2P Require Import Prelude GoText Selector PData.

(** [otlptranslator.MetricType]. *)
Inductive MetricType :=
| MetricTypeUnknown
| MetricTypeNonMonotonicCounter
| MetricTypeMonotonicCounter
| MetricTypeGauge
| MetricTypeHistogram
| MetricTypeExponentialHistogram
| MetricTypeSummary.

(** [namer.Build(otlptranslator.Metric{Name, Unit, Type})]; [None] is an
    error. *)
Class Namer := { Build : string → string → MetricType → option string }.

Section PromNaming.
Context `{UnicodeTables, PData, Namer}.

Definition metricType (m : Metric) : MetricType :=
  match m_data m with
  | Gauge _ => MetricTypeGauge
  | Sum mono temporality _ =>
      match mono, temporality with
      | true, TemporalityCumulative => MetricTypeMonotonicCounter
      | _, _ => MetricTypeNonMonotonicCounter
      end
  | Histogram _ => MetricTypeHistogram
  | ExponentialHistogram _ => MetricTypeExponentialHistogram
  | Summary _ => MetricTypeSummary
  | EmptyMetric => MetricTypeUnknown
  end.

Definition BaseName (m : Metric) : string :=
  match Build (m_name m) (m_unit m) (metricType m) with
  | None => m_name m
  | Some name => name
  end.

Definition norm_rune (r : Z) : Z :=
  if IsLetter r || IsDigit r then r else code "_".

Definition NormalizeLabelName (label : string) : string :=
  if decide (label = "") then label
  else
    let label := map_runes norm_rune label in
    let starts_with_digit :=
      match label with String c _ => IsDigit (code c) | "" => false end in
    if starts_with_digit then "key_" +:+ label
    else if HasPrefix label "_" && negb (HasPrefix label "__") then "key" +:+ label
    else label.

(** [attrs.Range(func(k, v) { labels[NormalizeLabelName(k)] = v.AsString() })]. *)
Definition add_attrs (labels : gmap string string) (attrs : AttrMap) : gmap string string :=
  foldl (λ l '(k, v), <[NormalizeLabelName k := AsString v]> l) labels (entries attrs).

Definition getAttrAsString (m : AttrMap) (key : string) : string :=
  match Get m key with None => "" | Some v => AsString v end.

Definition jobLabelFromResource (res : AttrMap) : string :=
  let svcName := getAttrAsString res "service.name" in
  if decide (svcName = "") then ""
  else
    let svcNS := getAttrAsString res "service.namespace" in
    if decide (svcNS = "") then svcName else svcNS +:+ "/" +:+ svcName.

Definition instanceLabelFromResource (res : AttrMap) : string :=
  let inst := getAttrAsString res "service.instance.id" in
  if decide (inst ≠ "") then inst
  else
    let host := getAttrAsString res "host.name" in
    if decide (host ≠ "") then host else "".

(** [if _, ok := labels[k]; !ok { if v != "" { labels[k] = v } }]. *)
Definition synthesize (k v : string) (labels : gmap string string) : gmap string string :=
  match labels !! k with
  | Some _ => labels
  | None => if decide (v ≠ "") then <[k := v]> labels else labels
  end.

Definition addSynthesizedJobInstance (labels : gmap string string) (res : AttrMap) : gmap string string :=
  synthesize "instance" (instanceLabelFromResource res)
    (synthesize "job" (jobLabelFromResource res) labels).

(** [extra] is the extra-label map in its iteration order. *)
Definition BuildSeriesLabels (res point : AttrMap) (extra : list (string * string)) : gmap string string :=
  let labels := add_attrs ∅ res in
  let labels := add_attrs labels point in
  let labels := addSynthesizedJobInstance labels res in
  foldl (λ l '(k, v), <[NormalizeLabelName k := v]> l) labels extra.

Definition ResourceLabelMap (res : AttrMap) : gmap string string :=
  addSynthesizedJobInstance (add_attrs ∅ res) res.

(** ** Label maps *)

Lemma add_attrs_union labels attrs : add_attrs labels attrs = add_attrs ∅ attrs ∪ labels.
Proof.
  unfold add_attrs. revert labels. induction (entries attrs) as [|[k v] l IH]; intros labels; simpl.
  { by rewrite map_empty_union. }
  rewrite IH, (IH (<[_:=_]> ∅)), insert_empty, <- map_union_assoc.
  by rewrite insert_union_singleton_l.
Qed.

Lemma synthesize_union k v m1 m2 : synthesize k v (m1 ∪ m2) = m1 ∪ synthesize k v m2.
Proof.
  unfold synthesize. rewrite lookup_union.
  destruct (m1 !! k) as [x|] eqn:E1, (m2 !! k) as [y|] eqn:E2; simpl; try done;
    case_decide; try done.
  - apply map_eq. intros i. rewrite !lookup_union. destruct (decide (i = k)) as [->|N].
    + by rewrite E1, E2, lookup_insert_eq.
    + by rewrite lookup_insert_ne.
  - by rewrite insert_union_r.
Qed.

Lemma series_labels_union res point :
  BuildSeriesLabels res point [] = add_attrs ∅ point ∪ ResourceLabelMap res.
Proof.
  unfold BuildSeriesLabels, ResourceLabelMap, addSynthesizedJobInstance. simpl.
  by rewrite add_attrs_union, !synthesize_union.
Qed.

(** ** Normalized names *)

Definition ascii_only (s : string) : bool := str_forall (λ c, code c <? 128)%Z s.

Lemma DecodeRune_ascii c s : (code c < 128)%Z → DecodeRune (String c s) = (code c, 1, s).
Proof. intros Hc. unfold DecodeRune. by rewrite (proj2 (Z.ltb_lt _ _) Hc). Qed.

Lemma runes_ascii s : ascii_only s = true → runes s = code <$> bytes s.
Proof.
  unfold runes, ascii_only. induction s as [|c s IH]; [done|]. simpl.
  intros [Hc%Z.ltb_lt Hs]%andb_true_iff. rewrite DecodeRune_ascii by done. by rewrite IH.
Qed.

(** What normalization does to one ASCII byte. *)
Definition norm_byte (c : ascii) : ascii := byte_of (norm_rune (code c)).

Fixpoint norm_bytes (s : string) : string :=
  match s with "" => "" | String c s => String (norm_byte c) (norm_bytes s) end.

Lemma norm_rune_range c : (code c < 128)%Z → (0 ≤ norm_rune (code c) < 128)%Z.
Proof.
  pose proof (code_range c). unfold norm_rune. change (code "_") with 95%Z. case_match; lia.
Qed.

Lemma map_runes_ascii s : ascii_only s = true → map_runes norm_rune s = norm_bytes s.
Proof.
  intros Hs. unfold map_runes. rewrite runes_ascii by done. revert Hs. unfold ascii_only.
  induction s as [|c s IH]; [done|]. intros [Hc%Z.ltb_lt Hs]%andb_true_iff.
  change (bytes (String c s)) with (c :: bytes s). rewrite fmap_cons. cbn [foldr].
  rewrite IH by done. rewrite EncodeRune_ascii by (pose proof (norm_rune_range c Hc); lia). done.
Qed.

Lemma norm_byte_name c : (code c < 128)%Z → name_byte false false (norm_byte c) = true.
Proof.
  intros Hc. revert Hc. unfold norm_byte, norm_rune, IsLetter, IsDigit, MaxLatin1.
  all_bytes c; intros Hc; (reflexivity || (vm_compute in Hc; congruence)).
Qed.

Lemma norm_byte_head c :
  (code c < 128)%Z → IsDigit (code (norm_byte c)) = false → name_byte false true (norm_byte c) = true.
Proof.
  intros Hc. revert Hc. unfold norm_byte, norm_rune, IsLetter, IsDigit, MaxLatin1.
  all_bytes c; intros Hc; try reflexivity; try (vm_compute in Hc; congruence);
    vm_compute; congruence.
Qed.

Lemma norm_bytes_names s :
  ascii_only s = true → str_forall (name_byte false false) (norm_bytes s) = true.
Proof.
  unfold ascii_only. induction s as [|c s IH]; [done|]. simpl.
  intros [Hc%Z.ltb_lt Hs]%andb_true_iff. by rewrite norm_byte_name, IH.
Qed.

Lemma valid_name_key s : str_forall (name_byte false false) s = true → valid_name false ("key" +:+ s) = true.
Proof. done. Qed.

Lemma Normalize_valid s :
  s ≠ "" → ascii_only s = true → valid_name false (NormalizeLabelName s) = true.
Proof.
  intros Hs Ha. unfold NormalizeLabelName. rewrite decide_False by done.
  rewrite map_runes_ascii by done. pose proof (norm_bytes_names s Ha) as Hn.
  destruct s as [|c s]; [done|]. simpl norm_bytes in *.
  unfold ascii_only in Ha. simpl in Ha. apply andb_true_iff in Ha as [Hc%Z.ltb_lt _].
  destruct (IsDigit (code (norm_byte c))) eqn:Ed.
  { change ("key_" +:+ String (norm_byte c) (norm_bytes s))
      with ("key" +:+ String "_" (String (norm_byte c) (norm_bytes s))).
    by apply valid_name_key. }
  case_match; [by apply valid_name_key|].
  simpl in Hn |- *. apply andb_true_iff in Hn as [_ Hn]. by rewrite norm_byte_head.
Qed.

(** A valid name that does not start with a single underscore is left alone. *)
Lemma norm_byte_fix c : name_byte false false c = true → norm_byte c = c ∧ (code c < 128)%Z.
Proof.
  unfold norm_byte, norm_rune, IsLetter, IsDigit, MaxLatin1.
  all_bytes c; intros Hc; (split; reflexivity) || (vm_compute in Hc; congruence).
Qed.

Lemma norm_bytes_fix s :
  str_forall (name_byte false false) s = true → norm_bytes s = s ∧ ascii_only s = true.
Proof.
  unfold ascii_only. induction s as [|c s IH]; [done|]. simpl.
  intros [[Ec Hc]%norm_byte_fix Hs]%andb_true_iff. destruct (IH Hs) as [-> ->].
  rewrite Ec. split; [done|]. rewrite andb_true_r. by apply Z.ltb_lt.
Qed.

Lemma name_byte_first dots c : name_byte dots true c = true → name_byte dots false c = true.
Proof. unfold name_byte. rewrite !orb_true_iff, !andb_true_iff. simpl. naive_solver. Qed.

Lemma valid_name_all dots s : valid_name dots s = true → str_forall (name_byte dots false) s = true.
Proof.
  destruct s as [|c s]; [done|]. simpl. intros [Hc Hs]%andb_true_iff.
  by rewrite (name_byte_first _ _ Hc), Hs.
Qed.

Lemma name_byte_not_digit c : name_byte false true c = true → IsDigit (code c) = false.
Proof. unfold IsDigit, MaxLatin1. all_bytes c; vm_compute; congruence. Qed.

Lemma Normalize_fix s :
  valid_name false s = true → HasPrefix s "_" && negb (HasPrefix s "__") = false →
  NormalizeLabelName s = s.
Proof.
  intros V P. destruct (norm_bytes_fix s (valid_name_all _ _ V)) as [E A].
  destruct s as [|c s]; [done|]. unfold NormalizeLabelName. rewrite decide_False by done.
  rewrite map_runes_ascii, E by done. simpl in V. apply andb_true_iff in V as [V _].
  by rewrite name_byte_not_digit, P.
Qed.

Lemma Normalize_no_single_underscore s :
  let t := NormalizeLabelName s in HasPrefix t "_" && negb (HasPrefix t "__") = false.
Proof.
  unfold NormalizeLabelName. case_decide; [by subst|]. simpl.
  set (l := map_runes norm_rune s). destruct (match l with "" => _ | _ => _ end); [done|].
  destruct (HasPrefix l "_" && negb (HasPrefix l "__")) eqn:E; done.
Qed.

End PromNaming.

(** ** Properties *)

(** The label view the demand filter matches against, the datapoint's
    normalized attributes first and the per-resource label map otherwise, is
    for every label the flattened label set the tracker indexes the series
    under and the exporter writes: attribute override order and job/instance
    synthesis included. *)
Theorem datapoint_first_lookup_is_series_labels `{UnicodeTables, PData} (res point : AttrMap) :
  BuildSeriesLabels res point [] = add_attrs ∅ point ∪ ResourceLabelMap res.
Proof. apply series_labels_union. Qed.

(** Every non-empty ASCII attribute key is normalized to a label name that
    is legal in the selector grammar, so a selector can name it; and
    normalization is idempotent on such keys, so a name that was already
    normalized is not changed again. *)
Theorem normalized_names_are_selectable `{UnicodeTables} (s : string) :
  s ≠ "" → ascii_only s = true →
  valid_name false (NormalizeLabelName s) = true ∧
  NormalizeLabelName (NormalizeLabelName s) = NormalizeLabelName s.
Proof.
  intros Hs Ha. pose proof (Normalize_valid s Hs Ha) as V. split; [done|].
  apply Normalize_fix; [done|]. apply Normalize_no_single_underscore.
Qed.

Lemma normalized_names_are_selectable_witness :
  ("http.status-code" ≠ "" ∧ ascii_only "http.status-code" = true) ∧
  valid_name false (@NormalizeLabelName latin1_tables "http.status-code") = true ∧
  @NormalizeLabelName latin1_tables (@NormalizeLabelName latin1_tables "http.status-code")
  = @NormalizeLabelName latin1_tables "http.status-code".
Proof.
  assert ("http.status-code" ≠ "") as N by discriminate.
  assert (ascii_only "http.status-code" = true) as A by reflexivity.
  split; [exact (conj N A)|].
  exact (@normalized_names_are_selectable latin1_tables "http.status-code" N A).
Defined.
