(* ===== verification/Demand.v ===== *)
(** What the edge-controller extension promises to the demand filters.

    Each filter looks its provider up among the host's extensions by the
    interface it satisfies ([DemandProvider], [MetricSelectorProvider] of
    demandfilter/processor.go, [LogDemandProvider] of
    logdemandfilter/processor.go, [TraceDemandProvider] and
    [TraceRouteProvider] of tracedemandfilter/processor.go) and calls it anew
    for every batch. [DemandHost] is that interface: an extension satisfies an
    interface when the corresponding field is [Some], and a method reads the
    extension's current state, the [World]. The edge controller is an instance
    of the class in its own file. [Route] is tracedemand/route.go. *)

From S2P Require Import Prelude.

Record Route := MkRoute { FilterID : string; RouteSelector : string }.

#[export] Instance Route_eq_dec : EqDecision Route.
Proof. solve_decision. Defined.

Class DemandHost := {
  World : Type;
  Extension : Type;
  GetDemands : Extension → option (World → list string);
  GetMetricSelectors : Extension → option (World → list string);
  GetLogDemands : Extension → option (World → list string);
  GetTraceDemands : Extension → option (World → list string);
  GetTraceRoutes : Extension → option (World → list Route);
}.

(** [for _, ext := range host.GetExtensions() { if dp, ok := ext.(I); ok ... }]:
    the first extension, in iteration order, that satisfies an interface. *)
Fixpoint first_providing {E A} (as_interface : E → option A) (exts : list E) : option (E * A) :=
  match exts with
  | [] => None
  | e :: exts =>
      match as_interface e with
      | Some a => Some (e, a)
      | None => first_providing as_interface exts
      end
  end.

Lemma first_providing_None {E A} (f : E → option A) exts :
  first_providing f exts = None ↔ Forall (λ e, f e = None) exts.
Proof.
  induction exts as [|e exts IH]; simpl; [split; auto|].
  rewrite Forall_cons. destruct (f e); rewrite ?IH; clear IH; naive_solver.
Qed.

(** A selector list as the demand sets carry it: no entry contains the NUL
    byte the caches join their keys with. *)
Definition NUL : ascii := "000"%char.
Definition nul_free (s : string) : Prop := Contains s NUL = false.

(** A provider whose world is the demand snapshot itself; the witnesses run
    the filters against it. *)
Module SnapshotHost.

Record Snapshot := MkSnapshot {
  metrics : list string;
  metricSelectors : list string;
  logs : list string;
  traces : list string;
  routes : list Route;
}.

Definition host : DemandHost := {|
  World := Snapshot;
  Extension := unit;
  GetDemands _ := Some metrics;
  GetMetricSelectors _ := Some metricSelectors;
  GetLogDemands _ := Some logs;
  GetTraceDemands _ := Some traces;
  GetTraceRoutes _ := Some routes;
|}.

End SnapshotHost.
