(* ===== verification/DemandFilter.v ===== *)
(** Package [leansignaldemandfilter] (components/demandfilter/processor.go and
    selectors.go): the processor in front of the metrics backend that forwards
    only what the control plane demands, by metric name or by series selector.

    The compiled selector set is the source's index: selectors pinned to one
    exact name in a map, the rest in a scan list. The theorems show that the
    index, the no-label fast path and the datapoint-first lookup compute the
    reference filter [spec_filter], in which a datapoint survives exactly when
    the selector grammar accepts one of its series' full label sets; that the
    cache of the compiled set never serves a stale set; that everything fails
    closed; and that name mode is selector mode with exact-name selectors. *)

From S2P Require Import Prelude GoText Selector PData PromNaming Demand.

Section DemandFilter.
Context `{Regexp, UnicodeTables, PData, Namer, DemandHost}.

(** ** Compiled selectors *)

Record compiledSelector := MkCompiled {
  nameMatchers : list Matcher;
  labelMatchers : list Matcher;
}.

Definition matchesName (cs : compiledSelector) (name : string) : bool :=
  forallb (λ m, MatchValue m name) (nameMatchers cs).

Record compiledSelectorSet := MkSet {
  byName : gmap string (list compiledSelector);
  scan : list compiledSelector;
}.

Definition set_empty (s : compiledSelectorSet) : bool :=
  bool_decide (size (byName s) = 0) && bool_decide (length (scan s) = 0).

Definition candidatesFor (s : compiledSelectorSet) (familyNames : list string)
  : list compiledSelector :=
  foldl (λ out n, (out ++ default [] (byName s !! n))
                    ++ filter (λ cs, matchesName cs n = true) (scan s))
    [] familyNames.

(** One round of the matcher switch. *)
Definition add_matcher (cs : compiledSelector) (m : Matcher) : compiledSelector :=
  if decide (Name m = "__name__") then MkCompiled (nameMatchers cs ++ [m]) (labelMatchers cs)
  else if decide (Name m = "le" ∨ Name m = "quantile") then cs
  else MkCompiled (nameMatchers cs) (labelMatchers cs ++ [m]).

Definition compile_one (sel : Selector) : compiledSelector :=
  foldl add_matcher (MkCompiled [] []) (Matchers sel).

Definition add_compiled (set : compiledSelectorSet) (cs : compiledSelector) : compiledSelectorSet :=
  match nameMatchers cs with
  | [m] =>
      if decide (MOp m = OpEq) then
        MkSet (<[Value m := default [] (byName set !! Value m) ++ [cs]]> (byName set)) (scan set)
      else MkSet (byName set) (scan set ++ [cs])
  | _ => MkSet (byName set) (scan set ++ [cs])
  end.

Definition compileSelectors (raw : list string) : compiledSelectorSet :=
  foldl (λ set s,
           match Parse s with
           | Err _ => set
           | Ok sel => add_compiled set (compile_one sel)
           end)
    (MkSet ∅ []) raw.

(** ** The filter on one metric *)

Definition familyNames (m : Metric) (base : string) : list string :=
  match m_data m with
  | Histogram _ => [base +:+ "_bucket"; base +:+ "_sum"; base +:+ "_count"]
  | Summary _ => [base; base +:+ "_sum"; base +:+ "_count"]
  | _ => [base]
  end.

(** [v, ok := scratch[lm.Name]; if !ok { v = resLabels[lm.Name] }]. *)
Definition dp_label (scratch resLabels : gmap string string) (k : string) : string :=
  match scratch !! k with Some v => v | None => label resLabels k end.

Definition matchDP (cands : list compiledSelector) (resLabels : gmap string string)
    (attrs : AttrMap) : bool :=
  let scratch := add_attrs ∅ attrs in
  existsb (λ cs, forallb (λ lm, MatchValue lm (dp_label scratch resLabels (Name lm)))
                   (labelMatchers cs)) cands.

(** [dps.RemoveIf(...)] on the datapoints of any metric type. *)
Definition keep_points (p : AttrMap → bool) (d : MetricData) : MetricData :=
  match d with
  | Gauge dps => Gauge (remove_if (λ dp, (dp, negb (p (dp_attrs dp)))) dps)
  | Sum mono t dps => Sum mono t (remove_if (λ dp, (dp, negb (p (dp_attrs dp)))) dps)
  | Histogram dps => Histogram (remove_if (λ dp, (dp, negb (p (hp_attrs dp)))) dps)
  | ExponentialHistogram dps =>
      ExponentialHistogram (remove_if (λ dp, (dp, negb (p (dp_attrs dp)))) dps)
  | Summary dps => Summary (remove_if (λ dp, (dp, negb (p (sp_attrs dp)))) dps)
  | EmptyMetric => EmptyMetric
  end.

(** [dps.Len() > 0]; a metric without a type has no datapoints. *)
Definition has_points (d : MetricData) : bool :=
  match d with
  | Gauge dps | Sum _ _ dps | ExponentialHistogram dps => bool_decide (0 < length dps)
  | Histogram dps => bool_decide (0 < length dps)
  | Summary dps => bool_decide (0 < length dps)
  | EmptyMetric => false
  end.

Definition set_data (m : Metric) (d : MetricData) : Metric :=
  MkMetric (m_name m) (m_unit m) (m_info m) d.

(** The metric as it is left, and whether anything survived. *)
Definition filterMetricDatapoints (m : Metric) (resLabels : gmap string string)
    (set : compiledSelectorSet) : Metric * bool :=
  let cands := candidatesFor set (familyNames m (BaseName m)) in
  match cands with
  | [] => (m, false)
  | _ =>
      if existsb (λ cs, bool_decide (length (labelMatchers cs) = 0)) cands then (m, true)
      else
        let d := keep_points (matchDP cands resLabels) (m_data m) in
        (set_data m d, has_points d)
  end.

(** ** The filter on a batch *)

(** The nested [RemoveIf] of both modes: [f] decides (and may rewrite) a metric
    given its resource; scopes and resources left empty are removed. *)
Definition prune_scope (f : Metric → Metric * bool) (sm : ScopeMetrics) : ScopeMetrics * bool :=
  let ms := remove_if (λ m, let '(m', keep) := f m in (m', negb keep)) (sm_metrics sm) in
  (MkScopeMetrics (sm_info sm) ms, bool_decide (length ms = 0)).

Definition prune_resource (f : Metric → Metric * bool) (rm : ResourceMetrics) : ResourceMetrics * bool :=
  let sms := remove_if (prune_scope f) (rm_scopes rm) in
  (MkResourceMetrics (rm_attrs rm) (rm_info rm) sms, bool_decide (length sms = 0)).

Definition prune (f : ResourceMetrics → Metric → Metric * bool) (md : MetricsBatch) : MetricsBatch :=
  remove_if (λ rm, prune_resource (f rm) rm) md.

Definition filterBySelectors (md : MetricsBatch) (set : compiledSelectorSet) : MetricsBatch :=
  prune (λ rm m, filterMetricDatapoints m (ResourceLabelMap (rm_attrs rm)) set) md.

Definition isMetricDemanded (m : Metric) (demandSet : gset string) : bool :=
  let base := BaseName m in
  let demanded n := bool_decide (n ∈ demandSet) in
  match m_data m with
  | Gauge _ => demanded base
  | Sum _ _ _ => demanded base
  | Histogram _ =>
      demanded (base +:+ "_bucket") || demanded (base +:+ "_sum") || demanded (base +:+ "_count")
  | ExponentialHistogram _ => demanded base
  | Summary _ => demanded base || demanded (base +:+ "_sum") || demanded (base +:+ "_count")
  | EmptyMetric => false
  end.

Definition filterByNames (md : MetricsBatch) (demandSet : gset string) : MetricsBatch :=
  prune (λ _ m, (m, isMetricDemanded m demandSet)) md.

(** ** The processor *)

Record demandFilterProcessor := MkProcessor {
  provider : option (World → list string);
  selectorProvider : option (World → list string);
  selCachedKey : string;
  selCachedSet : option compiledSelectorSet;
}.

Definition newDemandFilterProcessor : demandFilterProcessor := MkProcessor None None "" None.

(** [exts] is the host's extension map in iteration order. *)
Definition Start (p : demandFilterProcessor) (exts : list Extension) : demandFilterProcessor :=
  match first_providing GetDemands exts with
  | Some (ext, dp) =>
      MkProcessor (Some dp)
        (match GetMetricSelectors ext with Some sp => Some sp | None => selectorProvider p end)
        (selCachedKey p) (selCachedSet p)
  | None => p
  end.

Definition parsedSelectors (p : demandFilterProcessor) (raw : list string)
  : compiledSelectorSet * demandFilterProcessor :=
  let key := Join raw (String NUL "") in
  match selCachedSet p with
  | Some set =>
      if decide (key = selCachedKey p) then (set, p)
      else let set := compileSelectors raw in
           (set, MkProcessor (provider p) (selectorProvider p) key (Some set))
  | None =>
      let set := compileSelectors raw in
      (set, MkProcessor (provider p) (selectorProvider p) key (Some set))
  end.

(** The batch handed to the next consumer, if any ([None]: the method returns
    nil without calling it), and the processor after the call. *)
Definition consumeSelectorMode (p : demandFilterProcessor) (md : MetricsBatch)
    (rawSelectors : list string) : option MetricsBatch * demandFilterProcessor :=
  let '(set, p) := parsedSelectors p rawSelectors in
  if set_empty set then (None, p) else (Some (filterBySelectors md set), p).

Definition ConsumeMetrics (p : demandFilterProcessor) (w : World) (md : MetricsBatch)
  : option MetricsBatch * demandFilterProcessor :=
  match provider p with
  | None => (None, p)
  | Some getDemands =>
      let rawSelectors := match selectorProvider p with Some sp => sp w | None => [] end in
      if decide (0 < length rawSelectors) then consumeSelectorMode p md rawSelectors
      else
        let demands := getDemands w in
        if decide (length demands = 0) then (None, p)
        else (Some (filterByNames md (list_to_set demands)), p)
  end.

(** ** Reference semantics *)

(** The selectors of a demand list that parse. *)
Definition parseable (raw : list string) : list Selector := values_of (Parse <$> raw).

(** The matchers that are evaluated: [le] and [quantile] are ignored. *)
Definition relevant (m : Matcher) : bool :=
  negb (bool_decide (Name m = "le" ∨ Name m = "quantile")).

Definition strip (sel : Selector) : Selector :=
  MkSelector (filter (λ m, relevant m = true) (Matchers sel)).

(** The complete label set of the series [n] of a datapoint. *)
Definition series_labels (res attrs : AttrMap) (n : string) : gmap string string :=
  <["__name__" := n]> (BuildSeriesLabels res attrs []).

(** The datapoint belongs to a demanded series: the selector grammar accepts
    the full label set of one of the names its metric is written under. *)
Definition point_demanded (raw : list string) (res : AttrMap) (m : Metric) (attrs : AttrMap) : bool :=
  existsb (λ sel,
    existsb (λ n, Selector_Matches (strip sel) (series_labels res attrs n))
      (familyNames m (BaseName m)))
    (parseable raw).

Definition spec_metric (raw : list string) (res : AttrMap) (m : Metric) : Metric * bool :=
  let d := keep_points (point_demanded raw res m) (m_data m) in
  (set_data m d, has_points d).

Definition spec_filter (raw : list string) (md : MetricsBatch) : MetricsBatch :=
  prune (λ rm m, spec_metric raw (rm_attrs rm) m) md.

(** ** Batches *)

(** A property of every metric of a batch, with its resource. *)
Definition all_metrics (P : ResourceMetrics → Metric → Prop) (md : MetricsBatch) : Prop :=
  Forall (λ rm, Forall (λ sm, Forall (P rm) (sm_metrics sm)) (rm_scopes rm)) md.

(** Two verdicts on a metric agree when they agree on keeping it and, if it is
    kept, on what is kept. *)
Definition same_verdict (x y : Metric * bool) : Prop := x.2 = y.2 ∧ (x.2 = true → x.1 = y.1).

Lemma remove_if_verdict {A} (f g : A → A * bool) l :
  Forall (λ x, (f x).2 = (g x).2 ∧ ((f x).2 = false → (f x).1 = (g x).1)) l →
  remove_if f l = remove_if g l.
Proof.
  induction l as [|x l IH]; intros HF; [done|]. apply Forall_cons in HF as [[E1 E2] HF].
  simpl. destruct (f x) as [fx []], (g x) as [gx []]; simpl in *; try done; [by apply IH|].
  rewrite E2 by done. by rewrite IH.
Qed.

Lemma prune_verdict f g md :
  all_metrics (λ rm m, same_verdict (f rm m) (g rm m)) md → prune f md = prune g md.
Proof.
  intros HF. unfold prune. apply remove_if_ext. intros rm Hrm.
  unfold all_metrics in HF. rewrite Forall_forall in HF. specialize (HF rm Hrm).
  unfold prune_resource.
  enough (remove_if (prune_scope (f rm)) (rm_scopes rm) = remove_if (prune_scope (g rm)) (rm_scopes rm))
    as -> by done.
  apply remove_if_ext. intros sm Hsm. rewrite Forall_forall in HF. specialize (HF sm Hsm).
  unfold prune_scope. enough (∀ ms, Forall (λ m, same_verdict (f rm m) (g rm m)) ms →
    remove_if (λ m, let '(m', keep) := f rm m in (m', negb keep)) ms
    = remove_if (λ m, let '(m', keep) := g rm m in (m', negb keep)) ms) as E by by rewrite (E _ HF).
  intros ms Hms. apply remove_if_verdict. eapply Forall_impl; [exact Hms|].
  intros m [E1 E2]. destruct (f rm m) as [x []], (g rm m) as [y []]; simpl in *; naive_solver.
Qed.

(** ** The index *)

Lemma foldl_add_matcher ms cs :
  foldl add_matcher cs ms =
  MkCompiled (nameMatchers cs ++ filter (λ m, Name m = "__name__") ms)
             (labelMatchers cs ++ filter (λ m, Name m ≠ "__name__" ∧ relevant m = true) ms).
Proof.
  revert cs; induction ms as [|m ms IH]; intros [nm lm]; simpl.
  { by rewrite !app_nil_r. }
  rewrite IH, !filter_cons. unfold add_matcher, relevant.
  destruct (decide (Name m = "__name__")) as [E|N]; simpl.
  { rewrite decide_False by tauto. by rewrite <- app_assoc. }
  destruct (decide (Name m = "le" ∨ Name m = "quantile")) as [L|L]; simpl.
  - rewrite bool_decide_true by done. by rewrite decide_False by (intros [_ ?]; done).
  - rewrite bool_decide_false by done. by rewrite decide_True, <- app_assoc by done.
Qed.

Definition pinned (cs : compiledSelector) : option string :=
  match nameMatchers cs with
  | [m] => if decide (MOp m = OpEq) then Some (Value m) else None
  | _ => None
  end.

(** The set indexes exactly the compiled selectors [csl]. *)
Definition indexes (set : compiledSelectorSet) (csl : list compiledSelector) : Prop :=
  (∀ cs n, cs ∈ default [] (byName set !! n) ↔ cs ∈ csl ∧ pinned cs = Some n) ∧
  (∀ cs, cs ∈ scan set ↔ cs ∈ csl ∧ pinned cs = None).

Lemma add_compiled_pinned set cs :
  add_compiled set cs =
  match pinned cs with
  | Some n => MkSet (<[n := default [] (byName set !! n) ++ [cs]]> (byName set)) (scan set)
  | None => MkSet (byName set) (scan set ++ [cs])
  end.
Proof. unfold add_compiled, pinned. by repeat case_match. Qed.

Lemma indexes_add set csl cs : indexes set csl → indexes (add_compiled set cs) (csl ++ [cs]).
Proof.
  intros [HB HS]. rewrite add_compiled_pinned. destruct (pinned cs) as [n|] eqn:E.
  - split; simpl.
    + intros c k. destruct (decide (n = k)) as [->|N].
      * rewrite lookup_insert_eq. simpl. rewrite !elem_of_app, HB, !list_elem_of_singleton.
        naive_solver.
      * rewrite lookup_insert_ne, HB, elem_of_app, list_elem_of_singleton by done. naive_solver.
    + intros c. rewrite HS, elem_of_app, list_elem_of_singleton. naive_solver.
  - split; simpl.
    + intros c k. rewrite HB, elem_of_app, list_elem_of_singleton. naive_solver.
    + intros c. rewrite !elem_of_app, HS, !list_elem_of_singleton. naive_solver.
Qed.

Lemma compileSelectors_snoc raw s :
  compileSelectors (raw ++ [s]) =
  match Parse s with
  | Err _ => compileSelectors raw
  | Ok sel => add_compiled (compileSelectors raw) (compile_one sel)
  end.
Proof. unfold compileSelectors. by rewrite foldl_app. Qed.

Lemma parseable_app raw raw' : parseable (raw ++ raw') = parseable raw ++ parseable raw'.
Proof. unfold parseable, values_of. by rewrite fmap_app, omap_app. Qed.

Lemma indexes_compile raw : indexes (compileSelectors raw) (compile_one <$> parseable raw).
Proof.
  induction raw as [|s raw IH] using rev_ind.
  { split; simpl; [intros cs n; rewrite lookup_empty|intros cs]; simpl;
      rewrite elem_of_nil; naive_solver. }
  rewrite compileSelectors_snoc, parseable_app, fmap_app.
  unfold parseable at 2, values_of. simpl. destruct (Parse s) as [sel|e]; simpl.
  - by apply indexes_add.
  - by rewrite app_nil_r.
Qed.

Lemma pinned_matchesName cs n k : pinned cs = Some n → matchesName cs k = bool_decide (k = n).
Proof.
  unfold pinned, matchesName. destruct (nameMatchers cs) as [|m [|]]; try done.
  case_decide as E; [|done]. intros [= <-]. simpl. rewrite andb_true_r.
  destruct m as [nm op v r]; simpl in *; subst. done.
Qed.

Lemma elem_of_candidatesFor set csl names cs :
  indexes set csl →
  cs ∈ candidatesFor set names ↔ cs ∈ csl ∧ ∃ n, n ∈ names ∧ matchesName cs n = true.
Proof.
  intros [HB HS]. unfold candidatesFor.
  enough (∀ out, cs ∈ foldl (λ out n, (out ++ default [] (byName set !! n))
      ++ filter (λ cs, matchesName cs n = true) (scan set)) out names ↔
    cs ∈ out ∨ (cs ∈ csl ∧ ∃ n, n ∈ names ∧ matchesName cs n = true)) as E.
  { rewrite E, elem_of_nil. naive_solver. }
  induction names as [|n names IH]; intros out; simpl.
  { split; [auto|]. intros [?|(_ & n & ?%elem_of_nil & _)]; done. }
  rewrite IH, !elem_of_app, HB, list_elem_of_filter, HS. clear IH HB HS.
  setoid_rewrite elem_of_cons. destruct (pinned cs) as [k|] eqn:P.
  - pose proof (pinned_matchesName cs k) as M. setoid_rewrite (M _ P).
    setoid_rewrite bool_decide_eq_true. naive_solver.
  - naive_solver.
Qed.

(** The index is empty exactly when no selector parses. *)
Lemma set_empty_compile raw : set_empty (compileSelectors raw) = true ↔ parseable raw = [].
Proof.
  unfold set_empty. rewrite andb_true_iff, !bool_decide_eq_true, map_size_empty_iff, length_zero_iff_nil.
  pose proof (indexes_compile raw) as [HB HS]. split.
  - intros [EB ES]. destruct (parseable raw) as [|sel l]; [done|]. exfalso.
    specialize (HB (compile_one sel)). specialize (HS (compile_one sel)).
    destruct (pinned (compile_one sel)) as [n|] eqn:P.
    + specialize (HB n). rewrite EB, lookup_empty in HB. simpl in HB.
      apply (elem_of_nil (compile_one sel)), HB. split; [left|done].
    + rewrite ES in HS. apply (elem_of_nil (compile_one sel)), HS. split; [left|done].
  - revert HB HS. clear. induction raw as [|s raw IH] using rev_ind; [done|].
    rewrite parseable_app, compileSelectors_snoc. intros _ _ [E1 E2]%app_nil.
    unfold parseable, values_of in E2. simpl in E2. destruct (Parse s); [done|].
    apply IH; [apply indexes_compile..|done].
Qed.

(** ** Selector evaluation *)

Lemma all_match_forallb ms labels : all_match ms labels = forallb (λ m, Matcher_Matches m labels) ms.
Proof. induction ms as [|m ms IH]; [done|]. simpl. by destruct (Matcher_Matches m labels). Qed.

Lemma dp_label_series res attrs k :
  dp_label (add_attrs ∅ attrs) (ResourceLabelMap res) k = label (BuildSeriesLabels res attrs []) k.
Proof.
  rewrite series_labels_union. unfold dp_label, label. rewrite lookup_union.
  by destruct (add_attrs ∅ attrs !! k), (ResourceLabelMap res !! k).
Qed.

(** Splitting a selector into name and label matchers evaluates it. *)
Lemma strip_matches sel res attrs n :
  Selector_Matches (strip sel) (series_labels res attrs n) =
  matchesName (compile_one sel) n
  && forallb (λ lm, MatchValue lm (dp_label (add_attrs ∅ attrs) (ResourceLabelMap res) (Name lm)))
       (labelMatchers (compile_one sel)).
Proof.
  unfold Selector_Matches, strip, compile_one, matchesName. rewrite all_match_forallb.
  rewrite foldl_add_matcher. simpl. induction (Matchers sel) as [|m ms IH]; [done|].
  rewrite !filter_cons. unfold Matcher_Matches in *. unfold series_labels in *.
  destruct (decide (Name m = "__name__")) as [E|N].
  - assert (relevant m = true) as R. { unfold relevant. by rewrite E. }
    rewrite !decide_True, decide_False by naive_solver. simpl.
    rewrite IH, E. unfold label at 1. rewrite lookup_insert_eq. simpl. by rewrite andb_assoc.
  - destruct (relevant m) eqn:R.
    + rewrite !decide_True by done. simpl. rewrite IH, dp_label_series.
      unfold label. rewrite lookup_insert_ne by done. rewrite !andb_assoc. f_equal. apply andb_comm.
    + by rewrite !decide_False by naive_solver.
Qed.

Lemma keep_points_ext p q d : (∀ a, p a = q a) → keep_points p d = keep_points q d.
Proof. intros E. destruct d; simpl; try done; f_equal; apply remove_if_ext; intros; by rewrite E. Qed.

Lemma remove_if_keep_all {A} (f : A → bool) l : (∀ x, f x = true) → remove_if (λ x, (x, negb (f x))) l = l.
Proof. intros E. induction l as [|x l IH]; [done|]. simpl. by rewrite E, IH. Qed.

Lemma remove_if_keep_none {A} (f : A → bool) l : (∀ x, f x = false) → remove_if (λ x, (x, negb (f x))) l = [].
Proof. intros E. induction l as [|x l IH]; [done|]. simpl. by rewrite E, IH. Qed.

Lemma keep_points_all p d : (∀ a, p a = true) → keep_points p d = d.
Proof. intros E. destruct d; simpl; f_equal; apply remove_if_keep_all; intros; apply E. Qed.

Lemma keep_points_none p d : (∀ a, p a = false) → has_points (keep_points p d) = false.
Proof.
  intros E. destruct d; simpl; try done; by rewrite (remove_if_keep_none (λ x, p _)) by (intros; apply E).
Qed.

Lemma set_data_id m : set_data m (m_data m) = m.
Proof. by destruct m. Qed.

Section OneMetric.
Context (raw : list string) (res : AttrMap) (m : Metric).

Notation cands := (candidatesFor (compileSelectors raw) (familyNames m (BaseName m))).

Lemma elem_of_cands cs :
  cs ∈ cands ↔ ∃ sel n, sel ∈ parseable raw ∧ cs = compile_one sel ∧
                        n ∈ familyNames m (BaseName m) ∧ matchesName cs n = true.
Proof.
  rewrite elem_of_candidatesFor by apply indexes_compile. rewrite list_elem_of_fmap. naive_solver.
Qed.

Lemma point_demanded_cands attrs :
  point_demanded raw res m attrs = matchDP cands (ResourceLabelMap res) attrs.
Proof.
  unfold point_demanded, matchDP. apply eq_bool_prop_intro. rewrite !Is_true_true, !existsb_exists.
  setoid_rewrite existsb_exists. setoid_rewrite strip_matches. setoid_rewrite andb_true_iff.
  setoid_rewrite <- list_elem_of_In. setoid_rewrite elem_of_cands. naive_solver.
Qed.

(** The metric filter agrees with the reference on every metric that carries
    a datapoint. *)
Lemma filterMetric_verdict :
  has_points (m_data m) = true →
  same_verdict (filterMetricDatapoints m (ResourceLabelMap res) (compileSelectors raw))
               (spec_metric raw res m).
Proof.
  intros HP. unfold filterMetricDatapoints, spec_metric.
  rewrite (keep_points_ext _ _ (m_data m) point_demanded_cands).
  destruct cands as [|cs0 csl] eqn:EC.
  { split; [|done]. simpl. by rewrite keep_points_none. }
  destruct (existsb _ (cs0 :: csl)) eqn:EF; [|done].
  apply existsb_exists in EF as (cs & Hin & E0%bool_decide_eq_true%length_zero_iff_nil).
  rewrite keep_points_all, set_data_id; [by split|].
  intros attrs. unfold matchDP. apply existsb_exists. exists cs. by rewrite E0.
Qed.

End OneMetric.

Lemma filterBySelectors_spec raw md :
  all_metrics (λ _ m, has_points (m_data m) = true) md →
  filterBySelectors md (compileSelectors raw) = spec_filter raw md.
Proof.
  intros HF. apply prune_verdict. revert HF. unfold all_metrics.
  intros HF. eapply Forall_impl; [exact HF|]. intros rm Hrm.
  eapply Forall_impl; [exact Hrm|]. intros sm Hsm.
  eapply Forall_impl; [exact Hsm|]. intros m. apply filterMetric_verdict.
Qed.

(** ** The cache of the compiled set *)

(** Whatever is cached was compiled from the list its key was joined from. *)
Definition cache_ok (p : demandFilterProcessor) : Prop :=
  ∀ set, selCachedSet p = Some set →
    ∃ raw, raw ≠ [] ∧ Forall nul_free raw ∧
           selCachedKey p = Join raw (String NUL "") ∧ set = compileSelectors raw.

Lemma parsedSelectors_ok p raw :
  cache_ok p → raw ≠ [] → Forall nul_free raw →
  ∃ p', parsedSelectors p raw = (compileSelectors raw, p') ∧ cache_ok p' ∧
        provider p' = provider p ∧ selectorProvider p' = selectorProvider p.
Proof.
  intros HC N F. unfold parsedSelectors.
  assert (cache_ok (MkProcessor (provider p) (selectorProvider p)
    (Join raw (String NUL "")) (Some (compileSelectors raw)))) as Hnew.
  { intros set [= <-]. by exists raw. }
  destruct (selCachedSet p) as [set|] eqn:ES; [|by eexists].
  case_decide as EK; [|by eexists].
  destruct (HC set ES) as (raw' & N' & F' & EK' & ->).
  rewrite EK' in EK. apply Join_inj in EK as ->; [|done..]. by exists p.
Qed.

(** The reference for one batch, a function of the demand it arrives under:
    [demands] is [None] without a provider, [raw] the selector list. *)
Definition spec_consume (demands : option (list string)) (raw : list string)
    (md : MetricsBatch) : option MetricsBatch :=
  match demands with
  | None => None
  | Some ds =>
      if decide (raw = []) then
        if decide (ds = []) then None else Some (filterByNames md (list_to_set ds))
      else match parseable raw with [] => None | _ => Some (spec_filter raw md) end
  end.

(** The demand a processor reads in a given state of its provider. *)
Definition demands_of (p : demandFilterProcessor) (w : World) : option (list string) :=
  (λ f, f w) <$> provider p.
Definition selectors_of (p : demandFilterProcessor) (w : World) : list string :=
  match selectorProvider p with Some sp => sp w | None => [] end.

Lemma ConsumeMetrics_ok p w md :
  cache_ok p → Forall nul_free (selectors_of p w) →
  all_metrics (λ _ m, has_points (m_data m) = true) md →
  ∃ p', ConsumeMetrics p w md = (spec_consume (demands_of p w) (selectors_of p w) md, p') ∧
        cache_ok p' ∧ provider p' = provider p ∧ selectorProvider p' = selectorProvider p.
Proof.
  intros HC F HP. unfold ConsumeMetrics, spec_consume, demands_of.
  destruct (provider p) as [dp|] eqn:EP; [|by exists p]. simpl.
  fold (selectors_of p w). destruct (selectors_of p w) as [|r raw] eqn:ER.
  { simpl. exists p. by destruct (dp w). }
  rewrite decide_True by (simpl; lia). rewrite decide_False by done. unfold consumeSelectorMode.
  destruct (parsedSelectors_ok p (r :: raw) HC ltac:(done) F) as (p' & -> & HC' & E1 & E2).
  exists p'. rewrite E1, E2, EP. split; [|done]. rewrite filterBySelectors_spec by done.
  pose proof (set_empty_compile (r :: raw)) as SE.
  destruct (set_empty (compileSelectors (r :: raw))), (parseable (r :: raw)); naive_solver.
Qed.

(** A processor's life: batches arrive one after the other while the demand
    changes between them. *)
Fixpoint run (p : demandFilterProcessor) (steps : list (World * MetricsBatch))
  : list (option MetricsBatch) :=
  match steps with
  | [] => []
  | (w, md) :: steps => let '(out, p') := ConsumeMetrics p w md in out :: run p' steps
  end.

Lemma run_ok p steps :
  cache_ok p →
  Forall (λ '(w, md), Forall nul_free (selectors_of p w) ∧
                      all_metrics (λ _ m, has_points (m_data m) = true) md) steps →
  run p steps = (λ '(w, md), spec_consume (demands_of p w) (selectors_of p w) md) <$> steps.
Proof.
  revert p. induction steps as [|[w md] steps IH]; intros p HC HF; [done|].
  apply Forall_cons in HF as [[F HP] HF].
  destruct (ConsumeMetrics_ok p w md HC F HP) as (p' & E & HC' & E1 & E2).
  assert (demands_of p' = demands_of p ∧ selectors_of p' = selectors_of p) as [ED ES].
  { unfold demands_of, selectors_of. by rewrite E1, E2. }
  simpl. rewrite E, (IH p' HC'), ED, ES; [done|]. by rewrite ES.
Qed.

Lemma cache_ok_Start exts : cache_ok (Start newDemandFilterProcessor exts).
Proof. unfold Start. intros set. by destruct (first_providing GetDemands exts) as [[ext dp]|]. Qed.

(** ** Name mode and selector mode *)

(** The selector that demands one metric name. *)
Definition name_matcher (d : string) : Matcher := MkMatcher "__name__" OpEq d ().
Definition name_selector (d : string) : string := print_selector (MkSelector [name_matcher d]).

Lemma Parse_name_selector d : Parse (name_selector d) = Ok (MkSelector [name_matcher d]).
Proof. apply parse_print_eq. split; [done|]. repeat constructor. Qed.

Lemma parseable_names ds :
  parseable (name_selector <$> ds) = (λ d, MkSelector [name_matcher d]) <$> ds.
Proof.
  induction ds as [|d ds IH]; [done|]. unfold parseable, values_of in *.
  rewrite !fmap_cons, <- IH. simpl. by rewrite Parse_name_selector.
Qed.

Lemma isMetricDemanded_family m ds :
  m_data m ≠ EmptyMetric →
  isMetricDemanded m ds = existsb (λ n, bool_decide (n ∈ ds)) (familyNames m (BaseName m)).
Proof.
  intros N. unfold isMetricDemanded, familyNames.
  destruct (m_data m); simpl; by rewrite ?orb_false_r, ?orb_assoc.
Qed.

Lemma compile_name_matcher d : compile_one (MkSelector [name_matcher d]) = MkCompiled [name_matcher d] [].
Proof. done. Qed.

Lemma elem_of_name_cands ds m cs :
  cs ∈ candidatesFor (compileSelectors (name_selector <$> ds)) (familyNames m (BaseName m)) ↔
  ∃ n, n ∈ familyNames m (BaseName m) ∧ n ∈ ds ∧ cs = MkCompiled [name_matcher n] [].
Proof.
  rewrite elem_of_cands, parseable_names. setoid_rewrite list_elem_of_fmap. split.
  - intros (sel & n & (d & -> & Hd) & -> & Hn & M). exists n. rewrite compile_name_matcher in *.
    unfold matchesName in M. simpl in M. rewrite andb_true_r in M. apply bool_decide_eq_true in M as ->.
    done.
  - intros (n & Hn & Hd & ->). exists (MkSelector [name_matcher n]), n.
    split; [by exists n|]. rewrite compile_name_matcher. split_and!; [done..|].
    unfold matchesName. simpl. by rewrite bool_decide_true.
Qed.

Lemma name_mode_verdict ds m resLabels :
  m_data m ≠ EmptyMetric →
  same_verdict (m, isMetricDemanded m (list_to_set ds))
    (filterMetricDatapoints m resLabels (compileSelectors (name_selector <$> ds))).
Proof.
  intros N. rewrite isMetricDemanded_family by done. unfold filterMetricDatapoints.
  destruct (existsb _ (familyNames m (BaseName m))) eqn:EX.
  - apply existsb_exists in EX as (n & Hn%list_elem_of_In & Hd%bool_decide_eq_true%elem_of_list_to_set).
    assert (MkCompiled [name_matcher n] [] ∈
      candidatesFor (compileSelectors (name_selector <$> ds)) (familyNames m (BaseName m))) as Hc.
    { apply elem_of_name_cands. eauto. }
    destruct (candidatesFor _ _) as [|c cl]; [by apply elem_of_nil in Hc|].
    rewrite (proj2 (existsb_exists _ _)); [by split|].
    eexists. split; [by apply list_elem_of_In|]. done.
  - destruct (candidatesFor _ _) as [|c cl] eqn:EC; [by split|]. exfalso.
    assert (c ∈ c :: cl) as Hc by left. rewrite <- EC in Hc.
    apply elem_of_name_cands in Hc as (n & Hn & Hd & ->).
    assert (existsb (λ n, bool_decide (n ∈@{gset string} list_to_set ds)) (familyNames m (BaseName m)) = true);
      [|congruence].
    apply existsb_exists. exists n. split; [by apply list_elem_of_In|].
    by apply bool_decide_eq_true, elem_of_list_to_set.
Qed.

End DemandFilter.

(** ** Properties *)

(** C1: Over any sequence of batches and demand changes, the processor started
    against its host forwards exactly what the reference filter forwards: the
    name index, the no-label fast path, the datapoint-first label lookup and
    the cached compiled set are invisible. In the reference, a datapoint
    survives when some parseable selector, its le and quantile matchers
    removed, accepts the complete label set of one of the series names the
    metric is written under, and containers left empty disappear. The batches
    carry at least one datapoint per metric and no selector contains a NUL
    byte. *)
Theorem filter_is_reference `{Regexp, UnicodeTables, PData, Namer, DemandHost}
    (exts : list Extension) (steps : list (World * MetricsBatch)) :
  let p := Start newDemandFilterProcessor exts in
  Forall (λ '(w, md), Forall nul_free (selectors_of p w) ∧
                      all_metrics (λ _ m, has_points (m_data m) = true) md) steps →
  run p steps = (λ '(w, md), spec_consume (demands_of p w) (selectors_of p w) md) <$> steps.
Proof. intros p. apply run_ok, cache_ok_Start. Qed.

(** Everything fails closed: nothing is forwarded without a demand
    provider among the extensions, with an empty name list and no selectors, or
    with selectors none of which parses, whatever the processor has cached. *)
Theorem filter_fails_closed `{Regexp, UnicodeTables, PData, Namer, DemandHost}
    (p : demandFilterProcessor) (exts : list Extension) (w : World) (md : MetricsBatch) :
  (Forall (λ e, GetDemands e = None) exts →
   (ConsumeMetrics (Start newDemandFilterProcessor exts) w md).1 = None) ∧
  (selectors_of p w = [] → demands_of p w = Some [] → (ConsumeMetrics p w md).1 = None) ∧
  (cache_ok p → Forall nul_free (selectors_of p w) → selectors_of p w ≠ [] →
   parseable (selectors_of p w) = [] → (ConsumeMetrics p w md).1 = None).
Proof.
  split_and!.
  - intros HN%first_providing_None. unfold Start. by rewrite HN.
  - intros ES ED. unfold ConsumeMetrics, demands_of, selectors_of in *.
    destruct (provider p); [|done]. simpl in ED. rewrite ES. simpl. by injection ED as ->.
  - intros HC F N EP. unfold ConsumeMetrics. fold (selectors_of p w).
    destruct (provider p); [|done]. rewrite decide_True by (destruct (selectors_of p w); simpl; [done|lia]).
    unfold consumeSelectorMode. destruct (parsedSelectors_ok p _ HC N F) as (p' & -> & _).
    by rewrite (proj2 (set_empty_compile _) EP).
Qed.

(** C32: Name-level demand is the special case of selector demand: on batches
    of typed metrics, filtering by a list of names keeps exactly what filtering
    by the selectors that pin [__name__] to each of them keeps, whatever bytes
    the names contain. *)
Theorem name_mode_is_selector_mode `{Regexp, UnicodeTables, PData, Namer}
    (ds : list string) (md : MetricsBatch) :
  all_metrics (λ _ m, m_data m ≠ EmptyMetric) md →
  filterByNames md (list_to_set ds) = filterBySelectors md (compileSelectors (name_selector <$> ds)).
Proof.
  intros HF. apply prune_verdict. unfold all_metrics in *.
  eapply Forall_impl; [exact HF|]. intros rm Hrm.
  eapply Forall_impl; [exact Hrm|]. intros sm Hsm.
  eapply Forall_impl; [exact Hsm|]. intros m. apply name_mode_verdict.
Qed.

(** ** Evaluation *)

Module DemandFilterSample.

Definition namer : Namer := {| Build name _ _ := Some name |}.

Definition point (attrs : list (string * string)) : @Point AssocPData.pdata :=
  @MkPoint AssocPData.pdata attrs ().

Definition metric (name : string) (points : list (list (string * string))) : @Metric AssocPData.pdata :=
  @MkMetric AssocPData.pdata name "" () (Gauge (point <$> points)).

Definition batch (ms : list (@Metric AssocPData.pdata)) : @MetricsBatch AssocPData.pdata :=
  [@MkResourceMetrics AssocPData.pdata [("service.name", "api")] () [@MkScopeMetrics AssocPData.pdata () ms]].

(** Two series of [up] and one of [down]. *)
Definition md := batch [metric "up" [[("env", "prod")]; [("env", "dev")]]; metric "down" [[]]].

Definition prod_only := SnapshotHost.MkSnapshot [] ["{__name__=`up`,job=`api`,env=`prod`}"] [] [] [].
Definition by_name := SnapshotHost.MkSnapshot ["down"] [] [] [] [].
Definition garbage := SnapshotHost.MkSnapshot ["down"] ["{"] [] [] [].

Definition start : @demandFilterProcessor LiteralRegexp.engine SnapshotHost.host :=
  @Start LiteralRegexp.engine SnapshotHost.host newDemandFilterProcessor [()].

Definition run_sample := @run LiteralRegexp.engine latin1_tables AssocPData.pdata namer SnapshotHost.host start.

(** One datapoint of [up] survives the first demand, [down] the second, and
    nothing the third. *)
Example sample_run :
  run_sample [(prod_only, md); (by_name, md); (garbage, md)]
  = [Some (batch [metric "up" [[("env", "prod")]]]); Some (batch [metric "down" [[]]]); None].
Proof. vm_compute. reflexivity. Qed.

End DemandFilterSample.

Lemma filter_is_reference_witness :
  let steps := [(DemandFilterSample.prod_only, DemandFilterSample.md)] in
  let p := DemandFilterSample.start in
  Forall (λ '(w, md), Forall nul_free (selectors_of p w) ∧
                      all_metrics (λ _ m, has_points (m_data m) = true) md) steps ∧
  @run LiteralRegexp.engine latin1_tables AssocPData.pdata DemandFilterSample.namer
    SnapshotHost.host p steps
  = (λ '(w, md), @spec_consume LiteralRegexp.engine latin1_tables AssocPData.pdata
       DemandFilterSample.namer (demands_of p w) (selectors_of p w) md) <$> steps.
Proof.
  intros steps p.
  assert (Forall (λ '(w, md), Forall nul_free (selectors_of p w) ∧
                      all_metrics (λ _ m, has_points (m_data m) = true) md) steps) as F.
  { subst steps p. repeat constructor. }
  split; [exact F|].
  exact (@filter_is_reference LiteralRegexp.engine latin1_tables AssocPData.pdata
    DemandFilterSample.namer SnapshotHost.host [()] steps F).
Defined.

Lemma filter_fails_closed_witness :
  let p := DemandFilterSample.start in
  (@ConsumeMetrics LiteralRegexp.engine latin1_tables AssocPData.pdata DemandFilterSample.namer
    SnapshotHost.host p DemandFilterSample.garbage DemandFilterSample.md).1 = None.
Proof.
  intros p.
  apply (@filter_fails_closed LiteralRegexp.engine latin1_tables AssocPData.pdata
    DemandFilterSample.namer SnapshotHost.host p [()] DemandFilterSample.garbage DemandFilterSample.md).
  - intros set E. discriminate E.
  - repeat constructor.
  - discriminate.
  - reflexivity.
Defined.

Lemma name_mode_is_selector_mode_witness :
  let md := DemandFilterSample.md in
  all_metrics (λ _ m, m_data m ≠ EmptyMetric) md ∧
  @filterByNames AssocPData.pdata DemandFilterSample.namer md (list_to_set ["up"])
  = @filterBySelectors LiteralRegexp.engine latin1_tables AssocPData.pdata DemandFilterSample.namer md
      (@compileSelectors LiteralRegexp.engine
         (@name_selector LiteralRegexp.engine latin1_tables <$> ["up"])).
Proof.
  intros md. assert (all_metrics (λ _ m, m_data m ≠ EmptyMetric) md) as F by by repeat constructor.
  split; [exact F|].
  exact (@name_mode_is_selector_mode LiteralRegexp.engine latin1_tables AssocPData.pdata
    DemandFilterSample.namer ["up"] md F).
Defined.
