(* ===== verification/SelectorCache.v ===== *)
(** The parsed-selector cache of the log and trace demand filters
    (logdemandfilter/processor.go and tracedemandfilter/processor.go,
    [parsedSelectors] and [parsedRoutes]): the demand list is re-parsed only
    when its joined key changed.

    The three caches of the source differ in the entry type, the key of an
    entry and the parser, which are the section's variables. [cache_ok] is the
    invariant, and [cached_ok] the refinement: reading through the cache is
    parsing afresh. *)

From S2P Require Import Prelude Demand.

Record cache (P : Type) := MkCache { cachedKey : string; cachedParsed : list P }.
Arguments MkCache {P} cachedKey cachedParsed.
Arguments cachedKey {P} c.
Arguments cachedParsed {P} c.

Section SelectorCache.
Context {I P : Type} (keyOf : I → string) (parseOne : I → option P).

(** Parse every entry, skipping the ones that fail. *)
Definition parse_all (items : list I) : list P := omap parseOne items.

Definition cached (c : cache P) (items : list I) : list P * cache P :=
  let key := Join (keyOf <$> items) (String NUL "") in
  if decide (key = cachedKey c) then (cachedParsed c, c)
  else let parsed := parse_all items in (parsed, MkCache key parsed).

(** The zero value of the struct. *)
Definition empty_cache : cache P := MkCache "" [].

(** Entries for which the key is faithful. *)
Context (good : I → Prop).
Hypothesis keyOf_nul_free : ∀ i, good i → nul_free (keyOf i).
Hypothesis keyOf_inj : ∀ i j, good i → good j → keyOf i = keyOf j → i = j.
Hypothesis empty_key_unparseable : ∀ i, good i → keyOf i = "" → parseOne i = None.

Definition cache_ok (c : cache P) : Prop :=
  ∀ items, items ≠ [] → Forall good items →
    Join (keyOf <$> items) (String NUL "") = cachedKey c → cachedParsed c = parse_all items.

Lemma keys_nul_free items : Forall good items → Forall nul_free (keyOf <$> items).
Proof. intros F. apply Forall_fmap. eapply Forall_impl; [exact F|]. apply keyOf_nul_free. Qed.

Lemma fmap_keyOf_inj l k : Forall good l → Forall good k → keyOf <$> l = keyOf <$> k → l = k.
Proof.
  intros Fl; revert k. induction Fl as [|x l Hx Fl IH]; intros [|y k] Fk E; try done.
  apply Forall_cons in Fk as [Hy Fk]. simpl in E. injection E as E1 E2.
  f_equal; [by apply keyOf_inj|by apply IH].
Qed.

Lemma joined_keys_inj l k :
  l ≠ [] → k ≠ [] → Forall good l → Forall good k →
  Join (keyOf <$> l) (String NUL "") = Join (keyOf <$> k) (String NUL "") → l = k.
Proof.
  intros Nl Nk Fl Fk E. apply fmap_keyOf_inj; [done..|].
  apply (Join_inj NUL); [by destruct l|by destruct k|by apply keys_nul_free..|done].
Qed.

Lemma empty_cache_ok : cache_ok empty_cache.
Proof.
  intros [|x [|y l]] N F E; [done| |].
  - simpl in *. apply Forall_cons in F as [Hx _]. by rewrite empty_key_unparseable.
  - rewrite !fmap_cons, Join_cons2 in E. destruct (keyOf x); done.
Qed.

Lemma cached_ok c items :
  cache_ok c → items ≠ [] → Forall good items →
  (cached c items).1 = parse_all items ∧ cache_ok (cached c items).2.
Proof.
  intros HC N F. unfold cached. case_decide as E; simpl; [by split; [apply HC|]|].
  split; [done|]. intros items' N' F' E'. simpl in *.
  by rewrite (joined_keys_inj items items').
Qed.

End SelectorCache.

Arguments empty_cache {P}.

(** The first two caches are keyed by the selector text itself. *)
Definition ok_value {E A} (r : result E A) : option A :=
  match r with Ok a => Some a | Err _ => None end.
