(* ===== verification/LogFilter.v ===== *)
(** Package [leansignallogdemandfilter] (components/logdemandfilter): the log
    demand filter. A ResourceLogs group is forwarded when the Loki stream
    labels of its resource match any demanded selector. *)

From S2P Require Import Prelude GoText Selector PData Demand SelectorCache.

Section LogFilter.
Context `{Regexp, PData, DemandHost}.

Definition defaultServiceName : string := "unknown_service".

Definition promotedResourceAttributes : list string := [
  "cloud.availability_zone";
  "cloud.region";
  "container.name";
  "deployment.environment";
  "deployment.environment.name";
  "k8s.cluster.name";
  "k8s.container.name";
  "k8s.cronjob.name";
  "k8s.daemonset.name";
  "k8s.deployment.name";
  "k8s.job.name";
  "k8s.namespace.name";
  "k8s.pod.name";
  "k8s.replicaset.name";
  "k8s.statefulset.name";
  "service.instance.id";
  "service.name";
  "service.namespace"].

(** [strings.ReplaceAll(attr, ".", "_")]. *)
Fixpoint dots_to_underscores (s : string) : string :=
  match s with
  | "" => ""
  | String c s => String (if decide (c = "."%char) then "_"%char else c) (dots_to_underscores s)
  end.

Definition promotedLabelNames : list string := dots_to_underscores <$> promotedResourceAttributes.

(** One round of the promotion loop. *)
Definition promote (attrs : AttrMap) (labels : gmap string string) (nm : string * string) : gmap string string :=
  match Get attrs nm.1 with Some v => <[nm.2 := AsString v]> labels | None => labels end.

Definition streamLabels (attrs : AttrMap) : gmap string string :=
  let labels := foldl (promote attrs) ∅ (zip promotedResourceAttributes promotedLabelNames) in
  match labels !! "service_name" with
  | None => <["service_name" := defaultServiceName]> labels
  | Some _ => labels
  end.

Record logDemandFilterProcessor := MkLogProcessor {
  log_provider : option (World → list string);
  log_cache : cache Selector;
}.

Definition newLogDemandFilterProcessor : logDemandFilterProcessor := MkLogProcessor None empty_cache.

Definition LogStart (p : logDemandFilterProcessor) (exts : list Extension) : logDemandFilterProcessor :=
  match first_providing GetLogDemands exts with
  | Some (_, dp) => MkLogProcessor (Some dp) (log_cache p)
  | None => p
  end.

Definition log_parse (s : string) : option Selector := ok_value (Parse s).

Definition parsedLogSelectors (p : logDemandFilterProcessor) (raw : list string)
  : list Selector * logDemandFilterProcessor :=
  let '(sels, c) := cached id log_parse (log_cache p) raw in
  (sels, MkLogProcessor (log_provider p) c).

(** The groups handed to the next consumer, if it is called. *)
Definition ConsumeLogs (p : logDemandFilterProcessor) (w : World) (ld : list ResourceLogs)
  : option (list ResourceLogs) * logDemandFilterProcessor :=
  match log_provider p with
  | None => (None, p)
  | Some getLogDemands =>
      let raw := getLogDemands w in
      if decide (length raw = 0) then (None, p)
      else
        let '(selectors, p) := parsedLogSelectors p raw in
        if decide (length selectors = 0) then (None, p)
        else
          (Some (remove_if (λ rl,
             let labels := streamLabels (rl_attrs rl) in
             (rl, negb (existsb (λ sel, Selector_Matches sel labels) selectors))) ld), p)
  end.

(** ** Stream labels *)

Lemma promote_lookup attrs l labels k :
  NoDup l.*2 →
  foldl (promote attrs) labels l !! k =
  match list_find (λ nm, nm.2 = k) l with
  | Some (_, nm) => match Get attrs nm.1 with Some v => Some (AsString v) | None => labels !! k end
  | None => labels !! k
  end.
Proof.
  revert labels. induction l as [|[a n] l IH]; intros labels ND; [done|].
  simpl in ND. apply NoDup_cons in ND as [Nn ND]. simpl. rewrite IH by done. unfold promote. simpl.
  destruct (decide (n = k)) as [->|Nk].
  - destruct (list_find (λ nm, nm.2 = k) l) as [[i nm]|] eqn:E; simpl.
    + apply list_find_Some in E as (Hi & <- & _). exfalso. apply Nn.
      apply list_elem_of_fmap. exists nm. split; [done|]. by eapply list_elem_of_lookup_2.
    + by destruct (Get attrs a); rewrite ?lookup_insert_eq.
  - assert (∀ m : gmap string string,
      match Get attrs a with Some v => <[n:=AsString v]> m | None => m end !! k = m !! k) as E.
    { intros m. destruct (Get attrs a); [by rewrite lookup_insert_ne|done]. }
    rewrite E. by destruct (list_find (λ nm, nm.2 = k) l) as [[i nm]|].
Qed.

(** The promoted attribute a stream label comes from. *)
Definition promoted_as (k : string) : option string :=
  match list_find (λ nm, nm.2 = k) (zip promotedResourceAttributes promotedLabelNames) with
  | Some (_, nm) => Some nm.1
  | None => None
  end.

Lemma promoted_lookup attrs k :
  foldl (promote attrs) ∅ (zip promotedResourceAttributes promotedLabelNames) !! k
  = AsString <$> (promoted_as k ≫= Get attrs).
Proof.
  rewrite promote_lookup by (vm_compute; apply (bool_decide_unpack _); reflexivity).
  unfold promoted_as. destruct (list_find _ _) as [[i nm]|]; [|done]. simpl. by destruct (Get attrs nm.1).
Qed.

Lemma streamLabels_lookup attrs k :
  streamLabels attrs !! k =
  match promoted_as k ≫= Get attrs with
  | Some v => Some (AsString v)
  | None => if decide (k = "service_name") then Some defaultServiceName else None
  end.
Proof.
  unfold streamLabels. pose proof (promoted_lookup attrs) as E. revert E.
  generalize (foldl (promote attrs) ∅ (zip promotedResourceAttributes promotedLabelNames)).
  generalize promoted_as. intros src labels E. rewrite (E "service_name").
  destruct (src "service_name" ≫= Get attrs) as [v|] eqn:Ev; simpl.
  - rewrite E. case_decide as Hk; [subst; by rewrite Ev|]. by destruct (src k ≫= Get attrs).
  - case_decide as Hk; [subst; by rewrite lookup_insert_eq, Ev|].
    rewrite lookup_insert_ne by done. rewrite E. by destruct (src k ≫= Get attrs).
Qed.

(** ** The filter *)

Lemma log_cached_ok c raw :
  cache_ok id log_parse nul_free c → raw ≠ [] → Forall nul_free raw →
  (cached id log_parse c raw).1 = parse_all log_parse raw ∧
  cache_ok id log_parse nul_free (cached id log_parse c raw).2.
Proof. apply cached_ok; auto. Qed.

(** The demand read by the processor. *)
Definition log_demand (p : logDemandFilterProcessor) (w : World) : list string :=
  match log_provider p with Some f => f w | None => [] end.

(** The reference: keep a group when its stream labels match a parseable
    selector; call nobody when there is none. *)
Definition spec_logs (raw : list string) (ld : list ResourceLogs) : option (list ResourceLogs) :=
  match parse_all log_parse raw with
  | [] => None
  | sels =>
      Some (filter (λ rl, existsb (λ sel, Selector_Matches sel (streamLabels (rl_attrs rl))) sels = true) ld)
  end.

Lemma filter_bool {A} (p : A → bool) l :
  remove_if (λ x, (x, negb (p x))) l = filter (λ x, p x = true) l.
Proof.
  rewrite (remove_if_filter (λ x, negb (p x))). apply list_filter_iff. intros x. by destruct (p x).
Qed.

Lemma ConsumeLogs_ok p w ld :
  cache_ok id log_parse nul_free (log_cache p) → Forall nul_free (log_demand p w) →
  ∃ p', ConsumeLogs p w ld = (spec_logs (log_demand p w) ld, p') ∧
        cache_ok id log_parse nul_free (log_cache p') ∧ log_provider p' = log_provider p.
Proof.
  intros HC F. unfold ConsumeLogs, log_demand in *.
  destruct (log_provider p) as [f|] eqn:EP; [|by exists p].
  destruct (f w) as [|r raw] eqn:ER; [by exists p|]. rewrite decide_False by done.
  unfold parsedLogSelectors, spec_logs. pose proof (log_cached_ok (log_cache p) (r :: raw) HC) as [E1 E2]; [done..|].
  destruct (cached id log_parse (log_cache p) (r :: raw)) as [sels c] eqn:EC. cbn [fst snd] in E1, E2. subst sels.
  exists (MkLogProcessor (Some f) c). rewrite EP.
  split_and!; [|exact E2|done].
  destruct (parse_all log_parse (r :: raw)) as [|s sels]; [done|]. rewrite decide_False by done.
  do 2 f_equal. apply (filter_bool (λ rl, existsb (λ sel, Selector_Matches sel (streamLabels (rl_attrs rl))) (s :: sels))).
Qed.

Fixpoint run_logs (p : logDemandFilterProcessor) (steps : list (World * list ResourceLogs))
  : list (option (list ResourceLogs)) :=
  match steps with
  | [] => []
  | (w, ld) :: steps => let '(out, p') := ConsumeLogs p w ld in out :: run_logs p' steps
  end.

Lemma run_logs_ok p steps :
  cache_ok id log_parse nul_free (log_cache p) →
  Forall (λ '(w, _), Forall nul_free (log_demand p w)) steps →
  run_logs p steps = (λ '(w, ld), spec_logs (log_demand p w) ld) <$> steps.
Proof.
  revert p. induction steps as [|[w ld] steps IH]; intros p HC HF; [done|].
  apply Forall_cons in HF as [F HF].
  destruct (ConsumeLogs_ok p w ld HC F) as (p' & E & HC' & EP).
  assert (log_demand p' = log_demand p) as ED by (unfold log_demand; by rewrite EP).
  simpl. rewrite E, (IH p' HC'), ED; [done|]. by rewrite ED.
Qed.

Lemma LogStart_cache exts : log_cache (LogStart newLogDemandFilterProcessor exts) = empty_cache.
Proof. unfold LogStart. by destruct (first_providing GetLogDemands exts) as [[]|]. Qed.

End LogFilter.

(** ** Properties *)

(** C5: Over any sequence of batches and demand changes the log filter, cache
    included, forwards exactly the groups whose Loki stream labels match one of
    the parseable selectors in force, in order and unmodified; and it calls the
    next consumer only when a provider exists and at least one selector parses.
    No selector contains a NUL byte. *)
Theorem log_filter_is_reference `{Regexp, PData, DemandHost}
    (exts : list Extension) (steps : list (World * list ResourceLogs)) :
  let p := LogStart newLogDemandFilterProcessor exts in
  Forall (λ '(w, _), Forall nul_free (log_demand p w)) steps →
  run_logs p steps = (λ '(w, ld), spec_logs (log_demand p w) ld) <$> steps.
Proof.
  intros p. apply run_logs_ok. subst p. rewrite LogStart_cache. apply empty_cache_ok.
  intros i _ E. unfold id in E. by subst.
Qed.

(** The stream labels a selector is evaluated against are exactly the
    promoted resource attributes under their underscored names, and
    service_name is always present, "unknown_service" when the resource does
    not carry it. *)
Theorem stream_labels_exact `{PData} (attrs : AttrMap) (k : string) :
  streamLabels attrs !! k =
  match promoted_as k ≫= Get attrs with
  | Some v => Some (AsString v)
  | None => if decide (k = "service_name") then Some defaultServiceName else None
  end.
Proof. apply streamLabels_lookup. Qed.

(** ** Evaluation *)

Module LogFilterSample.

Definition group (attrs : list (string * string)) : @ResourceLogs AssocPData.pdata :=
  @MkResourceLogs AssocPData.pdata attrs () [].

Definition ld := [group [("service.name", "api"); ("k8s.pod.name", "p1")]; group []].

Definition demand (sels : list string) := SnapshotHost.MkSnapshot [] [] sels [] [].

Definition start : @logDemandFilterProcessor LiteralRegexp.engine SnapshotHost.host :=
  @LogStart LiteralRegexp.engine SnapshotHost.host newLogDemandFilterProcessor [()].

Definition steps := [(demand ["{service_name=`api`}"], ld); (demand ["{service_name=`unknown_service`}"], ld);
                     (demand [""], ld); (demand [], ld)].

Example sample_run_logs :
  @run_logs LiteralRegexp.engine AssocPData.pdata SnapshotHost.host start steps
  = [Some [group [("service.name", "api"); ("k8s.pod.name", "p1")]]; Some [group []]; None; None].
Proof. vm_compute. reflexivity. Qed.

End LogFilterSample.

Lemma log_filter_is_reference_witness :
  let p := LogFilterSample.start in
  Forall (λ '(w, _), Forall nul_free (log_demand p w)) LogFilterSample.steps ∧
  @run_logs LiteralRegexp.engine AssocPData.pdata SnapshotHost.host p LogFilterSample.steps
  = (λ '(w, ld), @spec_logs LiteralRegexp.engine AssocPData.pdata (log_demand p w) ld)
      <$> LogFilterSample.steps.
Proof.
  intros p.
  assert (Forall (λ '(w, _), Forall nul_free (log_demand p w)) LogFilterSample.steps) as F
    by repeat constructor.
  split; [exact F|].
  exact (@log_filter_is_reference LiteralRegexp.engine AssocPData.pdata SnapshotHost.host
    [()] LogFilterSample.steps F).
Defined.
