(* ===== verification/TraceFilter.v ===== *)
(** Package [leansignaltracedemandfilter] (components/tracedemandfilter): the
    trace demand filter. Without routes it keeps the ResourceSpans groups that
    match any demanded selector; with routes it emits one stamped copy of a
    group per matching ingestion rule. *)

From S2P Require Import Prelude GoText Selector PData Demand SelectorCache LogFilter.

Section TraceFilter.
Context `{Regexp, PData, DemandHost}.

Definition FilterIDAttr : string := "leansignal.trace.filter_id".

Definition resourceLabels (attrs : AttrMap) : gmap string string :=
  foldl (λ labels '(k, v), <["resource." +:+ k := AsString v]> labels) ∅ (entries attrs).

Record parsedRoute := MkParsedRoute { pr_selector : Selector; pr_filterID : string }.

Record traceDemandFilterProcessor := MkTraceProcessor {
  trace_provider : option (World → list string);
  routes : option (World → list Route);
  trace_cache : cache Selector;
  route_cache : cache parsedRoute;
}.

Definition newTraceDemandFilterProcessor : traceDemandFilterProcessor :=
  MkTraceProcessor None None empty_cache empty_cache.

Definition TraceStart (p : traceDemandFilterProcessor) (exts : list Extension) : traceDemandFilterProcessor :=
  match first_providing GetTraceDemands exts with
  | Some (ext, dp) =>
      MkTraceProcessor (Some dp)
        (match GetTraceRoutes ext with Some rp => Some rp | None => routes p end)
        (trace_cache p) (route_cache p)
  | None => p
  end.

Definition trace_parse (s : string) : option Selector := ok_value (ParseDotted s).

Definition parsedTraceSelectors (p : traceDemandFilterProcessor) (raw : list string)
  : list Selector * traceDemandFilterProcessor :=
  let '(sels, c) := cached id trace_parse (trace_cache p) raw in
  (sels, MkTraceProcessor (trace_provider p) (routes p) c (route_cache p)).

Definition route_key (r : Route) : string := FilterID r +:+ "=" +:+ RouteSelector r.

Definition route_parse (r : Route) : option parsedRoute :=
  match ParseDotted (RouteSelector r) with
  | Ok sel => Some (MkParsedRoute sel (FilterID r))
  | Err _ => None
  end.

Definition parsedRoutes (p : traceDemandFilterProcessor) (rs : list Route)
  : list parsedRoute * traceDemandFilterProcessor :=
  let '(parsed, c) := cached route_key route_parse (route_cache p) rs in
  (parsed, MkTraceProcessor (trace_provider p) (routes p) (trace_cache p) c).

(** [rs.CopyTo(dst); dst.Resource().Attributes().PutStr(FilterIDAttr, id)]. *)
Definition stamp (rs : ResourceSpans) (filterID : string) : ResourceSpans :=
  MkResourceSpans (PutStr (rs_attrs rs) FilterIDAttr filterID) (rs_info rs) (rs_scopes rs).

(** The inner loop over the routes, for one group. *)
Definition route_copies (parsed : list parsedRoute) (rs : ResourceSpans) : list ResourceSpans :=
  let labels := resourceLabels (rs_attrs rs) in
  omap (λ pr, if negb (Selector_Matches (pr_selector pr) labels) then None
              else Some (stamp rs (pr_filterID pr))) parsed.

Definition consumeRouted (p : traceDemandFilterProcessor) (td : list ResourceSpans) (rs : list Route)
  : option (list ResourceSpans) * traceDemandFilterProcessor :=
  let '(parsed, p) := parsedRoutes p rs in
  if decide (length parsed = 0) then (None, p)
  else
    let out := td ≫= route_copies parsed in
    let emitted := SpanCount out in
    if decide (emitted = 0) then (None, p) else (Some out, p).

Definition ConsumeTraces (p : traceDemandFilterProcessor) (w : World) (td : list ResourceSpans)
  : option (list ResourceSpans) * traceDemandFilterProcessor :=
  match trace_provider p with
  | None => (None, p)
  | Some getTraceDemands =>
      let rs := match routes p with Some f => f w | None => [] end in
      if decide (0 < length rs) then consumeRouted p td rs
      else
        let raw := getTraceDemands w in
        if decide (length raw = 0) then (None, p)
        else
          let '(selectors, p) := parsedTraceSelectors p raw in
          if decide (length selectors = 0) then (None, p)
          else
            (Some (remove_if (λ rs,
               let labels := resourceLabels (rs_attrs rs) in
               (rs, negb (existsb (λ sel, Selector_Matches sel labels) selectors))) td), p)
  end.

(** ** Reference *)

Definition trace_demand (p : traceDemandFilterProcessor) (w : World) : list string :=
  match trace_provider p with Some f => f w | None => [] end.
Definition trace_routes (p : traceDemandFilterProcessor) (w : World) : list Route :=
  match routes p with Some f => f w | None => [] end.

(** The stamped copies a routing table demands of a batch, cache-free. *)
Definition routed_copies (rs : list Route) (td : list ResourceSpans) : list ResourceSpans :=
  td ≫= route_copies (parse_all route_parse rs).

Definition spec_traces (has_provider : bool) (rs : list Route) (raw : list string)
    (td : list ResourceSpans) : option (list ResourceSpans) :=
  if negb has_provider then None
  else if decide (rs = []) then
    match parse_all trace_parse raw with
    | [] => None
    | sels =>
        Some (filter (λ g, existsb (λ sel, Selector_Matches sel (resourceLabels (rs_attrs g))) sels = true) td)
    end
  else
    let out := routed_copies rs td in
    if decide (SpanCount out = 0) then None else Some out.

(** A route whose cache key is faithful: a rule id has no '=' and neither part
    has a NUL byte. *)
Definition route_good (r : Route) : Prop :=
  Contains (FilterID r) "=" = false ∧ nul_free (FilterID r) ∧ nul_free (RouteSelector r).

Lemma route_key_nul_free r : route_good r → nul_free (route_key r).
Proof.
  intros (_ & F & S). unfold route_key, nul_free in *. by rewrite !Contains_app, F, S.
Qed.

Lemma route_key_inj r1 r2 : route_good r1 → route_good r2 → route_key r1 = route_key r2 → r1 = r2.
Proof.
  intros (E1 & _) (E2 & _) E. unfold route_key in E. autorewrite with go_str in E.
  apply app_sep_inj in E as [? ?]; [|done..]. destruct r1, r2; simpl in *; congruence.
Qed.

Lemma route_key_nonempty r : route_key r ≠ "".
Proof. unfold route_key. by destruct (FilterID r). Qed.

(** Both caches are coherent. *)
Definition trace_caches_ok (p : traceDemandFilterProcessor) : Prop :=
  cache_ok id trace_parse nul_free (trace_cache p) ∧
  cache_ok route_key route_parse route_good (route_cache p).

Lemma routed_copies_none rs td : parse_all route_parse rs = [] → routed_copies rs td = [].
Proof. intros E. unfold routed_copies. rewrite E. by induction td. Qed.

Lemma consumeRouted_ok p td rs :
  trace_caches_ok p → rs ≠ [] → Forall route_good rs →
  ∃ p', consumeRouted p td rs
        = (if decide (SpanCount (routed_copies rs td) = 0) then None else Some (routed_copies rs td), p') ∧
        trace_caches_ok p' ∧ trace_provider p' = trace_provider p ∧ routes p' = routes p.
Proof.
  intros [HC HR] N F. unfold consumeRouted, parsedRoutes.
  destruct (cached_ok route_key route_parse route_good route_key_nul_free route_key_inj
    (route_cache p) rs HR N F) as [E1 E2].
  destruct (cached route_key route_parse (route_cache p) rs) as [parsed c]. cbn [fst snd] in E1, E2. subst parsed.
  exists (MkTraceProcessor (trace_provider p) (routes p) (trace_cache p) c).
  split_and!; [|exact (conj HC E2)|done..].
  fold (routed_copies rs td). destruct (decide (length (parse_all route_parse rs) = 0)) as [E|E].
  - apply length_zero_iff_nil in E. by rewrite routed_copies_none.
  - by case_decide.
Qed.

Lemma ConsumeTraces_ok p w td :
  trace_caches_ok p → Forall nul_free (trace_demand p w) → Forall route_good (trace_routes p w) →
  ∃ p', ConsumeTraces p w td
        = (spec_traces (bool_decide (is_Some (trace_provider p))) (trace_routes p w) (trace_demand p w) td, p') ∧
        trace_caches_ok p' ∧ trace_provider p' = trace_provider p ∧ routes p' = routes p.
Proof.
  intros HC F FR. unfold ConsumeTraces, spec_traces, trace_demand in *. fold (trace_routes p w) in *.
  destruct (trace_provider p) as [f|] eqn:EP; [|by exists p].
  rewrite (bool_decide_true (is_Some (Some f))) by eauto. cbn [negb].
  destruct (decide (trace_routes p w = [])) as [ER|NR].
  - rewrite ER, decide_False by (simpl; lia). destruct (f w) as [|r raw]; [by exists p|].
    rewrite decide_False by done. unfold parsedTraceSelectors. destruct HC as [HC HR].
    destruct (cached_ok id trace_parse nul_free (λ _ h, h) (λ _ _ _ _ h, h) (trace_cache p) (r :: raw) HC) as [E1 E2]; [done..|].
    destruct (cached id trace_parse (trace_cache p) (r :: raw)) as [sels c]. cbn [fst snd] in E1, E2. subst sels.
    exists (MkTraceProcessor (trace_provider p) (routes p) c (route_cache p)).
    split_and!; [|exact (conj E2 HR)|done..].
    destruct (parse_all trace_parse (r :: raw)) as [|s sels]; [done|]. rewrite decide_False by done.
    do 2 f_equal. apply (filter_bool (λ g, existsb (λ sel, Selector_Matches sel (resourceLabels (rs_attrs g))) (s :: sels))).
  - rewrite decide_True by (destruct (trace_routes p w); simpl; [done|lia]).
    destruct (consumeRouted_ok p td (trace_routes p w) HC NR FR) as (p' & -> & HC' & EP' & ERt).
    exists p'. by rewrite EP'.
Qed.

Fixpoint run_traces (p : traceDemandFilterProcessor) (steps : list (World * list ResourceSpans))
  : list (option (list ResourceSpans)) :=
  match steps with
  | [] => []
  | (w, td) :: steps => let '(out, p') := ConsumeTraces p w td in out :: run_traces p' steps
  end.

Lemma run_traces_ok p steps :
  trace_caches_ok p →
  Forall (λ '(w, _), Forall nul_free (trace_demand p w) ∧ Forall route_good (trace_routes p w)) steps →
  run_traces p steps
  = (λ '(w, td), spec_traces (bool_decide (is_Some (trace_provider p)))
                   (trace_routes p w) (trace_demand p w) td) <$> steps.
Proof.
  revert p. induction steps as [|[w td] steps IH]; intros p HC HF; [done|].
  apply Forall_cons in HF as [[F FR] HF].
  destruct (ConsumeTraces_ok p w td HC F FR) as (p' & E & HC' & EP & ER).
  assert (trace_demand p' = trace_demand p ∧ trace_routes p' = trace_routes p) as [ED ET].
  { unfold trace_demand, trace_routes. by rewrite EP, ER. }
  cbn [run_traces]. rewrite E, fmap_cons, (IH p' HC'), ED, ET, EP; [done|]. by rewrite ED, ET.
Qed.

Lemma TraceStart_caches exts : trace_caches_ok (TraceStart newTraceDemandFilterProcessor exts).
Proof.
  assert (trace_caches_ok newTraceDemandFilterProcessor) as [? ?].
  { split; apply empty_cache_ok; intros i _ E; [unfold id in E; by subst|by apply route_key_nonempty in E]. }
  unfold TraceStart. by destruct (first_providing GetTraceDemands exts) as [[]|].
Qed.

(** ** Routed copies *)

End TraceFilter.

(** ** Properties *)

(** C4: Over any sequence of batches and demand or routing changes the trace
    filter, both caches included, behaves as the reference: without a provider
    nothing is forwarded; with routes in force each group is emitted once per
    route whose selector parses and matches its resource, stamped with that
    rule's id, and nothing is forwarded when no span is left; otherwise the
    groups matching any parseable selector are forwarded unmodified, and nothing
    when none parses. Selectors have no NUL byte and rule ids no '='. *)
Theorem trace_filter_is_reference `{Regexp, PData, DemandHost}
    (exts : list Extension) (steps : list (World * list ResourceSpans)) :
  let p := TraceStart newTraceDemandFilterProcessor exts in
  Forall (λ '(w, _), Forall nul_free (trace_demand p w) ∧ Forall route_good (trace_routes p w)) steps →
  run_traces p steps
  = (λ '(w, td), spec_traces (bool_decide (is_Some (trace_provider p)))
                   (trace_routes p w) (trace_demand p w) td) <$> steps.
Proof. intros p. apply run_traces_ok, TraceStart_caches. Qed.

(** ** Evaluation *)

Module TraceFilterSample.

Definition group (attrs : list (string * string)) : @ResourceSpans AssocPData.pdata :=
  @MkResourceSpans AssocPData.pdata attrs () [@MkScopeSpans AssocPData.pdata () [()]].

Definition api := [("service.name", "api")].
Definition td := [group api; group [("service.name", "db")]].

Definition route_api := MkRoute "r1" "{resource.service.name=`api`}".
Definition route_any := MkRoute "r2" "{resource.service.name=~`api|web`}".

Definition demand (sels : list string) (rs : list Route) := SnapshotHost.MkSnapshot [] [] [] sels rs.

Definition start : @traceDemandFilterProcessor LiteralRegexp.engine SnapshotHost.host :=
  @TraceStart LiteralRegexp.engine SnapshotHost.host newTraceDemandFilterProcessor [()].

Definition steps :=
  [(demand [] [route_api; route_any], td); (demand ["{resource.service.name=`db`}"] [], td);
   (demand [] [MkRoute "r3" "{"], td)].

(** Two stamped copies of the matching group; then the legacy mode; then a
    routing table that does not parse. *)
Example sample_run_traces :
  @run_traces LiteralRegexp.engine AssocPData.pdata SnapshotHost.host start steps
  = [Some [group (api ++ [(FilterIDAttr, "r1")]); group (api ++ [(FilterIDAttr, "r2")])];
     Some [group [("service.name", "db")]]; None].
Proof. vm_compute. reflexivity. Qed.

End TraceFilterSample.

Lemma trace_filter_is_reference_witness :
  let p := TraceFilterSample.start in
  let steps := TraceFilterSample.steps in
  Forall (λ '(w, _), Forall nul_free (trace_demand p w) ∧ Forall route_good (trace_routes p w)) steps ∧
  @run_traces LiteralRegexp.engine AssocPData.pdata SnapshotHost.host p steps
  = (λ '(w, td), @spec_traces LiteralRegexp.engine AssocPData.pdata
       (bool_decide (is_Some (trace_provider p))) (trace_routes p w) (trace_demand p w) td) <$> steps.
Proof.
  intros p steps.
  assert (Forall (λ '(w, _), Forall nul_free (trace_demand p w) ∧ Forall route_good (trace_routes p w)) steps)
    as F by repeat constructor.
  split; [exact F|].
  exact (@trace_filter_is_reference LiteralRegexp.engine AssocPData.pdata SnapshotHost.host [()] steps F).
Defined.
