(* ===== verification/TraceRouter.v ===== *)
(** Package [leansignaltracerouter] (components/tracerouter): the exporter that
    pushes each ingestion rule's spans with that rule's header, so that they
    land in the rule's own Tempo organisation.

    The protobuf encoder and the HTTP transport are the parameter
    [TraceTransport]: the transport answers a request given everything sent
    before it, so retries and changing servers are covered. The theorems show
    that grouping neither loses nor duplicates spans, that routed spans reach
    exactly the rule that demanded them with their attributes intact, and how a
    push ends for every status; among them what a permanent failure does to the
    groups that were not sent yet. *)

From S2P Require Import Prelude GoText Selector PData Demand SelectorCache LogFilter TraceFilter.

Definition RuleHeader : string := "X-Lean-Trace-Rule".

(** [textproto.CanonicalMIMEHeaderKey], the key normalization of
    [http.Header.Set]. *)
Definition header_byte (c : ascii) : bool :=
  let b := code c in
  between 48 b 57 || between 65 b 90 || between 97 b 122
  || bool_decide (c ∈ bytes "!#$%&'*+-.^_`|~").

Definition to_upper (c : ascii) : ascii := if between 97 (code c) 122 then byte_of (code c - 32) else c.
Definition to_lower (c : ascii) : ascii := if between 65 (code c) 90 then byte_of (code c + 32) else c.

Fixpoint canonical_bytes (upper : bool) (s : string) : string :=
  match s with
  | "" => ""
  | String c s => String (if upper then to_upper c else to_lower c)
                    (canonical_bytes (bool_decide (c = "-"%char)) s)
  end.

Definition CanonicalHeaderKey (s : string) : string :=
  if str_forall header_byte s then canonical_bytes true s else s.

Definition header_set (h : gmap string string) (k v : string) : gmap string string :=
  <[CanonicalHeaderKey k := v]> h.

(** ** Configuration *)

(** [Headers] in its iteration order; [Timeout] in nanoseconds. *)
Record RouterConfig := MkRouterConfig {
  Endpoint : string;
  Headers : list (string * string);
  Timeout : Z;
}.

Inductive RouterConfigError := ErrEndpointRequired | ErrTimeoutNotPositive.

Definition RouterValidate (c : RouterConfig) : result RouterConfigError () :=
  if blank (Endpoint c) then Err ErrEndpointRequired
  else if decide (Timeout c ≤ 0)%Z then Err ErrTimeoutNotPositive
  else Ok ().

(** ** Transport *)

Record Request (Body : Type) := MkRequest {
  req_url : string;
  req_header : gmap string string;
  req_body : Body;
}.
Arguments MkRequest {Body} req_url req_header req_body.
Arguments req_url {Body} _.
Arguments req_header {Body} _.
Arguments req_body {Body} _.

Class TraceTransport `{PData} := {
  Body : Type;
  (** [ptraceotlp.NewExportRequestFromTraces(td).MarshalProto()]. *)
  MarshalProto : list ResourceSpans → option Body;
  (** Whether [http.NewRequestWithContext] accepts the URL. *)
  url_ok : string → bool;
  (** [client.Do]: the status of the response, [None] for a transport error. *)
  Do : list (Request Body) → Request Body → option Z;
}.

(** The error of one push; [Permanent] is [consumererror.NewPermanent]. *)
Inductive PushError :=
| ErrMarshal
| ErrNewRequest
| ErrDo
| ErrStatus (code : Z)
| Permanent (e : PushError).

Definition IsPermanent (e : PushError) : bool := match e with Permanent _ => true | _ => false end.

Section TraceRouter.
Context `{Regexp, TraceTransport} (cfg : RouterConfig).

Definition tracesURL : string := TrimRightByte (Endpoint cfg) "/" +:+ "/v1/traces".

(** The group a ResourceSpans belongs to, and its copy without the stamp. *)
Definition filter_id (rs : ResourceSpans) : string :=
  match Get (rs_attrs rs) FilterIDAttr with Some v => Str v | None => "" end.

Definition unstamp (rs : ResourceSpans) : ResourceSpans :=
  MkResourceSpans (Remove (rs_attrs rs) FilterIDAttr) (rs_info rs) (rs_scopes rs).

Definition group_step (out : gmap string (list ResourceSpans)) (rs : ResourceSpans)
  : gmap string (list ResourceSpans) :=
  <[filter_id rs := default [] (out !! filter_id rs) ++ [unstamp rs]]> out.

Definition groupByFilterID (td : list ResourceSpans) : gmap string (list ResourceSpans) :=
  foldl group_step ∅ td.

Definition push_request (filterID : string) (body : Body) : Request Body :=
  let h := header_set ∅ "Content-Type" "application/x-protobuf" in
  let h := foldl (λ h '(k, v), header_set h k v) h (Headers cfg) in
  let h := if decide (filterID ≠ "") then header_set h RuleHeader filterID else h in
  MkRequest tracesURL h body.

Definition status_error (code : Z) : option PushError :=
  if decide (code < 200 ∨ 300 ≤ code)%Z then
    if decide (400 ≤ code ∧ code < 500 ∧ code ≠ 408 ∧ code ≠ 429)%Z
    then Some (Permanent (ErrStatus code)) else Some (ErrStatus code)
  else None.

(** One push: the requests sent so far including this one, and the outcome. *)
Definition push (sent : list (Request Body)) (filterID : string) (td : list ResourceSpans)
  : list (Request Body) * result PushError () :=
  match MarshalProto td with
  | None => (sent, Err ErrMarshal)
  | Some body =>
      if negb (url_ok tracesURL) then (sent, Err ErrNewRequest)
      else
        let req := push_request filterID body in
        match Do sent req with
        | None => (sent ++ [req], Err ErrDo)
        | Some code =>
            (sent ++ [req], match status_error code with Some e => Err e | None => Ok () end)
        end
  end.

(** The loop over the groups, in the iteration order of the map. *)
Fixpoint push_groups (sent : list (Request Body)) (groups : list (string * list ResourceSpans))
  : list (Request Body) * result (string * PushError) () :=
  match groups with
  | [] => (sent, Ok ())
  | (filterID, batch) :: groups =>
      let '(sent, r) := push sent filterID batch in
      match r with
      | Err e => (sent, Err (filterID, e))
      | Ok _ => push_groups sent groups
      end
  end.

(** [for filterID, batch := range groups], with the keys visited in [order]. *)
Definition pushTraces (sent : list (Request Body)) (td : list ResourceSpans) (order : list string)
  : list (Request Body) * result (string * PushError) () :=
  let groups := groupByFilterID td in
  push_groups sent (omap (λ f, (λ batch, (f, batch)) <$> groups !! f) order).

(** The collector may call it again with the same batch, which it leaves as it was:
    what each call returns, one per iteration order. *)
Fixpoint pushes (sent : list (Request Body)) (td : list ResourceSpans) (orders : list (list string))
  : list (Request Body) * list (result (string * PushError) ()) :=
  match orders with
  | [] => (sent, [])
  | order :: orders =>
      let '(sent, r) := pushTraces sent td order in
      let '(sent, rs) := pushes sent td orders in
      (sent, r :: rs)
  end.

(** Go may visit the keys of a map in any order, each once. *)
Definition iteration_order (td : list ResourceSpans) (order : list string) : Prop :=
  order ≡ₚ (map_to_list (groupByFilterID td)).*1.

(** ** Grouping *)

Lemma groupByFilterID_snoc td rs : groupByFilterID (td ++ [rs]) = group_step (groupByFilterID td) rs.
Proof. unfold groupByFilterID. by rewrite foldl_app. Qed.

(** A group holds, in order, the unstamped copies of the spans stamped with
    its id. *)
Lemma groupByFilterID_lookup td f :
  groupByFilterID td !! f =
  match filter (λ rs, filter_id rs = f) td with
  | [] => None
  | l => Some (unstamp <$> l)
  end.
Proof.
  induction td as [|rs td IH] using rev_ind; [done|].
  rewrite groupByFilterID_snoc, filter_app. unfold group_step.
  rewrite filter_cons, filter_nil. case_decide as E.
  - subst f. rewrite lookup_insert_eq, IH.
    destruct (filter _ td) as [|x l]; simpl; [done|]. by rewrite fmap_app.
  - rewrite lookup_insert_ne, IH, app_nil_r by done. done.
Qed.

Lemma group_step_perm out rs :
  (map_to_list (group_step out rs)).*2 ≫= id ≡ₚ unstamp rs :: ((map_to_list out).*2 ≫= id).
Proof.
  unfold group_step. destruct (out !! filter_id rs) as [l|] eqn:E; simpl.
  - rewrite <- (insert_delete_id out _ l E) at 2. rewrite <- insert_delete_eq.
    rewrite !map_to_list_insert by apply lookup_delete_eq. simpl.
    unfold id. rewrite <- app_assoc. simpl. by rewrite Permutation_middle.
  - rewrite map_to_list_insert by done. simpl. done.
Qed.

Lemma group_perm td : (map_to_list (groupByFilterID td)).*2 ≫= id ≡ₚ unstamp <$> td.
Proof.
  induction td as [|rs td IH] using rev_ind.
  { unfold groupByFilterID. simpl. by rewrite map_to_list_empty. }
  rewrite groupByFilterID_snoc, group_step_perm, IH, fmap_app. simpl.
  by rewrite Permutation_cons_append.
Qed.

(** ** Routed spans *)

(** The source groups a rule demands, once per matching route of the rule. *)
Definition demanded_by (rs : list Route) (f : string) (td : list ResourceSpans) : list ResourceSpans :=
  td ≫= λ src,
    omap (λ pr, if decide (pr_filterID pr = f) then
                  if Selector_Matches (pr_selector pr) (resourceLabels (rs_attrs src)) then Some src else None
                else None) (parse_all route_parse rs).

Lemma filter_id_stamp rs f : filter_id (stamp rs f) = f.
Proof. unfold filter_id, stamp. simpl. by rewrite Get_PutStr_eq, Str_NewStr. Qed.

Lemma routed_group rs td f :
  filter (λ g, filter_id g = f) (routed_copies rs td) = (λ src, stamp src f) <$> demanded_by rs f td.
Proof.
  unfold routed_copies, demanded_by. rewrite filter_bind.
  induction td as [|src td IH]; [done|]. rewrite !bind_cons, fmap_app, IH. f_equal. clear IH.
  unfold route_copies. induction (parse_all route_parse rs) as [|pr l IH]; [done|]. simpl.
  destruct (Selector_Matches (pr_selector pr) _) eqn:M; simpl.
  - rewrite filter_cons, filter_id_stamp. case_decide as E; simpl; [|exact IH].
    f_equal; [by rewrite E|exact IH].
  - destruct (decide (pr_filterID pr = f)); exact IH.
Qed.

Lemma unstamp_stamp_attrs src f k :
  NoDup (entries (rs_attrs src)).*1 →
  Get (rs_attrs (unstamp (stamp src f))) k = if decide (k = FilterIDAttr) then None else Get (rs_attrs src) k.
Proof.
  intros ND. simpl. assert (NoDup (entries (PutStr (rs_attrs src) FilterIDAttr f)).*1) by by apply NoDup_PutStr.
  case_decide as E; [subst; by apply Get_Remove_eq|].
  rewrite Get_Remove_ne by done. by apply Get_PutStr_ne.
Qed.

(** ** Pushing *)

Lemma push_cases sent f td :
  ∃ reqs r, push sent f td = (sent ++ reqs, r) ∧
    (r = Ok () → ∃ body code, MarshalProto td = Some body ∧ reqs = [push_request f body] ∧
       Do sent (push_request f body) = Some code ∧ (200 ≤ code < 300)%Z).
Proof.
  unfold push. destruct (MarshalProto td) as [body|]; [|exists [], (Err ErrMarshal); by rewrite app_nil_r].
  destruct (negb (url_ok tracesURL)); [exists [], (Err ErrNewRequest); by rewrite app_nil_r|].
  destruct (Do sent (push_request f body)) as [code|] eqn:ED; [|eexists [_], _; by split].
  eexists [_], _. split; [done|]. unfold status_error.
  repeat case_decide; try done. intros _. exists body, code. repeat split; try done; lia.
Qed.

Lemma push_groups_Ok sent groups sent' :
  push_groups sent groups = (sent', Ok ()) →
  ∃ bodies, Forall2 (λ g body, MarshalProto g.2 = Some body) groups bodies ∧
            sent' = sent ++ zip_with (λ g body, push_request g.1 body) groups bodies.
Proof.
  revert sent. induction groups as [|[f td] groups IH]; intros sent E; simpl in E.
  { injection E as <-. exists []. by rewrite app_nil_r. }
  destruct (push_cases sent f td) as (reqs & r & EP & HOk). rewrite EP in E.
  destruct r as [[]|]; [|done]. destruct HOk as (body & code & EM & -> & _); [done|].
  apply IH in E as (bodies & F2 & ->). exists (body :: bodies). split; [by constructor|].
  simpl. by rewrite <- app_assoc.
Qed.

Lemma rule_header f body :
  f ≠ "" → req_header (push_request f body) !! RuleHeader = Some f.
Proof.
  intros N. unfold push_request. simpl. rewrite decide_True by done.
  unfold header_set. change (CanonicalHeaderKey RuleHeader) with RuleHeader. apply lookup_insert_eq.
Qed.

(** A push never retracts a request, and stops at the first group that fails. *)
Lemma push_groups_stop sent groups f td rest e :
  push_groups sent groups = (rest, Ok ()) →
  (push rest f td).2 = Err e →
  ∀ more, push_groups sent (groups ++ (f, td) :: more) = ((push rest f td).1, Err (f, e)).
Proof.
  revert sent. induction groups as [|[g b] groups IH]; intros sent E EF more; simpl in *.
  { injection E as ->. by destruct (push rest f td) as [? r]; simpl in *; subst. }
  destruct (push sent g b) as [s r]. destruct r; [by apply IH|done].
Qed.

(** Visiting the keys in some order visits every group. *)
Lemma visited_groups td order groups :
  groups = omap (λ f, (λ batch, (f, batch)) <$> groupByFilterID td !! f) order →
  iteration_order td order →
  Forall2 (λ f g, g.1 = f ∧ groupByFilterID td !! f = Some g.2) order groups.
Proof.
  intros -> P. assert (Forall (λ f, is_Some (groupByFilterID td !! f)) order) as F.
  { apply Forall_forall. intros f Hf. unfold iteration_order in P. rewrite P in Hf.
    apply list_elem_of_fmap in Hf as ([k b] & -> & Hb%elem_of_map_to_list). eauto. }
  clear P. induction F as [|f order [b Hb] F IH]; [constructor|].
  simpl. rewrite Hb. simpl. by constructor.
Qed.

(** What a request of a completed push carries. *)
Definition request_of (td : list ResourceSpans) (f : string) (req : Request Body) : Prop :=
  ∃ batch body, groupByFilterID td !! f = Some batch ∧ MarshalProto batch = Some body ∧
                req = push_request f body.

Lemma requests_of td order groups bodies :
  Forall2 (λ f g, g.1 = f ∧ groupByFilterID td !! f = Some g.2) order groups →
  Forall2 (λ g body, MarshalProto g.2 = Some body) groups bodies →
  Forall2 (request_of td) order (zip_with (λ g body, push_request g.1 body) groups bodies).
Proof.
  intros F. revert bodies. induction F as [|f [g b] order groups [E L] F IH]; intros bodies F2.
  { by inversion F2. }
  inversion F2; subst. simpl in *. constructor; [|by apply IH]. subst. by exists b, y.
Qed.

Lemma pushTraces_Ok sent td order sent' :
  iteration_order td order → pushTraces sent td order = (sent', Ok ()) →
  ∃ reqs, sent' = sent ++ reqs ∧ Forall2 (request_of td) order reqs.
Proof.
  intros P E. unfold pushTraces in E. pose proof (visited_groups td order _ eq_refl P) as F.
  apply push_groups_Ok in E as (bodies & F2 & ->). eexists. split; [done|]. by eapply requests_of.
Qed.

(** An attempt that fails has sent the requests of the groups it got to. *)
Lemma push_sends sent f td :
  ∃ reqs, (push sent f td).1 = sent ++ reqs ∧
    (reqs = [] ∨ ∃ body, MarshalProto td = Some body ∧ reqs = [push_request f body]).
Proof.
  unfold push. destruct (MarshalProto td) as [body|]; [|exists []; rewrite app_nil_r; auto].
  destruct (negb (url_ok tracesURL)); [exists []; rewrite app_nil_r; auto|].
  exists [push_request f body]. destruct (Do sent (push_request f body)); simpl; eauto.
Qed.

Lemma push_groups_prefix sent td order groups :
  Forall2 (λ f g, g.1 = f ∧ groupByFilterID td !! f = Some g.2) order groups →
  ∃ n reqs, (push_groups sent groups).1 = sent ++ reqs ∧ Forall2 (request_of td) (take n order) reqs.
Proof.
  intros F. revert sent. induction F as [|f [g b] order groups [E L] F IH]; intros sent; simpl in *.
  { exists 0, []. by rewrite app_nil_r. }
  subst g. destruct (push_sends sent f b) as (reqs & EP & HR). destruct (push sent f b) as [sent1 r] eqn:P. simpl in EP. subst sent1.
  destruct r as [[]|e].
  - destruct (push_cases sent f b) as (reqs' & r' & EP' & HOk). rewrite P in EP'. injection EP' as ER <-. apply app_inv_head in ER as <-.
    destruct HOk as (body & code & EM & -> & _); [done|].
    destruct (IH (sent ++ [push_request f body])) as (n & rest & -> & F'). exists (S n), (push_request f body :: rest).
    rewrite <- app_assoc. split; [done|]. simpl. constructor; [by exists b, body|done].
  - destruct HR as [->|(body & EM & ->)]; [exists 0, []; by rewrite app_nil_r|].
    exists 1, [push_request f body]. split; [done|]. repeat constructor. by exists b, body.
Qed.

Lemma pushTraces_prefix sent td order :
  iteration_order td order →
  ∃ n reqs, (pushTraces sent td order).1 = sent ++ reqs ∧ Forall2 (request_of td) (take n order) reqs.
Proof. intros P. apply push_groups_prefix. by apply visited_groups. Qed.

(** What one call sends, and all of it when it succeeds. *)
Definition call_sends (td : list ResourceSpans) (order : list string) (r : result (string * PushError) ())
    (reqs : list (Request Body)) : Prop :=
  (∃ n, Forall2 (request_of td) (take n order) reqs) ∧ (r = Ok () → Forall2 (request_of td) order reqs).

Lemma pushes_send sent td orders sent' rs :
  Forall (iteration_order td) orders → pushes sent td orders = (sent', rs) →
  ∃ calls, sent' = sent ++ concat calls ∧
    length rs = length orders ∧ Forall2 (λ x reqs, call_sends td x.1 x.2 reqs) (zip orders rs) calls.
Proof.
  intros F. revert sent sent' rs. induction F as [|order orders P F IH]; intros sent sent' rs E; simpl in E.
  { injection E as <- <-. exists []. by rewrite app_nil_r. }
  destruct (pushTraces_prefix sent td order P) as (n & reqs & EP & FR).
  destruct (pushTraces sent td order) as [sent1 r] eqn:EPT. simpl in EP. subst sent1.
  destruct (pushes (sent ++ reqs) td orders) as [sent2 rs2] eqn:E2. injection E as <- <-.
  destruct (IH _ _ _ E2) as (calls & -> & L & FC). exists (reqs :: calls). simpl. rewrite <- app_assoc, L.
  split_and!; [done..|]. constructor; [|done]. split; [by exists n|]. simpl. intros ->.
  destruct (pushTraces_Ok sent td order _ P EPT) as (reqs' & ER & FO). apply app_inv_head in ER as <-. done.
Qed.

End TraceRouter.

(** ** Properties *)

(** Grouping partitions the batch: every group of spans of the input,
    without its stamp, is in exactly one of the pushes, none is lost and none
    is duplicated; and the push of a rule holds exactly the spans stamped with
    it, in order, the unstamped ones under the empty id. *)
Theorem grouping_partitions `{PData} (td : list ResourceSpans) :
  (map_to_list (groupByFilterID td)).*2 ≫= id ≡ₚ unstamp <$> td ∧
  ∀ f, groupByFilterID td !! f =
       match filter (λ rs, filter_id rs = f) td with
       | [] => None
       | l => Some (unstamp <$> l)
       end.
Proof. split; [apply group_perm|intros f; apply groupByFilterID_lookup]. Qed.

(** C27: From filter to exporter, spans reach exactly the rules that demanded
    them: after routing and grouping, the push of rule [f] holds one copy of a
    source group per route of [f] whose selector parses and matches the group's
    resource, whatever stamp the source carried, and every copy has the source's
    attributes except the internal stamp, which is gone. *)
Theorem routed_spans_reach_their_rule `{Regexp, PData} (rs : list Route) (td : list ResourceSpans) (f : string) :
  Forall (λ src, NoDup (entries (rs_attrs src)).*1) td →
  groupByFilterID (routed_copies rs td) !! f =
    match demanded_by rs f td with
    | [] => None
    | l => Some ((λ src, unstamp (stamp src f)) <$> l)
    end ∧
  Forall (λ src, rs_scopes (unstamp (stamp src f)) = rs_scopes src ∧
                 ∀ k, Get (rs_attrs (unstamp (stamp src f))) k
                      = if decide (k = FilterIDAttr) then None else Get (rs_attrs src) k) td.
Proof.
  intros ND. split.
  - rewrite groupByFilterID_lookup, routed_group.
    destruct (demanded_by rs f td) as [|x l]; [done|]. simpl. do 2 f_equal.
    exact (eq_sym (list_fmap_compose (λ src, stamp src f) unstamp l)).
  - eapply Forall_impl; [exact ND|]. intros src Hs. split; [done|]. intros k. by apply unstamp_stamp_attrs.
Qed.

(** C28: Pushing a batch, however often, delivers its groups and nothing else.
    Over any sequence of calls with the batch, in whatever order each visits the
    groups and wherever each fails, the requests of a call are those of the groups
    it visited first, each group once; a call that returns success has sent one
    request for every group, to the traces endpoint with the group's encoded spans;
    and the request of a rule carries the rule's id in its header, whatever headers
    are configured. *)
Theorem repeated_pushes_deliver_every_group `{TraceTransport} (cfg : RouterConfig)
    (sent sent' : list (Request Body)) (td : list ResourceSpans) (orders : list (list string))
    (rs : list (result (string * PushError) ())) :
  Forall (iteration_order td) orders → pushes cfg sent td orders = (sent', rs) →
  ∃ calls, sent' = sent ++ concat calls ∧
    length rs = length orders ∧ Forall2 (λ x reqs, call_sends cfg td x.1 x.2 reqs) (zip orders rs) calls ∧
    (∀ f req, request_of cfg td f req → f ≠ "" → req_header req !! RuleHeader = Some f).
Proof.
  intros P E. destruct (pushes_send cfg sent td orders sent' rs P E) as (calls & -> & L & F).
  exists calls. split_and!; [done..|]. intros f req (batch & body & _ & _ & ->).
  apply rule_header.
Qed.

(** The status of the response decides the outcome of a push: 2xx is
    success; a 4xx other than 408 and 429 is a permanent failure that the
    retry loop gives up on; every other status is a retryable failure. *)
Theorem push_outcome_by_status `{TraceTransport} (cfg : RouterConfig)
    (sent : list (Request Body)) (f : string) (td : list ResourceSpans) (body : Body) (code : Z) :
  MarshalProto td = Some body → url_ok (tracesURL cfg) = true →
  Do sent (push_request cfg f body) = Some code →
  match (push cfg sent f td).2 with
  | Ok _ => (200 ≤ code < 300)%Z
  | Err e => ¬ (200 ≤ code < 300)%Z ∧
             (IsPermanent e = true ↔ (400 ≤ code < 500 ∧ code ≠ 408 ∧ code ≠ 429)%Z)
  end.
Proof.
  intros EM EU ED. unfold push. rewrite EM, EU. simpl. rewrite ED. simpl. unfold status_error.
  repeat case_decide; simpl; try lia; split; try lia; split; try done; lia.
Qed.

(** C40: A push ends at the first group that fails, and a permanent failure of
    one rule (a 403 for a deleted rule) is reported for the whole batch: the
    groups visited after it are not sent, and the retry that would send them is
    ruled out by the permanence of the error. *)
Theorem permanent_failure_drops_later_groups `{TraceTransport} (cfg : RouterConfig)
    (sent sent' : list (Request Body)) (td batch : list ResourceSpans)
    (before after : list string) (f : string) (e : PushError) :
  pushTraces cfg sent td before = (sent', Ok ()) →
  groupByFilterID td !! f = Some batch → (push cfg sent' f batch).2 = Err e →
  pushTraces cfg sent td (before ++ f :: after) = ((push cfg sent' f batch).1, Err (f, e)).
Proof.
  intros E EG EF. unfold pushTraces in *. rewrite omap_app. simpl. rewrite EG. simpl.
  by apply push_groups_stop.
Qed.

(** ** Evaluation *)

Module TraceRouterSample.

(** A server that refuses the deleted rule [gone] and accepts the rest. *)
Definition transport : @TraceTransport AssocPData.pdata := {|
  Body := list (@ResourceSpans AssocPData.pdata);
  MarshalProto td := Some td;
  url_ok _ := true;
  Do _ req := Some (if decide (req_header req !! RuleHeader = Some "gone") then 403%Z else 200%Z);
|}.

(** A server that is busy at first. *)
Definition flaky : @TraceTransport AssocPData.pdata := {|
  Body := list (@ResourceSpans AssocPData.pdata);
  MarshalProto td := Some td;
  url_ok _ := true;
  Do sent _ := Some (if decide (length sent = 0) then 503%Z else 200%Z);
|}.

Definition cfg := MkRouterConfig "https://t.example/" [("authorization", "Bearer k")] 30.

Definition stamped (f : string) := @stamp AssocPData.pdata (TraceFilterSample.group TraceFilterSample.api) f.

Definition td := [stamped "live"; TraceFilterSample.group []].
Definition mixed := [stamped "gone"; stamped "live"].

Definition req (f : string) (g : list (@ResourceSpans AssocPData.pdata)) :=
  @push_request AssocPData.pdata transport cfg f g.

Example canonical_auth : CanonicalHeaderKey "x-lean-trace-rule" = RuleHeader.
Proof. reflexivity. Qed.

Example traces_url : tracesURL cfg = "https://t.example/v1/traces".
Proof. reflexivity. Qed.

End TraceRouterSample.

Lemma routed_spans_reach_their_rule_witness :
  let td := TraceFilterSample.td in
  let rs := [TraceFilterSample.route_api; TraceFilterSample.route_any] in
  Forall (λ src, NoDup (entries (rs_attrs src)).*1) td ∧
  @groupByFilterID AssocPData.pdata (@routed_copies LiteralRegexp.engine AssocPData.pdata rs td) !! "r2"
  = Some [@unstamp AssocPData.pdata (TraceRouterSample.stamped "r2")].
Proof.
  intros td rs.
  assert (Forall (λ src, NoDup (entries (rs_attrs src)).*1) td) as F.
  { repeat constructor; by apply not_elem_of_nil. }
  split; [exact F|].
  rewrite (proj1 (@routed_spans_reach_their_rule LiteralRegexp.engine AssocPData.pdata rs td "r2" F)).
  vm_compute. reflexivity.
Defined.

Lemma repeated_pushes_deliver_every_group_witness :
  let td := TraceRouterSample.td in
  let live := TraceRouterSample.req "live" [@unstamp AssocPData.pdata (TraceRouterSample.stamped "live")] in
  let rest := TraceRouterSample.req "" [TraceFilterSample.group []] in
  ∃ calls, [live; rest; live] = [] ++ concat calls ∧
    Forall2 (λ x reqs, @call_sends AssocPData.pdata TraceRouterSample.flaky TraceRouterSample.cfg td x.1 x.2 reqs)
      [(["live"; ""], Err ("live", ErrStatus 503)); ([""; "live"], Ok ())] calls.
Proof.
  intros td live rest.
  assert (Forall (@iteration_order AssocPData.pdata td) [["live"; ""]; [""; "live"]]) as P.
  { apply Forall_cons_2; [|apply Forall_cons_2; [|apply Forall_nil_2]];
      unfold iteration_order; vm_compute; (reflexivity || apply Permutation_swap). }
  assert (@pushes AssocPData.pdata TraceRouterSample.flaky TraceRouterSample.cfg [] td [["live"; ""]; [""; "live"]]
          = ([live; rest; live], [Err ("live", ErrStatus 503); Ok ()])) as E by (vm_compute; reflexivity).
  destruct (@repeated_pushes_deliver_every_group AssocPData.pdata TraceRouterSample.flaky TraceRouterSample.cfg
    [] _ td _ _ P E) as (calls & EA & _ & F & _).
  exists calls. exact (conj EA F).
Defined.

Lemma push_outcome_by_status_witness :
  let g := [TraceFilterSample.group []] in
  match (@push AssocPData.pdata TraceRouterSample.transport TraceRouterSample.cfg [] "gone" g).2 with
  | Ok _ => (200 ≤ 403 < 300)%Z
  | Err e => ¬ (200 ≤ 403 < 300)%Z ∧ (IsPermanent e = true ↔ (400 ≤ 403 < 500 ∧ 403 ≠ 408 ∧ 403 ≠ 429)%Z)
  end.
Proof.
  intros g.
  apply (@push_outcome_by_status AssocPData.pdata TraceRouterSample.transport TraceRouterSample.cfg
    [] "gone" g g 403); reflexivity.
Defined.

Lemma permanent_failure_drops_later_groups_witness :
  @pushTraces AssocPData.pdata TraceRouterSample.transport TraceRouterSample.cfg []
    TraceRouterSample.mixed ["gone"; "live"]
  = ([TraceRouterSample.req "gone" [@unstamp AssocPData.pdata (TraceRouterSample.stamped "gone")]],
     Err ("gone", Permanent (ErrStatus 403))).
Proof.
  refine (eq_trans (@permanent_failure_drops_later_groups AssocPData.pdata TraceRouterSample.transport
    TraceRouterSample.cfg [] [] TraceRouterSample.mixed
    [@unstamp AssocPData.pdata (TraceRouterSample.stamped "gone")] [] ["live"] "gone"
    (Permanent (ErrStatus 403)) _ _ _) _); vm_compute; reflexivity.
Defined.
