(* ===== verification/MetricsIndex.v ===== *)
(** Package [leansignalmetricsindex] (components/metricsindex/timeseries.go):
    the series fingerprint, the batch the tracker hands to the edge controller,
    and the registry of receivers. *)

From S2P Require Import Prelude GoText.

(** ** Fingerprints *)

(** [type HashKey [16]byte]. *)
Definition HashKey : Type := vec ascii 16.

Definition key_bytes (h : HashKey) : list ascii := vec_to_list h.

Definition HashKey_String (h : HashKey) : string := hex_encode (key_bytes h).

(** [copy] into a fixed-size array, when the length is the array's. *)
Fixpoint to_array (n : nat) (l : list ascii) : option (vec ascii n) :=
  match n, l with
  | O, [] => Some [#]
  | S n, c :: l => v ← to_array n l; Some (c ::: v)
  | _, _ => None
  end.

Lemma to_array_vec n (v : vec ascii n) : to_array n (vec_to_list v) = Some v.
Proof. induction v as [|c n v IH]; [done|]. simpl. by rewrite IH. Qed.

#[export] Instance HashKey_eq_dec : EqDecision HashKey.
Proof.
  refine (λ h1 h2, cast_if (decide (key_bytes h1 = key_bytes h2)));
    [by apply vec_to_list_inj2|by intros ->].
Defined.

#[export] Instance HashKey_countable : Countable HashKey :=
  inj_countable key_bytes (to_array 16) (to_array_vec 16).

(** *** JSON strings, as [encoding/json] reads them *)

Definition json_space (c : ascii) : bool := bool_decide (c ∈ [" "; "009"; "010"; "013"]%char).

Fixpoint json_trim (s : string) : string :=
  match s with String c r => if json_space c then json_trim r else s | "" => "" end.

Definition is_surrogate (r : Z) : bool := between 0xD800 r 0xDFFF.

(** The rune of a [\u] escape whose four digits gave [r]: a high surrogate
    takes the low surrogate escaped right after it, any other surrogate is
    replaced. *)
Definition json_unicode (r : Z) (s : string) : Z * string :=
  if is_surrogate r then
    match CutPrefix s "\u" with
    | Some t =>
        match read_hex 4 0 t with
        | Some (r2, t) =>
            if between 0xD800 r 0xDBFF && between 0xDC00 r2 0xDFFF
            then ((r - 0xD800) * 1024 + (r2 - 0xDC00) + 0x10000, t)%Z
            else (RuneError, s)
        | None => (RuneError, s)
        end
    | None => (RuneError, s)
    end
  else (r, s).

Definition json_escape (e : ascii) (s : string) : option (string * string) :=
  if bool_decide (e ∈ [dquote; bslash; "/"%char]) then Some (String e "", s)
  else if decide (e = "b"%char) then Some (String "008" "", s)
  else if decide (e = "f"%char) then Some (String "012" "", s)
  else if decide (e = "n"%char) then Some (String "010" "", s)
  else if decide (e = "r"%char) then Some (String "013" "", s)
  else if decide (e = "t"%char) then Some (String "009" "", s)
  else if decide (e = "u"%char) then
    '(r, t) ← read_hex 4 0 s;
    let '(r, t) := json_unicode r t in Some (EncodeRune r, t)
  else None.

(** The body of a string literal after its opening quote, up to and including
    the closing one. Every round consumes a byte. *)
Fixpoint json_body (n : nat) (s : string) : option (string * string) :=
  match n, s with
  | S n, String c t =>
      if decide (c = dquote) then Some ("", t)
      else if decide (c = bslash) then
        match t with
        | String e t =>
            '(x, t) ← json_escape e t; '(y, t) ← json_body n t; Some (x +:+ y, t)
        | "" => None
        end
      else if bool_decide (code c < 0x20)%Z then None
      else
        let '(r, _, t) := DecodeRune s in
        '(y, t) ← json_body n t; Some (EncodeRune r +:+ y, t)
  | _, _ => None
  end.

(** [json.Unmarshal(data, &s)] into a string: [null] leaves it empty, any other
    value that is not a string is an error. *)
Definition json_string (data : string) : option string :=
  let data := json_trim data in
  match CutPrefix data "null" with
  | Some t => if decide (json_trim t = "") then Some "" else None
  | None =>
      match data with
      | String c t =>
          if decide (c = dquote) then
            '(s, t) ← json_body (len t) t;
            if decide (json_trim t = "") then Some s else None
          else None
      | "" => None
      end
  end.

(** [json.Marshal] of a string of hexadecimal digits needs no escapes. *)
Definition MarshalJSON (h : HashKey) : string :=
  String dquote (HashKey_String h +:+ String dquote "").

Inductive KeyError := ErrJSON | ErrHex | ErrKeyLength (n : nat).

Definition UnmarshalJSON (data : string) : result KeyError HashKey :=
  match json_string data with
  | None => Err ErrJSON
  | Some s =>
      match hex_decode s with
      | None => Err ErrHex
      | Some decoded =>
          match to_array 16 decoded with
          | None => Err (ErrKeyLength (length decoded))
          | Some h => Ok h
          end
      end
  end.

(** ** Batches *)

Record LabelPair := MkLabelPair { lp_Name : string; lp_Value : string }.

#[export] Instance LabelPair_eq_dec : EqDecision LabelPair.
Proof. solve_decision. Defined.

Record TimeseriesEntry := MkTimeseriesEntry {
  te_MetricName : string;
  te_Labels : list LabelPair;
  te_Samples : Z;
}.

#[export] Instance TimeseriesEntry_eq_dec : EqDecision TimeseriesEntry.
Proof. solve_decision. Defined.

Notation TimeseriesBatch := (gmap HashKey TimeseriesEntry).

(** ** The receiver registry *)

Section Registry.
Context {R : Type} `{EqDecision R}.

Definition RegisterTimeseriesReceiver (receivers : list R) (r : R) : list R := receivers ++ [r].

Fixpoint UnregisterTimeseriesReceiver (receivers : list R) (r : R) : list R :=
  match receivers with
  | [] => []
  | x :: receivers => if decide (x = r) then receivers else x :: UnregisterTimeseriesReceiver receivers r
  end.

(** Every receiver, in registration order, handles the same batch. *)
Definition BroadcastTimeseriesBatch {S} (receive : R → TimeseriesBatch → S → S)
    (receivers : list R) (batch : TimeseriesBatch) (s : S) : S :=
  foldl (λ s r, receive r batch s) s receivers.

Lemma unregister_last receivers r : r ∉ receivers →
  UnregisterTimeseriesReceiver (RegisterTimeseriesReceiver receivers r) r = receivers.
Proof.
  unfold RegisterTimeseriesReceiver. induction receivers as [|x l IH]; simpl; [by rewrite decide_True|].
  rewrite not_elem_of_cons. intros [N1 N2]. rewrite decide_False by done. by rewrite IH.
Qed.

End Registry.

(** ** Lemmas *)

Definition json_plain (c : ascii) : bool :=
  bool_decide (0x20 ≤ code c < 0x80)%Z && bool_decide (c ≠ dquote) && bool_decide (c ≠ bslash).

Lemma lowerhex_plain z : json_plain (lowerhex z) = true.
Proof.
  unfold lowerhex. pose proof (Z.mod_pos_bound z 16 ltac:(lia)) as B.
  assert (z mod 16 ∈ seqZ 0 16)%Z as Hin by (apply elem_of_seqZ; lia).
  revert Hin. generalize (z mod 16)%Z. clear. intros d Hin.
  assert (Forall (λ d, json_plain (byte_of (if d <? 10 then 48 + d else 87 + d)%Z) = true) (seqZ 0 16)) as F
    by (repeat constructor).
  rewrite Forall_forall in F. by apply F.
Qed.

Lemma hex_encode_plain l : str_forall json_plain (hex_encode l) = true.
Proof. induction l as [|c l IH]; [done|]. simpl. by rewrite !lowerhex_plain, IH. Qed.

Lemma json_body_plain s n t :
  str_forall json_plain s = true → len s < n →
  json_body n (s +:+ String dquote t) = Some (s, t).
Proof.
  revert n. induction s as [|c s IH]; intros [|n] Hs Hn; simpl in Hn; try lia; [done|].
  simpl in Hs. apply andb_true_iff in Hs as [Hc Hs]. unfold json_plain in Hc.
  rewrite !andb_true_iff, !bool_decide_eq_true in Hc. destruct Hc as [[Hc N1] N2].
  rewrite app_cons. cbn [json_body]. rewrite !decide_False by done.
  rewrite bool_decide_false by lia. unfold DecodeRune.
  rewrite (proj2 (Z.ltb_lt (code c) 0x80)) by lia.
  rewrite IH by (done || lia). simpl. rewrite EncodeRune_ascii, byte_of_code by lia. done.
Qed.

Lemma json_string_plain s :
  str_forall json_plain s = true → json_string (String dquote (s +:+ String dquote "")) = Some s.
Proof.
  intros Hs. unfold json_string.
  change (json_trim (String dquote ?t)) with (String dquote t).
  change (CutPrefix (String dquote ?t) "null") with (@None string). cbv iota beta.
  rewrite decide_True by done. rewrite json_body_plain by (rewrite ?len_app; simpl; done || lia). done.
Qed.

Lemma Unmarshal_Marshal h : UnmarshalJSON (MarshalJSON h) = Ok h.
Proof.
  unfold UnmarshalJSON, MarshalJSON, HashKey_String. rewrite json_string_plain by apply hex_encode_plain.
  by rewrite hex_decode_encode, (to_array_vec 16).
Qed.

Lemma HashKey_String_inj h1 h2 : HashKey_String h1 = HashKey_String h2 → h1 = h2.
Proof.
  intros E. apply (f_equal hex_decode) in E. unfold HashKey_String in E. rewrite !hex_decode_encode in E.
  injection E as E. by apply vec_to_list_inj2 in E.
Qed.

(** ** Properties *)

(** A fingerprint survives its JSON encoding, and its text form, the key of
    every index message, identifies it: two series with the same text have the
    same fingerprint. *)
Theorem hash_key_roundtrip (h : HashKey) :
  UnmarshalJSON (MarshalJSON h) = Ok h ∧
  hex_decode (HashKey_String h) = Some (key_bytes h) ∧
  (∀ h', HashKey_String h' = HashKey_String h → h' = h).
Proof.
  split_and!; [apply Unmarshal_Marshal|apply hex_decode_encode|]. intros h'. apply HashKey_String_inj.
Qed.
