(* ===== verification/KnownCache.v ===== *)
(** The cache of known series (components/edgecontroller/
    known_timeseries_cache.go): per series, a ring buffer of hourly sample
    counts over the last eight hours, from which the index updates and
    deletions are derived.

    The ring is the source's: an array, a head index of type [uint8] and the
    hour it was last advanced to. Its abstraction is the log of all samples ever
    recorded with the hour each was booked under; the refinement theorem says
    the ring's total is the total of the log's last eight hours, for any
    sequence of updates and scans and any clock readings at or after the epoch.
    A write outside the array would be a panic and is [None]. The iteration
    order of the map is an argument of the batch operations. *)

From S2P Require Import Prelude GoText MetricsIndex.

Definition HoursLog : Z := 8.
Definition TargetBackendUpdateMinutes : Z := 1.

Record KnownTimeseriesEntry := MkKnown {
  ke_MetricName : string;
  ke_LastUpdate : Z;
  ke_LastBackendSync : Z;
  lastHour : Z;
  head : Z;
  samples : list Z;
}.

Record KnownActiveTimeseriesItem := MkActiveItem {
  ai_HashKey : HashKey;
  TotalSamples : Z;
  ai_LastUpdate : Z;
}.

Record KnownEntryView := MkKnownView {
  kv_Fingerprint : string;
  kv_MetricName : string;
  kv_LastUpdate : Z;
  kv_LastBackendSync : Z;
  kv_Samples : Z;
}.

Notation KnownTimeseriesCache := (gmap HashKey KnownTimeseriesEntry).

(** ** The ring buffer *)

Definition zero_samples : list Z := replicate (Z.to_nat HoursLog) 0%Z.

(** [samples[i] = v]; the array bound check is the caller's. *)
Definition set_slot (s : list Z) (i v : Z) : list Z := <[Z.to_nat i := v]> s.

(** One round of the advancing loop: step the head and clear its slot. The new
    head is a remainder, so the write is in range. *)
Definition advance_one (hs : Z * list Z) : Z * list Z :=
  let head := Z.rem (uint8 (hs.1 + 1)) HoursLog in (head, set_slot hs.2 head 0).

Definition advanceRingBuffer (entry : KnownTimeseriesEntry) (currentHour : Z) : KnownTimeseriesEntry :=
  if decide (currentHour ≤ lastHour entry)%Z then entry
  else
    let hoursPassed := int64 (currentHour - lastHour entry) in
    let '(hd, s) :=
      if decide (HoursLog ≤ hoursPassed)%Z
      then (uint8 (Z.rem currentHour HoursLog), (λ _, 0%Z) <$> samples entry)
      else Nat.iter (Z.to_nat hoursPassed) advance_one (head entry, samples entry) in
    MkKnown (ke_MetricName entry) (ke_LastUpdate entry) (ke_LastBackendSync entry) currentHour hd s.

Definition sumSamples (entry : KnownTimeseriesEntry) : Z :=
  foldl (λ total s, int64 (total + s)) 0%Z (samples entry).

(** [now.Unix() / 3600]. *)
Definition hour_of (nowUnix : Z) : Z := Z.quot nowUnix 3600.

(** ** Operations *)

Definition Init : KnownTimeseriesCache := ∅.
Definition GetSize (c : KnownTimeseriesCache) : nat := size c.

Definition entry_count (P : KnownTimeseriesEntry → bool) (c : KnownTimeseriesCache) : nat :=
  length (filter (λ kv, P kv.2 = true) (map_to_list c)).

Definition GetPendingBackendUpdates (c : KnownTimeseriesCache) (nowUnix : Z) : nat :=
  let threshold := int64 (nowUnix - TargetBackendUpdateMinutes * 60) in
  entry_count (λ e, bool_decide (ke_LastBackendSync e < threshold)%Z) c.

Definition CountDemanded (c : KnownTimeseriesCache) (demanded : gset string) : nat :=
  if decide (size demanded = 0) then 0
  else entry_count (λ e, bool_decide (ke_MetricName e ∈ demanded)) c.

Definition MetricNameSet (c : KnownTimeseriesCache) : gset string :=
  list_to_set (ke_MetricName ∘ snd <$> map_to_list c).

Definition known_view (kv : HashKey * KnownTimeseriesEntry) : KnownEntryView :=
  MkKnownView (HashKey_String kv.1) (ke_MetricName kv.2) (ke_LastUpdate kv.2)
    (ke_LastBackendSync kv.2) (sumSamples kv.2).

(** The order of the dump: metric name, then fingerprint. *)
Definition view_le (a b : KnownEntryView) : Prop :=
  if decide (kv_MetricName a = kv_MetricName b)
  then String.le (kv_Fingerprint a) (kv_Fingerprint b)
  else String.le (kv_MetricName a) (kv_MetricName b).

#[export] Instance view_le_dec a b : Decision (view_le a b).
Proof. unfold view_le. case_decide; apply _. Defined.

(** [order] is the iteration order of the map. *)
Definition KnownSnapshot (c : KnownTimeseriesCache) (order : list HashKey) : list KnownEntryView :=
  merge_sort view_le (omap (λ k, (λ e, known_view (k, e)) <$> c !! k) order).

Definition IsTimeseriesKnown (c : KnownTimeseriesCache) (key : HashKey) : bool :=
  bool_decide (is_Some (c !! key)).

(** [None]: the slot index is out of range, a run-time panic. *)
Definition UpdateTimeseries (c : KnownTimeseriesCache) (nowUnix : Z) (key : HashKey)
    (entry : TimeseriesEntry) : option KnownTimeseriesCache :=
  let currentHour := hour_of nowUnix in
  match c !! key with
  | None =>
      let hd := uint8 (Z.rem currentHour HoursLog) in
      if decide (hd < HoursLog)%Z then
        Some (<[key := MkKnown (te_MetricName entry) nowUnix 0 currentHour hd
                         (set_slot zero_samples hd (te_Samples entry))]> c)
      else None
  | Some existing =>
      let e := advanceRingBuffer existing currentHour in
      v ← samples e !! Z.to_nat (head e);
      Some (<[key := MkKnown (ke_MetricName e) nowUnix (ke_LastBackendSync e) (lastHour e) (head e)
                       (set_slot (samples e) (head e) (int64 (v + te_Samples entry)))]> c)
  end.

(** The scan of [GetActiveTimeseriesBatch]: entries are advanced in the map as
    they are visited, until the batch is full. *)
Fixpoint active_scan (c : KnownTimeseriesCache) (currentHour older : Z) (room : nat)
    (order : list HashKey) : list KnownActiveTimeseriesItem * KnownTimeseriesCache :=
  match order, room with
  | [], _ | _, O => ([], c)
  | key :: order, S room' =>
      match c !! key with
      | None => active_scan c currentHour older room order
      | Some entry =>
          let e := advanceRingBuffer entry currentHour in
          let c := <[key := e]> c in
          if decide (older ≤ ke_LastBackendSync e)%Z then active_scan c currentHour older room order
          else
            let totalSamples := sumSamples e in
            if decide (totalSamples = 0)%Z then active_scan c currentHour older room order
            else
              let '(items, c) := active_scan c currentHour older room' order in
              (MkActiveItem key totalSamples (int64 (ke_LastUpdate e * 1000)) :: items, c)
      end
  end.

Definition GetActiveTimeseriesBatch (c : KnownTimeseriesCache) (nowUnix lastBackendSyncOlderThan : Z)
    (batchSize : Z) (order : list HashKey) : list KnownActiveTimeseriesItem * KnownTimeseriesCache :=
  if decide (batchSize ≤ 0)%Z then ([], c)
  else active_scan c (hour_of nowUnix) lastBackendSyncOlderThan (Z.to_nat batchSize) order.

Fixpoint inactive_scan (c : KnownTimeseriesCache) (currentHour : Z) (room : nat)
    (order : list HashKey) : list HashKey * KnownTimeseriesCache :=
  match order, room with
  | [], _ | _, O => ([], c)
  | key :: order, S room' =>
      match c !! key with
      | None => inactive_scan c currentHour room order
      | Some entry =>
          let e := advanceRingBuffer entry currentHour in
          let c := <[key := e]> c in
          if decide (sumSamples e = 0)%Z then
            let '(keys, c) := inactive_scan c currentHour room' order in (key :: keys, c)
          else inactive_scan c currentHour room order
      end
  end.

Definition GetInactiveTimeseriesBatch (c : KnownTimeseriesCache) (nowUnix batchSize : Z)
    (order : list HashKey) : list HashKey * KnownTimeseriesCache :=
  if decide (batchSize ≤ 0)%Z then ([], c)
  else inactive_scan c (hour_of nowUnix) (Z.to_nat batchSize) order.

Definition DeleteBatch (c : KnownTimeseriesCache) (keys : list HashKey) : KnownTimeseriesCache :=
  foldl (λ c key, delete key c) c keys.

Definition with_sync (t : Z) (e : KnownTimeseriesEntry) : KnownTimeseriesEntry :=
  MkKnown (ke_MetricName e) (ke_LastUpdate e) t (lastHour e) (head e) (samples e).

Definition MarkSynced (c : KnownTimeseriesCache) (nowUnix : Z) (key : HashKey) : KnownTimeseriesCache :=
  match c !! key with Some e => <[key := with_sync nowUnix e]> c | None => c end.

Definition MarkSyncedBatch (c : KnownTimeseriesCache) (nowUnix : Z) (keys : list HashKey)
  : KnownTimeseriesCache :=
  foldl (λ c key, match c !! key with Some e => <[key := with_sync nowUnix e]> c | None => c end) c keys.

(** ** The abstraction of a ring: a log of booked samples *)

(** [h_last] is the hour the series was last advanced to; every sample is
    booked under the hour current when it arrived, or under [h_last] when the
    clock ran backwards. *)
Record history := MkHistory { h_last : Z; h_log : list (Z * Z) }.

Definition hist_advance (h : Z) (a : history) : history := MkHistory (Z.max (h_last a) h) (h_log a).
Definition hist_add (h n : Z) (a : history) : history :=
  let a := hist_advance h a in MkHistory (h_last a) ((h_last a, n) :: h_log a).

(** The sum of [f] over a list, and of the samples booked under one hour. *)
Fixpoint zsum {A} (f : A → Z) (l : list A) : Z :=
  match l with [] => 0%Z | x :: l => (f x + zsum f l)%Z end.

Definition hour_total (log : list (Z * Z)) (h : Z) : Z :=
  zsum (λ p, if decide (p.1 = h) then p.2 else 0%Z) log.

(** What the series reported in the eight hours up to [h_last]. *)
Definition window_total (a : history) : Z :=
  zsum (λ p, if decide (h_last a - HoursLog < p.1)%Z then p.2 else 0%Z) (h_log a).

(** The hour slot [j] stands for: the latest one up to [last] congruent to it. *)
Definition slot_hour (last j : Z) : Z := last - (last - j) mod HoursLog.

Definition ring_ok (hs : Z * list Z) (a : history) : Prop :=
  hs.1 = (h_last a mod HoursLog)%Z ∧ length hs.2 = 8 ∧ Forall (λ p, p.1 ≤ h_last a)%Z (h_log a) ∧
  ∀ j, j < 8 → hs.2 !! j = Some (int64 (hour_total (h_log a) (slot_hour (h_last a) (Z.of_nat j)))).

(** An entry represents a history. *)
Definition represents (e : KnownTimeseriesEntry) (a : history) : Prop :=
  lastHour e = h_last a ∧ (0 ≤ h_last a < 2 ^ 63)%Z ∧ ring_ok (head e, samples e) a.

(** *** Sums *)

Lemma zsum_ext {A} (f g : A → Z) l : (∀ x, x ∈ l → f x = g x) → zsum f l = zsum g l.
Proof.
  induction l as [|x l IH]; intros E; [done|]. simpl.
  rewrite (E x) by left. rewrite IH; [done|]. intros y Hy. apply E. by right.
Qed.

Lemma zsum_zero {A} (f : A → Z) l : (∀ x, x ∈ l → f x = 0%Z) → zsum f l = 0%Z.
Proof.
  induction l as [|x l IH]; intros E; [done|]. simpl.
  rewrite (E x) by left. rewrite IH; [done|]. intros y Hy. apply E. by right.
Qed.

Lemma zsum_plus {A} (f g : A → Z) l : zsum (λ x, f x + g x)%Z l = (zsum f l + zsum g l)%Z.
Proof. induction l as [|x l IH]; [done|]. simpl. rewrite IH. lia. Qed.

Lemma zsum_swap {A B} (f : A → B → Z) l k :
  zsum (λ x, zsum (f x) k) l = zsum (λ y, zsum (λ x, f x y) l) k.
Proof.
  induction l as [|x l IH]; simpl; [by rewrite zsum_zero|]. rewrite IH. by rewrite <- zsum_plus.
Qed.

(** A sum with a single contribution. *)
Lemma zsum_single {A} `{EqDecision A} (f : A → Z) l x :
  NoDup l → x ∈ l → (∀ y, y ∈ l → y ≠ x → f y = 0%Z) → zsum f l = f x.
Proof.
  induction 1 as [|y l Ny ND IH]; intros Hx E; [by apply elem_of_nil in Hx|]. simpl.
  apply elem_of_cons in Hx as [->|Hx].
  - rewrite zsum_zero; [lia|]. intros z Hz. apply E; [by right|]. by intros ->.
  - rewrite (E y); [|left|by intros ->]. rewrite IH; [lia|done|]. intros z Hz. apply E. by right.
Qed.

Lemma foldl_int64 l acc :
  foldl (λ total s, int64 (total + s)) (int64 acc) (int64 <$> l) = int64 (acc + zsum id l).
Proof.
  revert acc. induction l as [|x l IH]; intros acc; simpl; [by rewrite Z.add_0_r|].
  rewrite int64_add_l, int64_add_r, IH. f_equal. change (id x) with x. lia.
Qed.

(** *** Slots *)

Lemma slot_hour_range last j : (last - 8 < slot_hour last j ≤ last)%Z.
Proof. unfold slot_hour, HoursLog. pose proof (Z.mod_pos_bound (last - j) 8). lia. Qed.

Lemma slot_hour_iff last j h :
  (0 ≤ j < 8)%Z → slot_hour last j = h ↔ (last - 8 < h ≤ last)%Z ∧ j = (h mod 8)%Z.
Proof.
  intros Hj. unfold slot_hour, HoursLog. split.
  - intros <-. pose proof (Z.mod_pos_bound (last - j) 8). split; [lia|].
    rewrite Zminus_mod_idemp_r. replace (last - (last - j))%Z with j by lia. by rewrite Z.mod_small.
  - intros [Hh ->]. rewrite Zminus_mod_idemp_r, (Z.mod_small (last - h)) by lia. lia.
Qed.

Lemma slot_hour_succ last j : (0 ≤ j < 8)%Z →
  slot_hour (last + 1) j = if decide (j = (last + 1) mod 8)%Z then (last + 1)%Z else slot_hour last j.
Proof.
  intros Hj. case_decide as E.
  - apply slot_hour_iff; [done|]. split; [lia|done].
  - destruct (proj1 (slot_hour_iff last j _ Hj) eq_refl) as [R Ej].
    apply slot_hour_iff; [done|]. split; [|done].
    destruct (decide (slot_hour last j = last - 7)%Z) as [E7|]; [|lia]. exfalso. apply E.
    rewrite Ej, E7. replace (last + 1)%Z with (last - 7 + 1 * 8)%Z by lia. by rewrite Z_mod_plus_full.
Qed.

Lemma hour_total_future log last h :
  Forall (λ p, p.1 ≤ last)%Z log → (last < h)%Z → hour_total log h = 0%Z.
Proof.
  intros F Hh. apply zsum_zero. intros p Hp. rewrite Forall_forall in F. specialize (F p Hp).
  rewrite decide_False by lia. done.
Qed.

(** The slots together hold the window. *)
Lemma window_slots a :
  Forall (λ p, p.1 ≤ h_last a)%Z (h_log a) →
  zsum (λ j, hour_total (h_log a) (slot_hour (h_last a) (Z.of_nat j))) (seq 0 8) = window_total a.
Proof.
  intros F. unfold hour_total, window_total. rewrite zsum_swap. apply zsum_ext. intros [h n] Hp. simpl fst; simpl snd.
  rewrite Forall_forall in F. specialize (F _ Hp). simpl in F. unfold HoursLog.
  pose proof (Z.mod_pos_bound h 8 ltac:(lia)) as B.
  assert (∀ j, j ∈ seq 0 8 → h = slot_hour (h_last a) (Z.of_nat j) ↔
               (h_last a - 8 < h)%Z ∧ j = Z.to_nat (h mod 8)) as HI.
  { intros j [_ Hj]%elem_of_seq. rewrite (eq_comm h), slot_hour_iff by lia. split; lia. }
  case_decide as W.
  - rewrite (zsum_single _ _ (Z.to_nat (h mod 8)));
      [|apply NoDup_seq|apply elem_of_seq; lia|].
    + rewrite decide_True; [done|]. apply HI; [apply elem_of_seq; lia|done].
    + intros j Hj N. rewrite decide_False; [done|]. rewrite HI by done. naive_solver.
  - apply zsum_zero. intros j Hj. rewrite decide_False; [done|]. rewrite HI by done. naive_solver.
Qed.

Lemma list_slots (s : list Z) (f : nat → Z) :
  length s = 8 → (∀ j, j < 8 → s !! j = Some (int64 (f j))) → s = int64 <$> (f <$> seq 0 8).
Proof.
  intros L E. apply list_eq. intros j. destruct (decide (j < 8)) as [Hj|Hj].
  - rewrite E by done. rewrite !list_lookup_fmap, lookup_seq_lt by done. done.
  - rewrite !lookup_ge_None_2; [done|rewrite !length_fmap, length_seq; lia|lia].
Qed.

Lemma zsum_fmap {A B} (g : A → B) (f : B → Z) l : zsum f (g <$> l) = zsum (f ∘ g) l.
Proof. induction l as [|x l IH]; [done|]. simpl. by rewrite <- IH. Qed.

Lemma represents_total e a : represents e a → sumSamples e = int64 (window_total a).
Proof.
  intros (_ & _ & _ & L & F & S). simpl in L, S. unfold sumSamples.
  rewrite (list_slots _ _ L S). change 0%Z with (int64 0) at 1.
  rewrite foldl_int64, zsum_fmap. by rewrite <- window_slots.
Qed.

(** *** The ring operations *)

Lemma rem_HoursLog h : (0 ≤ h)%Z → Z.rem h HoursLog = (h mod HoursLog)%Z.
Proof. intros. by rewrite Z.rem_mod_nonneg. Qed.

Lemma uint8_small h : (0 ≤ h < 256)%Z → uint8 h = h.
Proof. intros. by apply wrap_u_id. Qed.

Lemma advance_one_ok hs last log :
  ring_ok hs (MkHistory last log) → ring_ok (advance_one hs) (MkHistory (last + 1) log).
Proof.
  intros (Hh & L & F & S). simpl in *. unfold HoursLog in Hh.
  pose proof (Z.mod_pos_bound last 8 ltac:(lia)) as B.
  assert (Z.rem (uint8 (hs.1 + 1)) HoursLog = ((last + 1) mod 8)%Z) as E.
  { rewrite uint8_small, rem_HoursLog by lia. rewrite Hh. by rewrite Zplus_mod_idemp_l. }
  pose proof (Z.mod_pos_bound (last + 1) 8 ltac:(lia)) as B'.
  unfold advance_one, ring_ok. rewrite E. simpl. unfold set_slot. rewrite length_insert.
  split_and!; [done|done|eapply Forall_impl; [exact F|simpl; lia]|].
  intros j Hj. rewrite slot_hour_succ by lia. case_decide as Ej.
  - rewrite <- Ej, Nat2Z.id, list_lookup_insert_eq by lia. by rewrite (hour_total_future _ last) by (done || lia).
  - rewrite list_lookup_insert_ne by lia. by apply S.
Qed.

Lemma advance_iter_ok n hs last log :
  ring_ok hs (MkHistory last log) → ring_ok (Nat.iter n advance_one hs) (MkHistory (last + Z.of_nat n) log).
Proof.
  intros R. induction n as [|n IH]; simpl; [by rewrite Z.add_0_r|].
  replace (last + Z.of_nat (S n))%Z with (last + Z.of_nat n + 1)%Z by lia.
  by apply advance_one_ok.
Qed.

Lemma cleared_ok (s : list Z) last log h :
  length s = 8 → Forall (λ p, p.1 ≤ last)%Z log → (last + 8 ≤ h)%Z →
  ring_ok ((h mod HoursLog)%Z, (λ _, 0%Z) <$> s) (MkHistory h log).
Proof.
  intros L F Hh. unfold ring_ok. simpl. rewrite length_fmap.
  split_and!; [done|done|eapply Forall_impl; [exact F|simpl; lia]|].
  intros j Hj. rewrite list_lookup_fmap. destruct (lookup_lt_is_Some_2 s j) as [x ->]; [lia|]. simpl.
  by rewrite (hour_total_future _ last) by (done || pose proof (slot_hour_range h (Z.of_nat j)); lia).
Qed.

(** Advancing the ring is advancing the history. *)
Lemma advance_represents e a h :
  represents e a → (0 ≤ h < 2 ^ 63)%Z → represents (advanceRingBuffer e h) (hist_advance h a).
Proof.
  intros (EL & B & R) Bh. destruct a as [last log]. simpl in *. unfold advanceRingBuffer, hist_advance. simpl.
  case_decide as Hle.
  { rewrite Z.max_l by lia. exact (conj EL (conj B R)). }
  rewrite Z.max_r by lia. rewrite EL, int64_id by lia.
  case_decide as Hp.
  - rewrite rem_HoursLog by lia. split_and!; simpl; [done|lia..|].
    rewrite uint8_small by (unfold HoursLog; pose proof (Z.mod_pos_bound h 8); lia).
    destruct R as (_ & L & F & _). apply (cleared_ok _ last); [done..|unfold HoursLog in Hp; lia].
  - pose proof (advance_iter_ok (Z.to_nat (h - last)) _ _ _ R) as R'.
    destruct (Nat.iter _ _ _) as [hd s]. split_and!; simpl; [done|lia..|].
    by replace (last + Z.of_nat (Z.to_nat (h - last)))%Z with h in R' by lia.
Qed.

(** Booking a sample in the head slot. *)
Lemma book_ok hd s last log n :
  ring_ok (hd, s) (MkHistory last log) →
  ∃ v, s !! Z.to_nat hd = Some v ∧
       ring_ok (hd, set_slot s hd (int64 (v + n))) (MkHistory last ((last, n) :: log)).
Proof.
  intros (Hh & L & F & S). simpl in *. unfold HoursLog in Hh.
  pose proof (Z.mod_pos_bound last 8 ltac:(lia)) as B.
  assert (slot_hour last hd = last) as EH by (apply slot_hour_iff; lia).
  eexists. split; [apply S; lia|]. rewrite Z2Nat.id by lia. rewrite EH.
  unfold ring_ok, set_slot. simpl. rewrite length_insert. split_and!; [done|done|by constructor|].
  intros j Hj. unfold hour_total at 2. simpl. fold (hour_total log (slot_hour last (Z.of_nat j))).
  destruct (decide (j = Z.to_nat hd)) as [->|N].
  - rewrite list_lookup_insert_eq by lia. rewrite Z2Nat.id, EH, decide_True by lia.
    rewrite int64_add_l. do 2 f_equal. lia.
  - rewrite list_lookup_insert_ne by done. rewrite S by done. rewrite decide_False; [done|].
    rewrite (eq_comm last), slot_hour_iff by lia. lia.
Qed.

Lemma zero_ring_ok h n :
  ring_ok ((h mod HoursLog)%Z, set_slot zero_samples (h mod HoursLog) (int64 n)) (MkHistory h [(h, n)]).
Proof.
  assert (ring_ok ((h mod HoursLog)%Z, zero_samples) (MkHistory h [])) as R.
  { apply (cleared_ok zero_samples (h - 8)); [done|constructor|lia]. }
  apply (book_ok _ _ _ _ n) in R as (v & Ev & R).
  assert (v = 0%Z) as ->.
  { unfold zero_samples in Ev. apply lookup_replicate in Ev. tauto. }
  exact R.
Qed.

(** ** Updates *)

Definition hist_new (h n : Z) : history := MkHistory h [(h, n)].

(** Clock readings at or after the epoch. *)
Definition clock_ok (nowUnix : Z) : Prop := (0 ≤ nowUnix < 2 ^ 63)%Z.

Lemma hour_of_range t : clock_ok t → (0 ≤ hour_of t < 2 ^ 63)%Z.
Proof.
  intros [? ?]. unfold hour_of. rewrite Z.quot_div_nonneg by lia.
  split; [apply Z.div_pos; lia|]. apply Z.div_lt_upper_bound; lia.
Qed.

(** Every entry of the cache represents the history the ghost map assigns. *)
Definition cache_represents (c : KnownTimeseriesCache) (g : gmap HashKey history) : Prop :=
  map_Forall2 (λ _, represents) c g.

Definition hist_update (g : gmap HashKey history) (t : Z) (key : HashKey) (n : Z) : gmap HashKey history :=
  <[key := match g !! key with
           | Some a => hist_add (hour_of t) n a
           | None => hist_new (hour_of t) n
           end]> g.

Lemma UpdateTimeseries_ok c g t key entry :
  cache_represents c g → clock_ok t → (- 2 ^ 63 ≤ te_Samples entry < 2 ^ 63)%Z →
  ∃ c', UpdateTimeseries c t key entry = Some c' ∧
        cache_represents c' (hist_update g t key (te_Samples entry)) ∧
        (∀ k, k ≠ key → c' !! k = c !! k) ∧
        ∃ e, c' !! key = Some e ∧ ke_LastUpdate e = t ∧
             ke_LastBackendSync e = default 0%Z (ke_LastBackendSync <$> c !! key) ∧
             ke_MetricName e = default (te_MetricName entry) (ke_MetricName <$> c !! key).
Proof.
  intros R Ht Hn. pose proof (hour_of_range t Ht) as Bh. unfold UpdateTimeseries, hist_update.
  pose proof (R key) as Rk. revert Rk.
  destruct (c !! key) as [e|] eqn:Ec, (g !! key) as [a|] eqn:Eg; intros Rk; inversion Rk as [? ? Re|]; subst.
  - pose proof (advance_represents e a (hour_of t) Re Bh) as (EL & B & RO).
    unfold hist_add. destruct (hist_advance (hour_of t) a) as [last log]. simpl in *.
    destruct (book_ok _ _ _ _ (te_Samples entry) RO) as (v & -> & RO'). simpl.
    eexists. split; [done|]. split_and!.
    + apply map_Forall2_insert_2; [|done]. exact (conj EL (conj B RO')).
    + intros k N. by rewrite lookup_insert_ne.
    + eexists. rewrite lookup_insert_eq. split_and!; [done|done|..]; simpl;
        unfold advanceRingBuffer; (repeat case_decide; [done| |]; by repeat case_match).
  - rewrite rem_HoursLog by lia.
    pose proof (Z.mod_pos_bound (hour_of t) 8 ltac:(lia)) as Bm. fold HoursLog in Bm.
    rewrite uint8_small by (unfold HoursLog in *; lia). rewrite decide_True by (unfold HoursLog in *; lia).
    eexists. split; [done|]. split_and!.
    + apply map_Forall2_insert_2; [|done]. split_and!; simpl; [done|lia..|].
      rewrite <- (int64_id (te_Samples entry)) at 1 by done. apply zero_ring_ok.
    + intros k N. by rewrite lookup_insert_ne.
    + eexists. rewrite lookup_insert_eq. by split_and!.
Qed.

(** ** Scans *)

(** The item a series contributes to an active batch at a given hour. *)
Definition active_item (c : KnownTimeseriesCache) (h older : Z) (key : HashKey)
  : option KnownActiveTimeseriesItem :=
  entry ← c !! key;
  let e := advanceRingBuffer entry h in
  if decide (older ≤ ke_LastBackendSync e)%Z then None
  else if decide (sumSamples e = 0)%Z then None
  else Some (MkActiveItem key (sumSamples e) (int64 (ke_LastUpdate e * 1000))).

Definition inactive_key (c : KnownTimeseriesCache) (h : Z) (key : HashKey) : option HashKey :=
  entry ← c !! key;
  if decide (sumSamples (advanceRingBuffer entry h) = 0)%Z then Some key else None.

(** A scan at hour [h] leaves every entry alone or advances it to [h]. *)
Definition scanned (h : Z) (c c' : KnownTimeseriesCache) : Prop :=
  ∀ k, c' !! k = c !! k ∨ c' !! k = (λ e, advanceRingBuffer e h) <$> c !! k.

Lemma scanned_refl h c : scanned h c c.
Proof. intros k. by left. Qed.

Lemma scanned_insert h c c' key e :
  c !! key = Some e → c' !! key = Some (advanceRingBuffer e h) →
  scanned h (<[key := advanceRingBuffer e h]> c) c' → scanned h c c'.
Proof.
  intros E E' S k. destruct (decide (k = key)) as [->|N].
  - right. by rewrite E, E'.
  - specialize (S k). by rewrite lookup_insert_ne in S.
Qed.

(** What one visited key adds to the effect of the rest of the scan. *)
Lemma scan_step h c c' key e (order : list HashKey) :
  let c1 := <[key := advanceRingBuffer e h]> c in
  c !! key = Some e → key ∉ order → scanned h c1 c' → (∀ k, k ∉ order → c' !! k = c1 !! k) →
  scanned h c c' ∧ ∀ k, k ∉ key :: order → c' !! k = c !! k.
Proof.
  intros c1 E N S F. split.
  - eapply scanned_insert; [done| |exact S]. rewrite F by done. apply lookup_insert_eq.
  - intros k [N1 N2]%not_elem_of_cons. rewrite F by done. by apply lookup_insert_ne.
Qed.

Lemma omap_insert_ne {A} (f : KnownTimeseriesCache → HashKey → option A) c key e (order : list HashKey) :
  (∀ c c' k, c !! k = c' !! k → f c k = f c' k) → key ∉ order →
  omap (f (<[key := e]> c)) order = omap (f c) order.
Proof.
  intros E N. apply list_omap_ext, Forall_Forall2_diag, Forall_forall. intros k Hk.
  apply E, lookup_insert_ne. by intros ->.
Qed.

Lemma active_scan_ok c h older room order :
  NoDup order →
  (active_scan c h older room order).1 = take room (omap (active_item c h older) order) ∧
  scanned h c (active_scan c h older room order).2 ∧
  ∀ k, k ∉ order → (active_scan c h older room order).2 !! k = c !! k.
Proof.
  intros ND. revert c room. induction ND as [|key order N ND IH]; intros c room.
  { simpl. rewrite take_nil. by split_and!; [|apply scanned_refl|]. }
  destruct room as [|room]; [by split_and!; [|apply scanned_refl|]|].
  cbn [active_scan]. cbn [omap list_omap]. unfold active_item at 1.
  destruct (c !! key) as [entry|] eqn:E; simpl.
  2:{ destruct (IH c (S room)) as (E1 & E2 & E3). split_and!; [done|done|].
      intros k [_ ?]%not_elem_of_cons. by apply E3. }
  set (e := advanceRingBuffer entry h). set (c1 := <[key := e]> c).
  assert (omap (active_item c1 h older) order = omap (active_item c h older) order) as EO.
  { apply (omap_insert_ne (λ c, active_item c h older)); [|done]. intros a b k Eab. unfold active_item. by rewrite Eab. }
  destruct (IH c1 room) as (A1 & A2 & A3), (IH c1 (S room)) as (B1 & B2 & B3).
  destruct (decide _); [|destruct (decide _)].
  - split; [by rewrite B1, EO|by eapply scan_step].
  - split; [by rewrite B1, EO|by eapply scan_step].
  - pose proof (scan_step _ _ _ _ _ _ E N A2 A3) as Hrest.
    destruct (active_scan c1 h older room order) as [items c']. simpl in *.
    split; [by rewrite A1, EO|done].
Qed.

Lemma inactive_scan_ok c h room order :
  NoDup order →
  (inactive_scan c h room order).1 = take room (omap (inactive_key c h) order) ∧
  scanned h c (inactive_scan c h room order).2 ∧
  ∀ k, k ∉ order → (inactive_scan c h room order).2 !! k = c !! k.
Proof.
  intros ND. revert c room. induction ND as [|key order N ND IH]; intros c room.
  { simpl. rewrite take_nil. by split_and!; [|apply scanned_refl|]. }
  destruct room as [|room]; [by split_and!; [|apply scanned_refl|]|].
  cbn [inactive_scan]. cbn [omap list_omap]. unfold inactive_key at 1.
  destruct (c !! key) as [entry|] eqn:E; simpl.
  2:{ destruct (IH c (S room)) as (E1 & E2 & E3). split_and!; [done|done|].
      intros k [_ ?]%not_elem_of_cons. by apply E3. }
  set (e := advanceRingBuffer entry h). set (c1 := <[key := e]> c).
  assert (omap (inactive_key c1 h) order = omap (inactive_key c h) order) as EO.
  { apply (omap_insert_ne (λ c, inactive_key c h)); [|done]. intros a b k Eab. unfold inactive_key. by rewrite Eab. }
  destruct (IH c1 room) as (A1 & A2 & A3), (IH c1 (S room)) as (B1 & B2 & B3).
  destruct (decide _).
  - pose proof (scan_step _ _ _ _ _ _ E N A2 A3) as Hrest.
    destruct (inactive_scan c1 h room order) as [items c']. simpl in *.
    split; [by rewrite A1, EO|done].
  - split; [by rewrite B1, EO|by eapply scan_step].
Qed.

(** ** The cache as a machine *)

#[export] Instance KnownTimeseriesEntry_eq_dec : EqDecision KnownTimeseriesEntry.
Proof. solve_decision. Defined.

Inductive known_op :=
| KUpdate (t : Z) (key : HashKey) (entry : TimeseriesEntry)
| KActive (t older batchSize : Z) (order : list HashKey)
| KInactive (t batchSize : Z) (order : list HashKey)
| KDelete (keys : list HashKey)
| KMark (t : Z) (keys : list HashKey).

Definition known_step (c : KnownTimeseriesCache) (op : known_op) : option KnownTimeseriesCache :=
  match op with
  | KUpdate t key entry => UpdateTimeseries c t key entry
  | KActive t older n order => Some (GetActiveTimeseriesBatch c t older n order).2
  | KInactive t n order => Some (GetInactiveTimeseriesBatch c t n order).2
  | KDelete keys => Some (DeleteBatch c keys)
  | KMark t keys => Some (MarkSyncedBatch c t keys)
  end.

Definition known_run (c : KnownTimeseriesCache) (ops : list known_op) : option KnownTimeseriesCache :=
  foldl (λ oc op, oc ≫= λ c, known_step c op) (Some c) ops.

Definition op_ok (op : known_op) : Prop :=
  match op with
  | KUpdate t _ entry => clock_ok t ∧ (- 2 ^ 63 ≤ te_Samples entry < 2 ^ 63)%Z
  | KActive t _ _ order | KInactive t _ order => clock_ok t ∧ NoDup order
  | KDelete _ | KMark _ _ => True
  end.

(** What an operation does to the recorded histories: an update books its
    samples, a scan may close the hours up to now for some series, a deletion
    forgets, a sync mark changes nothing. *)
Definition hist_step (op : known_op) (g g' : gmap HashKey history) : Prop :=
  match op with
  | KUpdate t key entry => g' = hist_update g t key (te_Samples entry)
  | KActive t _ _ _ | KInactive t _ _ =>
      ∀ k, g' !! k = g !! k ∨ g' !! k = hist_advance (hour_of t) <$> g !! k
  | KDelete keys => g' = foldl (λ g k, delete k g) g keys
  | KMark _ _ => g' = g
  end.

Inductive hist_run : gmap HashKey history → list known_op → gmap HashKey history → Prop :=
| hist_run_nil g : hist_run g [] g
| hist_run_snoc g ops g' op g'' :
    hist_run g ops g' → hist_step op g' g'' → hist_run g (ops ++ [op]) g''.

Lemma scanned_represents h c c' g :
  (0 ≤ h < 2 ^ 63)%Z → scanned h c c' → cache_represents c g →
  ∃ g', (∀ k, g' !! k = g !! k ∨ g' !! k = hist_advance h <$> g !! k) ∧ cache_represents c' g'.
Proof.
  intros Bh S R.
  exists (map_imap (λ k a, Some (if decide (c' !! k = c !! k) then a else hist_advance h a)) g).
  split.
  - intros k. rewrite map_lookup_imap. destruct (g !! k) as [a|]; simpl; [|by left].
    case_decide; [by left|by right].
  - intros k. rewrite map_lookup_imap. specialize (S k). pose proof (R k) as Rk. revert Rk S.
    destruct (c !! k) as [e|], (g !! k) as [a|]; intros Rk; inversion Rk as [? ? Re|]; subst; simpl.
    + intros S. case_decide as D; [rewrite D; by constructor|]. destruct S as [S|S]; [done|].
      rewrite S. constructor. by apply advance_represents.
    + intros [-> | ->]; constructor.
Qed.

Lemma foldl_delete_lookup {A} (keys : list HashKey) (m : gmap HashKey A) k :
  foldl (λ m k, delete k m) m keys !! k = if decide (k ∈ keys) then None else m !! k.
Proof.
  revert m. induction keys as [|x keys IH]; intros m; [done|]. simpl.
  rewrite IH. destruct (decide (k ∈ keys)).
  - by rewrite decide_True by by right.
  - destruct (decide (k = x)) as [->|N]; [by rewrite lookup_delete_eq, decide_True by left|].
    rewrite lookup_delete_ne by done. rewrite decide_False; [done|]. by rewrite elem_of_cons; intros [|].
Qed.

Lemma MarkSyncedBatch_lookup c t keys k :
  MarkSyncedBatch c t keys !! k = (if decide (k ∈ keys) then with_sync t else id) <$> c !! k.
Proof.
  unfold MarkSyncedBatch. revert c. induction keys as [|x keys IH]; intros c; simpl.
  { by destruct (c !! k). }
  rewrite IH. destruct (decide (k = x)) as [->|N].
  - rewrite (decide_True (P := x ∈ x :: keys)) by left.
    destruct (c !! x) as [e|] eqn:E; [|by rewrite E]. rewrite lookup_insert_eq. simpl.
    by destruct (decide (x ∈ keys)).
  - assert (k ∈ x :: keys ↔ k ∈ keys) as HI by (rewrite elem_of_cons; naive_solver).
    rewrite (decide_ext (k ∈ x :: keys) (k ∈ keys) _ _ HI).
    destruct (c !! x) as [e|]; [|done]. by rewrite lookup_insert_ne.
Qed.

Lemma known_step_ok c g op :
  cache_represents c g → op_ok op →
  ∃ c' g', known_step c op = Some c' ∧ hist_step op g g' ∧ cache_represents c' g'.
Proof.
  intros R O. destruct op as [t key entry|t older n order|t n order|keys|t keys]; simpl in *.
  - destruct O as [Ht Hn]. destruct (UpdateTimeseries_ok c g t key entry R Ht Hn) as (c' & E & R' & _). eauto.
  - destruct O as [Ht ND]. assert (scanned (hour_of t) c (GetActiveTimeseriesBatch c t older n order).2) as S.
    { unfold GetActiveTimeseriesBatch. case_decide; [apply scanned_refl|]. by apply active_scan_ok. }
    destruct (scanned_represents _ _ _ g (hour_of_range t Ht) S R) as (g' & ? & ?). eauto.
  - destruct O as [Ht ND]. assert (scanned (hour_of t) c (GetInactiveTimeseriesBatch c t n order).2) as S.
    { unfold GetInactiveTimeseriesBatch. case_decide; [apply scanned_refl|]. by apply inactive_scan_ok. }
    destruct (scanned_represents _ _ _ g (hour_of_range t Ht) S R) as (g' & ? & ?). eauto.
  - eexists _, _. split_and!; [done|done|]. intros k. unfold DeleteBatch. rewrite !foldl_delete_lookup.
    case_decide; [constructor|apply R].
  - eexists _, g. split_and!; [done|done|]. intros k. rewrite MarkSyncedBatch_lookup.
    pose proof (R k) as Rk. inversion Rk as [e a Re Ee Ea|Ee Ea]; simpl; constructor. by case_decide.
Qed.

Lemma known_run_snoc c ops op : known_run c (ops ++ [op]) = known_run c ops ≫= λ c, known_step c op.
Proof. unfold known_run. by rewrite foldl_app. Qed.

Lemma known_run_ok ops :
  Forall op_ok ops →
  ∃ c g, known_run Init ops = Some c ∧ hist_run ∅ ops g ∧ cache_represents c g.
Proof.
  induction ops as [|op ops IH] using rev_ind; intros F.
  { exists ∅, ∅. split_and!; [done|constructor|]. intros k. rewrite !lookup_empty. constructor. }
  apply Forall_app in F as [F Fo]. apply Forall_cons in Fo as [Fo _].
  destruct (IH F) as (c & g & E & HR & R). destruct (known_step_ok c g op R Fo) as (c' & g' & E' & S & R').
  exists c', g'. split_and!; [|by eapply hist_run_snoc|done]. rewrite known_run_snoc, E. exact E'.
Qed.

(** Totals seen by a scan, in terms of the histories. *)
Lemma scan_total c g h key entry a :
  cache_represents c g → (0 ≤ h < 2 ^ 63)%Z → c !! key = Some entry → g !! key = Some a →
  sumSamples (advanceRingBuffer entry h) = int64 (window_total (hist_advance h a)).
Proof.
  intros R Bh E Eg. pose proof (R key) as Rk. rewrite E, Eg in Rk. inversion Rk; subst.
  by apply represents_total, advance_represents.
Qed.

Lemma advance_sync e h : ke_LastBackendSync (advanceRingBuffer e h) = ke_LastBackendSync e
  ∧ ke_LastUpdate (advanceRingBuffer e h) = ke_LastUpdate e
  ∧ ke_MetricName (advanceRingBuffer e h) = ke_MetricName e.
Proof. unfold advanceRingBuffer. case_decide; [done|]. by case_match. Qed.

(** The specification of a batch, from the recorded histories alone. *)
Definition spec_active (c : KnownTimeseriesCache) (g : gmap HashKey history) (h older : Z) (key : HashKey)
  : option KnownActiveTimeseriesItem :=
  entry ← c !! key; a ← g !! key;
  let total := int64 (window_total (hist_advance h a)) in
  if decide (ke_LastBackendSync entry < older ∧ total ≠ 0)%Z
  then Some (MkActiveItem key total (int64 (ke_LastUpdate entry * 1000))) else None.

Definition spec_inactive (g : gmap HashKey history) (h : Z) (key : HashKey) : option HashKey :=
  a ← g !! key;
  if decide (int64 (window_total (hist_advance h a)) = 0)%Z then Some key else None.

Lemma active_item_spec c g h older key :
  cache_represents c g → (0 ≤ h < 2 ^ 63)%Z → active_item c h older key = spec_active c g h older key.
Proof.
  intros R Bh. unfold active_item, spec_active. pose proof (R key) as Rk.
  destruct (c !! key) as [entry|] eqn:E; [|done]. simpl. inversion Rk as [? a Re E1 Ea|]. subst.
  simpl. rewrite (scan_total c g h key entry a) by done. destruct (advance_sync entry h) as (-> & -> & _).
  repeat case_decide; try done; naive_solver lia.
Qed.

Lemma inactive_key_spec c g h key :
  cache_represents c g → (0 ≤ h < 2 ^ 63)%Z → inactive_key c h key = spec_inactive g h key.
Proof.
  intros R Bh. unfold inactive_key, spec_inactive. pose proof (R key) as Rk.
  destruct (c !! key) as [entry|] eqn:E; inversion Rk as [? a Re E1 Ea|]; subst; [|done].
  simpl. by rewrite (scan_total c g h key entry a) by done.
Qed.

(** ** Properties *)

(** C6: The ring buffers refine a plain log of samples: after any sequence of
    updates, scans, deletions and sync marks, starting from an empty cache and
    with clock readings at or after the epoch in any order, no slot index ever
    leaves its array, and every entry's ring is in the state that represents
    the history of the samples booked for its series (the slots hold the hourly
    totals of the last eight hours, modulo 64-bit wrap-around). *)
Theorem rings_refine_history (ops : list known_op) :
  Forall op_ok ops →
  ∃ c g, known_run Init ops = Some c ∧ hist_run ∅ ops g ∧ cache_represents c g.
Proof. apply known_run_ok. Qed.

(** C33: The batches sent to the backend are what the histories call for. An
    active batch lists, in iteration order and up to the batch size, exactly the
    series not synced since the threshold whose samples of the last eight hours
    have a non-zero total, each with that total and its last update in
    milliseconds; an inactive batch lists exactly the series whose total is
    zero. *)
Theorem batches_follow_history (c : KnownTimeseriesCache) (g : gmap HashKey history)
    (t older batchSize : Z) (order : list HashKey) :
  cache_represents c g → clock_ok t → NoDup order → (0 < batchSize)%Z →
  (GetActiveTimeseriesBatch c t older batchSize order).1
  = take (Z.to_nat batchSize) (omap (spec_active c g (hour_of t) older) order) ∧
  (GetInactiveTimeseriesBatch c t batchSize order).1
  = take (Z.to_nat batchSize) (omap (spec_inactive g (hour_of t)) order).
Proof.
  intros R Ht ND Hb. pose proof (hour_of_range t Ht) as Bh.
  unfold GetActiveTimeseriesBatch, GetInactiveTimeseriesBatch. rewrite !decide_False by lia. split.
  - destruct (active_scan_ok c (hour_of t) older (Z.to_nat batchSize) order ND) as (-> & _). f_equal.
    apply list_omap_ext, Forall_Forall2_diag, Forall_forall. intros k _. by apply active_item_spec.
  - destruct (inactive_scan_ok c (hour_of t) (Z.to_nat batchSize) order ND) as (-> & _). f_equal.
    apply list_omap_ext, Forall_Forall2_diag, Forall_forall. intros k _. by apply inactive_key_spec.
Qed.

(** Marking a batch as synced keeps its series out of every active batch
    whose threshold is not after the mark, changes nothing but the sync time,
    and deleting a batch removes exactly its series. *)
Theorem sync_marks_and_deletions (c : KnownTimeseriesCache) (t : Z) (keys : list HashKey) (k : HashKey) :
  MarkSyncedBatch c t keys !! k = (if decide (k ∈ keys) then with_sync t else id) <$> c !! k ∧
  (∀ h older, k ∈ keys → (older ≤ t)%Z → active_item (MarkSyncedBatch c t keys) h older k = None) ∧
  DeleteBatch c keys !! k = if decide (k ∈ keys) then None else c !! k.
Proof.
  split_and!; [apply MarkSyncedBatch_lookup| |apply foldl_delete_lookup].
  intros h older Hk Ho. unfold active_item. rewrite MarkSyncedBatch_lookup, decide_True by done.
  destruct (c !! k) as [e|]; [|done]. simpl. destruct (advance_sync (with_sync t e) h) as (-> & _).
  simpl. by rewrite decide_True.
Qed.

(** ** Evaluation *)

Module KnownCacheSample.

Definition key (c : ascii) : HashKey := vreplicate 16 c.
Definition series (n : Z) : TimeseriesEntry := MkTimeseriesEntry "up" [] n.

(** Samples in hours 0, 2 and 9; the scan in hour 9 no longer sees hour 0. *)
Definition ops : list known_op :=
  [KUpdate 10 (key "a") (series 5); KUpdate 7300 (key "a") (series 7);
   KUpdate 100 (key "b") (series 1); KUpdate 32500 (key "a") (series 2)].

Definition after : KnownTimeseriesCache := default ∅ (known_run Init ops).

Definition histories : gmap HashKey history :=
  hist_update (hist_update (hist_update (hist_update ∅ 10 (key "a") 5) 7300 (key "a") 7)
    100 (key "b") 1) 32500 (key "a") 2.

Example batches_sample :
  (GetActiveTimeseriesBatch after 32500 60 10 [key "a"; key "b"]).1
  = [MkActiveItem (key "a") 9 32500000] ∧
  (GetInactiveTimeseriesBatch after 32500 10 [key "a"; key "b"]).1 = [key "b"].
Proof. by vm_compute. Qed.

(** A clock before the epoch gives a slot index outside the array. *)
Example clock_before_epoch : UpdateTimeseries Init (-3600) (key "a") (series 1) = None.
Proof. reflexivity. Qed.

Lemma ops_ok : Forall op_ok ops.
Proof. repeat constructor; simpl; lia. Qed.

Lemma after_represents : cache_represents after histories.
Proof.
  unfold after, histories.
  destruct (UpdateTimeseries_ok Init ∅ 10 (key "a") (series 5)) as (c1 & E1 & R1 & _); [by intros k; rewrite !lookup_empty; constructor|split; lia|simpl; lia|].
  destruct (UpdateTimeseries_ok c1 _ 7300 (key "a") (series 7) R1) as (c2 & E2 & R2 & _); [split; lia|simpl; lia|].
  destruct (UpdateTimeseries_ok c2 _ 100 (key "b") (series 1) R2) as (c3 & E3 & R3 & _); [split; lia|simpl; lia|].
  destruct (UpdateTimeseries_ok c3 _ 32500 (key "a") (series 2) R3) as (c4 & E4 & R4 & _); [split; lia|simpl; lia|].
  assert (known_run Init ops = Some c4) as ->; [|exact R4].
  unfold known_run, ops. cbn [foldl mbind option_bind known_step]. rewrite E1. cbn [mbind option_bind].
  rewrite E2. cbn [mbind option_bind]. rewrite E3. cbn [mbind option_bind]. exact E4.
Qed.

End KnownCacheSample.

Lemma rings_refine_history_witness :
  Forall op_ok KnownCacheSample.ops ∧
  ∃ c g, known_run Init KnownCacheSample.ops = Some c ∧ hist_run ∅ KnownCacheSample.ops g ∧ cache_represents c g.
Proof.
  split; [apply KnownCacheSample.ops_ok|].
  apply (rings_refine_history KnownCacheSample.ops), KnownCacheSample.ops_ok.
Defined.

Lemma batches_follow_history_witness :
  let order := [KnownCacheSample.key "a"; KnownCacheSample.key "b"] in
  (GetActiveTimeseriesBatch KnownCacheSample.after 32500 60 10 order).1
  = take (Z.to_nat 10) (omap (spec_active KnownCacheSample.after KnownCacheSample.histories (hour_of 32500) 60) order) ∧
  (GetInactiveTimeseriesBatch KnownCacheSample.after 32500 10 order).1
  = take (Z.to_nat 10) (omap (spec_inactive KnownCacheSample.histories (hour_of 32500)) order).
Proof.
  intros order. apply (batches_follow_history KnownCacheSample.after KnownCacheSample.histories 32500 60 10 order).
  - apply KnownCacheSample.after_represents.
  - split; lia.
  - apply (bool_decide_unpack _). vm_compute. reflexivity.
  - lia.
Defined.
