(* ===== verification/DiscoveredCache.v ===== *)
(** The cache of newly discovered series (components/edgecontroller/
    discovered_timeseries_cache.go): series wait here, with their labels, until
    the backend has acknowledged the index-create message that announces them. *)

From S2P Require Import Prelude GoText MetricsIndex.

Notation DiscoveredTimeseriesCache := (gmap HashKey TimeseriesEntry).

Record DiscoveredTimeseriesItem := MkDiscoveredItem {
  di_HashKey : string;
  di_Name : string;
  di_Labels : list string;
}.

Record DiscoveredEntryView := MkDiscoveredView {
  dv_Fingerprint : string;
  dv_MetricName : string;
  dv_Labels : gmap string string;
  dv_Samples : Z;
}.

Definition DInit : DiscoveredTimeseriesCache := ∅.
Definition DGetSize (c : DiscoveredTimeseriesCache) : nat := size c.

Definition Add (c : DiscoveredTimeseriesCache) (key : HashKey) (entry : TimeseriesEntry)
  : DiscoveredTimeseriesCache := <[key := entry]> c.

(** The batch's map in iteration order. *)
Definition AddBatch (c : DiscoveredTimeseriesCache) (batch : list (HashKey * TimeseriesEntry))
  : DiscoveredTimeseriesCache := foldl (λ c '(key, entry), <[key := entry]> c) c batch.

(** [labels = append(labels, lp.Name, lp.Value)]. *)
Definition flatten_labels (ls : list LabelPair) : list string :=
  foldl (λ labels lp, labels ++ [lp_Name lp; lp_Value lp]) [] ls.

Definition discovered_item (key : HashKey) (entry : TimeseriesEntry) : DiscoveredTimeseriesItem :=
  MkDiscoveredItem (HashKey_String key) (te_MetricName entry) (flatten_labels (te_Labels entry)).

(** The collecting loop: [room] entries at most, in iteration order. *)
Fixpoint collect (c : DiscoveredTimeseriesCache) (room : nat) (order : list HashKey)
  : list DiscoveredTimeseriesItem * list HashKey :=
  match order, room with
  | [], _ | _, O => ([], [])
  | key :: order, S room' =>
      match c !! key with
      | None => collect c room order
      | Some entry =>
          let '(items, keys) := collect c room' order in (discovered_item key entry :: items, key :: keys)
      end
  end.

(** The only caller passes the constant 5000, so the size is a natural number
    (a negative one would panic in [make]). *)
Definition GetBatch (c : DiscoveredTimeseriesCache) (batchSize : nat) (order : list HashKey)
  : list DiscoveredTimeseriesItem * list HashKey :=
  let actualSize := size c in
  let actualSize := if decide (batchSize < actualSize) then batchSize else actualSize in
  if decide (actualSize = 0) then ([], []) else collect c actualSize order.

Definition discovered_view (key : HashKey) (entry : TimeseriesEntry) : DiscoveredEntryView :=
  MkDiscoveredView (HashKey_String key) (te_MetricName entry)
    (foldl (λ m lp, <[lp_Name lp := lp_Value lp]> m) ∅ (te_Labels entry)) (te_Samples entry).

Definition dview_le (a b : DiscoveredEntryView) : Prop :=
  if decide (dv_MetricName a = dv_MetricName b)
  then String.le (dv_Fingerprint a) (dv_Fingerprint b)
  else String.le (dv_MetricName a) (dv_MetricName b).

#[export] Instance dview_le_dec a b : Decision (dview_le a b).
Proof. unfold dview_le. case_decide; apply _. Defined.

Definition DiscoveredSnapshot (c : DiscoveredTimeseriesCache) (order : list HashKey) : list DiscoveredEntryView :=
  merge_sort dview_le (omap (λ k, discovered_view k <$> c !! k) order).

Definition PurgeBatch (c : DiscoveredTimeseriesCache) (keys : list HashKey) : DiscoveredTimeseriesCache :=
  foldl (λ c key, delete key c) c keys.

(** ** Lemmas *)

Lemma collect_ok c room order :
  collect c room order =
  let found := take room (omap (λ k, (λ e, (k, e)) <$> c !! k) order) in
  ((λ p, discovered_item p.1 p.2) <$> found, found.*1).
Proof.
  revert room. induction order as [|key order IH]; intros room; simpl; [by rewrite take_nil|].
  destruct room as [|room]; [done|]. destruct (c !! key) as [e|]; simpl; by rewrite IH.
Qed.

Lemma flatten_acc ls acc :
  foldl (λ labels lp, labels ++ [lp_Name lp; lp_Value lp]) acc ls = acc ++ flatten_labels ls.
Proof.
  unfold flatten_labels. revert acc. induction ls as [|lp ls IH]; intros acc; simpl; [by rewrite app_nil_r|].
  rewrite IH, (IH [_; _]). by rewrite <- app_assoc.
Qed.

Lemma flatten_cons lp ls : flatten_labels (lp :: ls) = lp_Name lp :: lp_Value lp :: flatten_labels ls.
Proof. unfold flatten_labels at 1. simpl. by rewrite flatten_acc. Qed.
