(* ===== verification/DemandCache.v ===== *)
(** The demand set in force (components/edgecontroller/
    demand_timeseries_cache.go). Slices are copied in and out, so the cache is
    a plain value. *)

From S2P Require Import Prelude Demand.

Record DemandTimeseriesCache := MkDemandCache {
  timeseries : list string;
  logSelectors : list string;
  traceSelectors : list string;
  metricSelectors : list string;
  demandHash : Z;
  dc_LastUpdate : Z;
  traceRoutes : list Route;
}.

Record DemandTimeseriesSnapshot := MkDemandSnapshot {
  Timeseries : list string;
  LogSelectors : list string;
  TraceSelectors : list string;
  MetricSelectors : list string;
  TraceRoutes : list Route;
  DemandHash : Z;
  ds_LastUpdate : Z;
}.

Definition NewDemandTimeseriesCache : DemandTimeseriesCache := MkDemandCache [] [] [] [] 0 0 [].

Definition UpdateTraceRoutes (c : DemandTimeseriesCache) (routes : list Route) : DemandTimeseriesCache :=
  MkDemandCache (timeseries c) (logSelectors c) (traceSelectors c) (metricSelectors c)
    (demandHash c) (dc_LastUpdate c) routes.

Definition DemandInit (c : DemandTimeseriesCache) : DemandTimeseriesCache :=
  MkDemandCache [] [] [] [] 0 0 (traceRoutes c).

Definition GetDemandSnapshot (c : DemandTimeseriesCache) : DemandTimeseriesSnapshot :=
  MkDemandSnapshot (timeseries c) (logSelectors c) (traceSelectors c) (metricSelectors c)
    (traceRoutes c) (demandHash c) (dc_LastUpdate c).

Definition DemandSize (c : DemandTimeseriesCache) : nat := length (timeseries c).

Definition UpdateDemands (c : DemandTimeseriesCache) (nowUnix : Z)
    (ts ls trs ms : list string) (hash : Z) : DemandTimeseriesCache :=
  MkDemandCache ts ls trs ms hash nowUnix (traceRoutes c).

(** [DemandInit] clears the four demand lists, the hash and the update time but
    keeps the trace routing table. *)
Remark init_keeps_trace_routes c routes :
  GetDemandSnapshot (DemandInit (UpdateTraceRoutes c routes)) = MkDemandSnapshot [] [] [] [] routes 0 0.
Proof. done. Qed.
