(* ===== verification/DemandMatcher.v ===== *)
(** Demand accounting (components/edgecontroller/demand_matcher.go): which known
    series names a demand list or a selector list asks for, used by the ping and
    by the diagnosis.

    The lemmas relate it to the demand filter, for [Pipeline]: every series of a
    metric the filter keeps is counted as demanded, in name mode and in selector
    mode, for metrics whose base name does not itself end in a family suffix; and the two
    directions, expanding a demand and listing the variants of a series name,
    are inverse on such names. The names outside that condition are the
    divergences recorded at the end. *)

From S2P Require Import Prelude GoText Selector PData PromNaming Demand DemandFilter.

Definition family_suffixes : list string := ["_bucket"; "_sum"; "_count"].

(** The suffix loop shared by both directions: the first family suffix the name
    properly ends in, and the rest of the name. *)
Fixpoint strip_suffix (suffixes : list string) (d : string) : option (string * string) :=
  match suffixes with
  | [] => None
  | s :: suffixes =>
      if HasSuffix d s && bool_decide (len s < len d) then Some (TrimSuffix d s, s)
      else strip_suffix suffixes d
  end.

(** One demanded name of [expandDemandNames]. *)
Definition expand_one (set : gset string) (d : string) : gset string :=
  if decide (d = "") then set
  else
    let set := {[d]} ∪ set in
    let base := match strip_suffix family_suffixes d with Some (b, _) => b | None => d end in
    let set :=
      match strip_suffix family_suffixes d with
      | Some _ => {[base +:+ "_bucket"]} ∪ ({[base]} ∪ set)
      | None => set
      end in
    {[base +:+ "_count"]} ∪ ({[base +:+ "_sum"]} ∪ set).

Definition expandDemandNames (demands : list string) : gset string := foldl expand_one ∅ demands.

(** [order] gives the iteration order of the expansion, which the verdict does
    not depend on: the loop only looks for a member. *)
Definition demand_found (d : string) (knownNames : gset string) : bool :=
  existsb (λ n, bool_decide (n ∈ knownNames)) (elements (expandDemandNames [d])).

Definition diagnoseDemand (demands : list string) (knownNames : gset string)
  : list string * list string :=
  let nonempty := filter (λ d, d ≠ "") demands in
  (sort_strings (filter (λ d, demand_found d knownNames = true) nonempty),
   sort_strings (filter (λ d, demand_found d knownNames = false) nonempty)).

Definition familyNameVariants (n : string) : list string :=
  let '(base, suffix) := match strip_suffix family_suffixes n with Some p => p | None => (n, "") end in
  let variants := [n; base +:+ "_bucket"; base +:+ "_sum"; base +:+ "_count"] in
  if decide (suffix ≠ "_bucket" ∧ base ≠ n) then variants ++ [base] else variants.

Section Selectors.
Context `{Regexp}.

Record nameSelector := MkNameSelector {
  raw : string;
  parsed : bool;
  ns_nameMatchers : list Matcher;
}.

Definition parseNameSelector (s : string) : nameSelector :=
  match Parse s with
  | Ok sel => MkNameSelector s true (filter (λ m, Name m = "__name__") (Matchers sel))
  | Err _ => MkNameSelector s false []
  end.

Definition parseNameSelectors (selectors : list string) : list nameSelector := parseNameSelector <$> selectors.

Definition matchesSeriesName (ns : nameSelector) (n : string) : bool :=
  if negb (parsed ns) then false
  else existsb (λ v, forallb (λ m, MatchValue m v) (ns_nameMatchers ns)) (familyNameVariants n).

Definition selectorDemandedNames (selectors : list string) (knownNames : gset string) : gset string :=
  let ps := parseNameSelectors selectors in
  filter (λ n, existsb (λ ns, matchesSeriesName ns n) ps = true) knownNames.

Definition selector_found (ns : nameSelector) (knownNames : gset string) : bool :=
  existsb (matchesSeriesName ns) (elements knownNames).

Definition diagnoseDemandSelectors (selectors : list string) (knownNames : gset string)
  : list string * list string :=
  let ps := parseNameSelectors selectors in
  (sort_strings (raw <$> filter (λ ns, selector_found ns knownNames = true) ps),
   sort_strings (raw <$> filter (λ ns, selector_found ns knownNames = false) ps)).

End Selectors.

(** ** Names and suffixes *)

(** Two different family suffixes never end the same name. *)
Lemma HasSuffix_family b s s' :
  s ∈ family_suffixes → s' ∈ family_suffixes → HasSuffix (b +:+ s) s' = bool_decide (s = s').
Proof.
  intros Hs Hs'. destruct (decide (s = s')) as [->|N].
  { rewrite bool_decide_true by done. apply HasSuffix_iff. eauto. }
  rewrite bool_decide_false by done. destruct (HasSuffix (b +:+ s) s') eqn:E; [|done]. exfalso.
  apply HasSuffix_iff in E as [b' E].
  assert (HasSuffix s s' = true ∨ HasSuffix s' s = true) as O.
  { destruct (decide (len s ≤ len s')); [right|left];
      [by eapply app_common_suffix|symmetry in E; eapply app_common_suffix; [|exact E]; lia]. }
  unfold family_suffixes in *. repeat setoid_rewrite elem_of_cons in Hs. repeat setoid_rewrite elem_of_cons in Hs'.
  rewrite elem_of_nil in Hs, Hs'. destruct_or!; subst; done.
Qed.

(** A name without a family suffix. *)
Definition plain (b : string) : Prop := strip_suffix family_suffixes b = None.

Lemma strip_suffixed b s :
  b ≠ "" → s ∈ family_suffixes → strip_suffix family_suffixes (b +:+ s) = Some (b, s).
Proof.
  intros Nb Hs. unfold family_suffixes in *. simpl.
  rewrite !(HasSuffix_family b s) by (done || unfold family_suffixes; rewrite !elem_of_cons; auto).
  assert (0 < len b) by (destruct b; [done|simpl; lia]).
  repeat setoid_rewrite elem_of_cons in Hs. rewrite elem_of_nil in Hs.
  destruct_or!; subst; try done;
    repeat match goal with |- context [bool_decide (?x = ?y)] =>
             let r := eval vm_compute in (bool_decide (x = y)) in change (bool_decide (x = y)) with r
           end;
    cbn [andb]; rewrite bool_decide_true by (rewrite len_app; simpl; lia); by rewrite TrimSuffix_app.
Qed.

(** ** Expansion *)

Lemma elem_of_expand_one set d n :
  n ∈ expand_one set d ↔ n ∈ set ∨ n ∈ expandDemandNames [d].
Proof.
  unfold expandDemandNames. cbn [foldl]. unfold expand_one.
  destruct (decide (d = "")); [set_solver|]. destruct (strip_suffix family_suffixes d) as [[b s]|]; set_solver.
Qed.

Lemma elem_of_expand ds n : n ∈ expandDemandNames ds ↔ ∃ d, d ∈ ds ∧ n ∈ expandDemandNames [d].
Proof.
  unfold expandDemandNames at 1.
  enough (∀ set, n ∈ foldl expand_one set ds ↔ n ∈ set ∨ ∃ d, d ∈ ds ∧ n ∈ expandDemandNames [d]) as E.
  { rewrite E. set_solver. }
  induction ds as [|d ds IH]; intros set; simpl; [set_solver|].
  rewrite IH, elem_of_expand_one. clear IH. setoid_rewrite elem_of_cons. naive_solver.
Qed.

Lemma elem_of_expand_suffixed b s n :
  b ≠ "" → s ∈ family_suffixes →
  n ∈ expandDemandNames [b +:+ s] ↔ n = b ∨ n ∈ [b +:+ "_bucket"; b +:+ "_sum"; b +:+ "_count"].
Proof.
  intros Nb Hs. unfold expandDemandNames. simpl. unfold expand_one.
  rewrite decide_False by (destruct b; done). rewrite strip_suffixed by done.
  unfold family_suffixes in Hs. set_solver.
Qed.

Lemma elem_of_expand_plain b n :
  b ≠ "" → plain b →
  n ∈ expandDemandNames [b] ↔ n ∈ [b; b +:+ "_sum"; b +:+ "_count"].
Proof.
  intros Nb P. unfold expandDemandNames. simpl. unfold expand_one.
  rewrite decide_False by done. rewrite P. set_solver.
Qed.

(** ** Variants *)

Lemma variants_suffixed b s :
  b ≠ "" → s ∈ family_suffixes →
  familyNameVariants (b +:+ s) =
  [b +:+ s; b +:+ "_bucket"; b +:+ "_sum"; b +:+ "_count"] ++ (if decide (s = "_bucket") then [] else [b]).
Proof.
  intros Nb Hs. unfold familyNameVariants. rewrite strip_suffixed by done.
  assert (b ≠ b +:+ s).
  { intros E. apply (f_equal len) in E. rewrite len_app in E.
    unfold family_suffixes in Hs. rewrite !elem_of_cons, elem_of_nil in Hs. destruct_or!; subst; simpl in E; lia. }
  destruct (decide (s = "_bucket")); [by rewrite decide_False by naive_solver|by rewrite decide_True].
Qed.

Lemma variants_plain n :
  plain n → familyNameVariants n = [n; n +:+ "_bucket"; n +:+ "_sum"; n +:+ "_count"].
Proof. intros P. unfold familyNameVariants. rewrite P. by rewrite decide_False by naive_solver. Qed.

(** ** Families *)

Lemma suffixed_inj b c s s' :
  b ≠ "" → c ≠ "" → s ∈ family_suffixes → s' ∈ family_suffixes → b +:+ s = c +:+ s' → b = c ∧ s = s'.
Proof.
  intros Nb Nc Hs Hs' E. pose proof (strip_suffixed b s Nb Hs) as E1.
  rewrite E, strip_suffixed in E1 by done. by simplify_eq.
Qed.

Lemma plain_not_suffixed b s : b ≠ "" → s ∈ family_suffixes → ¬ plain (b +:+ s).
Proof. intros Nb Hs P. unfold plain in P. by rewrite strip_suffixed in P. Qed.

(** A name at most one family suffix deep. *)
Definition simple_name (n : string) : Prop :=
  n ≠ "" ∧ (plain n ∨ ∃ b s, n = b +:+ s ∧ s ∈ family_suffixes ∧ b ≠ "" ∧ plain b).

Lemma elem_of_family (b n : string) :
  n ∈ [b +:+ "_bucket"; b +:+ "_sum"; b +:+ "_count"] ↔ ∃ s, s ∈ family_suffixes ∧ n = b +:+ s.
Proof. unfold family_suffixes. set_solver. Qed.

Lemma elem_of_variants_suffixed b s v :
  b ≠ "" → s ∈ family_suffixes →
  v ∈ familyNameVariants (b +:+ s) ↔
  (∃ s', s' ∈ family_suffixes ∧ v = b +:+ s') ∨ (v = b ∧ s ≠ "_bucket").
Proof.
  intros Nb Hs. rewrite variants_suffixed by done. rewrite elem_of_app, elem_of_cons, elem_of_family.
  case_decide; rewrite ?list_elem_of_singleton, ?elem_of_nil; naive_solver.
Qed.

Lemma elem_of_variants_plain n v :
  plain n → v ∈ familyNameVariants n ↔ v = n ∨ ∃ s, s ∈ family_suffixes ∧ v = n +:+ s.
Proof. intros P. rewrite variants_plain by done. by rewrite elem_of_cons, elem_of_family. Qed.

Lemma sum_count_suffix b n :
  n ∈ [b; b +:+ "_sum"; b +:+ "_count"] ↔ n = b ∨ ∃ s, s ∈ family_suffixes ∧ s ≠ "_bucket" ∧ n = b +:+ s.
Proof.
  unfold family_suffixes. rewrite !elem_of_cons, elem_of_nil. split.
  - intros [->|[->|[->|[]]]]; [by left|right; exists "_sum"|right; exists "_count"]; set_solver.
  - intros [->|(s & Hs & N & ->)]; [by left|]. rewrite !elem_of_cons, elem_of_nil in Hs. naive_solver.
Qed.

(** Expansion and variants are inverse on simple names. *)
Lemma expand_variants v n :
  simple_name v → simple_name n → n ∈ expandDemandNames [v] ↔ v ∈ familyNameVariants n.
Proof.
  intros [Nv [Pv|(b & s & -> & Hs & Nb & Pb)]] [Nn [Pn|(c & s' & -> & Hs' & Nc & Pc)]].
  - rewrite elem_of_expand_plain, elem_of_variants_plain, sum_count_suffix by done. split.
    + intros [->|(s & Hs & _ & ->)]; [by left|]. by apply plain_not_suffixed in Pn.
    + intros [->|(s & Hs & ->)]; [by left|]. by apply plain_not_suffixed in Pv.
  - rewrite elem_of_expand_plain, elem_of_variants_suffixed, sum_count_suffix by done. split.
    + intros [<-|(s & Hs & N & E)]; [by apply plain_not_suffixed in Pv|].
      apply suffixed_inj in E as [-> ->]; [by right|done..].
    + intros [(s & Hs & ->)|[-> N]]; [by apply plain_not_suffixed in Pv|]. right. eauto.
  - rewrite elem_of_expand_suffixed, elem_of_variants_plain, elem_of_family by done. split.
    + intros [->|(s' & Hs' & ->)]; [right; eauto|]. by apply plain_not_suffixed in Pn.
    + intros [<-|(s' & Hs' & E)]; [by apply plain_not_suffixed in Pn|].
      apply suffixed_inj in E as [-> ->]; [by left|done..].
  - rewrite elem_of_expand_suffixed, elem_of_variants_suffixed, elem_of_family by done. split.
    + intros [<-|(t & Ht & E)]; [by apply plain_not_suffixed in Pb|].
      apply suffixed_inj in E as [-> ->]; [|done..]. left. eauto.
    + intros [(t & Ht & E)|[<- N]]; [|by apply plain_not_suffixed in Pc].
      apply suffixed_inj in E as [-> ->]; [|done..]. right. eauto.
Qed.

Section Filter.
Context `{Regexp, UnicodeTables, PData, Namer}.

(** The metrics the accounting is exact about: a non-empty base name, and for a
    summary (which is also written under its bare base name) a plain one. *)
Definition accountable (m : Metric) : Prop :=
  BaseName m ≠ "" ∧ match m_data m with Summary _ => plain (BaseName m) | _ => True end.

(** Any two series of one metric see each other through the accounting. *)
Lemma family_expand m d n :
  accountable m → d ∈ familyNames m (BaseName m) → n ∈ familyNames m (BaseName m) →
  n ∈ expandDemandNames [d] ∧ d ∈ familyNameVariants n.
Proof.
  intros [Nb P]. unfold familyNames. revert Nb P. generalize (BaseName m). intros b Nb P.
  assert (n ∈ [b] → d ∈ [b] → n ∈ expandDemandNames [d] ∧ d ∈ familyNameVariants n) as Hone.
  { rewrite !list_elem_of_singleton. intros -> ->. split.
    - unfold expandDemandNames. simpl. unfold expand_one. rewrite decide_False by done.
      destruct (strip_suffix family_suffixes b) as [[]|]; set_solver.
    - unfold familyNameVariants. destruct (strip_suffix family_suffixes b) as [[]|]; case_decide; set_solver. }
  destruct (m_data m) as [| |dps| |dps|]; intros Hd Hn; try by apply Hone.
  - apply elem_of_family in Hd as (s & Hs & ->), Hn as (s' & Hs' & ->).
    rewrite elem_of_expand_suffixed, elem_of_variants_suffixed, elem_of_family by done.
    split; [right|left]; eauto.
  - rewrite sum_count_suffix in Hd, Hn.
    destruct Hd as [->|(s & Hs & N & ->)], Hn as [->|(s' & Hs' & N' & ->)];
      rewrite ?elem_of_expand_plain, ?elem_of_expand_suffixed, ?elem_of_variants_plain,
        ?elem_of_variants_suffixed, ?sum_count_suffix, ?elem_of_family by done; naive_solver.
Qed.

Lemma parseNameSelector_matches s sel v :
  Parse s = Ok sel →
  forallb (λ m, MatchValue m v) (ns_nameMatchers (parseNameSelector s)) = matchesName (compile_one sel) v.
Proof.
  intros E. unfold parseNameSelector, matchesName, compile_one. rewrite E, foldl_add_matcher. done.
Qed.

Lemma elem_of_parseable raws sel : sel ∈ parseable raws → ∃ s, s ∈ raws ∧ Parse s = Ok sel.
Proof. unfold parseable. rewrite elem_of_values_of, list_elem_of_fmap. naive_solver. Qed.

Lemma matchesSeriesName_variant s sel v n :
  Parse s = Ok sel → matchesName (compile_one sel) v = true → v ∈ familyNameVariants n →
  matchesSeriesName (parseNameSelector s) n = true.
Proof.
  intros E M Hv. unfold matchesSeriesName.
  assert (parsed (parseNameSelector s) = true) as -> by (unfold parseNameSelector; by rewrite E). simpl.
  apply existsb_exists. exists v. rewrite <- list_elem_of_In. split; [done|].
  by rewrite (parseNameSelector_matches s sel).
Qed.

End Filter.

(** ** What the filter keeps is counted *)

(** In name mode the expanded demand set never undercounts: every series
    name of a metric the demand filter keeps is in the expansion of the demand
    list, for metrics with a non-empty base name that, for a summary, does not
    itself end in a family suffix. *)
Lemma expansion_covers_filter `{UnicodeTables, PData, Namer} (m : Metric) (ds : list string) (n : string) :
  accountable m → isMetricDemanded m (list_to_set ds) = true → n ∈ familyNames m (BaseName m) →
  n ∈ expandDemandNames ds.
Proof.
  intros A D Hn.
  assert (m_data m ≠ EmptyMetric) as NE by (intros E; unfold isMetricDemanded in D; by rewrite E in D).
  rewrite isMetricDemanded_family in D by done.
  apply existsb_exists in D as (d & Hd%list_elem_of_In & Hin%bool_decide_eq_true%elem_of_list_to_set).
  apply elem_of_expand. exists d. split; [done|]. by eapply family_expand.
Qed.

(** In selector mode the accounting never undercounts either: when the
    demand filter has a candidate selector for a metric, every known series
    name of that metric is among the names the selector list is said to
    demand. *)
Lemma selector_accounting_covers_filter `{Regexp, UnicodeTables, PData, Namer}
    (m : Metric) (sels : list string) (knownNames : gset string) (n : string) :
  accountable m →
  candidatesFor (compileSelectors sels) (familyNames m (BaseName m)) ≠ [] →
  n ∈ familyNames m (BaseName m) → n ∈ knownNames →
  n ∈ selectorDemandedNames sels knownNames.
Proof.
  intros A NC Hn Hk. destruct (candidatesFor _ _) as [|cs csl] eqn:EC; [done|].
  assert (cs ∈ cs :: csl) as Hc by left. rewrite <- EC in Hc.
  apply elem_of_cands in Hc as (sel & v & Hs & -> & Hv & M).
  apply elem_of_parseable in Hs as (s & Hs & Es).
  unfold selectorDemandedNames. apply elem_of_filter. split; [|done].
  apply existsb_exists. exists (parseNameSelector s). rewrite <- list_elem_of_In. split.
  - apply list_elem_of_fmap. eauto.
  - eapply matchesSeriesName_variant; [done..|]. by eapply family_expand.
Qed.

(** The two directions of the accounting are inverse: on names at most one
    family suffix deep, a series name is in the expansion of a demanded name
    exactly when that name is among the variants of the series name. *)
Theorem variants_invert_expansion (v n : string) :
  simple_name v → simple_name n → n ∈ expandDemandNames [v] ↔ v ∈ familyNameVariants n.
Proof. apply expand_variants. Qed.

(** ** Evaluation and divergences *)

Module DemandMatcherSample.

Definition metric (name : string) (d : @MetricData AssocPData.pdata) : @Metric AssocPData.pdata :=
  @MkMetric AssocPData.pdata name "" () d.

Definition summary := metric "x_sum" (Summary []).
Definition gauge := metric "foo_sum" (Gauge []).

(** A demand for [foo] counts the gauge [foo_sum], which the filter drops. *)
Example expansion_overcounts :
  @isMetricDemanded AssocPData.pdata DemandFilterSample.namer gauge (list_to_set ["foo"]) = false ∧
  "foo_sum" ∈ expandDemandNames ["foo"].
Proof. split; [by vm_compute|]. apply (bool_decide_unpack _). by vm_compute. Qed.

(** A selector on [x_sum_count] keeps the summary [x_sum], whose series [x_sum]
    is not counted. *)
Example selectors_undercount :
  candidatesFor (@compileSelectors LiteralRegexp.engine ["{__name__=`x_sum_count`}"])
    (@familyNames AssocPData.pdata summary "x_sum") ≠ [] ∧
  "x_sum" ∈ @familyNames AssocPData.pdata summary "x_sum" ∧
  selectorDemandedNames (H := LiteralRegexp.engine) ["{__name__=`x_sum_count`}"] {["x_sum"]} = ∅.
Proof.
  split_and!; [|by left|by vm_compute].
  intros E. apply (f_equal length) in E. vm_compute in E. discriminate.
Qed.

(** The variant [a_sum] of [a_sum_count] does not expand to it. *)
Example variant_not_inverse :
  "a_sum" ∈ familyNameVariants "a_sum_count" ∧ "a_sum_count" ∉ expandDemandNames ["a_sum"].
Proof. split; apply (bool_decide_unpack _); by vm_compute. Qed.

End DemandMatcherSample.

Lemma variants_invert_expansion_witness :
  (simple_name "lat" ∧ simple_name "lat_sum") ∧
  ("lat_sum" ∈ expandDemandNames ["lat"] ↔ "lat" ∈ familyNameVariants "lat_sum").
Proof.
  assert (simple_name "lat") as S1. { split; [discriminate|left; reflexivity]. }
  assert (simple_name "lat_sum") as S2.
  { split; [discriminate|right]. exists "lat", "_sum".
    split_and!; [reflexivity|right; left|discriminate|reflexivity]. }
  split; [exact (conj S1 S2)|]. exact (variants_invert_expansion "lat" "lat_sum" S1 S2).
Defined.
