(* ===== verification/Backoff.v ===== *)
(** Package [leansignalingestbackoff] (components/ingestbackoff): the valve in
    front of each tenant ingest endpoint. After a 403 it answers attempts with a
    local 403 and lets one probe through per retry interval.

    Instants are nanoseconds. [allow] and [observe] are the two critical
    sections of the source; concurrent round trips interleave them, so the
    machine's events are attempts and observed responses in any order. *)

From S2P Require Import Prelude.

Record backoffExtension := MkBackoff {
  retryInterval : Z;
  paused : bool;
  holdUntil : Z;
}.

(** [Config.Validate]; the default interval is one minute. *)
Definition BackoffValidate (interval : Z) : bool := negb (bool_decide (interval ≤ 0)%Z).
Definition DefaultRetryInterval : Z := 60 * 1000000000.

Definition newBackoffExtension (interval : Z) : backoffExtension := MkBackoff interval false 0.

Definition allow (b : backoffExtension) (now : Z) : bool * backoffExtension :=
  if negb (paused b) then (true, b)
  else if bool_decide (now < holdUntil b)%Z then (false, b)
  else (true, MkBackoff (retryInterval b) (paused b) (now + retryInterval b)).

Definition StatusForbidden : Z := 403.

Definition observe (b : backoffExtension) (now status : Z) : backoffExtension :=
  if decide (status = StatusForbidden)
  then MkBackoff (retryInterval b) true (now + retryInterval b)
  else MkBackoff (retryInterval b) false (holdUntil b).

(** One round trip: the attempt at [t0], the response (if the transport gives
    one) at [t1]. [base] is the wrapped transport; [None] is its error. The
    result is the status the exporter sees, and whether [base] was called. *)
Definition RoundTrip (b : backoffExtension) (base : option Z) (t0 t1 : Z)
  : option Z * bool * backoffExtension :=
  let '(ok, b) := allow b t0 in
  if negb ok then (Some StatusForbidden, false, b)
  else
    match base with
    | None => (None, true, b)
    | Some status => (Some status, true, observe b t1 status)
    end.

(** ** The valve as a machine *)

Inductive event := Attempt (t : Z) | Response (t status : Z).

Definition event_time (e : event) : Z := match e with Attempt t | Response t _ => t end.

Definition step (b : backoffExtension) (e : event) : backoffExtension :=
  match e with
  | Attempt t => (allow b t).2
  | Response t status => observe b t status
  end.

(** The instants of the attempts that reached the network. *)
Fixpoint granted (b : backoffExtension) (es : list event) : list Z :=
  match es with
  | [] => []
  | Attempt t :: es =>
      let '(ok, b') := allow b t in if (ok : bool) then t :: granted b' es else granted b' es
  | Response t status :: es => granted (observe b t status) es
  end.

(** Events happen in time order. *)
Fixpoint in_order (t0 : Z) (es : list event) : Prop :=
  match es with [] => True | e :: es => (t0 ≤ event_time e)%Z ∧ in_order (event_time e) es end.

Definition rejected (e : event) : Prop :=
  match e with Attempt _ => True | Response _ status => status = StatusForbidden end.

(** Consecutive instants at least [d] apart, the first not before [lo]. *)
Fixpoint spaced (d lo : Z) (ts : list Z) : Prop :=
  match ts with [] => True | t :: ts => (lo ≤ t)%Z ∧ spaced d (t + d) ts end.

Lemma spaced_mono d lo lo' ts : (lo' ≤ lo)%Z → spaced d lo ts → spaced d lo' ts.
Proof. destruct ts; simpl; [done|]. intros ? [? ?]. split; [lia|done]. Qed.

Lemma granted_spaced es b t0 :
  (0 < retryInterval b)%Z → paused b = true → (holdUntil b ≤ t0 + retryInterval b)%Z →
  in_order t0 es → Forall rejected es →
  spaced (retryInterval b) (holdUntil b) (granted b es).
Proof.
  revert b t0. induction es as [|[t|t status] es IH]; intros b t0 Hi Hp Hh Ho HF; [done|..];
    apply Forall_cons in HF as [Hr HF]; destruct Ho as [Ht Ho]; simpl in Ht, Ho; simpl granted.
  - unfold allow. rewrite Hp. simpl. destruct (decide (t < holdUntil b)%Z) as [Hlt|Hge].
    + rewrite bool_decide_true by done. apply (IH b t); [done..|lia|done|done].
    + rewrite bool_decide_false by done. simpl. split; [lia|].
      apply (IH (MkBackoff (retryInterval b) true (t + retryInterval b)) t); simpl; [done..|lia|done|done].
  - simpl in Hr. subst status. unfold observe. rewrite decide_True by done.
    eapply spaced_mono; [|apply (IH (MkBackoff (retryInterval b) true (t + retryInterval b)) t); simpl; [done..|lia|done|done]].
    simpl. lia.
Qed.

(** After any history the hold never lies more than one interval ahead. *)
Definition hold_ok (b : backoffExtension) (t0 : Z) : Prop :=
  paused b = true → (holdUntil b ≤ t0 + retryInterval b)%Z.

Lemma step_hold b e t0 :
  (0 < retryInterval b)%Z → (t0 ≤ event_time e)%Z → hold_ok b t0 →
  hold_ok (step b e) (event_time e) ∧ retryInterval (step b e) = retryInterval b.
Proof.
  intros Hi Ht Hh. unfold hold_ok in *. destruct e as [t|t status]; simpl in *.
  - unfold allow. destruct (paused b) eqn:P; simpl; [|split; [congruence|done]].
    destruct (decide (t < holdUntil b)%Z); [rewrite bool_decide_true by done|rewrite bool_decide_false by done];
      simpl; (split; [intros _|done]); [specialize (Hh eq_refl)|]; lia.
  - unfold observe. case_decide; simpl; (split; [|done]); [lia|done].
Qed.

Lemma run_hold last interval es b t0 :
  (0 < interval)%Z → in_order t0 es → (t0 ≤ last)%Z → Forall (λ e, event_time e ≤ last)%Z es →
  retryInterval b = interval → hold_ok b t0 →
  retryInterval (foldl step b es) = interval ∧
  (paused (foldl step b es) = true → holdUntil (foldl step b es) ≤ last + interval)%Z.
Proof.
  intros Hi. revert b t0. induction es as [|e es IH]; intros b t0 Ho Hl HF EI Hh; simpl.
  - split; [done|]. intros P. specialize (Hh P). lia.
  - apply Forall_cons in HF as [He HF]. destruct Ho as [Ht Ho].
    destruct (step_hold b e t0) as [Hh' EI']; [by rewrite EI|done|done|].
    apply (IH _ (event_time e)); [done..|by rewrite EI', EI|done].
Qed.

(** ** Properties *)

(** C29: From the moment the edge rejects a push, as long as every response that
    arrives is a 403, pushes reach the network at most once per retry interval:
    the first at least one interval after the rejection, any two at least one
    interval apart, however many attempts and late rejections interleave. *)
Theorem probes_are_spaced (b : backoffExtension) (t : Z) (es : list event) :
  (0 < retryInterval b)%Z → in_order t es → Forall rejected es →
  spaced (retryInterval b) (t + retryInterval b) (granted (observe b t StatusForbidden) es).
Proof.
  intros Hi Ho HF.
  apply (granted_spaced es (MkBackoff (retryInterval b) true (t + retryInterval b)) t); simpl; [done..|lia|done|done].
Qed.

Lemma probes_are_spaced_witness :
  let b := newBackoffExtension 60 in
  let es := [Attempt 10; Attempt 61; Attempt 62; Response 63 403; Attempt 122; Attempt 123] in
  (in_order 0 es ∧ Forall rejected es) ∧
  granted (observe b 0 StatusForbidden) es = [61; 123]%Z ∧
  spaced 60 (0 + 60) (granted (observe b 0 StatusForbidden) es).
Proof.
  intros b es. assert (in_order 0 es) as Ho by (simpl; lia).
  assert (Forall rejected es) as HF by repeat constructor.
  split; [exact (conj Ho HF)|]. split; [reflexivity|].
  apply (probes_are_spaced b 0 es); [reflexivity|exact Ho|exact HF].
Defined.

(** C30: The pause cannot last: after any history of attempts and responses in
    time order, an attempt one full interval after the last event reaches the
    network, and if the edge answers it with anything but a 403 every later
    attempt passes until the next 403. *)
Theorem valve_recovers (interval t0 : Z) (es : list event) (last t t' status : Z) :
  (0 < interval)%Z → in_order t0 es → (t0 ≤ last)%Z → Forall (λ e, event_time e ≤ last)%Z es →
  (last + interval ≤ t)%Z → status ≠ StatusForbidden →
  let b := foldl step (newBackoffExtension interval) es in
  (allow b t).1 = true ∧
  ∀ later, (allow (observe (allow b t).2 t' status) later).1 = true.
Proof.
  intros Hi Ho Hl HF Ht Hs b. split.
  - assert (retryInterval b = interval ∧ (paused b = true → holdUntil b ≤ last + interval)%Z) as [EI HH].
    { by apply (run_hold last interval es _ t0). }
    unfold allow. destruct (paused b) eqn:P; [|done]. simpl. specialize (HH eq_refl).
    by rewrite bool_decide_false by lia.
  - intros later. unfold observe. rewrite decide_False by done. done.
Qed.

Lemma valve_recovers_witness :
  let b := foldl step (newBackoffExtension 60) [Response 5 403; Attempt 70] in
  (allow b 130).1 = true ∧ ∀ later, (allow (observe (allow b 130).2 131 200) later).1 = true.
Proof.
  intros b. apply (valve_recovers 60 0 [Response 5 403; Attempt 70] 70 130 131 200).
  - reflexivity.
  - simpl. lia.
  - lia.
  - repeat constructor; simpl; lia.
  - lia.
  - discriminate.
Defined.

(** A suppressed attempt never touches the network and leaves the valve as
    it was; a transport error leaves it unpaused if it was unpaused; a real
    response is passed through unchanged. *)
Theorem round_trip_outcomes (b : backoffExtension) (base : option Z) (t0 t1 : Z) :
  let '(result, called, b') := RoundTrip b base t0 t1 in
  (called = false → result = Some StatusForbidden ∧ b' = b ∧ paused b = true ∧ (t0 < holdUntil b)%Z) ∧
  (called = true → result = base) ∧
  (called = true → base = None → paused b' = paused b) ∧
  (∀ status, called = true → base = Some status → paused b' = bool_decide (status = StatusForbidden)).
Proof.
  unfold RoundTrip, allow. destruct (paused b) eqn:P; simpl.
  - destruct (decide (t0 < holdUntil b)%Z);
      [rewrite bool_decide_true by done|rewrite bool_decide_false by done]; simpl; [naive_solver|].
    destruct base as [status|]; simpl; [|naive_solver]. unfold observe.
    case_decide; simpl; split_and!; try done; intros s _ [= <-]; by case_bool_decide.
  - destruct base as [status|]; simpl; [|naive_solver]. unfold observe.
    case_decide; simpl; split_and!; try done; intros s _ [= <-]; by case_bool_decide.
Qed.
