(* ===== verification/QueryHandler.v ===== *)
(** The query tunnel (components/edgecontroller/query_handler.go): the control
    plane's read queries against the agent-local stores, one response per
    request, restricted to read-only endpoints and to eight queries at a time.

    [execute] is [handleQueryRequest] after the semaphore; the semaphore is the
    machine [tunnel_step]. URL handling and the HTTP client are the parameter
    [HTTPClient]. *)

From S2P Require Import Prelude GoText TraceRouter.

(** ** [path.Clean] on rooted paths *)

(** [strings.Split(s, "/")]. *)
Fixpoint split_slash (s : string) : list string :=
  match s with
  | "" => [""]
  | String c s =>
      if decide (c = "/"%char) then "" :: split_slash s
      else match split_slash s with
           | x :: xs => String c x :: xs
           | [] => [String c ""]
           end
  end.

(** One path element: empty elements and [.] are skipped, [..] removes the
    element before it, and at the root nothing. *)
Definition clean_step (acc : list string) (x : string) : list string :=
  if decide (x = "" ∨ x = ".") then acc
  else if decide (x = "..") then removelast acc
  else acc ++ [x].

Definition clean_elements (p : string) : list string := foldl clean_step [] (split_slash p).

Definition Clean (p : string) : string := "/" +:+ Join (clean_elements p) "/".

(** ** Requests and responses *)

Inductive QueryTarget :=
| QUERY_TARGET_VM
| QUERY_TARGET_LOKI
| QUERY_TARGET_TEMPO
| QUERY_TARGET_OTHER (n : Z).

Record QueryRequest := MkQueryRequest {
  GetTarget : QueryTarget;
  GetMethod : string;
  GetPath : string;
  GetRawQuery : string;
  GetHeaders : list (string * list string);
  GetBody : string;
}.

Record QueryResponse := MkQueryResponse {
  StatusCode : Z;
  RespHeaders : list (string * list string);
  RespBody : string;
  RespError : string;
}.

Record QueryConfig := MkQueryConfig {
  LocalVMQueryURL : string;
  LocalLokiQueryURL : string;
  LocalTempoQueryURL : string;
}.

Definition maxConcurrentQueries : nat := 8.
Definition maxQueryResponseBytes : Z := 16 * 1024 * 1024 - 2 ^ 20.

(** The request handed to the HTTP client; [hr_base] is the parsed base URL,
    whose path is replaced. *)
Record HttpRequest (U : Type) := MkHttpRequest {
  hr_base : U;
  hr_method : string;
  hr_path : string;
  hr_query : string;
  hr_headers : gmap string (list string);
  hr_body : string;
}.
Arguments MkHttpRequest {U}.
Arguments hr_base {U}. Arguments hr_method {U}. Arguments hr_path {U}.
Arguments hr_query {U}. Arguments hr_headers {U}. Arguments hr_body {U}.

(** A response: status, headers by canonical name, and the body or the error
    reading it. *)
Record HttpResponse := MkHttpResponse {
  hs_status : Z;
  hs_headers : gmap string (list string);
  hs_body : result string string;
}.

Class HTTPClient := {
  URL : Type;
  (** [url.Parse]. *)
  url_parse : string → option URL;
  (** [http.NewRequestWithContext] on the base with path and query replaced:
      the error text, if it fails. *)
  new_request_error : string → URL → string → string → option string;
  (** [queryHTTPClient.Do]: the error text or the response. *)
  client_do : HttpRequest URL → result string HttpResponse;
}.

(** [strings.ToUpper]: ASCII letters here, other runes by the Unicode tables. *)
Class CaseTables := { table_upper : Z → Z }.

Definition ToUpper `{CaseTables} (s : string) : string :=
  map_runes (λ r, if between 97 r 122 then r - 32 else if (r <? 128) then r else table_upper r)%Z s.

(** [strings.EqualFold(name, "Host")]: simple folding, in which the long s is a
    form of s. *)
Definition is_host (name : string) : bool :=
  match runes name with
  | [a; b; c; d] =>
      bool_decide (a ∈ [72; 104]%Z) && bool_decide (b ∈ [79; 111]%Z)
      && bool_decide (c ∈ [83; 115; 0x17F]%Z) && bool_decide (d ∈ [84; 116]%Z)
  | _ => false
  end.

Definition errResp (status : Z) (msg : string) : QueryResponse := MkQueryResponse (int32 status) [] "" msg.

(** ** Allow-lists *)

Definition read_method (method : string) : bool := bool_decide (method ∈ ["GET"; "POST"]).

Definition isAllowedVMPath (method cleanPath : string) : bool :=
  if negb (read_method method) then false
  else if bool_decide (cleanPath ∈ ["/api/v1/query"; "/api/v1/query_range"; "/api/v1/series";
                                    "/api/v1/labels"; "/api/v1/metadata"]) then true
  else if HasPrefix cleanPath "/api/v1/label/" && HasSuffix cleanPath "/values" then true
  else if HasPrefix cleanPath "/api/v1/status/" then true
  else false.

Definition isAllowedLokiPath (method cleanPath : string) : bool :=
  if negb (read_method method) then false
  else if bool_decide (cleanPath ∈ ["/loki/api/v1/query"; "/loki/api/v1/query_range"; "/loki/api/v1/labels";
                                    "/loki/api/v1/series"; "/loki/api/v1/index/stats";
                                    "/loki/api/v1/index/volume"; "/loki/api/v1/patterns"]) then true
  else if HasPrefix cleanPath "/loki/api/v1/label/" && HasSuffix cleanPath "/values" then true
  else false.

Definition isAllowedTempoPath (method cleanPath : string) : bool :=
  if negb (read_method method) then false
  else if bool_decide (cleanPath ∈ ["/api/echo"; "/api/search"; "/api/search/tags"; "/api/v2/search/tags"]) then true
  else if HasPrefix cleanPath "/api/traces/" || HasPrefix cleanPath "/api/v2/traces/" then true
  else if (HasPrefix cleanPath "/api/search/tag/" || HasPrefix cleanPath "/api/v2/search/tag/")
          && HasSuffix cleanPath "/values" then true
  else false.

(** ** The handler *)

Section Handler.
Context `{HTTPClient, CaseTables} (cfg : QueryConfig).

(** The target's base URL, allow-list and "not configured" message. *)
Definition target_of (t : QueryTarget) : string * (string → string → bool) * string :=
  match t with
  | QUERY_TARGET_LOKI =>
      (LocalLokiQueryURL cfg, isAllowedLokiPath, "query disabled: local_loki_query_url not configured")
  | QUERY_TARGET_TEMPO =>
      (LocalTempoQueryURL cfg, isAllowedTempoPath, "query disabled: local_tempo_query_url not configured")
  | QUERY_TARGET_VM | QUERY_TARGET_OTHER _ =>
      (LocalVMQueryURL cfg, isAllowedVMPath, "query disabled: local_vm_query_url not configured")
  end.

Definition header_add (h : gmap string (list string)) (k v : string) : gmap string (list string) :=
  <[CanonicalHeaderKey k := default [] (h !! CanonicalHeaderKey k) ++ [v]]> h.

Definition forward_headers (hs : list (string * list string)) : gmap string (list string) :=
  foldl (λ h '(name, values), if is_host name then h else foldl (λ h v, header_add h name v) h values) ∅ hs.

(** [io.ReadAll(io.LimitReader(body, n))]. *)
Definition limit_read (n : Z) (body : string) : string :=
  if decide (Z.of_nat (len body) ≤ n)%Z then body else upto (Z.to_nat n) body.

Definition kept_headers (h : gmap string (list string)) : list (string * list string) :=
  omap (λ name, match default [] (h !! name) with [] => None | v => Some (name, v) end)
    ["Content-Type"; "Content-Encoding"].

(** The HTTP exchange, once the request is built. *)
Definition exchange (hr : HttpRequest URL) : QueryResponse :=
  match client_do hr with
  | Err e => errResp 502 ("local store unreachable: " +:+ e)
  | Ok resp =>
      match (limit_read (maxQueryResponseBytes + 1) <$> hs_body resp) with
      | Err e => errResp 502 ("read response: " +:+ e)
      | Ok body =>
          if decide (maxQueryResponseBytes < Z.of_nat (len body))%Z then errResp 413 "response too large"
          else MkQueryResponse (int32 (hs_status resp)) (kept_headers (hs_headers resp)) body ""
      end
  end.

(** The response sent back, and the request made to the store, if any. *)
Definition execute (req : QueryRequest) : QueryResponse * option (HttpRequest URL) :=
  let '(baseURL, isAllowed, disabled) := target_of (GetTarget req) in
  if decide (baseURL = "") then (errResp 503 disabled, None)
  else
    let method := ToUpper (GetMethod req) in
    let method := if decide (method = "") then "GET" else method in
    let cleanPath := Clean ("/" +:+ TrimPrefix (GetPath req) "/") in
    if negb (isAllowed method cleanPath) then (errResp 403 "path not allowed", None)
    else
      match url_parse baseURL with
      | None => (errResp 500 "invalid local query base url", None)
      | Some u =>
          match new_request_error method u cleanPath (GetRawQuery req) with
          | Some e => (errResp 500 ("build request: " +:+ e), None)
          | None =>
              let hr := MkHttpRequest u method cleanPath (GetRawQuery req)
                          (forward_headers (GetHeaders req)) (GetBody req) in
              (exchange hr, Some hr)
          end
      end.

(** ** The semaphore *)

(** Queries in flight, responses sent by correlation id, and the history of
    requests received. *)
Record tunnel := MkTunnel {
  querySem : list (Z * QueryRequest);
  responses : list (Z * QueryResponse);
  received : list (Z * QueryRequest);
}.

Definition idle : tunnel := MkTunnel [] [] [].

(** A request arrives and takes a slot, or is refused; a query in flight, in any
    order, completes and gives its slot back. *)
Inductive tunnel_step : tunnel → tunnel → Prop :=
| arrive_slot t id req :
    length (querySem t) < maxConcurrentQueries →
    tunnel_step t (MkTunnel ((id, req) :: querySem t) (responses t) ((id, req) :: received t))
| arrive_full t id req :
    ¬ length (querySem t) < maxConcurrentQueries →
    tunnel_step t (MkTunnel (querySem t)
                     ((id, errResp 429 "too many concurrent queries") :: responses t)
                     ((id, req) :: received t))
| complete t before after id req :
    querySem t = before ++ (id, req) :: after →
    tunnel_step t (MkTunnel (before ++ after) ((id, (execute req).1) :: responses t) (received t)).

(** What a received request may be answered with. *)
Definition answers (req : QueryRequest) (resp : QueryResponse) : Prop :=
  resp = errResp 429 "too many concurrent queries" ∨ resp = (execute req).1.

(** Every received request is in flight or answered, once. *)
Definition tunnel_inv (t : tunnel) : Prop :=
  length (querySem t) ≤ maxConcurrentQueries ∧
  ∃ answered, received t ≡ₚ querySem t ++ answered ∧
    Forall2 (λ q r, q.1 = r.1 ∧ answers q.2 r.2) answered (responses t).

Lemma tunnel_step_inv t t' : tunnel_step t t' → tunnel_inv t → tunnel_inv t'.
Proof.
  intros S [L (answered & P & F)]. inversion S as [t0 id req Hl|t0 id req Hl|t0 before after id req E]; subst.
  - split; simpl; [lia|]. exists answered. by rewrite P.
  - split; simpl; [lia|]. exists ((id, req) :: answered). split.
    + by rewrite P, Permutation_middle.
    + constructor; [split; [done|by left]|done].
  - rewrite E in L, P. split; simpl.
    + rewrite length_app in *. simpl in L. lia.
    + exists ((id, req) :: answered). split.
      * rewrite P, <- !app_assoc. simpl. apply Permutation_app_head, Permutation_middle.
      * constructor; [split; [done|by right]|done].
Qed.

Lemma reachable_inv t : rtc tunnel_step idle t → tunnel_inv t.
Proof.
  assert (tunnel_inv idle) as H0' by (split; [simpl; lia|by exists []]).
  intros R. by apply (rtc_preserves _ _ tunnel_step_inv _ _ R).
Qed.

End Handler.

(** ** Clean paths *)

Definition normal (x : string) : Prop := x ≠ "" ∧ x ≠ "." ∧ x ≠ ".." ∧ Contains x "/" = false.

Lemma split_slash_nonempty s : split_slash s ≠ [].
Proof. destruct s; simpl; [done|]. case_decide; [done|]. by destruct (split_slash s). Qed.

Lemma split_slash_no_slash s : Forall (λ x, Contains x "/" = false) (split_slash s).
Proof.
  induction s as [|c s IH]; [by repeat constructor|]. simpl. case_decide as E; [by constructor|].
  destruct (split_slash s) as [|x xs]; [repeat constructor|]; rewrite ?Contains_cons, ?bool_decide_false by done.
  - done.
  - apply Forall_cons in IH as [Hx Hxs]. constructor; [|done]. by rewrite Contains_cons, bool_decide_false, Hx.
Qed.

Lemma Forall_removelast {A} (P : A → Prop) l : Forall P l → Forall P (removelast l).
Proof.
  induction 1 as [|x l Hx HF IH]; [constructor|]. simpl. destruct l; [constructor|]. by constructor.
Qed.

Lemma clean_step_normal acc x :
  Forall normal acc → Contains x "/" = false → Forall normal (clean_step acc x).
Proof.
  intros F Hx. unfold clean_step. case_decide; [done|]. case_decide; [by apply Forall_removelast|].
  apply Forall_app. split; [done|]. constructor; [|constructor]. split_and!; [naive_solver..|done].
Qed.

Lemma clean_normal p : Forall normal (clean_elements p).
Proof.
  unfold clean_elements. pose proof (split_slash_no_slash p) as F. revert F.
  assert (Forall normal []) as F0 by constructor. revert F0. generalize (@nil string).
  induction (split_slash p) as [|x xs IH]; intros acc F0 F; [done|].
  apply Forall_cons in F as [Hx F]. simpl. apply IH; [by apply clean_step_normal|done].
Qed.

(** A list of normal elements is recovered from the path they form. *)
Lemma split_app a r : Contains a "/" = false → split_slash (a +:+ String "/" r) = a :: split_slash r.
Proof.
  induction a as [|c a IH]; intros Ha; [done|]. rewrite Contains_cons, orb_false_iff in Ha.
  destruct Ha as [Hc%bool_decide_eq_false Ha]. rewrite app_cons. simpl.
  rewrite decide_False by done. by rewrite IH.
Qed.

Lemma split_one a : Contains a "/" = false → split_slash a = [a].
Proof.
  induction a as [|c a IH]; intros Ha; [done|]. rewrite Contains_cons, orb_false_iff in Ha.
  destruct Ha as [Hc%bool_decide_eq_false Ha]. simpl. rewrite decide_False by done. by rewrite IH.
Qed.

Lemma split_Join l : l ≠ [] → Forall (λ x, Contains x "/" = false) l → split_slash (Join l "/") = l.
Proof.
  induction l as [|x [|y l] IH]; intros N F; [done|..]; apply Forall_cons in F as [Hx F].
  - by apply split_one.
  - rewrite Join_cons2, app_cons, app_empty_l, split_app by done. by rewrite IH.
Qed.

Lemma clean_fold_normal l acc : Forall normal l → foldl clean_step acc l = acc ++ l.
Proof.
  intros F. revert acc. induction F as [|x l (N1 & N2 & N3 & _) F IH]; intros acc; simpl; [by rewrite app_nil_r|].
  rewrite IH. unfold clean_step. rewrite decide_False by naive_solver. rewrite decide_False by done.
  by rewrite <- app_assoc.
Qed.

Lemma Clean_fixpoint l : Forall normal l → clean_elements ("/" +:+ Join l "/") = l.
Proof.
  intros F. unfold clean_elements. rewrite app_cons, app_empty_l. simpl.
  destruct (decide (l = [])) as [->|N]; [done|].
  rewrite split_Join; [|done|]; [|eapply Forall_impl; [exact F|unfold normal; tauto]].
  rewrite clean_fold_normal by done. done.
Qed.

Lemma Clean_prefix p a r :
  Forall (λ x, normal x) (split_slash a) →
  Clean p = "/" +:+ a +:+ r → (r = "" ∨ ∃ r', r = String "/" r') →
  split_slash a `prefix_of` clean_elements p.
Proof.
  intros Fa E Hr. unfold Clean in E. pose proof (clean_normal p) as F.
  rewrite !app_cons, !app_empty_l in E. injection E as E.
  assert (split_slash (Join (clean_elements p) "/") = split_slash (a +:+ r)) as ES by by rewrite E.
  destruct (decide (clean_elements p = [])) as [EN|N].
  { rewrite EN in E. simpl in E. destruct a; [|done]. simpl in Fa. apply Forall_cons in Fa as [[? _] _]. done. }
  rewrite split_Join in ES; [|done|eapply Forall_impl; [exact F|unfold normal; tauto]]. rewrite ES.
  destruct Hr as [->|[r' ->]]; [by rewrite app_empty_r|].
  enough (split_slash (a +:+ String "/" r') = split_slash a ++ split_slash r') as -> by by apply prefix_app_r.
  clear. induction a as [|c a IH]; [done|]. rewrite app_cons. simpl. case_decide; [by rewrite IH|].
  rewrite IH. destruct (split_slash a) as [|x xs] eqn:Ea; [by apply split_slash_nonempty in Ea|done].
Qed.

(** The read-only endpoints of each store, as path elements. *)
Definition read_endpoints (t : QueryTarget) : list string :=
  match t with
  | QUERY_TARGET_LOKI =>
      ["loki/api/v1/query"; "loki/api/v1/query_range"; "loki/api/v1/labels"; "loki/api/v1/series";
       "loki/api/v1/index/stats"; "loki/api/v1/index/volume"; "loki/api/v1/patterns"; "loki/api/v1/label"]
  | QUERY_TARGET_TEMPO =>
      ["api/echo"; "api/search"; "api/search/tags"; "api/v2/search/tags"; "api/traces"; "api/v2/traces";
       "api/search/tag"; "api/v2/search/tag"]
  | QUERY_TARGET_VM | QUERY_TARGET_OTHER _ =>
      ["api/v1/query"; "api/v1/query_range"; "api/v1/series"; "api/v1/labels"; "api/v1/metadata";
       "api/v1/label"; "api/v1/status"]
  end.

(** The path lies at or below the endpoint, element by element. *)
Definition below (endpoint : string) (p : string) : Prop := split_slash endpoint `prefix_of` clean_elements p.

Lemma below_exact p a : Forall normal (split_slash a) → Clean p = "/" +:+ a → below a p.
Proof.
  intros F E. eapply Clean_prefix; [done| |left; done]. by rewrite app_empty_r.
Qed.

Lemma below_prefix p a : Forall normal (split_slash a) → HasPrefix (Clean p) ("/" +:+ a +:+ "/") = true → below a p.
Proof.
  intros F [r E]%HasPrefix_iff. eapply (Clean_prefix p a (String "/" r)); [done| |eauto].
  rewrite E. by rewrite !app_assoc_str.
Qed.

#[export] Instance normal_dec x : Decision (normal x).
Proof. unfold normal. apply _. Defined.

(** Discharge one alternative of an allow-list. *)
Ltac normal_elements := apply (bool_decide_unpack _); vm_compute; reflexivity.
Ltac endpoint a :=
  exists a; split; [by vm_compute; repeat constructor|];
  first [apply below_exact; [normal_elements|assumption]
        |apply below_prefix; [normal_elements|assumption]].

Definition allowed (t : QueryTarget) : string → string → bool :=
  match t with
  | QUERY_TARGET_LOKI => isAllowedLokiPath
  | QUERY_TARGET_TEMPO => isAllowedTempoPath
  | QUERY_TARGET_VM | QUERY_TARGET_OTHER _ => isAllowedVMPath
  end.

Lemma read_method_inv m : read_method m = true → m = "GET" ∨ m = "POST".
Proof. unfold read_method. rewrite bool_decide_eq_true. set_solver. Qed.

Lemma allowedVM_below m p :
  isAllowedVMPath m (Clean p) = true →
  read_method m = true ∧ ∃ a, a ∈ read_endpoints QUERY_TARGET_VM ∧ below a p.
Proof.
  unfold isAllowedVMPath. destruct (read_method m); [|done]. simpl. intros E. split; [done|].
  destruct (bool_decide _) eqn:B in E.
  - apply bool_decide_eq_true in B. repeat setoid_rewrite elem_of_cons in B. rewrite elem_of_nil in B.
    destruct_or!; [endpoint "api/v1/query"|endpoint "api/v1/query_range"|endpoint "api/v1/series"
      |endpoint "api/v1/labels"|endpoint "api/v1/metadata"].
  - destruct (HasPrefix (Clean p) "/api/v1/label/") eqn:P1; [endpoint "api/v1/label"|]. simpl in E.
    destruct (HasPrefix (Clean p) "/api/v1/status/") eqn:P2; [endpoint "api/v1/status"|done].
Qed.

Lemma allowedLoki_below m p :
  isAllowedLokiPath m (Clean p) = true →
  read_method m = true ∧ ∃ a, a ∈ read_endpoints QUERY_TARGET_LOKI ∧ below a p.
Proof.
  unfold isAllowedLokiPath. destruct (read_method m); [|done]. simpl. intros E. split; [done|].
  destruct (bool_decide _) eqn:B in E.
  - apply bool_decide_eq_true in B. repeat setoid_rewrite elem_of_cons in B. rewrite elem_of_nil in B.
    destruct_or!; [endpoint "loki/api/v1/query"|endpoint "loki/api/v1/query_range"|endpoint "loki/api/v1/labels"
      |endpoint "loki/api/v1/series"|endpoint "loki/api/v1/index/stats"|endpoint "loki/api/v1/index/volume"
      |endpoint "loki/api/v1/patterns"].
  - destruct (HasPrefix (Clean p) "/loki/api/v1/label/") eqn:P1; [endpoint "loki/api/v1/label"|done].
Qed.

Lemma allowedTempo_below m p :
  isAllowedTempoPath m (Clean p) = true →
  read_method m = true ∧ ∃ a, a ∈ read_endpoints QUERY_TARGET_TEMPO ∧ below a p.
Proof.
  unfold isAllowedTempoPath. destruct (read_method m); [|done]. simpl. intros E. split; [done|].
  destruct (bool_decide _) eqn:B in E.
  - apply bool_decide_eq_true in B. repeat setoid_rewrite elem_of_cons in B. rewrite elem_of_nil in B.
    destruct_or!; [endpoint "api/echo"|endpoint "api/search"|endpoint "api/search/tags"
      |endpoint "api/v2/search/tags"].
  - destruct (HasPrefix (Clean p) "/api/traces/") eqn:P1; [endpoint "api/traces"|]. simpl in E.
    destruct (HasPrefix (Clean p) "/api/v2/traces/") eqn:P2; [endpoint "api/v2/traces"|]. simpl in E.
    destruct (HasPrefix (Clean p) "/api/search/tag/") eqn:P3; [endpoint "api/search/tag"|]. simpl in E.
    destruct (HasPrefix (Clean p) "/api/v2/search/tag/") eqn:P4; [endpoint "api/v2/search/tag"|done].
Qed.

Lemma allowed_below t m p :
  allowed t m (Clean p) = true → read_method m = true ∧ ∃ a, a ∈ read_endpoints t ∧ below a p.
Proof.
  destruct t; [apply allowedVM_below|apply allowedLoki_below|apply allowedTempo_below|apply allowedVM_below].
Qed.

Section HandlerLemmas.
Context `{HTTPClient, CaseTables} (cfg : QueryConfig).

Lemma target_allowed t : (target_of cfg t).1.2 = allowed t.
Proof. by destruct t. Qed.

Lemma execute_request req hr :
  (execute cfg req).2 = Some hr →
  ∃ p, hr_path hr = Clean p ∧ allowed (GetTarget req) (hr_method hr) (Clean p) = true ∧
       url_parse (target_of cfg (GetTarget req)).1.1 = Some (hr_base hr) ∧
       (execute cfg req).1 = exchange hr.
Proof.
  unfold execute. pose proof (target_allowed (GetTarget req)) as EA.
  destruct (target_of cfg (GetTarget req)) as [[baseURL isAllowed] disabled]. simpl in EA. subst isAllowed.
  case_decide; [done|].
  set (p := "/" +:+ TrimPrefix (GetPath req) "/").
  set (m := if decide (ToUpper (GetMethod req) = "") then "GET" else ToUpper (GetMethod req)).
  destruct (allowed (GetTarget req) m (Clean p)) eqn:EAl; simpl; [|done].
  destruct (url_parse baseURL) as [u|] eqn:EU; [|done].
  destruct (new_request_error m u (Clean p) (GetRawQuery req)); [done|]. simpl.
  intros [= <-]. by exists p.
Qed.

Lemma errResp_bounded status msg : (Z.of_nat (len (RespBody (errResp status msg))) ≤ maxQueryResponseBytes)%Z.
Proof. unfold maxQueryResponseBytes. simpl. lia. Qed.

Lemma exchange_bounded hr : (Z.of_nat (len (RespBody (exchange hr))) ≤ maxQueryResponseBytes)%Z.
Proof.
  unfold exchange. destruct (client_do hr); [|apply errResp_bounded].
  destruct (limit_read _ <$> _); [|apply errResp_bounded]. case_decide; [apply errResp_bounded|]. simpl. lia.
Qed.

Lemma execute_bounded req : (Z.of_nat (len (RespBody (execute cfg req).1)) ≤ maxQueryResponseBytes)%Z.
Proof.
  unfold execute. destruct (target_of cfg (GetTarget req)) as [[baseURL isAllowed] disabled].
  case_decide; [apply errResp_bounded|]. destruct (negb _); [apply errResp_bounded|].
  destruct (url_parse baseURL); [|apply errResp_bounded].
  destruct (new_request_error _ _ _ _); [apply errResp_bounded|apply exchange_bounded].
Qed.

End HandlerLemmas.

(** ** Properties *)

(** C13: Only read-only endpoints are reachable through the tunnel: a request is
    made to a local store only with the method GET or POST, to the configured
    base URL of the store it targets, and for a path whose elements, none of
    them empty, [.] or [..], begin with those of one of that store's read-only
    endpoints. No path in the request escapes by traversal, doubled slashes or
    the case of the method. *)
Theorem only_read_endpoints_are_queried `{HTTPClient, CaseTables} (cfg : QueryConfig)
    (req : QueryRequest) (hr : HttpRequest URL) :
  (execute cfg req).2 = Some hr →
  (hr_method hr = "GET" ∨ hr_method hr = "POST") ∧
  url_parse (target_of cfg (GetTarget req)).1.1 = Some (hr_base hr) ∧
  ∃ elements endpoint,
    hr_path hr = "/" +:+ Join elements "/" ∧ Forall normal elements ∧
    endpoint ∈ read_endpoints (GetTarget req) ∧ split_slash endpoint `prefix_of` elements.
Proof.
  intros (p & EP & EA & EU & _)%execute_request. apply allowed_below in EA as [M (a & Ha & B)].
  split_and!; [by apply read_method_inv|done|].
  exists (clean_elements p), a. split_and!; [by rewrite EP|apply clean_normal|done|done].
Qed.

(** The tunnel answers every request exactly once and never has more than
    eight queries in flight: in every reachable state the requests received are
    those in flight and those answered, each answered request has one response
    carrying its correlation id, and that response is the outcome of executing
    it or the 429 that refuses it. *)
Theorem every_request_answered_once `{HTTPClient, CaseTables} (cfg : QueryConfig) (t : tunnel) :
  rtc (tunnel_step cfg) idle t →
  length (querySem t) ≤ maxConcurrentQueries ∧
  ∃ answered, received t ≡ₚ querySem t ++ answered ∧
    Forall2 (λ q r, q.1 = r.1 ∧ answers cfg q.2 r.2) answered (responses t).
Proof. apply reachable_inv. Qed.

(** A response body never exceeds the 15 MiB that fit the control message,
    and cleaning a path is idempotent, so a path that passed the allow-list
    check is the path that is requested. *)
Theorem responses_are_bounded `{HTTPClient, CaseTables} (cfg : QueryConfig) (req : QueryRequest) (p : string) :
  (Z.of_nat (len (RespBody (execute cfg req).1)) ≤ maxQueryResponseBytes)%Z ∧ Clean (Clean p) = Clean p.
Proof.
  split; [apply execute_bounded|]. unfold Clean at 1 3. unfold Clean. rewrite Clean_fixpoint; [done|apply clean_normal].
Qed.

(** ** Evaluation *)

Module QueryHandlerSample.

Definition client : HTTPClient := {|
  URL := string;
  url_parse s := Some s;
  new_request_error _ _ _ _ := None;
  client_do hr := Ok (MkHttpResponse 200 {["Content-Type" := ["application/json"]]} (Ok (hr_path hr)));
|}.

Definition tables : CaseTables := {| table_upper r := r |}.

Definition cfg := MkQueryConfig "http://vm" "" "".

Definition request (method path : string) : QueryRequest := MkQueryRequest QUERY_TARGET_VM method path "" [] "".

Definition sent (method path : string) : option string :=
  hr_path <$> (@execute client tables cfg (request method path)).2.

Example paths :
  sent "get" "api/v1//query" = Some "/api/v1/query" ∧
  sent "GET" "/api/v1/label/x/../../admin/tsdb/delete_series" = None ∧
  sent "POST" "/api/v1/label/__name__/values" = Some "/api/v1/label/__name__/values" ∧
  sent "DELETE" "/api/v1/query" = None.
Proof. by vm_compute. Qed.

Definition hr : @HttpRequest (@URL client) := @MkHttpRequest (@URL client) "http://vm" "GET" "/api/v1/query" "" ∅ "".

End QueryHandlerSample.

Lemma only_read_endpoints_are_queried_witness :
  (@execute QueryHandlerSample.client QueryHandlerSample.tables QueryHandlerSample.cfg
     (QueryHandlerSample.request "get" "api/v1//query")).2 = Some QueryHandlerSample.hr ∧
  (hr_method QueryHandlerSample.hr = "GET" ∨ hr_method QueryHandlerSample.hr = "POST").
Proof.
  assert ((@execute QueryHandlerSample.client QueryHandlerSample.tables QueryHandlerSample.cfg
     (QueryHandlerSample.request "get" "api/v1//query")).2 = Some QueryHandlerSample.hr) as E
    by (vm_compute; reflexivity).
  split; [exact E|].
  exact (proj1 (@only_read_endpoints_are_queried QueryHandlerSample.client QueryHandlerSample.tables
    QueryHandlerSample.cfg _ _ E)).
Defined.

Lemma every_request_answered_once_witness :
  let req := QueryHandlerSample.request "GET" "/api/v1/query" in
  let t := MkTunnel [(1%Z, req)] [] [(1%Z, req)] in
  length (querySem t) ≤ maxConcurrentQueries ∧
  ∃ answered, received t ≡ₚ querySem t ++ answered ∧
    Forall2 (λ q r, q.1 = r.1 ∧
      @answers QueryHandlerSample.client QueryHandlerSample.tables QueryHandlerSample.cfg q.2 r.2)
      answered (responses t).
Proof.
  intros req t.
  apply (@every_request_answered_once QueryHandlerSample.client QueryHandlerSample.tables QueryHandlerSample.cfg t).
  eapply rtc_l; [|apply rtc_refl]. apply (arrive_slot QueryHandlerSample.cfg idle 1 req). vm_compute. lia.
Defined.
