(* ===== verification/ConfigManager.v ===== *)
(** Remote configuration (components/edgecontroller/config_manager.go): reading
    the collector's own config files and replacing one of them on request, after
    a dry run of the collector's validator over the merged configuration.

    The file system is a map from paths to files. What the operating system and
    the environment decide is the record [Env]: the error of every system call,
    the temporary name, the YAML parser and the validator process. The theorems
    show that a refused update leaves the target untouched, that an accepted one
    replaces exactly the validated file and keeps its previous contents, and
    which requests can be accepted at all. *)

From S2P Require Import Prelude GoText GoStrings.

Definition fileScheme : string := "file:".
Definition maxConfigFileBytes : Z := 2 ^ 20.
Definition backupSuffix : string := ".bak".
Definition perm_0600 : Z := 6 * 64.

Record file := MkFile { f_contents : string; f_mode : Z }.

#[export] Instance file_eq_dec : EqDecision file.
Proof. solve_decision. Defined.

(** A path holds a file or a directory. *)
Inductive node := FileNode (f : file) | DirNode (mode : Z).

Notation FS := (gmap string node).

(** How the validator process ended. Any exit error is a rejection, also that of a
    validator killed because the agent shuts down. *)
Inductive validator_outcome :=
| ValidatorOk
| ValidatorTimeout
| ValidatorNotRun (err : string)
| ValidatorRejected (out : string).

(** The environment of one update. [None] is a call that succeeds. [leftover] is
    what the temporary file holds when it could not be completed; a backup write
    that fails may leave anything, or nothing, at the backup path. *)
Record Env := MkEnv {
  tmp_name : string;
  create_error : option string;
  write_error : option string;
  sync_error : option string;
  chmod_error : option string;
  close_error : option string;
  leftover : file;
  stat_fails : bool;
  remove_fails : bool;
  read_fails : bool;
  backup_error : option (option file);
  rename_error : option string;
  yaml_error : string → option string;
  run_validator : FS → list string → validator_outcome;
}.

Record configManager := MkConfigManager {
  uris : list string;
  primary : string;
  writeEnabled : bool;
  executable : string;
}.

Inductive ApplyError :=
| ErrWriteDisabled
| ErrNoTarget
| ErrUnknownPath (path : string)
| ErrEmptyConfig
| ErrConfigTooLarge (n : nat)
| ErrInvalidYAML (e : string)
| ErrStage (e : string)
| ErrValidationUnavailable (detail : string)
| ErrConfigInvalid (out : string)
| ErrReplace (e : string).

(** [err.Error()] of each of them; the staging and replacing errors already
    carry their text. *)
Definition ErrorText (e : ApplyError) : string :=
  match e with
  | ErrWriteDisabled =>
      "remote config write is disabled on this agent (set remote_config_write: true on the leansignal_edge_controller extension)"
  | ErrNoTarget => "no config file to write: the agent resolved no file: --config source"
  | ErrUnknownPath path => path +:+ " is not one of this agent's config files"
  | ErrEmptyConfig => "refusing to write an empty config"
  | ErrConfigTooLarge n =>
      "config is " +:+ Itoa (Z.of_nat n) +:+ " bytes, over the " +:+ Itoa maxConfigFileBytes +:+ " byte limit"
  | ErrInvalidYAML e => "config is not valid YAML: " +:+ e
  | ErrStage e => e
  | ErrValidationUnavailable detail => "config validation unavailable: " +:+ detail
  | ErrConfigInvalid out =>
      "the new config is not valid, so it was not applied:" +:+ String newline "" +:+ out
  | ErrReplace e => e
  end.

Definition maxValidatorOutput : nat := 8192.

(** A line feed, the ellipsis U+2026 and the note. *)
Definition truncation_note : string :=
  String newline (EncodeRune 0x2026 +:+ " (truncated)").

(** [out[:maxValidatorOutput]] cuts between bytes. *)
Definition sanitizeValidatorOutput (out candidate path : string) : string :=
  let out := ReplaceAll out candidate path in
  if decide (maxValidatorOutput < len out) then upto maxValidatorOutput out +:+ truncation_note else out.

(** ** Sources *)

(** [strings.Cut(arg, "=")] on every argument; a flag without a value takes the
    next argument. *)
Fixpoint parseConfigFlags (args : list string) : list string :=
  match args with
  | [] => []
  | arg :: args =>
      let '(name, value, hasValue) := CutByte arg "=" in
      if negb (bool_decide (name = "--config" ∨ name = "-config")) then parseConfigFlags args
      else if (hasValue : bool) then value :: parseConfigFlags args
      else match args with
           | next :: args => next :: parseConfigFlags args
           | [] => []
           end
  end.

(** [filepath.IsAbs] on the platforms with forward slashes. *)
Definition IsAbs (p : string) : bool := HasPrefix p "/".

(** The path of a file source; [None] for a source that has no file. *)
Definition uriPath (uri : string) : option string :=
  match CutPrefix uri fileScheme with
  | Some rest => if decide (rest ≠ "") then Some rest else None
  | None =>
      let '(scheme, _, ok) := CutByte uri ":" in
      if ok && negb (bool_decide (scheme = "")) && negb (IsAbs uri) then None
      else if decide (uri ≠ "") then Some uri else None
  end.

Fixpoint first_file (uris : list string) : string :=
  match uris with
  | [] => ""
  | uri :: uris => match uriPath uri with Some p => p | None => first_file uris end
  end.

(** [os.Executable()]: the empty string when it fails. *)
Definition newConfigManager (configFile : string) (remoteConfigWrite : bool) (args : list string)
    (exe : string) : configManager :=
  let uris := parseConfigFlags args in
  let primary := if decide (configFile = "") then first_file uris else configFile in
  MkConfigManager uris primary remoteConfigWrite exe.

Section Manager.
Context (m : configManager).

Definition isKnownPath (path : string) : bool :=
  existsb (λ uri, bool_decide (uriPath uri = Some path)) (uris m).

(** ** Reading *)

Record ConfigFile := MkConfigFile {
  cf_Path : string;
  cf_Content : string;
  cf_Writable : bool;
  cf_Error : string;
}.

Record ConfigSnapshot := MkConfigSnapshot {
  PrimaryPath : string;
  WriteEnabled : bool;
  Files : list ConfigFile;
  cs_Error : string;
}.

(** What the operating system answers while reading: the text of a failed
    [Stat] or [ReadFile], the name [os.CreateTemp] gives a probe beside a path
    ([None]: it cannot be created), and whether removing the probe fails. *)
Record ReadEnv := MkReadEnv {
  stat_error : string → option string;
  read_error : string → option string;
  probe_name : FS → string → option string;
  probe_stays : bool;
  not_found : string → string;
}.

Definition readConfigFile (env : ReadEnv) (fs : FS) (path : string) : result string string :=
  match stat_error env path with
  | Some e => Err e
  | None =>
      match fs !! path with
      | None => Err (not_found env path)
      | Some (DirNode _) => Err (path +:+ " is a directory")
      | Some (FileNode f) =>
          if decide (maxConfigFileBytes < Z.of_nat (len (f_contents f)))%Z
          then Err ("config file is " +:+ Itoa (Z.of_nat (len (f_contents f))) +:+ " bytes, over the "
                    +:+ Itoa maxConfigFileBytes +:+ " byte limit")
          else match read_error env path with Some e => Err e | None => Ok (f_contents f) end
      end
  end.

(** A probe file is created beside the path and removed again; a failed removal
    is ignored. *)
Definition isWritable (env : ReadEnv) (fs : FS) (path : string) : bool * FS :=
  match probe_name env fs path with
  | None => (false, fs)
  | Some name =>
      let created := <[name := FileNode (MkFile "" perm_0600)]> fs in
      (true, if probe_stays env then created else delete name created)
  end.

(** [m.writeEnabled && isWritable(path)]: the probe only runs with writes
    enabled. *)
Definition snapshot_file (env : ReadEnv) (fs : FS) (uri : string) : ConfigFile * FS :=
  match uriPath uri with
  | None => (MkConfigFile uri "" false "not a file source; cannot be read or edited", fs)
  | Some path =>
      match readConfigFile env fs path with
      | Err e => (MkConfigFile path "" false e, fs)
      | Ok content =>
          let '(w, fs) := if writeEnabled m then isWritable env fs path else (false, fs) in
          (MkConfigFile path content w "", fs)
      end
  end.

Fixpoint snapshot_files (env : ReadEnv) (fs : FS) (us : list string) : list ConfigFile * FS :=
  match us with
  | [] => ([], fs)
  | u :: us =>
      let '(f, fs) := snapshot_file env fs u in
      let '(files, fs) := snapshot_files env fs us in (f :: files, fs)
  end.

Definition Snapshot (env : ReadEnv) (fs : FS) : ConfigSnapshot * FS :=
  match uris m with
  | [] => (MkConfigSnapshot (primary m) (writeEnabled m) [] "no --config sources found on the agent command line", fs)
  | us => let '(files, fs) := snapshot_files env fs us in
          (MkConfigSnapshot (primary m) (writeEnabled m) files "", fs)
  end.

(** ** Writing *)

Definition remove_tmp (env : Env) (fs : FS) : FS :=
  if remove_fails env then fs else delete (tmp_name env) fs.

(** The staged file takes the target's permissions, 0600 without one. *)
Definition stage_perm (env : Env) (fs : FS) (path : string) : Z :=
  if stat_fails env then perm_0600
  else match fs !! path with
       | Some (FileNode f) => f_mode f
       | Some (DirNode mode) => mode
       | None => perm_0600
       end.

Definition stage (env : Env) (fs : FS) (path content : string) : FS * result ApplyError string :=
  match create_error env with
  | Some e => (fs, Err (ErrStage ("cannot stage the new config next to " +:+ path +:+ ": " +:+ e)))
  | None =>
      let staged := <[tmp_name env := FileNode (MkFile content (stage_perm env fs path))]> fs in
      let cleanup text := (remove_tmp env (<[tmp_name env := FileNode (leftover env)]> fs), Err (ErrStage text)) in
      match write_error env, sync_error env, chmod_error env, close_error env with
      | None, None, None, None => (staged, Ok (tmp_name env))
      | Some e, _, _, _ => cleanup ("cannot write the staged config: " +:+ e)
      | None, Some e, _, _ => cleanup ("cannot flush the staged config: " +:+ e)
      | None, None, Some e, _ => cleanup ("cannot set permissions on the staged config: " +:+ e)
      | None, None, None, Some e => cleanup ("cannot close the staged config: " +:+ e)
      end
  end.

(** The command line of the dry run: every source in order, the candidate in
    place of the file it would replace. *)
Definition validate_args (path candidate : string) : list string :=
  "validate" :: (uris m ≫= λ uri,
    ["--config"; if bool_decide (uriPath uri = Some path) then fileScheme +:+ candidate else uri]).

Definition validate (env : Env) (fs : FS) (path candidate : string) : result ApplyError () :=
  if decide (executable m = "") then
    Err (ErrValidationUnavailable
           "the collector executable could not be located, so the new config cannot be checked before it is applied")
  else
    match run_validator env fs (validate_args path candidate) with
    | ValidatorOk => Ok ()
    | ValidatorTimeout => Err (ErrValidationUnavailable "validating the new config timed out after 30s")
    | ValidatorNotRun e => Err (ErrValidationUnavailable e)
    | ValidatorRejected out => Err (ErrConfigInvalid (TrimSpace (sanitizeValidatorOutput out candidate path)))
    end.

(** The permissions of the backup: those of the one there is, or 0600. A directory
    cannot be written. *)
Definition backup_mode (fs : FS) (path : string) : option Z :=
  match fs !! (path +:+ backupSuffix) with
  | Some (FileNode old) => Some (f_mode old)
  | Some (DirNode _) => None
  | None => Some perm_0600
  end.

Definition backup (env : Env) (fs : FS) (path : string) : FS :=
  match fs !! path with
  | Some (FileNode current) =>
      if read_fails env then fs
      else
        match backup_error env with
        | None =>
            match backup_mode fs path with
            | Some mode => <[path +:+ backupSuffix := FileNode (MkFile (f_contents current) mode)]> fs
            | None => fs
            end
        | Some (Some rest) => <[path +:+ backupSuffix := FileNode rest]> fs
        | Some None => fs
        end
  | _ => fs
  end.

Definition commit (env : Env) (fs : FS) (path candidate : string) : FS * result ApplyError () :=
  let fs := backup env fs path in
  match rename_error env with
  | Some e => (fs, Err (ErrReplace ("cannot replace " +:+ path +:+ ": " +:+ e)))
  | None =>
      match fs !! candidate, fs !! path with
      | None, _ => (fs, Err (ErrReplace ("cannot replace " +:+ path +:+ ": no such file")))
      | Some _, Some (DirNode _) => (fs, Err (ErrReplace ("cannot replace " +:+ path +:+ ": is a directory")))
      | Some f, _ => (<[path := f]> (delete candidate fs), Ok ())
      end
  end.

(** The outcome of an update: whether the caller should restart. *)
Definition Apply (env : Env) (fs : FS) (path content : string) (skipReload : bool)
  : FS * result ApplyError (string * bool) :=
  if negb (writeEnabled m) then (fs, Err ErrWriteDisabled)
  else
    let path := if decide (path = "") then primary m else path in
    if decide (path = "") then (fs, Err ErrNoTarget)
    else if negb (isKnownPath path) then (fs, Err (ErrUnknownPath path))
    else if decide (len content = 0) then (fs, Err ErrEmptyConfig)
    else if decide (maxConfigFileBytes < Z.of_nat (len content))%Z then (fs, Err (ErrConfigTooLarge (len content)))
    else
      match yaml_error env content with
      | Some e => (fs, Err (ErrInvalidYAML e))
      | None =>
          let '(fs, staged) := stage env fs path content in
          match staged with
          | Err e => (fs, Err e)
          | Ok tmpPath =>
              match validate env fs path tmpPath with
              | Err e => (remove_tmp env fs, Err e)
              | Ok _ =>
                  let '(fs, committed) := commit env fs path tmpPath in
                  match committed with
                  | Err e => (remove_tmp env fs, Err e)
                  | Ok _ => (fs, Ok (path, negb skipReload))
                  end
              end
          end
      end.

End Manager.

(** The text of a successful update. *)
Definition success_message (path : string) (reload : bool) : string :=
  "config validated and written to " +:+ path +:+ " (previous kept as " +:+ path +:+ backupSuffix +:+ "); " +:+
  (if reload then "restarting to reload the config" else "restart the agent to apply it").

(** ** Lemmas *)

Lemma suffix_ne p s : s ≠ "" → p +:+ s ≠ p.
Proof.
  intros N E. apply (f_equal len) in E. rewrite len_app in E. destruct s; [done|]. simpl in E. lia.
Qed.

Lemma backup_lookup env fs path q : q ≠ path +:+ backupSuffix → backup env fs path !! q = fs !! q.
Proof.
  intros N. unfold backup. destruct (fs !! path) as [[f|]|]; try done. destruct (read_fails env); [done|].
  destruct (backup_error env) as [[l|]|]; [by rewrite lookup_insert_ne|done|].
  destruct (backup_mode fs path); [by rewrite lookup_insert_ne|done].
Qed.

Lemma backup_kept env fs path f :
  fs !! path = Some (FileNode f) → read_fails env = false → backup_error env = None →
  (∀ mode, fs !! (path +:+ backupSuffix) ≠ Some (DirNode mode)) →
  ∃ mode, backup env fs path !! (path +:+ backupSuffix) = Some (FileNode (MkFile (f_contents f) mode)).
Proof.
  intros E R B D. unfold backup, backup_mode. rewrite E, R, B.
  destruct (fs !! (path +:+ backupSuffix)) as [[old|mode]|]; [|by destruct (D mode)|]; eexists; apply lookup_insert_eq.
Qed.

(** What can be at the backup path afterwards, whatever fails. *)
Lemma backup_cases env fs path :
  let kept := backup env fs path !! (path +:+ backupSuffix) in
  kept = fs !! (path +:+ backupSuffix) ∨
  (∃ rest, backup_error env = Some (Some rest) ∧ kept = Some (FileNode rest)) ∨
  (∃ old mode, fs !! path = Some (FileNode old) ∧ kept = Some (FileNode (MkFile (f_contents old) mode))).
Proof.
  unfold backup. destruct (fs !! path) as [[f|]|]; simpl; auto. destruct (read_fails env); [auto|].
  destruct (backup_error env) as [[rest|]|]; [| auto |destruct (backup_mode fs path) as [mode|]; [|auto]].
  - right. left. exists rest. by rewrite lookup_insert_eq.
  - right. right. exists f, mode. by rewrite lookup_insert_eq.
Qed.

Lemma remove_tmp_lookup env fs q : q ≠ tmp_name env → remove_tmp env fs !! q = fs !! q.
Proof. intros N. unfold remove_tmp. destruct (remove_fails env); [done|]. by rewrite lookup_delete_ne. Qed.

Definition staged_fs (env : Env) (fs : FS) (path content : string) : FS :=
  <[tmp_name env := FileNode (MkFile content (stage_perm env fs path))]> fs.

Lemma stage_cases env fs path content :
  (∃ fs' e, stage env fs path content = (fs', Err (ErrStage e)) ∧ ∀ q, q ≠ tmp_name env → fs' !! q = fs !! q) ∨
  stage env fs path content = (staged_fs env fs path content, Ok (tmp_name env)).
Proof.
  unfold stage. destruct (create_error env) as [e|]; [left; by eexists _, _|].
  fold (staged_fs env fs path content).
  assert (∀ q, q ≠ tmp_name env → remove_tmp env (<[tmp_name env := FileNode (leftover env)]> fs) !! q = fs !! q) as HR.
  { intros q N. rewrite remove_tmp_lookup by done. by apply lookup_insert_ne. }
  destruct (write_error env), (sync_error env), (chmod_error env), (close_error env);
    (by right) || (left; by eexists _, _).
Qed.

(** The target of a request. *)
Definition target (m : configManager) (path : string) : string :=
  if decide (path = "") then primary m else path.

(** [os.CreateTemp] gives a name nothing has, in particular neither the target
    nor its backup. *)
Definition fresh_tmp (env : Env) (fs : FS) (path : string) : Prop :=
  fs !! tmp_name env = None ∧ tmp_name env ≠ path ∧ tmp_name env ≠ path +:+ backupSuffix.

(** A commit that succeeds, and one that fails. *)
Lemma commit_cases env fs path content :
  fresh_tmp env fs path →
  let st := staged_fs env fs path content in
  (∃ e, commit env st path (tmp_name env) = (backup env st path, Err (ErrReplace e))) ∨
  commit env st path (tmp_name env)
  = (<[path := FileNode (MkFile content (stage_perm env fs path))]> (delete (tmp_name env) (backup env st path)), Ok ()).
Proof.
  intros (_ & N1 & N2) st. unfold commit. destruct (rename_error env) as [e|]; [left; by eexists|].
  rewrite (backup_lookup env st path (tmp_name env)) by done.
  assert (st !! tmp_name env = Some (FileNode (MkFile content (stage_perm env fs path)))) as ->
    by apply lookup_insert_eq.
  destruct (backup _ _ _ !! path) as [[f|mode]|]; [by right|left; by eexists|by right].
Qed.

(** What an update that got past its guards is known to satisfy. *)
Definition guards_ok (m : configManager) (env : Env) (p content : string) : Prop :=
  writeEnabled m = true ∧ p ≠ "" ∧ isKnownPath m p = true ∧ content ≠ "" ∧
  (Z.of_nat (len content) ≤ maxConfigFileBytes)%Z ∧ yaml_error env content = None.

Lemma Apply_cases m env fs path content skipReload :
  (∃ e, Apply m env fs path content skipReload = (fs, Err e) ∧ ∀ x, e ≠ ErrReplace x ∧ e ≠ ErrConfigInvalid x) ∨
  (guards_ok m env (target m path) content ∧
   Apply m env fs path content skipReload =
   let p := target m path in
   let '(fs, staged) := stage env fs p content in
   match staged with
   | Err e => (fs, Err e)
   | Ok tmpPath =>
       match validate m env fs p tmpPath with
       | Err e => (remove_tmp env fs, Err e)
       | Ok _ =>
           let '(fs, committed) := commit env fs p tmpPath in
           match committed with
           | Err e => (remove_tmp env fs, Err e)
           | Ok _ => (fs, Ok (p, negb skipReload))
           end
       end
   end).
Proof.
  unfold Apply. fold (target m path). unfold guards_ok.
  destruct (writeEnabled m); simpl; [|left; by eexists].
  destruct (decide (target m path = "")); [left; by eexists|].
  destruct (isKnownPath m (target m path)); simpl; [|left; by eexists].
  destruct (decide (len content = 0)) as [L|L]; [left; by eexists|].
  destruct (decide (maxConfigFileBytes < Z.of_nat (len content))%Z) as [B|B]; [left; by eexists|].
  destruct (yaml_error env content); [left; by eexists|]. right. split_and!; try done; [|lia].
  intros ->. done.
Qed.

Lemma validate_Ok m env fs p c :
  validate m env fs p c = Ok () →
  executable m ≠ "" ∧ run_validator env fs (validate_args m p c) = ValidatorOk.
Proof. unfold validate. case_decide; [done|]. by destruct (run_validator _ _ _). Qed.

Lemma rejected_lookup m env fs path content skipReload fs' e :
  Apply m env fs path content skipReload = (fs', Err e) → fresh_tmp env fs (target m path) →
  ∀ q, q ≠ tmp_name env → (∀ x, e ≠ ErrReplace x) ∨ q ≠ target m path +:+ backupSuffix → fs' !! q = fs !! q.
Proof.
  intros E Fr q N NQ. destruct (Apply_cases m env fs path content skipReload) as [(e' & E' & _)|(_ & E')];
    rewrite E' in E; [by injection E as <- _|]. clear E'. simpl in E.
  destruct (stage_cases env fs (target m path) content) as [(fs1 & e1 & ES & HS)|ES]; rewrite ES in E.
  { injection E as <- <-. by apply HS. }
  assert (staged_fs env fs (target m path) content !! q = fs !! q) as EQ by by apply lookup_insert_ne.
  destruct (validate m env _ _ _) as [[]|e2].
  2:{ injection E as <- <-. by rewrite remove_tmp_lookup. }
  destruct (commit_cases env fs (target m path) content Fr) as [[e2 EC]|EC]; rewrite EC in E; [|done].
  injection E as <- <-. rewrite remove_tmp_lookup by done.
  destruct NQ as [NQ|NQ]; [by destruct (NQ e2)|]. by rewrite backup_lookup.
Qed.

(** ** The validator's complaint *)

Lemma sanitize_len out candidate path : len (sanitizeValidatorOutput out candidate path) ≤ maxValidatorOutput + 16.
Proof.
  unfold sanitizeValidatorOutput. case_decide as L; [|lia].
  rewrite len_app, upto_len by lia. change (len truncation_note) with 16. lia.
Qed.

Lemma sanitize_id out candidate path :
  candidate ≠ "" → occurs candidate out = false → len out ≤ maxValidatorOutput →
  sanitizeValidatorOutput out candidate path = out.
Proof.
  intros N O L. unfold sanitizeValidatorOutput. rewrite ReplaceAll_absent by done.
  by rewrite decide_False by lia.
Qed.

Lemma validate_invalid m env fs p c out :
  validate m env fs p c = Err (ErrConfigInvalid out) →
  ∃ complaint, run_validator env fs (validate_args m p c) = ValidatorRejected complaint ∧
               out = TrimSpace (sanitizeValidatorOutput complaint c p).
Proof.
  unfold validate. case_decide; [done|]. destruct (run_validator _ _ _) as [| | |complaint]; try done.
  intros [= <-]. by exists complaint.
Qed.

Lemma Apply_invalid m env fs path content skipReload fs' out :
  fresh_tmp env fs (target m path) →
  Apply m env fs path content skipReload = (fs', Err (ErrConfigInvalid out)) →
  validate m env (staged_fs env fs (target m path) content) (target m path) (tmp_name env)
  = Err (ErrConfigInvalid out).
Proof.
  intros Fr E. destruct (Apply_cases m env fs path content skipReload) as [(e' & E' & G)|(_ & E')];
    rewrite E' in E; clear E'.
  { injection E as -> ->. by destruct (G out). }
  cbv zeta in E.
  destruct (stage_cases env fs (target m path) content) as [(fs1 & e1 & ES & _)|ES]; rewrite ES in E; [done|].
  destruct (validate m env _ _ _) as [u|e] eqn:V; [|by injection E as _ ->].
  destruct (commit_cases env fs (target m path) content Fr) as [[e2 EC]|EC]; by rewrite EC in E.
Qed.

(** ** Snapshots *)

(** [os.CreateTemp] names a file that does not exist. *)
Definition fresh_probes (env : ReadEnv) : Prop :=
  ∀ fs path name, probe_name env fs path = Some name → fs !! name = None.

Lemma isWritable_ok env fs path :
  fresh_probes env → probe_stays env = false →
  isWritable env fs path = (bool_decide (is_Some (probe_name env fs path)), fs).
Proof.
  intros Fr R. unfold isWritable. destruct (probe_name env fs path) as [name|] eqn:E; [|done].
  rewrite R, bool_decide_true by eauto. f_equal. apply delete_insert_id. by eapply Fr.
Qed.

(** What a snapshot is to say of one source, the files being those on disk. *)
Definition file_faithful (m : configManager) (env : ReadEnv) (fs : FS) (uri : string) (f : ConfigFile) : Prop :=
  match uriPath uri with
  | None => f = MkConfigFile uri "" false "not a file source; cannot be read or edited"
  | Some path =>
      match readConfigFile env fs path with
      | Ok content =>
          f = MkConfigFile path content (writeEnabled m && bool_decide (is_Some (probe_name env fs path))) "" ∧
          (∃ mode, fs !! path = Some (FileNode (MkFile content mode))) ∧
          (Z.of_nat (len content) ≤ maxConfigFileBytes)%Z
      | Err e => f = MkConfigFile path "" false e
      end
  end.

Lemma readConfigFile_ok env fs path content :
  readConfigFile env fs path = Ok content →
  (∃ mode, fs !! path = Some (FileNode (MkFile content mode))) ∧ (Z.of_nat (len content) ≤ maxConfigFileBytes)%Z.
Proof.
  unfold readConfigFile. destruct (stat_error env path); [done|].
  destruct (fs !! path) as [[[c mode]|]|]; [|done..]. case_decide; [done|]. simpl in *.
  destruct (read_error env path); [done|]. intros [= <-]. split; [eauto|lia].
Qed.

Lemma snapshot_file_bound m env fs uri :
  (Z.of_nat (len (cf_Content (snapshot_file m env fs uri).1)) ≤ maxConfigFileBytes)%Z.
Proof.
  unfold snapshot_file. destruct (uriPath uri) as [path|]; [|done].
  destruct (readConfigFile env fs path) as [content|e] eqn:E; [|done].
  apply readConfigFile_ok in E as [_ L]. destruct (writeEnabled m); [|done]. by destruct (isWritable _ _ _).
Qed.

Lemma Snapshot_bound m env fs :
  length (Files (Snapshot m env fs).1) ≤ length (uris m) ∧
  Forall (λ f, Z.of_nat (len (cf_Content f)) ≤ maxConfigFileBytes)%Z (Files (Snapshot m env fs).1).
Proof.
  assert (∀ us fs, length (snapshot_files m env fs us).1 = length us ∧
            Forall (λ f, Z.of_nat (len (cf_Content f)) ≤ maxConfigFileBytes)%Z (snapshot_files m env fs us).1) as B.
  { induction us as [|u us IH]; intros fs1; [done|]. cbn [snapshot_files]. pose proof (snapshot_file_bound m env fs1 u) as B.
    destruct (snapshot_file m env fs1 u) as [f fs2]. destruct (IH fs2) as [E F].
    destruct (snapshot_files m env fs2 us) as [files fs3]. simpl in *. split; [by f_equal|by constructor]. }
  unfold Snapshot. destruct (uris m) as [|u us]; [done|]. destruct (B (u :: us) fs) as [E F].
  destruct (snapshot_files m env fs (u :: us)) as [files fs']. split; [simpl in *; lia|done].
Qed.

Lemma snapshot_file_ok m env fs uri :
  fresh_probes env → probe_stays env = false →
  ∃ f, snapshot_file m env fs uri = (f, fs) ∧ file_faithful m env fs uri f.
Proof.
  intros Fr R. unfold snapshot_file, file_faithful. destruct (uriPath uri) as [path|]; [|by eexists].
  destruct (readConfigFile env fs path) as [content|e] eqn:E; [|by eexists].
  apply readConfigFile_ok in E. rewrite isWritable_ok by done. destruct (writeEnabled m); by eexists.
Qed.

Lemma snapshot_files_ok m env fs us :
  fresh_probes env → probe_stays env = false →
  ∃ files, snapshot_files m env fs us = (files, fs) ∧ Forall2 (file_faithful m env fs) us files.
Proof.
  intros Fr R. induction us as [|u us (files & E & F)]; [by exists []|]. cbn [snapshot_files].
  destruct (snapshot_file_ok m env fs u Fr R) as (f & -> & Hf). rewrite E. exists (f :: files). split; [done|by constructor].
Qed.

(** ** The dry run *)

Lemma parse_flags_pair (us : list string) (f : string → string) :
  parseConfigFlags (us ≫= λ u, ["--config"; f u]) = f <$> us.
Proof. induction us as [|u us IH]; [done|]. cbn. f_equal. exact IH. Qed.

(** ** Properties *)

(** C9: An update that is refused, for whatever reason and at whatever point
    the environment fails, leaves every file of the configuration as it was:
    the target included, no path changes but the temporary name, and the backup
    changes only when the final rename is what failed. *)
Theorem rejected_update_changes_nothing (m : configManager) (env : Env) (fs fs' : FS)
    (path content : string) (skipReload : bool) (e : ApplyError) :
  Apply m env fs path content skipReload = (fs', Err e) → fresh_tmp env fs (target m path) →
  fs' !! target m path = fs !! target m path ∧
  ∀ q, q ≠ tmp_name env → (∀ x, e ≠ ErrReplace x) ∨ q ≠ target m path +:+ backupSuffix → fs' !! q = fs !! q.
Proof.
  intros E Fr. pose proof (rejected_lookup _ _ _ _ _ _ _ _ E Fr) as HL. split; [|done].
  destruct Fr as (_ & N & _). apply HL; [done|right]. intros EQ. symmetry in EQ. by apply suffix_ne in EQ.
Qed.

(** C10: Staged under a new name, an update is accepted only when remote writes are enabled, the target
    is one of the collector's own file sources, the content is non-empty, within
    1 MiB and YAML, and the validator accepted the merged configuration with the
    staged candidate in the target's place; it then replaces the target by the
    new content under the old permissions, leaves no temporary file and touches
    nothing else but the backup path. There the previous content goes when it can
    be read and written. An update is accepted also when it cannot: the backup path
    is then as it was, or holds what a write that broke off has left. *)
Theorem accepted_update_is_validated (m : configManager) (env : Env) (fs fs' : FS)
    (path content p : string) (skipReload reload : bool) :
  Apply m env fs path content skipReload = (fs', Ok (p, reload)) → fresh_tmp env fs (target m path) →
  p = target m path ∧ reload = negb skipReload ∧ guards_ok m env p content ∧ executable m ≠ "" ∧
  run_validator env (staged_fs env fs p content) (validate_args m p (tmp_name env)) = ValidatorOk ∧
  fs' !! p = Some (FileNode (MkFile content (stage_perm env fs p))) ∧
  fs' !! tmp_name env = None ∧
  (∀ old, fs !! p = Some (FileNode old) → read_fails env = false → backup_error env = None →
     (∀ mode, fs !! (p +:+ backupSuffix) ≠ Some (DirNode mode)) →
     ∃ mode, fs' !! (p +:+ backupSuffix) = Some (FileNode (MkFile (f_contents old) mode))) ∧
  (fs' !! (p +:+ backupSuffix) = fs !! (p +:+ backupSuffix) ∨
   (∃ rest, backup_error env = Some (Some rest) ∧ fs' !! (p +:+ backupSuffix) = Some (FileNode rest)) ∨
   (∃ old mode, fs !! p = Some (FileNode old) ∧
      fs' !! (p +:+ backupSuffix) = Some (FileNode (MkFile (f_contents old) mode)))) ∧
  (∀ q, q ≠ p → q ≠ p +:+ backupSuffix → q ≠ tmp_name env → fs' !! q = fs !! q).
Proof.
  intros E Fr. destruct (Apply_cases m env fs path content skipReload) as [(e' & E' & _)|(G & E')];
    rewrite E' in E; [done|]. clear E'. simpl in E.
  destruct (stage_cases env fs (target m path) content) as [(fs1 & e1 & ES & _)|ES]; rewrite ES in E; [done|].
  destruct (validate m env _ _ _) as [[]|] eqn:EV; [|done]. apply validate_Ok in EV as [NE EV].
  destruct (commit_cases env fs (target m path) content Fr) as [[e2 EC]|EC]; rewrite EC in E; [done|].
  injection E as <- <- <-. pose proof Fr as (F0 & N1 & N2).
  assert (target m path +:+ backupSuffix ≠ target m path) as NB by by apply suffix_ne.
  split_and!; try done.
  - apply lookup_insert_eq.
  - by rewrite lookup_insert_ne, lookup_delete_eq.
  - intros old EO R B D. rewrite lookup_insert_ne by done. rewrite lookup_delete_ne by done.
    apply backup_kept; [|done..|]; unfold staged_fs; [|intros mode]; by rewrite lookup_insert_ne.
  - rewrite lookup_insert_ne, lookup_delete_ne by done.
    pose proof (backup_cases env (staged_fs env fs (target m path) content) (target m path)) as B.
    cbv zeta in B. unfold staged_fs in B at 2 4. by rewrite !lookup_insert_ne in B by done.
  - intros q M1 M2 M3. rewrite lookup_insert_ne, lookup_delete_ne, backup_lookup by done.
    unfold staged_fs. by rewrite lookup_insert_ne.
Qed.

(** The dry run checks what the collector will load: read back by the
    collector's own flag rules, the validator's command line names the same
    sources in the same order as the collector's, with the candidate in place of
    the file being replaced and nothing else changed. *)
Theorem dry_run_sees_merged_config (m : configManager) (path candidate : string) :
  parseConfigFlags (validate_args m path candidate)
  = (λ uri, if bool_decide (uriPath uri = Some path) then fileScheme +:+ candidate else uri) <$> uris m.
Proof.
  unfold validate_args. change (parseConfigFlags ("validate" :: ?l)) with (parseConfigFlags l).
  apply (parse_flags_pair (uris m) (λ uri, if bool_decide (uriPath uri = Some path) then fileScheme +:+ candidate else uri)).
Qed.

(** Reading the configuration changes nothing on disk and reports it
    faithfully: one entry per --config source in command-line order; a source
    without a file, or one that cannot be read, carries an error and no content;
    every other entry is the content on disk, within 1 MiB, and is writable only
    with remote writes enabled and a directory that takes a new file. *)
Theorem snapshot_is_faithful (m : configManager) (env : ReadEnv) (fs : FS) :
  fresh_probes env → probe_stays env = false →
  (Snapshot m env fs).2 = fs ∧
  Forall2 (file_faithful m env fs) (uris m) (Files (Snapshot m env fs).1) ∧
  (cs_Error (Snapshot m env fs).1 ≠ "" ↔ uris m = []).
Proof.
  intros Fr R. unfold Snapshot. destruct (snapshot_files_ok m env fs (uris m) Fr R) as (files & E & F).
  destruct (uris m) as [|u us]; [by repeat constructor|]. rewrite E. simpl. naive_solver.
Qed.

(** C36: A rejection reaches the operator: when an update is refused as invalid,
    the validator did run on the staged candidate and complained; the complaint
    reported is its output with surrounding white space removed, verbatim when
    it is within 8 KiB and does not name the staged file, and never longer than
    8 KiB and the truncation note. *)
Theorem complaint_is_reported (m : configManager) (env : Env) (fs fs' : FS)
    (path content out : string) (skipReload : bool) :
  Apply m env fs path content skipReload = (fs', Err (ErrConfigInvalid out)) → fresh_tmp env fs (target m path) →
  len out ≤ maxValidatorOutput + 16 ∧
  ∃ complaint,
    run_validator env (staged_fs env fs (target m path) content) (validate_args m (target m path) (tmp_name env))
    = ValidatorRejected complaint ∧
    (tmp_name env ≠ "" → occurs (tmp_name env) complaint = false → len complaint ≤ maxValidatorOutput →
     out = TrimSpace complaint).
Proof.
  intros E Fr. apply Apply_invalid, validate_invalid in E as (complaint & EV & ->); [|done]. split.
  - etrans; [apply TrimSpace_len|apply sanitize_len].
  - exists complaint. split; [done|]. intros N O L. by rewrite sanitize_id.
Qed.

(** ** Evaluation *)

Module ConfigManagerSample.

Definition m : configManager :=
  newConfigManager "" true ["--config"; "file:/etc/a.yaml"; "--config=env:X"; "--verbose"] "/bin/agent".

Definition ok_env : Env :=
  MkEnv "/etc/a.yaml.1.tmp" None None None None None (MkFile "" perm_0600) false false false None None (λ _, None) (λ _ _, ValidatorOk).

Definition rename_fails : Env :=
  MkEnv "/etc/a.yaml.1.tmp" None None None None None (MkFile "" perm_0600) false false false None (Some "EPERM") (λ _, None) (λ _ _, ValidatorOk).

Definition fs : FS := {["/etc/a.yaml" := FileNode (MkFile "old" 420)]}.

Definition backup_fails : Env :=
  MkEnv "/etc/a.yaml.1.tmp" None None None None None (MkFile "" perm_0600) false false false (Some None) None (λ _, None) (λ _ _, ValidatorOk).

Example sources : uris m = ["file:/etc/a.yaml"; "env:X"] ∧ primary m = "/etc/a.yaml".
Proof. by vm_compute. Qed.

(** A rename that fails reports an error after the backup has been written. *)
Example backup_written_despite_error :
  fs !! "/etc/a.yaml.bak" = None ∧
  (Apply m rename_fails fs "" "new" false).2 = Err (ErrReplace "cannot replace /etc/a.yaml: EPERM") ∧
  (Apply m rename_fails fs "" "new" false).1 !! "/etc/a.yaml.bak" = Some (FileNode (MkFile "old" 384)).
Proof. by vm_compute. Qed.

(** Without a backup the update is accepted all the same, and its message speaks of
    the previous content as kept. *)
Example accepted_without_backup :
  (Apply m backup_fails fs "" "new" false).2 = Ok ("/etc/a.yaml", true) ∧
  (Apply m backup_fails fs "" "new" false).1 !! "/etc/a.yaml.bak" = None ∧
  success_message "/etc/a.yaml" true
  = "config validated and written to /etc/a.yaml (previous kept as /etc/a.yaml.bak); restarting to reload the config".
Proof. by vm_compute. Qed.

Lemma fresh : fresh_tmp ok_env fs (target m "").
Proof. split_and!; [reflexivity|discriminate|discriminate]. Qed.

Definition rejecting (out : string) : Env :=
  MkEnv "/etc/a.yaml.1.tmp" None None None None None (MkFile "" perm_0600) false false false None None (λ _, None)
    (λ _ _, ValidatorRejected out).

Definition reading : ReadEnv :=
  MkReadEnv (λ _, None) (λ _, None)
    (λ fs p, if decide (fs !! (p +:+ ".probe") = None) then Some (p +:+ ".probe") else None) false (λ p, p).

(** A valid text cut at the limit between the two bytes of a letter is not valid
    UTF-8 any more. *)
Definition long_complaint : string := of_bytes (replicate 8191 "a"%char) +:+ EncodeRune 0xE9.

Example truncation_splits_a_rune :
  ValidString (long_complaint +:+ "!") = true ∧
  ValidString (sanitizeValidatorOutput (long_complaint +:+ "!") "/etc/a.yaml.1.tmp" "/etc/a.yaml") = false.
Proof. split; vm_compute; reflexivity. Qed.

End ConfigManagerSample.

(** An update that was staged and then rejected. *)
Lemma rejected_update_changes_nothing_witness :
  let fs := ConfigManagerSample.fs in
  let m := ConfigManagerSample.m in
  let env := ConfigManagerSample.rejecting "bad" in
  let r := Apply m env fs "" "new" false in
  r.2 = Err (ErrConfigInvalid "bad") ∧ r.1 !! "/etc/a.yaml" = Some (FileNode (MkFile "old" 420)) ∧
  ∀ q, q ≠ "/etc/a.yaml.1.tmp" → r.1 !! q = fs !! q.
Proof.
  intros fs m env r.
  assert (r = (r.1, Err (ErrConfigInvalid "bad"))) as E by (vm_compute; reflexivity).
  assert (fresh_tmp env fs (target m "")) as Fr by (split_and!; [reflexivity|discriminate|discriminate]).
  destruct (rejected_update_changes_nothing m env fs r.1 "" "new" false (ErrConfigInvalid "bad") E Fr) as [T O].
  split; [exact (f_equal snd E)|]. split; [exact T|]. intros q N. apply O; [exact N|]. left. discriminate.
Defined.

Lemma accepted_update_is_validated_witness :
  let m := ConfigManagerSample.m in
  let fs' := (Apply m ConfigManagerSample.ok_env ConfigManagerSample.fs "" "new" false).1 in
  Apply m ConfigManagerSample.ok_env ConfigManagerSample.fs "" "new" false = (fs', Ok ("/etc/a.yaml", true)) ∧
  guards_ok m ConfigManagerSample.ok_env "/etc/a.yaml" "new" ∧
  fs' !! "/etc/a.yaml" = Some (FileNode (MkFile "new" 420)) ∧
  ∃ mode, fs' !! "/etc/a.yaml.bak" = Some (FileNode (MkFile "old" mode)).
Proof.
  intros m fs'.
  assert (Apply m ConfigManagerSample.ok_env ConfigManagerSample.fs "" "new" false
          = (fs', Ok ("/etc/a.yaml", true))) as E by reflexivity.
  destruct (accepted_update_is_validated m ConfigManagerSample.ok_env ConfigManagerSample.fs
    fs' "" "new" "/etc/a.yaml" false true E ConfigManagerSample.fresh) as (_ & _ & G & _ & _ & T & _ & B & _).
  split; [exact E|]. split; [exact G|]. split; [exact T|].
  apply (B (MkFile "old" 420)); [reflexivity..|]. intros mode. discriminate.
Defined.

Lemma snapshot_is_faithful_witness :
  let m := ConfigManagerSample.m in
  Files (Snapshot m ConfigManagerSample.reading ConfigManagerSample.fs).1
  = [MkConfigFile "/etc/a.yaml" "old" true ""; MkConfigFile "env:X" "" false "not a file source; cannot be read or edited"] ∧
  (Snapshot m ConfigManagerSample.reading ConfigManagerSample.fs).2 = ConfigManagerSample.fs.
Proof.
  intros m. split; [vm_compute; reflexivity|].
  assert (fresh_probes ConfigManagerSample.reading) as Fr.
  { intros fs path name. simpl. case_decide; [|done]. by intros [= <-]. }
  exact (proj1 (snapshot_is_faithful m ConfigManagerSample.reading ConfigManagerSample.fs Fr eq_refl)).
Defined.

Lemma complaint_is_reported_witness :
  let m := ConfigManagerSample.m in
  let env := ConfigManagerSample.rejecting " /etc/a.yaml.1.tmp:3: bad " in
  let r := Apply m env ConfigManagerSample.fs "" "new" false in
  r.2 = Err (ErrConfigInvalid "/etc/a.yaml:3: bad") ∧ len "/etc/a.yaml:3: bad" ≤ maxValidatorOutput + 16.
Proof.
  intros m env r.
  assert (r = (r.1, Err (ErrConfigInvalid "/etc/a.yaml:3: bad"))) as E by (vm_compute; reflexivity).
  assert (fresh_tmp env ConfigManagerSample.fs (target m "")) as Fr
    by (split_and!; [reflexivity|discriminate|discriminate]).
  split; [exact (f_equal snd E)|].
  exact (proj1 (complaint_is_reported m env ConfigManagerSample.fs r.1 "" "new" _ false E Fr)).
Defined.
