(* ===== verification/ConfigRace.v ===== *)
(** Configuration updates call by call (components/edgecontroller/config_manager.go
    and the mutex of config_handler.go).

    [ConfigManager.Apply] and [ConfigManager.snapshot_file] run as one step. Here
    an update is split at its system calls: create the temporary file, write it,
    set its mode, close it, run the validator, truncate and write the backup,
    rename, remove what is left. configMu admits one update at a time; a snapshot
    takes no lock and is split at its own calls: stat, read, create the probe,
    remove it. Both interleave with each other and with whatever else changes
    files that are not part of the configuration.

    The theorems, for configurations in which no source is the backup path of
    another: the configuration on disk goes through whole versions only, each
    the result of [Apply] on the one before, so the updates are atomic to whoever
    reads the configuration, at every moment and therefore also after a crash; and
    each entry of a snapshot is what [snapshot_file] says of a version that was on
    disk while the snapshot ran, in the order of the versions. *)

From S2P Require Import Prelude GoText GoStrings ConfigManager.

(** The configuration: what is on disk under the collector's own file sources. *)
Definition config_view (m : configManager) (fs : FS) : FS :=
  filter (λ qn, isKnownPath m qn.1 = true) fs.

(** A request with the answers its system calls will get. *)
Record request := MkRequest {
  rq_env : Env;
  rq_path : string;
  rq_content : string;
  rq_skip : bool;
}.

Notation outcome := (result ApplyError (string * bool)).

(** Where the update that holds configMu is. *)
Inductive update_phase :=
| Unlocked
| Opening (r : request)
| Writing (r : request) (perm : Z)
| Chmodding (r : request) (perm : Z)
| Closing (r : request)
| Validating (r : request)
| BackingUp (r : request)
| BackupOpen (r : request) (current : string) (mode : Z)
| Renaming (r : request)
| Removing (r : request) (e : ApplyError)
| Replying (r : request) (o : outcome).

(** Where the snapshot is: the sources still to do, the source in hand with the
    version of the configuration its content was read at, and the entries made. *)
Inductive snapshot_phase :=
| NotReading
| NextSource (todo : list string)
| Statted (path uri : string) (todo : list string)
| HasContent (path uri content : string) (version : nat) (todo : list string)
| Probing (name path uri content : string) (version : nat) (todo : list string).

(** An entry of a snapshot and the version it belongs to. *)
Record entry := MkEntry { en_uri : string; en_file : ConfigFile; en_version : nat }.

(** [versions] is the history of the configuration, oldest first; [answered] the
    updates that were answered, latest first; [taken] the finished snapshots with
    the version current when they began. *)
Record race := MkRace {
  r_fs : FS;
  updating : update_phase;
  answered : list (request * outcome);
  reading : snapshot_phase;
  since : nat;
  entries : list entry;
  taken : list (nat * list entry);
  versions : list FS;
}.

Definition race_init (m : configManager) (fs : FS) : race :=
  MkRace fs Unlocked [] NotReading 0 [] [] [config_view m fs].

(** The number of the version on disk. *)
Definition current (s : race) : nat := pred (length (versions s)).

Definition set_update (s : race) (fs : FS) (u : update_phase) : race :=
  MkRace fs u (answered s) (reading s) (since s) (entries s) (taken s) (versions s).
Definition set_reading (s : race) (fs : FS) (p : snapshot_phase) : race :=
  MkRace fs (updating s) (answered s) p (since s) (entries s) (taken s) (versions s).
Definition add_entry (s : race) (fs : FS) (todo : list string) (e : entry) : race :=
  MkRace fs (updating s) (answered s) (NextSource todo) (since s) (entries s ++ [e]) (taken s) (versions s).

Definition rq_target (m : configManager) (r : request) : string := target m (rq_path r).
Definition rq_tmp (r : request) : string := tmp_name (rq_env r).

(** The checks of [Apply] before it touches the disk. *)
Definition guard_error (m : configManager) (r : request) : option ApplyError :=
  let path := rq_target m r in
  if negb (writeEnabled m) then Some ErrWriteDisabled
  else if decide (path = "") then Some ErrNoTarget
  else if negb (isKnownPath m path) then Some (ErrUnknownPath path)
  else if decide (len (rq_content r) = 0) then Some ErrEmptyConfig
  else if decide (maxConfigFileBytes < Z.of_nat (len (rq_content r)))%Z then Some (ErrConfigTooLarge (len (rq_content r)))
  else ErrInvalidYAML <$> yaml_error (rq_env r) (rq_content r).

(** [os.CreateTemp] names a file that does not exist, and not one the command line
    names. Its patterns keep staged files and probes apart: the name of a staged
    file ends in .tmp, that of a probe in digits. *)
Definition fresh_name (m : configManager) (fs : FS) (name : string) : Prop :=
  fs !! name = None ∧ isKnownPath m name = false.

Definition staged_name (name : string) : bool := HasSuffix name ".tmp".

(** The temporary name an update has in use. *)
Definition in_use (u : update_phase) : option string :=
  match u with
  | Writing r _ | Chmodding r _ | Closing r | Validating r | BackingUp r | BackupOpen r _ _ | Renaming r
  | Removing r _ => Some (rq_tmp r)
  | Unlocked | Opening _ | Replying _ _ => None
  end.

Definition set_file (fs : FS) (p : string) (f : file) : FS := <[p := FileNode f]> fs.

Section Race.
Context (m : configManager).

Inductive update_step : race → race → Prop :=
| update_lock s r :
    (** configMu.Lock(), and the checks. *)
    updating s = Unlocked →
    update_step s (set_update s (r_fs s)
      match guard_error m r with Some e => Replying r (Err e) | None => Opening r end)
| update_create s r :
    updating s = Opening r →
    fresh_name m (r_fs s) (rq_tmp r) → staged_name (rq_tmp r) = true →
    update_step s
      match create_error (rq_env r) with
      | Some e => set_update s (r_fs s)
          (Replying r (Err (ErrStage ("cannot stage the new config next to " +:+ rq_target m r +:+ ": " +:+ e))))
      | None => set_update s (set_file (r_fs s) (rq_tmp r) (MkFile "" perm_0600))
          (Writing r (stage_perm (rq_env r) (r_fs s) (rq_target m r)))
      end
| update_write s r perm part :
    (** A write that fails may have written a part. *)
    updating s = Writing r perm →
    update_step s
      match write_error (rq_env r) with
      | Some e => set_update s (set_file (r_fs s) (rq_tmp r) (MkFile part perm_0600))
          (Removing r (ErrStage ("cannot write the staged config: " +:+ e)))
      | None => set_update s (set_file (r_fs s) (rq_tmp r) (MkFile (rq_content r) perm_0600)) (Chmodding r perm)
      end
| update_chmod s r perm :
    updating s = Chmodding r perm →
    update_step s
      match sync_error (rq_env r), chmod_error (rq_env r) with
      | Some e, _ => set_update s (r_fs s) (Removing r (ErrStage ("cannot flush the staged config: " +:+ e)))
      | None, Some e =>
          set_update s (r_fs s) (Removing r (ErrStage ("cannot set permissions on the staged config: " +:+ e)))
      | None, None => set_update s (set_file (r_fs s) (rq_tmp r) (MkFile (rq_content r) perm)) (Closing r)
      end
| update_close s r :
    updating s = Closing r →
    update_step s (set_update s (r_fs s)
      match close_error (rq_env r) with
      | Some e => Removing r (ErrStage ("cannot close the staged config: " +:+ e))
      | None => Validating r
      end)
| update_validate s r :
    updating s = Validating r →
    update_step s (set_update s (r_fs s)
      match validate m (rq_env r) (r_fs s) (rq_target m r) (rq_tmp r) with
      | Err e => Removing r e
      | Ok _ => BackingUp r
      end)
| update_backup s r :
    (** os.ReadFile(path), and the O_TRUNC of os.WriteFile. *)
    updating s = BackingUp r →
    update_step s
      match r_fs s !! rq_target m r with
      | Some (FileNode f) =>
          if read_fails (rq_env r) then set_update s (r_fs s) (Renaming r)
          else match backup_error (rq_env r) with
               | Some None => set_update s (r_fs s) (Renaming r)
               | Some (Some leftover) =>
                   set_update s (set_file (r_fs s) (rq_target m r +:+ backupSuffix) leftover) (Renaming r)
               | None =>
                   match backup_mode (r_fs s) (rq_target m r) with
                   | Some mode =>
                       set_update s (set_file (r_fs s) (rq_target m r +:+ backupSuffix) (MkFile "" mode))
                         (BackupOpen r (f_contents f) mode)
                   | None => set_update s (r_fs s) (Renaming r)
                   end
               end
      | _ => set_update s (r_fs s) (Renaming r)
      end
| update_backup_write s r content mode :
    updating s = BackupOpen r content mode →
    update_step s (set_update s (set_file (r_fs s) (rq_target m r +:+ backupSuffix) (MkFile content mode)) (Renaming r))
| update_rename s r :
    updating s = Renaming r →
    update_step s
      match rename_error (rq_env r), r_fs s !! rq_tmp r, r_fs s !! rq_target m r with
      | Some e, _, _ => set_update s (r_fs s) (Removing r (ErrReplace ("cannot replace " +:+ rq_target m r +:+ ": " +:+ e)))
      | None, None, _ =>
          set_update s (r_fs s) (Removing r (ErrReplace ("cannot replace " +:+ rq_target m r +:+ ": no such file")))
      | None, Some _, Some (DirNode _) =>
          set_update s (r_fs s) (Removing r (ErrReplace ("cannot replace " +:+ rq_target m r +:+ ": is a directory")))
      | None, Some n, _ =>
          let fs := <[rq_target m r := n]> (delete (rq_tmp r) (r_fs s)) in
          MkRace fs (Replying r (Ok (rq_target m r, negb (rq_skip r)))) (answered s) (reading s) (since s) (entries s)
            (taken s) (versions s ++ [config_view m fs])
      end
| update_remove s r e :
    updating s = Removing r e →
    update_step s (set_update s (remove_tmp (rq_env r) (r_fs s)) (Replying r (Err e)))
| update_reply s r o :
    (** The reply, and configMu.Unlock(). *)
    updating s = Replying r o →
    update_step s (MkRace (r_fs s) Unlocked ((r, o) :: answered s) (reading s) (since s) (entries s) (taken s) (versions s)).

Definition error_entry (uri path e : string) (version : nat) : entry :=
  MkEntry uri (MkConfigFile path "" false e) version.

Inductive snapshot_step : race → race → Prop :=
| snapshot_begin s :
    reading s = NotReading →
    snapshot_step s (MkRace (r_fs s) (updating s) (answered s) (NextSource (uris m)) (current s) [] (taken s) (versions s))
| snapshot_other s uri todo :
    reading s = NextSource (uri :: todo) → uriPath uri = None →
    snapshot_step s (add_entry s (r_fs s) todo
      (error_entry uri uri "not a file source; cannot be read or edited" (current s)))
| snapshot_stat_fails s uri todo path e :
    (** Any error of [os.Stat], that the file does not exist among them. *)
    reading s = NextSource (uri :: todo) → uriPath uri = Some path →
    snapshot_step s (add_entry s (r_fs s) todo (error_entry uri path e (current s)))
| snapshot_stat s uri todo path n :
    reading s = NextSource (uri :: todo) → uriPath uri = Some path → r_fs s !! path = Some n →
    snapshot_step s
      match n with
      | DirNode _ => add_entry s (r_fs s) todo (error_entry uri path (path +:+ " is a directory") (current s))
      | FileNode f =>
          if decide (maxConfigFileBytes < Z.of_nat (len (f_contents f)))%Z
          then add_entry s (r_fs s) todo (error_entry uri path
                 ("config file is " +:+ Itoa (Z.of_nat (len (f_contents f))) +:+ " bytes, over the "
                  +:+ Itoa maxConfigFileBytes +:+ " byte limit") (current s))
          else set_reading s (r_fs s) (Statted path uri todo)
      end
| snapshot_read_fails s path uri todo e :
    reading s = Statted path uri todo →
    snapshot_step s (add_entry s (r_fs s) todo (error_entry uri path e (current s)))
| snapshot_read s path uri todo f :
    reading s = Statted path uri todo → r_fs s !! path = Some (FileNode f) →
    snapshot_step s
      (if writeEnabled m then set_reading s (r_fs s) (HasContent path uri (f_contents f) (current s) todo)
       else add_entry s (r_fs s) todo (MkEntry uri (MkConfigFile path (f_contents f) false "") (current s)))
| snapshot_probe_fails s path uri content version todo :
    reading s = HasContent path uri content version todo →
    snapshot_step s (add_entry s (r_fs s) todo (MkEntry uri (MkConfigFile path content false "") version))
| snapshot_probe s name path uri content version todo :
    reading s = HasContent path uri content version todo → fresh_name m (r_fs s) name → staged_name name = false →
    snapshot_step s (set_reading s (set_file (r_fs s) name (MkFile "" perm_0600)) (Probing name path uri content version todo))
| snapshot_probed s name path uri content version todo (removed : bool) :
    reading s = Probing name path uri content version todo →
    snapshot_step s (add_entry s (if removed then delete name (r_fs s) else r_fs s) todo
      (MkEntry uri (MkConfigFile path content true "") version))
| snapshot_end s :
    reading s = NextSource [] →
    snapshot_step s (MkRace (r_fs s) (updating s) (answered s) NotReading 0 [] ((since s, entries s) :: taken s) (versions s)).

(** Anything else that creates, changes or removes a file which is not part of the
    configuration and not the one an update has staged. *)
Inductive other_step : race → race → Prop :=
| other_writes s q n :
    isKnownPath m q = false → in_use (updating s) ≠ Some q →
    other_step s (set_update s (partial_alter (λ _, n) q (r_fs s)) (updating s)).

Definition race_step (s s' : race) : Prop := update_step s s' ∨ snapshot_step s s' ∨ other_step s s'.

(** ** The specification: updates that are one step *)

(** The configuration and the answers given. An update is [Apply] on some file
    system that holds the configuration and, when it gets as far as staging a file,
    has its temporary name free. *)
Inductive spec_step : FS * list (request * outcome) → FS * list (request * outcome) → Prop :=
| spec_update v l r fs fs' o :
    config_view m fs = v → (guard_error m r = None → fresh_tmp (rq_env r) fs (rq_target m r)) →
    Apply m (rq_env r) fs (rq_path r) (rq_content r) (rq_skip r) = (fs', o) →
    spec_step (v, l) (config_view m fs', (r, o) :: l).

(** The answers that are decided, given or not. *)
Definition settled (s : race) : list (request * outcome) :=
  match updating s with Replying r o => (r, o) :: answered s | _ => answered s end.

End Race.

(** ** The configuration *)

Lemma view_lookup m fs q : config_view m fs !! q = if isKnownPath m q then fs !! q else None.
Proof.
  unfold config_view. rewrite map_lookup_filter. destruct (fs !! q) as [n|]; simpl; [|by destruct (isKnownPath m q)].
  destruct (isKnownPath m q) eqn:E; [by rewrite option_guard_True|by rewrite option_guard_False by congruence].
Qed.

Lemma view_eq m fs fs' :
  config_view m fs = config_view m fs' ↔ ∀ q, isKnownPath m q = true → fs !! q = fs' !! q.
Proof.
  split.
  - intros E q K. apply (f_equal (.!! q)) in E. by rewrite !view_lookup, K in E.
  - intros HE. apply map_eq. intros q. rewrite !view_lookup. destruct (isKnownPath m q) eqn:K; [by apply HE|done].
Qed.

(** A file that is not part of the configuration. *)
Lemma view_insert m fs q n : isKnownPath m q = false → config_view m (<[q := n]> fs) = config_view m fs.
Proof. intros K. apply view_eq. intros q' K'. apply lookup_insert_ne. congruence. Qed.
Lemma view_delete m fs q : isKnownPath m q = false → config_view m (delete q fs) = config_view m fs.
Proof. intros K. apply view_eq. intros q' K'. apply lookup_delete_ne. congruence. Qed.
Lemma view_alter m fs q f : isKnownPath m q = false → config_view m (partial_alter f q fs) = config_view m fs.
Proof. intros K. apply view_eq. intros q' K'. apply lookup_partial_alter_ne. congruence. Qed.
Lemma view_remove m env fs : isKnownPath m (tmp_name env) = false → config_view m (remove_tmp env fs) = config_view m fs.
Proof. intros K. unfold remove_tmp. destruct (remove_fails env); [done|by apply view_delete]. Qed.

Lemma staged_not_backup name p : staged_name name = true → name ≠ p +:+ backupSuffix.
Proof.
  intros S ->. apply HasSuffix_iff in S as [b E]. symmetry in E.
  by apply app_common_suffix in E; [|done].
Qed.

(** ** What an update has established *)

Section Update.
Context (m : configManager).

(** The update can be answered by [o], leaving the configuration [v']. *)
Definition decides (v : FS) (r : request) (o : outcome) (v' : FS) : Prop :=
  ∃ fs fs', config_view m fs = v ∧ (guard_error m r = None → fresh_tmp (rq_env r) fs (rq_target m r)) ∧
    Apply m (rq_env r) fs (rq_path r) (rq_content r) (rq_skip r) = (fs', o) ∧ config_view m fs' = v'.

Lemma decides_spec v r o v' l : decides v r o v' → spec_step m (v, l) (v', (r, o) :: l).
Proof. intros (fs & fs' & Ev & Fr & E & <-). by eapply spec_update. Qed.

(** The checks are done and the temporary name is taken. *)
Definition named (r : request) : Prop :=
  guard_error m r = None ∧ isKnownPath m (rq_tmp r) = false ∧ staged_name (rq_tmp r) = true ∧ create_error (rq_env r) = None.
Definition written (r : request) : Prop := named r ∧ write_error (rq_env r) = None.
Definition flushed (r : request) : Prop := written r ∧ sync_error (rq_env r) = None ∧ chmod_error (rq_env r) = None.
Definition complete (r : request) (fs : FS) : Prop :=
  fs !! rq_tmp r = Some (FileNode (MkFile (rq_content r) (stage_perm (rq_env r) fs (rq_target m r)))).
(** The file is on disk and the validator has accepted it. What the validator saw
    is a file system with this configuration and this file; it may have read other
    files, which may have changed since. *)
Definition checked (r : request) (fs : FS) : Prop :=
  flushed r ∧ close_error (rq_env r) = None ∧ complete r fs ∧
  ∃ seen, config_view m seen = config_view m fs ∧ complete r seen ∧
          validate m (rq_env r) seen (rq_target m r) (rq_tmp r) = Ok ().

Definition update_ok (u : update_phase) (fs : FS) : Prop :=
  match u with
  | Unlocked => True
  | Opening r => guard_error m r = None
  | Writing r perm => named r ∧ perm = stage_perm (rq_env r) fs (rq_target m r)
  | Chmodding r perm => written r ∧ perm = stage_perm (rq_env r) fs (rq_target m r)
  | Closing r => flushed r ∧ complete r fs
  | Validating r => flushed r ∧ close_error (rq_env r) = None ∧ complete r fs
  | BackingUp r | BackupOpen r _ _ | Renaming r => checked r fs
  | Removing r e => named r ∧ decides (config_view m fs) r (Err e) (config_view m fs)
  | Replying r o => True
  end.

Lemma guard_known r : guard_error m r = None → isKnownPath m (rq_target m r) = true ∧
  (Z.of_nat (len (rq_content r)) ≤ maxConfigFileBytes)%Z.
Proof.
  unfold guard_error. destruct (writeEnabled m); simpl; [|done]. case_decide; [done|].
  destruct (isKnownPath m (rq_target m r)); simpl; [|done]. case_decide; [done|]. case_decide; [done|]. intros _. split; [done|lia].
Qed.

Lemma Apply_guard r fs e :
  guard_error m r = Some e → Apply m (rq_env r) fs (rq_path r) (rq_content r) (rq_skip r) = (fs, Err e).
Proof.
  unfold Apply, guard_error. fold (target m (rq_path r)). fold (rq_target m r).
  destruct (writeEnabled m); simpl; [|by intros [= ->]]. case_decide; [by intros [= ->]|].
  destruct (isKnownPath m (rq_target m r)); simpl; [|by intros [= ->]]. case_decide; [by intros [= ->]|].
  case_decide; [by intros [= ->]|]. destruct (yaml_error _ _); [|done]. by intros [= ->].
Qed.

(** What is left of [Apply] once the checks have passed. *)
Lemma Apply_admitted r fs :
  guard_error m r = None →
  Apply m (rq_env r) fs (rq_path r) (rq_content r) (rq_skip r) =
  let p := rq_target m r in
  let '(fs, staged) := stage (rq_env r) fs p (rq_content r) in
  match staged with
  | Err e => (fs, Err e)
  | Ok tmpPath =>
      match validate m (rq_env r) fs p tmpPath with
      | Err e => (remove_tmp (rq_env r) fs, Err e)
      | Ok _ =>
          let '(fs, committed) := commit (rq_env r) fs p tmpPath in
          match committed with
          | Err e => (remove_tmp (rq_env r) fs, Err e)
          | Ok _ => (fs, Ok (p, negb (rq_skip r)))
          end
      end
  end.
Proof.
  unfold Apply, guard_error. fold (target m (rq_path r)). fold (rq_target m r).
  destruct (writeEnabled m); simpl; [|done]. case_decide; [done|].
  destruct (isKnownPath m (rq_target m r)); simpl; [|done]. case_decide; [done|]. case_decide; [done|].
  by destruct (yaml_error _ _).
Qed.

Lemma decides_guard r e fs : guard_error m r = Some e → decides (config_view m fs) r (Err e) (config_view m fs).
Proof. intros G. exists fs, fs. split_and!; [done|by rewrite G|by apply Apply_guard|done]. Qed.

(** Without the staged file the file system is one an update can start from. *)
Lemma unstaged_fresh r fs : named r → fresh_tmp (rq_env r) (delete (rq_tmp r) fs) (rq_target m r).
Proof.
  intros (G & K & S & _). apply guard_known in G as [KT _]. split_and!.
  - apply lookup_delete_eq.
  - unfold rq_tmp in *. congruence.
  - by apply staged_not_backup.
Qed.

Lemma stage_perm_view env fs fs' p :
  isKnownPath m p = true → config_view m fs = config_view m fs' → stage_perm env fs p = stage_perm env fs' p.
Proof. intros K E. unfold stage_perm. by rewrite (proj1 (view_eq m fs fs') E p K). Qed.

(** A file that could not be staged. *)
Lemma decides_stage r e fs :
  named r →
  (stage (rq_env r) (delete (rq_tmp r) fs) (rq_target m r) (rq_content r)).2 = Err e →
  decides (config_view m fs) r (Err e) (config_view m fs).
Proof.
  intros Nr E. pose proof Nr as (G & K & _). pose proof (unstaged_fresh r fs Nr) as Fr.
  destruct (stage _ _ _ _) as [fs' o] eqn:ES. simpl in E. subst o.
  assert (config_view m fs' = config_view m fs) as Ev.
  { destruct (stage_cases (rq_env r) (delete (rq_tmp r) fs) (rq_target m r) (rq_content r))
      as [(fs2 & e2 & ES2 & HL)|ES2]; rewrite ES2 in ES; [|done].
    injection ES as <- _. apply view_eq. intros q Kq.
    assert (q ≠ tmp_name (rq_env r)) as Nq by (unfold rq_tmp in K; congruence).
    rewrite HL by done. by apply lookup_delete_ne. }
  exists (delete (rq_tmp r) fs), fs'. split_and!; [by apply view_delete|done| |done].
  rewrite Apply_admitted by done. cbv zeta. by rewrite ES.
Qed.

(** A complete file is what [stage] leaves. *)
Lemma stage_complete r fs :
  flushed r → close_error (rq_env r) = None → complete r fs →
  stage (rq_env r) (delete (rq_tmp r) fs) (rq_target m r) (rq_content r) = (fs, Ok (rq_tmp r)).
Proof.
  intros (((G & K & S & Ec) & Ew) & Es & Eh) El C. unfold stage. rewrite Ec, Ew, Es, Eh, El. f_equal.
  apply guard_known in G as [KT _].
  rewrite (stage_perm_view _ (delete (rq_tmp r) fs) fs) by (done || by apply view_delete).
  fold (rq_tmp r). by rewrite insert_delete_eq, insert_id.
Qed.

Lemma decides_complete r fs fs' o :
  flushed r → close_error (rq_env r) = None → complete r fs →
  match validate m (rq_env r) fs (rq_target m r) (rq_tmp r) with
  | Err e => (remove_tmp (rq_env r) fs, Err e)
  | Ok _ =>
      let '(fs, committed) := commit (rq_env r) fs (rq_target m r) (rq_tmp r) in
      match committed with
      | Err e => (remove_tmp (rq_env r) fs, Err e)
      | Ok _ => (fs, Ok (rq_target m r, negb (rq_skip r)))
      end
  end = (fs', o) →
  decides (config_view m fs) r o (config_view m fs').
Proof.
  intros F El C E. pose proof F as (((G & K & _) & _) & _). pose proof (unstaged_fresh r fs (proj1 (proj1 F))) as Fr.
  exists (delete (rq_tmp r) fs), fs'. split_and!; [by apply view_delete|done| |done].
  rewrite Apply_admitted by done. cbv zeta. by rewrite stage_complete.
Qed.

(** The update in hand is not affected by changes elsewhere. *)
Lemma complete_frame r fs fs' :
  named r → config_view m fs' = config_view m fs → fs' !! rq_tmp r = fs !! rq_tmp r → complete r fs → complete r fs'.
Proof.
  intros (G & _) Ev Et C. apply guard_known in G as [KT _]. unfold complete.
  by rewrite Et, C, (stage_perm_view _ fs' fs).
Qed.

Lemma checked_frame r fs fs' :
  config_view m fs' = config_view m fs → fs' !! rq_tmp r = fs !! rq_tmp r → checked r fs → checked r fs'.
Proof.
  intros Ev Et (F & El & C & seen & Es & V). split_and!; [done..|by eapply complete_frame; [apply F|..]|].
  exists seen. by rewrite Es, Ev.
Qed.

Lemma update_ok_frame u fs fs' :
  config_view m fs' = config_view m fs → (∀ t, in_use u = Some t → fs' !! t = fs !! t) →
  update_ok u fs → update_ok u fs'.
Proof.
  intros Ev Et.
  assert (∀ r, named r → stage_perm (rq_env r) fs' (rq_target m r) = stage_perm (rq_env r) fs (rq_target m r)) as SP.
  { intros r (G & _). apply stage_perm_view; [by apply guard_known in G as [? _]|done]. }
  destruct u as [|r|r perm|r perm|r|r|r|r c mode|r|r e|r o]; simpl in *; try done;
    try (apply checked_frame; [done|by apply Et]).
  - intros [N ->]. by rewrite SP.
  - intros [W ->]. split; [done|]. by rewrite SP by apply W.
  - intros [F C]. split; [done|]. eapply complete_frame; [apply F|done|by apply Et|done].
  - intros (F & El & C). split_and!; [done..|]. eapply complete_frame; [apply F|done|by apply Et|done].
  - by rewrite Ev.
Qed.

Lemma settled_idle s fs u :
  (∀ r o, updating s ≠ Replying r o) → (∀ r o, u ≠ Replying r o) → settled (set_update s fs u) = settled s.
Proof. unfold settled. simpl. destruct (updating s), u; naive_solver. Qed.

(** The view of a step that decides nothing, and of one that does. *)
Definition abs (s : race) : FS * list (request * outcome) := (config_view m (r_fs s), settled s).

Definition kept (s s' : race) : Prop := versions s' = versions s ∧ config_view m (r_fs s') = config_view m (r_fs s).
Definition replaced (s s' : race) : Prop :=
  ∃ p f, versions s' = versions s ++ [config_view m (r_fs s')] ∧
    config_view m (r_fs s') = <[p := FileNode f]> (config_view m (r_fs s)) ∧
    (Z.of_nat (len (f_contents f)) ≤ maxConfigFileBytes)%Z.

Definition update_effect (s s' : race) : Prop :=
  update_ok (updating s') (r_fs s') ∧ rtc (spec_step m) (abs s) (abs s') ∧ (kept s s' ∨ replaced s s').

(** A call of an update that is still undecided. *)
Lemma undecided_step s fs u :
  (∀ r o, updating s ≠ Replying r o) → (∀ r o, u ≠ Replying r o) →
  config_view m fs = config_view m (r_fs s) → update_ok u fs → update_effect s (set_update s fs u).
Proof.
  intros N N' Ev O. split; [done|]. split; [|left; by split].
  unfold abs. rewrite settled_idle by done. simpl. rewrite Ev. apply rtc_refl.
Qed.

(** A call that decides against the update. *)
Lemma refused_step s fs r e :
  (∀ r o, updating s ≠ Replying r o) → config_view m fs = config_view m (r_fs s) →
  decides (config_view m (r_fs s)) r (Err e) (config_view m (r_fs s)) →
  update_effect s (set_update s fs (Replying r (Err e))).
Proof.
  intros N Ev D. split; [done|]. split; [|left; by split].
  apply rtc_once. unfold abs. simpl. rewrite Ev.
  replace (settled s) with (answered s) by (unfold settled; destruct (updating s); naive_solver).
  by apply decides_spec.
Qed.

Hypothesis no_clash : ∀ p, isKnownPath m p = true → isKnownPath m (p +:+ backupSuffix) = false.

(** The backup is not part of the configuration, nor the staged file. *)
Lemma backup_change r fs f :
  checked r fs → config_view m (set_file fs (rq_target m r +:+ backupSuffix) f) = config_view m fs ∧
                 checked r (set_file fs (rq_target m r +:+ backupSuffix) f).
Proof.
  intros C. pose proof C as ((((G & K & S & _) & _) & _) & _). apply guard_known in G as [KT _].
  assert (config_view m (set_file fs (rq_target m r +:+ backupSuffix) f) = config_view m fs) as Ev
    by (apply view_insert; by apply no_clash).
  split; [done|]. apply (checked_frame r fs); [done| |done].
  apply lookup_insert_ne. intros E. symmetry in E. by apply staged_not_backup in E.
Qed.

Lemma view_backup r fs : guard_error m r = None → config_view m (backup (rq_env r) fs (rq_target m r)) = config_view m fs.
Proof.
  intros [KT _]%guard_known. apply view_eq. intros q Kq. apply backup_lookup. intros ->.
  by rewrite (no_clash _ KT) in Kq.
Qed.

(** What the rename will do is what [commit] does. *)
Lemma commit_eq r fs :
  flushed r → complete r fs →
  commit (rq_env r) fs (rq_target m r) (rq_tmp r) =
  let bfs := backup (rq_env r) fs (rq_target m r) in
  match rename_error (rq_env r), fs !! rq_target m r with
  | Some e, _ => (bfs, Err (ErrReplace ("cannot replace " +:+ rq_target m r +:+ ": " +:+ e)))
  | None, Some (DirNode _) => (bfs, Err (ErrReplace ("cannot replace " +:+ rq_target m r +:+ ": is a directory")))
  | None, _ => (<[rq_target m r := FileNode (MkFile (rq_content r) (stage_perm (rq_env r) fs (rq_target m r)))]>
                  (delete (rq_tmp r) bfs), Ok ())
  end.
Proof.
  intros (((G & K & S & _) & _) & _) Co. unfold commit.
  rewrite (backup_lookup _ _ _ (rq_tmp r)) by by apply staged_not_backup.
  rewrite (backup_lookup _ _ _ (rq_target m r)) by (intros E; symmetry in E; by apply suffix_ne in E).
  rewrite Co. by destruct (rename_error _), (fs !! rq_target m r) as [[]|].
Qed.

(** The target, as part of the configuration, is what the validator saw. *)
Lemma same_target r fs fs' :
  guard_error m r = None → config_view m fs = config_view m fs' → fs !! rq_target m r = fs' !! rq_target m r.
Proof. intros [KT _]%guard_known E. by apply (view_eq m fs fs'). Qed.

Lemma rename_fails_ok s r e :
  updating s = Renaming r → checked r (r_fs s) →
  (∀ fs, complete r fs → fs !! rq_target m r = r_fs s !! rq_target m r →
     commit (rq_env r) fs (rq_target m r) (rq_tmp r) = (backup (rq_env r) fs (rq_target m r), Err e)) →
  update_effect s (set_update s (r_fs s) (Removing r e)).
Proof.
  intros U (F & El & _ & seen & Es & Cs & V) EC. pose proof F as (((G & K & _) & _) & _).
  apply undecided_step; [by rewrite U|done..|]. split; [apply F|].
  specialize (EC seen Cs (same_target r _ _ G Es)).
  pose proof (decides_complete r seen _ _ F El Cs ltac:(rewrite V, EC; reflexivity)) as D.
  by rewrite view_remove, view_backup, Es in D.
Qed.

Lemma rename_ok s r n :
  updating s = Renaming r → checked r (r_fs s) → r_fs s !! rq_tmp r = Some n → rename_error (rq_env r) = None →
  (∀ mode, r_fs s !! rq_target m r ≠ Some (DirNode mode)) →
  let fs := <[rq_target m r := n]> (delete (rq_tmp r) (r_fs s)) in
  update_effect s (MkRace fs (Replying r (Ok (rq_target m r, negb (rq_skip r)))) (answered s) (reading s) (since s)
                     (entries s) (taken s) (versions s ++ [config_view m fs])).
Proof.
  intros U (F & El & Co & seen & Es & Cs & V) En ER ND fs. pose proof F as (((G & K & _) & _) & _).
  pose proof (guard_known _ G) as [KT HL]. rewrite Co in En. injection En as <-.
  set (f := MkFile (rq_content r) (stage_perm (rq_env r) (r_fs s) (rq_target m r))) in *.
  assert (config_view m fs = <[rq_target m r := FileNode f]> (config_view m (r_fs s))) as Ev.
  { unfold fs, config_view. rewrite map_filter_insert_True by done. f_equal. by apply view_delete. }
  split; [done|]. split; [|right; by eexists _, _].
  apply rtc_once. unfold abs. simpl. replace (settled s) with (answered s) by (unfold settled; by rewrite U).
  apply decides_spec.
  pose proof (commit_eq r seen F Cs) as EC. cbv zeta in EC. rewrite ER, (same_target r _ _ G Es) in EC.
  rewrite (stage_perm_view _ seen (r_fs s)) in EC by done. fold f in EC.
  set (fs' := <[rq_target m r := FileNode f]> (delete (rq_tmp r) (backup (rq_env r) seen (rq_target m r)))) in *.
  assert (commit (rq_env r) seen (rq_target m r) (rq_tmp r) = (fs', Ok ())) as EC'.
  { rewrite EC. destruct (r_fs s !! rq_target m r) as [[|mode]|] eqn:ET; [done|by destruct (ND mode)|done]. }
  pose proof (decides_complete r seen _ _ F El Cs ltac:(rewrite V, EC'; reflexivity)) as D.
  replace (config_view m fs') with (config_view m fs) in D; [by rewrite <- Es|].
  rewrite Ev. unfold fs', config_view. rewrite map_filter_insert_True by done. f_equal.
  symmetry. fold (config_view m (delete (rq_tmp r) (backup (rq_env r) seen (rq_target m r)))).
  by rewrite view_delete, view_backup.
Qed.

(** The staged file is not part of the configuration. *)
Lemma tmp_change r fs f : named r → config_view m (set_file fs (rq_tmp r) f) = config_view m fs.
Proof. intros (_ & K & _). by apply view_insert. Qed.

Lemma tmp_change_perm r fs f :
  named r → stage_perm (rq_env r) (set_file fs (rq_tmp r) f) (rq_target m r) = stage_perm (rq_env r) fs (rq_target m r).
Proof. intros Nr. pose proof Nr as (G & _). apply stage_perm_view; [by apply guard_known in G as [? _]|by apply tmp_change]. Qed.

(** A call that leads to removing the staged file. *)
Lemma giving_up s r fs e :
  (∀ r o, updating s ≠ Replying r o) → named r → config_view m fs = config_view m (r_fs s) →
  decides (config_view m (r_fs s)) r (Err e) (config_view m (r_fs s)) →
  update_effect s (set_update s fs (Removing r e)).
Proof. intros N Nr Ev D. apply undecided_step; [done..|]. split; [done|]. by rewrite Ev. Qed.

Definition staging (u : update_phase) : bool :=
  match u with Opening _ | Writing _ _ | Chmodding _ _ | Closing _ => true | _ => false end.

Lemma stage_step_ok s s' :
  update_step m s s' → update_ok (updating s) (r_fs s) → staging (updating s) = true → update_effect s s'.
Proof.
  intros S I P.
  destruct S as [s r' U|s r' U [F K] St|s r' perm part U|s r' perm U|s r' U|s r' U|s r' U|s r' c mode U|s r' U|s r' e U|s r' o U];
    rewrite U in I, P; simpl in I; try done; clear P;
    assert (∀ r o, updating s ≠ Replying r o) as N by by rewrite U.
  - destruct (create_error (rq_env r')) as [e|] eqn:Ec.
    + apply refused_step; [done..|]. exists (r_fs s), (r_fs s). split_and!; [done| | |done].
      * intros _. split_and!; [done| |by apply staged_not_backup].
        apply guard_known in I as [KT _]. unfold rq_tmp in K. congruence.
      * rewrite Apply_admitted by done. unfold stage. by rewrite Ec.
    + assert (named r') as Nr by done. apply undecided_step; [done..|by apply tmp_change|].
      split; [done|]. by rewrite tmp_change_perm.
  - destruct I as [Nr ->]. destruct (write_error (rq_env r')) as [e|] eqn:Ew.
    + apply giving_up; [done|done|by apply tmp_change|]. apply decides_stage; [done|].
      unfold stage. pose proof Nr as (_ & _ & _ & ->). by rewrite Ew.
    + apply undecided_step; [done..|by apply tmp_change|]. split; [done|]. by rewrite tmp_change_perm.
  - destruct I as [[Nr Ew] ->].
    destruct (sync_error (rq_env r')) as [e|] eqn:Es; [|destruct (chmod_error (rq_env r')) as [e|] eqn:Eh].
    1-2: apply giving_up; [done..|]; apply decides_stage; [done|];
      unfold stage; pose proof Nr as (_ & _ & _ & ->); rewrite Ew, Es; by rewrite ?Eh.
    apply undecided_step; [done..|by apply tmp_change|]. split; [done|].
    unfold complete. rewrite tmp_change_perm by done. apply lookup_insert_eq.
  - destruct I as [F C]. destruct (close_error (rq_env r')) as [e|] eqn:El; [|by apply undecided_step].
    pose proof F as [[Nr Ew] [Es Eh]]. apply giving_up; [done..|]. apply decides_stage; [done|].
    unfold stage. pose proof Nr as (_ & _ & _ & ->). by rewrite Ew, Es, Eh, El.
Qed.

Lemma update_step_ok s s' : update_step m s s' → update_ok (updating s) (r_fs s) → update_effect s s'.
Proof.
  intros S I. pose proof S as S0.
  destruct S as [s r U|s r U F St|s r perm part U|s r perm U|s r U|s r U|s r U|s r c mode U|s r U|s r e U|s r o U];
    try (eapply stage_step_ok; [exact S0|exact I|by rewrite U]); clear S0;
    rewrite U in I; simpl in I.
  - destruct (guard_error m r) as [e|] eqn:G; [|by apply undecided_step; [rewrite U|..]].
    apply refused_step; [by rewrite U|done|by apply decides_guard].
  - destruct I as (F & El & C). destruct (validate _ _ _ _ _) as [[]|e] eqn:V.
    + apply undecided_step; [by rewrite U|done..|]. split_and!; [done..|]. by exists (r_fs s).
    + apply giving_up; [by rewrite U|apply F|done|].
      pose proof (decides_complete r (r_fs s) _ _ F El C ltac:(rewrite V; reflexivity)) as D.
      pose proof F as (((_ & K & _) & _) & _). by rewrite view_remove in D.
  - assert (update_effect s (set_update s (r_fs s) (Renaming r))) as Skip by by apply undecided_step; [rewrite U|..].
    destruct (r_fs s !! rq_target m r) as [[f|]|]; try done.
    destruct (read_fails _); [done|]. destruct (backup_error _) as [[f'|]|]; [|done|destruct (backup_mode _ _); [|done]];
      (apply undecided_step; [by rewrite U|done|by apply backup_change|by apply backup_change]).
  - apply undecided_step; [by rewrite U|done|by apply backup_change|by apply backup_change].
  - pose proof I as (F & _ & Co & _).
    assert (∀ fs, complete r fs → _) as EC by (intros fs C; exact (commit_eq r fs F C)). cbv zeta in EC.
    destruct (rename_error _) as [e|] eqn:ER; [apply rename_fails_ok; [done..|]; intros fs C _; by rewrite EC|].
    rewrite Co. destruct (r_fs s !! rq_target m r) as [[f|mode]|] eqn:ET.
    2: apply rename_fails_ok; [done..|]; intros fs C E; rewrite EC by done; by rewrite E, ET.
    all: apply rename_ok; [done..|by rewrite ET].
  - destruct I as [(_ & K & _) D]. apply refused_step; [by rewrite U|by apply view_remove|done].
  - split; [done|]. split; [|left; by split].
    unfold abs, settled. simpl. rewrite U. apply rtc_refl.
Qed.

End Update.

(** ** What a snapshot has established *)

Section Reading.
Context (m : configManager).

(** An entry is what [snapshot_file] says of the version it belongs to. *)
Definition entry_of (vs : list FS) (e : entry) : Prop :=
  ∃ v env, vs !! en_version e = Some v ∧ (snapshot_file m env v (en_uri e)).1 = en_file e.

Definition entries_ok (vs : list FS) (begun : nat) (es : list entry) : Prop :=
  Forall (λ e, begun ≤ en_version e ∧ entry_of vs e) es ∧ StronglySorted le (en_version <$> es).

Definition small (f : file) : Prop := (Z.of_nat (len (f_contents f)) ≤ maxConfigFileBytes)%Z.

Definition content_at (vs : list FS) (version : nat) (path content : string) : Prop :=
  ∃ v mode, vs !! version = Some v ∧ v !! path = Some (FileNode (MkFile content mode)) ∧ small (MkFile content mode).

(** The source in hand. *)
Definition in_hand (s : race) (path uri : string) (todo : list string) : Prop :=
  uriPath uri = Some path ∧ (en_uri <$> entries s) ++ uri :: todo = uris m.

Definition has_read (s : race) (path uri content : string) (version : nat) (todo : list string) : Prop :=
  in_hand s path uri todo ∧ writeEnabled m = true ∧ content_at (versions s) version path content ∧
  since s ≤ version ∧ Forall (λ e, en_version e ≤ version) (entries s).

Definition reading_ok (s : race) : Prop :=
  match reading s with
  | NotReading => True
  | NextSource todo => (en_uri <$> entries s) ++ todo = uris m
  | Statted path uri todo => in_hand s path uri todo ∧ ∃ f, r_fs s !! path = Some (FileNode f) ∧ small f
  | HasContent path uri content version todo => has_read s path uri content version todo
  | Probing name path uri content version todo =>
      has_read s path uri content version todo ∧ isKnownPath m name = false ∧ staged_name name = false
  end.

Record race_ok (s : race) : Prop := {
  ok_update : update_ok m (updating s) (r_fs s);
  ok_last : last (versions s) = Some (config_view m (r_fs s));
  ok_since : since s ≤ current s;
  ok_reading : reading_ok s;
  ok_entries : entries_ok (versions s) (since s) (entries s);
  ok_taken : Forall (λ t, en_uri <$> t.2 = uris m ∧ entries_ok (versions s) t.1 t.2) (taken s);
}.

Lemma in_use_named u fs t : update_ok m u fs → in_use u = Some t → isKnownPath m t = false ∧ staged_name t = true.
Proof.
  intros I E. assert (∃ r, named m r ∧ t = rq_tmp r) as (r & (_ & K & S & _) & ->); [|done].
  destruct u; simpl in *; try done; injection E as <-; eexists; (split; [|done]); apply I.
Qed.

Lemma known_uri uri path : uri ∈ uris m → uriPath uri = Some path → isKnownPath m path = true.
Proof.
  intros I E. unfold isKnownPath. apply existsb_exists. exists uri. split; [by apply list_elem_of_In|].
  by apply bool_decide_eq_true.
Qed.

Lemma in_hand_known s path uri todo : in_hand s path uri todo → isKnownPath m path = true.
Proof. intros [E U]. eapply known_uri; [|exact E]. rewrite <- U. set_solver. Qed.

(** The history only grows. *)
Lemma entry_of_grows vs vs' e : vs `prefix_of` vs' → entry_of vs e → entry_of vs' e.
Proof. intros [x ->] (v & env & E & H). exists v, env. split; [by apply lookup_app_l_Some|done]. Qed.

Lemma entries_ok_grow vs vs' b es : vs `prefix_of` vs' → entries_ok vs b es → entries_ok vs' b es.
Proof.
  intros P [F S]. split; [|done]. eapply Forall_impl; [exact F|]. intros e [B E]. split; [done|by eapply entry_of_grows].
Qed.

Lemma content_at_grows vs vs' n p c : vs `prefix_of` vs' → content_at vs n p c → content_at vs' n p c.
Proof. intros [x ->] (v & mode & E & H). exists v, mode. split; [by apply lookup_app_l_Some|done]. Qed.

Lemma current_version s : last (versions s) = Some (config_view m (r_fs s)) →
  versions s !! current s = Some (config_view m (r_fs s)).
Proof. intros L. by rewrite last_lookup in L. Qed.

Lemma entry_below s e : entry_of (versions s) e → en_version e ≤ current s.
Proof. intros (v & env & E & _). apply lookup_lt_Some in E. unfold current. lia. Qed.

Lemma entries_ok_snoc vs b es e :
  entries_ok vs b es → b ≤ en_version e → entry_of vs e → Forall (λ e', en_version e' ≤ en_version e) es →
  entries_ok vs b (es ++ [e]).
Proof.
  intros [F S] B E L. split; [apply Forall_app; split; [done|by constructor]|]. rewrite fmap_app. apply StronglySorted_app_2; [|done|repeat constructor].
  intros x y (e' & -> & He)%list_elem_of_fmap ->%list_elem_of_singleton. by eapply Forall_forall in L.
Qed.

(** ** Entries *)

Definition quiet_env (serr rerr : option string) (w : bool) : ReadEnv :=
  MkReadEnv (λ _, serr) (λ _, rerr) (λ _ _, if w then Some "" else None) false (λ p, p).

Lemma error_entry_of vs uri path e n v :
  vs !! n = Some v → uriPath uri = Some path → entry_of vs (error_entry uri path e n).
Proof.
  intros E U. exists v, (quiet_env (Some e) None false). split; [done|]. simpl. unfold snapshot_file. by rewrite U.
Qed.

Lemma content_entry_of vs uri path content n (w : bool) :
  content_at vs n path content → uriPath uri = Some path → (w = true → writeEnabled m = true) →
  entry_of vs (MkEntry uri (MkConfigFile path content w "") n).
Proof.
  intros (v & mode & E & L & S) U W. exists v, (quiet_env None None w). split; [done|].
  simpl. unfold snapshot_file. rewrite U. unfold readConfigFile. simpl. rewrite L.
  rewrite decide_False by (unfold small in S; simpl in *; lia). simpl.
  destruct w; [by rewrite W|]. by destruct (writeEnabled m).
Qed.

(** ** Preservation *)

(** The versions and the configuration after a step. *)
Definition moved (s s' : race) : Prop := kept m s s' ∨ replaced m s s'.

Lemma moved_prefix s s' : moved s s' → versions s `prefix_of` versions s'.
Proof. intros [[-> _]|(p & f & -> & _)]; [done|by exists [config_view m (r_fs s')]]. Qed.

Lemma moved_last s s' :
  moved s s' → last (versions s) = Some (config_view m (r_fs s)) →
  last (versions s') = Some (config_view m (r_fs s')).
Proof. intros [[-> ->]|(p & f & -> & _)]; [done|]. intros _. apply last_snoc. Qed.

Lemma moved_current s s' : moved s s' → current s ≤ current s'.
Proof. intros P%moved_prefix%prefix_length. unfold current. lia. Qed.

(** A file that was there and small stays there and small. *)
Lemma moved_small s s' p f :
  moved s s' → isKnownPath m p = true → r_fs s !! p = Some (FileNode f) → small f →
  ∃ f', r_fs s' !! p = Some (FileNode f') ∧ small f'.
Proof.
  intros [[_ Ev]|(q & f' & _ & Ev & B)] K L S.
  - exists f. by rewrite (proj1 (view_eq m (r_fs s') (r_fs s)) Ev p K).
  - assert (r_fs s' !! p = (<[q := FileNode f']> (config_view m (r_fs s))) !! p) as ->.
    { rewrite <- Ev, view_lookup. by rewrite K. }
    destruct (decide (p = q)) as [->|N]; [rewrite lookup_insert_eq; by exists f'|].
    rewrite lookup_insert_ne, view_lookup, K by done. by exists f.
Qed.

(** A step of anybody but the snapshot leaves it as it was. *)
Definition same_reader (s s' : race) : Prop :=
  reading s' = reading s ∧ since s' = since s ∧ entries s' = entries s ∧ taken s' = taken s.

Lemma reader_frame s s' :
  moved s s' → same_reader s s' → race_ok s → update_ok m (updating s') (r_fs s') → race_ok s'.
Proof.
  intros M (Er & Es & Ee & Et) I U. pose proof (moved_prefix _ _ M) as P. pose proof (moved_current _ _ M) as C. split.
  - done.
  - eapply moved_last; [exact M|apply I].
  - rewrite Es. pose proof (ok_since _ I). lia.
  - pose proof (ok_reading _ I) as R.
    assert (∀ path uri todo, in_hand s path uri todo → in_hand s' path uri todo) as IH
      by (intros *; unfold in_hand; by rewrite Ee).
    assert (∀ path uri c n todo, has_read s path uri c n todo → has_read s' path uri c n todo) as HR.
    { intros * (H1 & H2 & H3 & H4 & H5). unfold has_read. rewrite Es, Ee. split_and!; auto.
      by eapply content_at_grows. }
    unfold reading_ok in *. rewrite Er, Ee. destruct (reading s); [done|done| |auto|naive_solver].
    destruct R as [Hh (f & L & S)]. split; [auto|]. eapply moved_small; [done|by eapply in_hand_known|done..].
  - rewrite Es, Ee. eapply entries_ok_grow; [done|apply I].
  - rewrite Et. eapply Forall_impl; [apply I|]. intros t [E O]. split; [done|by eapply entries_ok_grow].
Qed.

Lemma update_same_reader s s' : update_step m s s' → same_reader s s'.
Proof. destruct 1; repeat case_match; done. Qed.

(** A change outside the configuration and the staged file. *)
Lemma outside_ok s fs :
  (∀ t, in_use (updating s) = Some t → fs !! t = r_fs s !! t) → config_view m fs = config_view m (r_fs s) →
  race_ok s → race_ok (set_update s fs (updating s)).
Proof.
  intros Ht Ev I. apply (reader_frame s); [left; by split|done|done|].
  eapply update_ok_frame; [exact Ev|done|apply I].
Qed.

Lemma add_entry_ok s todo e :
  race_ok s → (en_uri <$> entries s) ++ en_uri e :: todo = uris m →
  since s ≤ en_version e → entry_of (versions s) e → Forall (λ e', en_version e' ≤ en_version e) (entries s) →
  race_ok (add_entry s (r_fs s) todo e).
Proof.
  intros [U L Sn _ E T] Hu B O F. split; try done.
  - unfold reading_ok. simpl. rewrite fmap_app. simpl. by rewrite <- (assoc_L (++)).
  - by apply entries_ok_snoc.
Qed.

Lemma add_current_ok s todo e :
  race_ok s → (en_uri <$> entries s) ++ en_uri e :: todo = uris m → en_version e = current s →
  entry_of (versions s) e → race_ok (add_entry s (r_fs s) todo e).
Proof.
  intros I Hu Ev O. apply add_entry_ok; [done|done|rewrite Ev; apply I|done|].
  rewrite Ev. pose proof (ok_entries _ I) as [F _]. eapply Forall_impl; [exact F|]. intros e' [_ O']. by apply entry_below.
Qed.

Lemma set_reading_ok s p : race_ok s → reading_ok (set_reading s (r_fs s) p) → race_ok (set_reading s (r_fs s) p).
Proof. intros [U L Sn _ E T] R. by split. Qed.

Lemma snapshot_step_ok s s' : snapshot_step m s s' → race_ok s → race_ok s'.
Proof.
  intros S I. pose proof (ok_reading _ I) as R. pose proof (current_version s (ok_last _ I)) as V.
  destruct S as [s Er|s uri todo Er U|s uri todo path e Er U|s uri todo path n Er U L|s path uri todo e Er
    |s path uri todo f Er L|s path uri c n todo Er|s name path uri c n todo Er [Fr K] Sn
    |s name path uri c n todo removed Er|s Er]; unfold reading_ok in R; rewrite Er in R; simpl in R.
  - destruct I as [Iu Il _ _ _ It]. split; try done. split; constructor.
  - apply add_current_ok; [done..|]. exists (config_view m (r_fs s)), (quiet_env None None false). split; [done|].
    simpl. unfold snapshot_file. by rewrite U.
  - apply add_current_ok; [done..|]. by eapply error_entry_of.
  - destruct n as [f|mode]; [case_decide as B|].
    1,3: apply add_current_ok; [done..|]; by eapply error_entry_of.
    apply set_reading_ok; [done|]. split; [done|]. exists f. split; [done|]. unfold small. lia.
  - destruct R as [[U Hu] _]. apply add_current_ok; [done..|]. by eapply error_entry_of.
  - destruct R as [Hh (f' & L' & Sm)]. simplify_eq. pose proof (in_hand_known _ _ _ _ Hh) as K. pose proof Hh as [U Hu].
    assert (content_at (versions s) (current s) path (f_contents f)) as C.
    { exists (config_view m (r_fs s)), (f_mode f). split; [done|]. rewrite view_lookup, K. by destruct f. }
    destruct (writeEnabled m) eqn:W; [|apply add_current_ok; [done..|]; by apply content_entry_of].
    apply set_reading_ok; [done|]. split_and!; [done..|apply I|].
    pose proof (ok_entries _ I) as [F _]. eapply Forall_impl; [exact F|]. intros e' [_ O']. by apply entry_below.
  - destruct R as ([U Hu] & W & C & B & F). apply add_entry_ok; [done..| |done]. by apply content_entry_of.
  - set (fs := set_file (r_fs s) name (MkFile "" perm_0600)).
    assert (race_ok (set_update s fs (updating s))) as I1.
    { apply outside_ok; [|by apply view_insert|done]. intros t Ht. apply lookup_insert_ne. intros ->.
      destruct (in_use_named _ _ _ (ok_update _ I) Ht). congruence. }
    by apply (set_reading_ok (set_update s fs (updating s))).
  - destruct R as (([U Hu] & W & C & B & F) & K & Sn).
    set (fs := if removed then delete name (r_fs s) else r_fs s).
    assert (race_ok (set_update s fs (updating s))) as I1.
    { destruct removed; [|by apply outside_ok]. apply outside_ok; [|by apply view_delete|done].
      intros t Ht. apply lookup_delete_ne. intros ->. destruct (in_use_named _ _ _ (ok_update _ I) Ht). congruence. }
    apply (add_entry_ok (set_update s fs (updating s))); [done..| |done]. by apply content_entry_of.
  - rewrite app_nil_r in R. destruct I as [Iu Il _ _ Ie It]. split; try done.
    + simpl. lia.
    + split; constructor.
    + constructor; [done|exact It].
Qed.

Hypothesis no_clash : ∀ p, isKnownPath m p = true → isKnownPath m (p +:+ backupSuffix) = false.

Lemma race_step_ok s s' : race_step m s s' → race_ok s → race_ok s' ∧ rtc (spec_step m) (abs m s) (abs m s').
Proof.
  intros [S|[S|S]] I.
  - destruct (update_step_ok m no_clash s s' S (ok_update _ I)) as (U & R & M). split; [|done].
    by eapply reader_frame; [exact M|apply update_same_reader|..].
  - split; [by eapply snapshot_step_ok|].
    assert (config_view m (r_fs s') = config_view m (r_fs s)) as Ev.
    { destruct S as [| | | | | | |s name path uri c n todo Er [Fr K] Sn|s name path uri c n todo removed Er|]; try done.
      - case_match; [case_decide; done|done].
      - by case_match.
      - by apply view_insert.
      - pose proof (ok_reading _ I) as R. unfold reading_ok in R. rewrite Er in R. destruct R as (_ & K & _).
        destruct removed; [by apply view_delete|done]. }
    assert (settled s' = settled s) as Es by (destruct S; repeat case_match; done).
    unfold abs. rewrite Ev, Es. apply rtc_refl.
  - destruct S as [s q n K N].
    assert (config_view m (partial_alter (λ _, n) q (r_fs s)) = config_view m (r_fs s)) as Ev by by apply view_alter.
    split; [|unfold abs; simpl; rewrite Ev; apply rtc_refl].
    apply outside_ok; [|done|done]. intros t Ht. apply lookup_partial_alter_ne. intros ->. by destruct N.
Qed.

Lemma race_init_ok fs : race_ok (race_init m fs).
Proof. split; try done. split; constructor. Qed.

Lemma race_reachable_ok fs s : rtc (race_step m) (race_init m fs) s → race_ok s.
Proof. intros R. refine (rtc_preserves _ _ _ _ _ R (race_init_ok fs)). intros a b S I. by apply (race_step_ok a b). Qed.

Lemma race_simulates fs s :
  rtc (race_step m) (race_init m fs) s → rtc (spec_step m) (abs m (race_init m fs)) (abs m s).
Proof. intros R. refine (rtc_simulates _ _ race_ok (abs m) race_step_ok _ _ R (race_init_ok fs)). Qed.

End Reading.

(** ** Properties *)

Section Claims.
Context (m : configManager).

(** C11: Updates are atomic, whatever they race with, provided that no source of the
    configuration is the backup path of another (a backup written over a source is
    seen half-written). In every state of every interleaving
    of updates, call by call, with a snapshot and with any changes to files that are
    neither part of the configuration nor the one an update has staged - temporary
    names are new, as [os.CreateTemp] gives them, and no source has one - the
    configuration on disk and the answers decided so far are those of a run in
    which each update was one [Apply] on the configuration the previous one left,
    in the file system its validator saw: the validator may read any file, but what
    it validated is the configuration that was in place, a half-written file is never part of
    the configuration, and a process that dies in this state leaves a version that
    some accepted update, or the start, has put there. *)
Theorem racing_updates_are_atomic (fs : FS) (s : race) :
  (∀ p, isKnownPath m p = true → isKnownPath m (p +:+ backupSuffix) = false) →
  rtc (race_step m) (race_init m fs) s →
  rtc (spec_step m) (config_view m fs, []) (config_view m (r_fs s), settled s) ∧
  last (versions s) = Some (config_view m (r_fs s)).
Proof.
  intros NC R. split; [exact (race_simulates m NC fs s R)|]. apply (ok_last m s), (race_reachable_ok m NC fs s R).
Qed.

(** C12: A snapshot taken while updates run is made of what was on disk, provided
    that no source is the backup path of another: such a source could be read while
    an update is writing it. Files that are neither part of the configuration nor
    staged may change meanwhile. Its entries
    are the sources in command-line order; each is what [snapshot_file] reports of
    one version of the configuration, no older than the one in place when the
    snapshot began, and a later entry never belongs to an earlier version; no
    content is over the limit, although a file may be replaced between the check
    of its size and the read. *)
Theorem racing_snapshot_is_consistent (fs : FS) (s : race) (begun : nat) (es : list entry) :
  (∀ p, isKnownPath m p = true → isKnownPath m (p +:+ backupSuffix) = false) →
  rtc (race_step m) (race_init m fs) s → (begun, es) ∈ taken s →
  en_uri <$> es = uris m ∧ StronglySorted le (en_version <$> es) ∧
  Forall (λ e, begun ≤ en_version e ∧
               (∃ v env, versions s !! en_version e = Some v ∧ (snapshot_file m env v (en_uri e)).1 = en_file e) ∧
               (Z.of_nat (len (cf_Content (en_file e))) ≤ maxConfigFileBytes)%Z) es.
Proof.
  intros NC R Ht. pose proof (ok_taken m s (race_reachable_ok m NC fs s R)) as T.
  eapply Forall_forall in T as [Eu [F S]]; [|exact Ht]. split_and!; [done..|].
  eapply Forall_impl; [exact F|]. intros e (B & v & env & V & E). split_and!; [done|by exists v, env|].
  rewrite <- E. apply snapshot_file_bound.
Qed.

End Claims.

(** ** Evaluation *)

Module ConfigRaceSample.

Definition m : configManager := ConfigManagerSample.m.
Definition fs : FS := ConfigManagerSample.fs.
Definition r : request := MkRequest ConfigManagerSample.ok_env "" "new" false.
Definition p : string := "/etc/a.yaml".
Definition tmp : string := "/etc/a.yaml.1.tmp".
Definition not_a_file : string := "not a file source; cannot be read or edited".

(** An update runs up to its rename; a snapshot checks the size of the file, the
    rename replaces it, and the snapshot reads the new content. *)
Definition s0 : race := race_init m fs.
Definition s1 : race := set_update s0 fs (Opening r).
Definition fs2 : FS := set_file fs tmp (MkFile "" perm_0600).
Definition s2 : race := set_update s1 fs2 (Writing r 420).
Definition fs3 : FS := set_file fs2 tmp (MkFile "new" perm_0600).
Definition s3 : race := set_update s2 fs3 (Chmodding r 420).
Definition fs4 : FS := set_file fs3 tmp (MkFile "new" 420).
Definition s4 : race := set_update s3 fs4 (Closing r).
Definition s5 : race := set_update s4 fs4 (Validating r).
Definition s6 : race := set_update s5 fs4 (BackingUp r).
Definition fs7 : FS := set_file fs4 (p +:+ ".bak") (MkFile "" perm_0600).
Definition s7 : race := set_update s6 fs7 (BackupOpen r "old" perm_0600).
Definition fs8 : FS := set_file fs7 (p +:+ ".bak") (MkFile "old" perm_0600).
Definition s8 : race := set_update s7 fs8 (Renaming r).
Definition s9 : race := MkRace fs8 (Renaming r) [] (NextSource (uris m)) 0 [] [] (versions s8).
Definition s10 : race := set_reading s9 fs8 (Statted p "file:/etc/a.yaml" ["env:X"]).
Definition fs11 : FS := <[p := FileNode (MkFile "new" 420)]> (delete tmp fs8).
Definition s11 : race :=
  MkRace fs11 (Replying r (Ok (p, true))) [] (reading s10) 0 [] [] (versions s8 ++ [config_view m fs11]).
Definition s12 : race := set_reading s11 fs11 (HasContent p "file:/etc/a.yaml" "new" 1 ["env:X"]).
Definition s13 : race := add_entry s12 fs11 ["env:X"] (MkEntry "file:/etc/a.yaml" (MkConfigFile p "new" false "") 1).
Definition s14 : race := add_entry s13 fs11 [] (error_entry "env:X" "env:X" not_a_file 1).
Definition s15 : race := MkRace fs11 (updating s14) [] NotReading 0 [] [(0, entries s14)] (versions s14).

Lemma no_backup_source q : isKnownPath m q = true → isKnownPath m (q +:+ backupSuffix) = false.
Proof.
  unfold isKnownPath, m. simpl. rewrite !orb_false_r. intros K%bool_decide_eq_true. injection K as <-. done.
Qed.

Lemma race_run : rtc (race_step m) s0 s15.
Proof.
  apply rtc_l with s1; [left; exact (update_lock m s0 r eq_refl)|].
  apply rtc_l with s2; [left; exact (update_create m s1 r eq_refl (conj eq_refl eq_refl) eq_refl)|].
  apply rtc_l with s3; [left; exact (update_write m s2 r 420 "" eq_refl)|].
  apply rtc_l with s4; [left; exact (update_chmod m s3 r 420 eq_refl)|].
  apply rtc_l with s5; [left; exact (update_close m s4 r eq_refl)|].
  apply rtc_l with s6; [left; exact (update_validate m s5 r eq_refl)|].
  apply rtc_l with s7; [left; exact (update_backup m s6 r eq_refl)|].
  apply rtc_l with s8; [left; exact (update_backup_write m s7 r "old" perm_0600 eq_refl)|].
  apply rtc_l with s9; [right; left; exact (snapshot_begin m s8 eq_refl)|].
  apply rtc_l with s10; [right; left; exact (snapshot_stat m s9 _ _ p (FileNode (MkFile "old" 420)) eq_refl eq_refl eq_refl)|].
  apply rtc_l with s11; [left; exact (update_rename m s10 r eq_refl)|].
  apply rtc_l with s12; [right; left; exact (snapshot_read m s11 p _ _ (MkFile "new" 420) eq_refl eq_refl)|].
  apply rtc_l with s13; [right; left; exact (snapshot_probe_fails m s12 p _ _ _ _ eq_refl)|].
  apply rtc_l with s14; [right; left; exact (snapshot_other m s13 "env:X" [] eq_refl eq_refl)|].
  apply rtc_l with s15; [right; left; exact (snapshot_end m s14 eq_refl)|apply rtc_refl].
Qed.

(** With the backup of one source among the sources, an accepted update changes
    that source too, to a content the validator has not seen in its place. *)
Definition clash : configManager := newConfigManager "" true ["--config=/etc/a"; "--config=/etc/a.bak"] "/bin/agent".
Definition clash_fs : FS := <["/etc/a" := FileNode (MkFile "one" 420)]> {["/etc/a.bak" := FileNode (MkFile "two" 420)]}.

Example backup_overwrites_source :
  (Apply clash ConfigManagerSample.ok_env clash_fs "/etc/a" "new" false).2 = Ok ("/etc/a", true) ∧
  (Apply clash ConfigManagerSample.ok_env clash_fs "/etc/a" "new" false).1 !! "/etc/a.bak"
  = Some (FileNode (MkFile "one" 420)).
Proof. by vm_compute. Qed.

End ConfigRaceSample.

Lemma racing_updates_are_atomic_witness :
  let m := ConfigRaceSample.m in
  let s := ConfigRaceSample.s15 in
  settled s = [(ConfigRaceSample.r, Ok ("/etc/a.yaml", true))] ∧
  rtc (spec_step m) (config_view m ConfigRaceSample.fs, []) (config_view m (r_fs s), settled s).
Proof.
  intros m s. split; [reflexivity|].
  exact (proj1 (racing_updates_are_atomic m ConfigRaceSample.fs s ConfigRaceSample.no_backup_source ConfigRaceSample.race_run)).
Defined.

Lemma racing_snapshot_is_consistent_witness :
  let es := entries ConfigRaceSample.s14 in
  en_version <$> es = [1; 1] ∧ cf_Content ∘ en_file <$> es = ["new"; ""] ∧ en_uri <$> es = uris ConfigRaceSample.m.
Proof.
  intros es. split; [reflexivity|]. split; [reflexivity|].
  exact (proj1 (racing_snapshot_is_consistent ConfigRaceSample.m ConfigRaceSample.fs ConfigRaceSample.s15 0 es
    ConfigRaceSample.no_backup_source ConfigRaceSample.race_run (list_elem_of_here _ _))).
Defined.
