(* ===== verification/Diagnostics.v ===== *)
(** The diagnosis dump (components/edgecontroller/diagnostics.go): the three
    caches written as YAML files into the diagnostics directory.

    The YAML encoder is the class [YAML]; what the operating system decides is
    [DiagEnv]. The theorems: what is written does not depend on the iteration
    order of the maps, lists every series once in order, and a file that cannot
    be written does not keep the others from being written. *)

From S2P Require Import Prelude GoText GoStrings QueryHandler ConfigManager.
From S2P Require Import MetricsIndex KnownCache DiscoveredCache Demand DemandCache.

Definition knownCacheFile : string := "KnownTimeseriesCache.yaml".
Definition discoveredCacheFile : string := "DiscoveredTimeseriesCache.yaml".
Definition demandCacheFile : string := "DemandTimeseriesCache.yaml".
Definition defaultDiagnosticsDir : string := "/tmp/leansignal-agent".

(** [knownCacheDoc], [discoveredCacheDoc] and [demandCacheDoc]. *)
Inductive cache_doc :=
| KnownDoc (Count : nat) (Entries : list KnownEntryView)
| DiscoveredDoc (Count : nat) (Entries : list DiscoveredEntryView)
| DemandDoc (Count : nat) (Hash : Z) (LastUpdate : Z) (Metrics : list string).

(** The encoder of gopkg.in/yaml.v3 over a buffer: [Encode] with an indent
    appends a document to it, [Close] flushes it. *)
Class YAML := {
  Encode : nat → string → cache_doc → result string string;
  Close : string → result string string;
}.

(** ** Paths *)

(** [filepath.Clean] and [filepath.Join]: a path that is not rooted keeps the
    [..] it cannot resolve, and an empty one is [.]. *)
Definition clean_step_rel (acc : list string) (x : string) : list string :=
  if decide (x = "" ∨ x = ".") then acc
  else if decide (x = "..") then
    match last acc with
    | None | Some ".." => acc ++ [x]
    | Some _ => removelast acc
    end
  else acc ++ [x].

Definition CleanPath (p : string) : string :=
  if HasPrefix p "/" then Clean p
  else match foldl clean_step_rel [] (split_slash p) with [] => "." | l => Join l "/" end.

Definition PathJoin (dir name : string) : string :=
  if decide (dir = "") then CleanPath name else CleanPath (dir +:+ "/" +:+ name).

(** ** Writing *)

(** What the operating system answers: the error of [MkdirAll] and the
    directories it makes, and, by path, whether [WriteFile] succeeds ([None]) or
    fails, which may leave anything, or nothing, at its path. The iteration
    orders of the two maps are chosen here too. *)
Record DiagEnv := MkDiagEnv {
  mkdir_error : FS → string → option string;
  made_dirs : FS → string → list (string * Z);
  write_failure : string → option (option file);
  new_mode : Z;
  known_order : list HashKey;
  discovered_order : list HashKey;
}.

Section Diagnostics.
Context `{YAML} (env : DiagEnv).

(** With an error, the directories it made before it met it are there. *)
Definition MkdirAll (fs : FS) (dir : string) : option string * FS :=
  (mkdir_error env fs dir,
   foldl (λ fs '(p, mode), match fs !! p with Some _ => fs | None => <[p := DirNode mode]> fs end)
     fs (made_dirs env fs dir)).

(** A directory cannot be written. *)
Definition is_directory (fs : FS) (path : string) : bool :=
  match fs !! path with Some (DirNode _) => true | _ => false end.

(** [os.WriteFile]: an existing file keeps its mode. *)
Definition WriteFile (fs : FS) (path data : string) : bool * FS :=
  if is_directory fs path then (false, fs)
  else
    match write_failure env path with
    | Some (Some rest) => (false, <[path := FileNode rest]> fs)
    | Some None => (false, fs)
    | None =>
        let mode := match fs !! path with Some (FileNode f) => f_mode f | _ => new_mode env end in
        (true, <[path := FileNode (MkFile data mode)]> fs)
    end.

(** Two spaces of indent; an error of [Close] counts like one of [Encode]. *)
Definition marshalYAML (v : cache_doc) : result string string :=
  match Encode 2 "" v with
  | Err e => Err e
  | Ok buf => match Close buf with Err e => Err e | Ok buf => Ok buf end
  end.

Definition cache_docs (known : KnownTimeseriesCache) (discovered : DiscoveredTimeseriesCache)
    (demand : DemandTimeseriesCache) : list (string * cache_doc) :=
  let known := KnownSnapshot known (known_order env) in
  let discovered := DiscoveredSnapshot discovered (discovered_order env) in
  let demand := GetDemandSnapshot demand in
  [(knownCacheFile, KnownDoc (length known) known);
   (discoveredCacheFile, DiscoveredDoc (length discovered) discovered);
   (demandCacheFile, DemandDoc (length (Timeseries demand)) (DemandHash demand) (ds_LastUpdate demand)
                       (Timeseries demand))].

(** The loop: a file that cannot be encoded or written is skipped. *)
Fixpoint write_docs (dir : string) (fs : FS) (docs : list (string * cache_doc)) : list string * FS :=
  match docs with
  | [] => ([], fs)
  | (name, doc) :: docs =>
      match marshalYAML doc with
      | Err _ => write_docs dir fs docs
      | Ok data =>
          let path := PathJoin dir name in
          let '(ok, fs) := WriteFile fs path data in
          let '(written, fs) := write_docs dir fs docs in
          (if ok : bool then path :: written else written, fs)
      end
  end.

(** The files written, and the file system after. *)
Definition writeCacheFiles (diagnosticsDir : string) (fs : FS) (known : KnownTimeseriesCache)
    (discovered : DiscoveredTimeseriesCache) (demand : DemandTimeseriesCache) : list string * FS :=
  let dir := if decide (diagnosticsDir = "") then defaultDiagnosticsDir else diagnosticsDir in
  match MkdirAll fs dir with
  | (Some _, fs) => ([], fs)
  | (None, fs) => write_docs dir fs (cache_docs known discovered demand)
  end.

End Diagnostics.

(** ** Order of the entries *)

(** Both snapshots sort by metric name, then fingerprint. *)
Section Lexicographic.
Context {A : Type} (name fp : A → string).

Definition lex_le (a b : A) : Prop :=
  if decide (name a = name b) then String.le (fp a) (fp b) else String.le (name a) (name b).

#[export] Instance lex_le_dec a b : Decision (lex_le a b).
Proof. unfold lex_le. case_decide; apply _. Defined.

#[export] Instance lex_le_total : Total lex_le.
Proof.
  intros a b. unfold lex_le. repeat case_decide; try congruence; apply (total String.le).
Qed.

#[export] Instance lex_le_trans : Transitive lex_le.
Proof.
  intros a b c. unfold lex_le.
  destruct (decide (name a = name b)) as [E1|N1], (decide (name b = name c)) as [E2|N2],
    (decide (name a = name c)) as [E3|N3]; try congruence; intros L1 L2.
  - by etrans.
  - exfalso. rewrite <- E3 in L2. by apply N1, (anti_symm String.le).
  - by etrans.
Qed.

Lemma lex_le_antisymm a b : lex_le a b → lex_le b a → fp a = fp b.
Proof.
  unfold lex_le. destruct (decide (name a = name b)) as [E|N], (decide (name b = name a)) as [E'|N'];
    try congruence; intros L1 L2.
  - by apply (anti_symm String.le).
  - exfalso. by apply N, (anti_symm String.le).
Qed.

(** With distinct fingerprints the sorted list is a function of the entries. *)
Lemma lex_sort_unique {D : ∀ a b, Decision (lex_le a b)} l k :
  l ≡ₚ k → (∀ x y, x ∈ l → y ∈ l → fp x = fp y → x = y) → merge_sort lex_le l = merge_sort lex_le k.
Proof.
  intros P U. eapply StronglySorted_unique_strong; [|apply StronglySorted_merge_sort; apply _..|].
  - intros x y. rewrite !merge_sort_Permutation, <- P. intros Hx Hy H1 H2. apply U; [done..|].
    by apply lex_le_antisymm.
  - by rewrite !merge_sort_Permutation.
Qed.

End Lexicographic.

(** Entries found under complete iteration orders. *)
Section Snapshots.
Context {V W : Type} (view : HashKey → V → W) (fp : W → string).
Hypothesis fp_key : ∀ k e, fp (view k e) = HashKey_String k.

Definition views (c : gmap HashKey V) (order : list HashKey) : list W := omap (λ k, view k <$> c !! k) order.

Lemma views_complete c order : order ≡ₚ (map_to_list c).*1 → views c order ≡ₚ uncurry view <$> map_to_list c.
Proof.
  intros P. rewrite <- (order_entries c order P). unfold views.
  induction order as [|k order IH] in |- *; [done|]. cbn [omap list_omap].
  destruct (c !! k) as [e|]; simpl; [|exact IH]. f_equiv. exact IH.
Qed.

Lemma views_distinct c order x y : x ∈ views c order → y ∈ views c order → fp x = fp y → x = y.
Proof.
  unfold views. rewrite !list_elem_of_omap. intros (k & _ & Ek) (k' & _ & Ek') E.
  destruct (c !! k) as [e|] eqn:E1; [|done]. destruct (c !! k') as [e'|] eqn:E2; [|done].
  injection Ek as <-. injection Ek' as <-. rewrite !fp_key in E. apply HashKey_String_inj in E. congruence.
Qed.

End Snapshots.

(** The iteration order of a map. *)
Definition complete_order {V} (c : gmap HashKey V) (order : list HashKey) : Prop := order ≡ₚ (map_to_list c).*1.

Lemma KnownSnapshot_ref c order :
  complete_order c order → KnownSnapshot c order = merge_sort view_le (known_view <$> map_to_list c).
Proof.
  intros P. apply (lex_sort_unique kv_MetricName kv_Fingerprint (D := view_le_dec)).
  - etrans; [apply (views_complete (λ k e, known_view (k, e)) c order P)|].
    apply reflexive_eq, list_fmap_ext. by intros ? [].
  - by apply (views_distinct (λ k e, known_view (k, e))).
Qed.

Lemma DiscoveredSnapshot_ref c order :
  complete_order c order →
  DiscoveredSnapshot c order = merge_sort dview_le (uncurry discovered_view <$> map_to_list c).
Proof.
  intros P. apply (lex_sort_unique dv_MetricName dv_Fingerprint (D := dview_le_dec)).
  - apply (views_complete discovered_view c order P).
  - by apply (views_distinct discovered_view).
Qed.

(** ** Paths of the files *)

Lemma split_slash_app a b : split_slash (a +:+ String "/" b) = split_slash a ++ split_slash b.
Proof.
  induction a as [|c a IH]; [done|]. rewrite app_cons. cbn [split_slash]. rewrite IH.
  case_decide; [done|]. destruct (split_slash a) as [|x xs] eqn:E; [by apply split_slash_nonempty in E|done].
Qed.

(** A file name: one path element. *)
Definition plain_name (n : string) : Prop := normal n.

Lemma PathJoin_elements dir name :
  dir ≠ "" → plain_name name →
  ∃ l, split_slash (PathJoin dir name) = l ++ [name].
Proof.
  intros Nd N. pose proof N as (N1 & N2 & N3 & N4). unfold PathJoin. rewrite decide_False by done.
  change (dir +:+ "/" +:+ name) with (dir +:+ String "/" name).
  assert (split_slash (dir +:+ String "/" name) = split_slash dir ++ [name]) as ES.
  { by rewrite split_slash_app, (split_one name). }
  unfold CleanPath. destruct (HasPrefix (dir +:+ String "/" name) "/").
  - unfold Clean, clean_elements. rewrite ES, foldl_app. cbn [foldl].
    set (acc := foldl clean_step [] (split_slash dir)).
    assert (clean_step acc name = acc ++ [name]) as ->.
    { unfold clean_step. rewrite decide_False by naive_solver. by rewrite decide_False. }
    exists ("" :: acc). change ("/" +:+ ?x) with (String "/" x).
    cbn [split_slash]. rewrite decide_True by done. rewrite split_Join; [done|by destruct acc|].
    apply Forall_app. split; [|by repeat constructor].
    pose proof (clean_normal dir) as F. eapply Forall_impl; [exact F|]. intros x (_ & _ & _ & Hx). exact Hx.
  - rewrite ES, foldl_app. cbn [foldl].
    set (acc := foldl clean_step_rel [] (split_slash dir)).
    assert (clean_step_rel acc name = acc ++ [name]) as ->.
    { unfold clean_step_rel. rewrite decide_False by naive_solver. by rewrite decide_False. }
    exists acc. destruct (acc ++ [name]) as [|x l] eqn:E; [by destruct acc|]. rewrite <- E.
    apply split_Join; [by destruct acc|]. apply Forall_app. split; [|by repeat constructor].
    unfold acc. clear. pose proof (split_slash_no_slash dir) as F. revert F.
    assert (∀ l acc, Forall (λ x, Contains x "/" = false) acc → Forall (λ x, Contains x "/" = false) l →
      Forall (λ x, Contains x "/" = false) (foldl clean_step_rel acc l)) as G; [|by apply G].
    induction l as [|x l IH]; intros acc Ha Hl; [done|]. apply Forall_cons in Hl as [Hx Hl]. simpl.
    apply IH; [|done]. assert (Forall (λ x, Contains x "/" = false) (acc ++ [x])) as Happ
      by (apply Forall_app; by repeat constructor).
    unfold clean_step_rel. repeat case_decide; try done. repeat case_match; try done; by apply Forall_removelast.
Qed.

Lemma PathJoin_inj dir n1 n2 :
  dir ≠ "" → plain_name n1 → plain_name n2 → PathJoin dir n1 = PathJoin dir n2 → n1 = n2.
Proof.
  intros Nd N1 N2 E. destruct (PathJoin_elements dir n1) as [l1 E1]; [done..|].
  destruct (PathJoin_elements dir n2) as [l2 E2]; [done..|]. rewrite E, E2 in E1.
  by apply app_inj_tail in E1 as [_ ->].
Qed.

(** ** The loop over the files *)

Section Loop.
Context `{YAML} (env : DiagEnv).

(** What one document leaves at its path when it is written. *)
Definition dumped (doc : cache_doc) (n : option node) : Prop :=
  ∃ data mode, marshalYAML doc = Ok data ∧ n = Some (FileNode (MkFile data mode)).

Definition doc_written (dir : string) (fs : FS) (d : string * cache_doc) : Prop :=
  (∃ data, marshalYAML d.2 = Ok data) ∧ is_directory fs (PathJoin dir d.1) = false ∧
  write_failure env (PathJoin dir d.1) = None.

Lemma WriteFile_other fs path data p : p ≠ path → (WriteFile env fs path data).2 !! p = fs !! p.
Proof. intros N. unfold WriteFile. repeat case_match; simpl; by rewrite ?lookup_insert_ne by done. Qed.

Lemma write_docs_other dir docs : ∀ fs p,
  p ∉ PathJoin dir <$> docs.*1 → (write_docs env dir fs docs).2 !! p = fs !! p.
Proof.
  induction docs as [|[name doc] docs IH]; intros fs p N; [done|]. cbn [write_docs].
  rewrite fmap_cons, fmap_cons, not_elem_of_cons in N. simpl in N. destruct N as [N1 N2].
  destruct (marshalYAML doc) as [data|]; [|by apply IH].
  pose proof (WriteFile_other fs (PathJoin dir name) data p N1) as E.
  destruct (WriteFile _ _ _ _) as [ok fs1]. simpl in E. rewrite <- E.
  rewrite <- (IH fs1 p N2). by destruct (write_docs _ _ _ _).
Qed.

Lemma write_docs_paths dir docs : ∀ fs p,
  p ∈ (write_docs env dir fs docs).1 → p ∈ PathJoin dir <$> docs.*1.
Proof.
  induction docs as [|[n d] docs IH]; intros fs p; cbn [write_docs]; [done|].
  rewrite !fmap_cons. destruct (marshalYAML d); [|intros Hin; right; by eapply IH].
  destruct (WriteFile _ _ _ _) as [ok fs2]. specialize (IH fs2 p).
  destruct (write_docs _ _ _ _) as [w fs3]. simpl in *. destruct ok; [|by right; apply IH].
  rewrite elem_of_cons. intros [->|?]; [left|right; by apply IH].
Qed.

(** The outcome of each document depends on its own path and encoding alone. *)
Lemma write_docs_ok dir docs : ∀ fs,
  NoDup (PathJoin dir <$> docs.*1) →
  let '(written, fs') := write_docs env dir fs docs in
  ∀ name doc, (name, doc) ∈ docs →
    (PathJoin dir name ∈ written ↔ doc_written dir fs (name, doc)) ∧
    (doc_written dir fs (name, doc) → dumped doc (fs' !! PathJoin dir name)).
Proof.
  induction docs as [|[name doc] docs IH]; intros fs ND; [intros ?? []%elem_of_nil|].
  rewrite fmap_cons, fmap_cons, NoDup_cons in ND. cbn [fst] in ND. destruct ND as [N ND]. cbn [write_docs].
  assert (∀ fs1, PathJoin dir name ∉ (write_docs env dir fs1 docs).1) as Habs
    by (intros fs1 ?%write_docs_paths; done).
  unfold doc_written in *. cbn [fst snd] in *.
  destruct (marshalYAML doc) as [data|e] eqn:ED.
  - pose proof (write_docs_other dir docs) as HO.
    destruct (WriteFile env fs (PathJoin dir name) data) as [ok fs1] eqn:EW.
    specialize (IH fs1 ND). specialize (HO fs1 (PathJoin dir name) N). specialize (Habs fs1).
    destruct (write_docs _ _ _ _) as [w fs2]. cbn [fst snd] in *.
    intros n d [[= -> ->]|Hin]%elem_of_cons.
    + unfold WriteFile in EW. destruct (is_directory fs (PathJoin dir name)).
      { injection EW as <- <-. split; [|by intros (_ & ? & _)]. split; [done|by intros (_ & ? & _)]. }
      destruct (write_failure env (PathJoin dir name)) as [[left|]|]; injection EW as <- <-.
      * split; [|by intros (_ & _ & ?)]. split; [done|by intros (_ & _ & ?)].
      * split; [|by intros (_ & _ & ?)]. split; [done|by intros (_ & _ & ?)].
      * split; [split; [eauto|by left]|]. intros _. rewrite HO, lookup_insert_eq. eexists _, _. eauto.
    + assert (PathJoin dir n ≠ PathJoin dir name) as Nn.
      { intros E. apply N. rewrite <- E. apply list_elem_of_fmap. exists n. split; [done|].
        apply list_elem_of_fmap. by exists (n, d). }
      pose proof (WriteFile_other fs (PathJoin dir name) data (PathJoin dir n) Nn) as Eo. rewrite EW in Eo. simpl in Eo.
      assert (is_directory fs1 (PathJoin dir n) = is_directory fs (PathJoin dir n)) as Ed
        by (unfold is_directory; by rewrite Eo).
      destruct (IH n d Hin) as [I1 I2]. rewrite Ed in I1, I2. split; [|done]. destruct ok; [|done].
      rewrite elem_of_cons, <- I1. split; [|by right]. by intros [?|?].
  - specialize (IH fs ND). specialize (Habs fs). destruct (write_docs _ _ _ _) as [w fs2]. cbn [fst] in Habs.
    intros n d [[= -> ->]|Hin]%elem_of_cons; [|by apply IH].
    rewrite ED. split; [|by intros [(? & ?) _]]. split; [done|by intros [(? & ?) _]].
Qed.

End Loop.

(** ** Properties *)

(** The document of each cache, without reference to an iteration order. *)
Definition ref_docs (known : KnownTimeseriesCache) (discovered : DiscoveredTimeseriesCache)
    (demand : DemandTimeseriesCache) : list (string * cache_doc) :=
  [(knownCacheFile, KnownDoc (size known) (merge_sort view_le (known_view <$> map_to_list known)));
   (discoveredCacheFile,
     DiscoveredDoc (size discovered) (merge_sort dview_le (uncurry discovered_view <$> map_to_list discovered)));
   (demandCacheFile, DemandDoc (length (timeseries demand)) (demandHash demand) (dc_LastUpdate demand)
                       (timeseries demand))].

Lemma length_sorted_views {V W} (R : relation W) {D : ∀ x y, Decision (R x y)} (f : HashKey * V → W)
    (c : gmap HashKey V) :
  length (merge_sort R (f <$> map_to_list c)) = size c.
Proof.
  rewrite (Permutation_length (merge_sort_Permutation R _)). by rewrite length_fmap, length_map_to_list.
Qed.

Lemma docs_are_ref env known discovered demand :
  complete_order known (known_order env) → complete_order discovered (discovered_order env) →
  cache_docs env known discovered demand = ref_docs known discovered demand.
Proof.
  intros P1 P2. unfold cache_docs, ref_docs.
  rewrite (KnownSnapshot_ref _ _ P1), (DiscoveredSnapshot_ref _ _ P2).
  by rewrite !length_sorted_views.
Qed.

Lemma ref_paths_NoDup known discovered demand dir :
  dir ≠ "" → NoDup (PathJoin dir <$> (ref_docs known discovered demand).*1).
Proof.
  intros Nd. simpl.
  assert (plain_name knownCacheFile ∧ plain_name discoveredCacheFile ∧ plain_name demandCacheFile)
    as (N1 & N2 & N3) by done.
  repeat apply NoDup_cons_2; rewrite ?not_elem_of_cons; split_and?;
    try apply not_elem_of_nil; try apply NoDup_nil_2; intros E; by apply PathJoin_inj in E.
Qed.

(** C35: The diagnosis dump reports the caches and isolates its failures. When
    the directory can be made, whatever the iteration orders of the maps, each of
    the three files is written exactly when its document can be encoded and its
    path written, whatever became of the other two; it then holds the encoding of
    the reference document (every series once, sorted by metric name and
    fingerprint, with the number of entries of the cache); and no other path
    changes. When the directory cannot be made no file is written. *)
Theorem dump_reports_the_caches `{YAML} (env : DiagEnv) (diagnosticsDir : string) (fs : FS)
    (known : KnownTimeseriesCache) (discovered : DiscoveredTimeseriesCache) (demand : DemandTimeseriesCache) :
  complete_order known (known_order env) → complete_order discovered (discovered_order env) →
  let dir := if decide (diagnosticsDir = "") then defaultDiagnosticsDir else diagnosticsDir in
  let '(written, fs') := writeCacheFiles env diagnosticsDir fs known discovered demand in
  match MkdirAll env fs dir with
  | (Some _, fs1) => written = [] ∧ fs' = fs1
  | (None, fs1) =>
      (∀ name doc, (name, doc) ∈ ref_docs known discovered demand →
         (PathJoin dir name ∈ written ↔ doc_written env dir fs1 (name, doc)) ∧
         (doc_written env dir fs1 (name, doc) → dumped doc (fs' !! PathJoin dir name))) ∧
      (∀ p, p ∉ PathJoin dir <$> [knownCacheFile; discoveredCacheFile; demandCacheFile] → fs' !! p = fs1 !! p)
  end.
Proof.
  intros P1 P2 dir. unfold writeCacheFiles. fold dir. rewrite docs_are_ref by done.
  destruct (MkdirAll env fs dir) as [[e|] fs1]; [done|].
  assert (dir ≠ "") as Nd by (unfold dir; by case_decide).
  pose proof (write_docs_ok env dir _ fs1 (ref_paths_NoDup known discovered demand dir Nd)) as W.
  pose proof (write_docs_other env dir (ref_docs known discovered demand) fs1) as O.
  destruct (write_docs _ _ _ _) as [w fs2]. split; [exact W|exact O].
Qed.

(** ** Evaluation *)

Module DiagnosticsSample.

(** Renders the counts and the metric names only, and refuses an empty demand. *)
Definition render (doc : cache_doc) : result string string :=
  match doc with
  | KnownDoc n l => Ok ("count: " +:+ Itoa (Z.of_nat n) +:+ " " +:+ Join (kv_MetricName <$> l) ",")
  | DiscoveredDoc n l => Ok ("count: " +:+ Itoa (Z.of_nat n) +:+ " " +:+ Join (dv_MetricName <$> l) ",")
  | DemandDoc _ _ _ [] => Err "empty"
  | DemandDoc n _ _ l => Ok (Join l ",")
  end.

Definition yaml : YAML := {| Encode _ buf doc := match render doc with Ok d => Ok (buf +:+ d) | Err e => Err e end;
                             Close buf := Ok buf |}.

Definition cache : KnownTimeseriesCache :=
  {[ KnownCacheSample.key "b" := MkKnown "up" 1000 0 0 0 []; KnownCacheSample.key "a" := MkKnown "down" 1000 0 0 0 [] ]}.

(** The discovered file cannot be written. *)
Definition env (order : list HashKey) : DiagEnv :=
  MkDiagEnv (λ _ _, None) (λ _ dir, [(dir, 493%Z)])
    (λ p, if decide (p = "/d/DiscoveredTimeseriesCache.yaml") then Some None else None) 420 order [].

Definition out (order : list HashKey) := @writeCacheFiles yaml (env order) "/d/" ∅ cache ∅ NewDemandTimeseriesCache.

(** Of the three files one is refused by the encoder and one by the operating
    system. *)
Example one_file_survives :
  out [KnownCacheSample.key "a"; KnownCacheSample.key "b"] = out [KnownCacheSample.key "b"; KnownCacheSample.key "a"] ∧
  (out [KnownCacheSample.key "a"; KnownCacheSample.key "b"]).1 = ["/d/KnownTimeseriesCache.yaml"] ∧
  (out [KnownCacheSample.key "a"; KnownCacheSample.key "b"]).2 !! "/d/KnownTimeseriesCache.yaml"
    = Some (FileNode (MkFile "count: 2 down,up" 420)).
Proof. split_and!; vm_compute; reflexivity. Qed.

End DiagnosticsSample.

Lemma dump_reports_the_caches_witness :
  let order := reverse (map_to_list DiagnosticsSample.cache).*1 in
  let fs' := (DiagnosticsSample.out order).2 in
  (DiagnosticsSample.out order).1 = ["/d/KnownTimeseriesCache.yaml"] ∧
  ∃ data mode, fs' !! "/d/KnownTimeseriesCache.yaml" = Some (FileNode (MkFile data mode)).
Proof.
  intros order fs'. split; [vm_compute; reflexivity|].
  assert (complete_order DiagnosticsSample.cache order) as P1 by (apply reverse_Permutation).
  pose proof (@dump_reports_the_caches DiagnosticsSample.yaml (DiagnosticsSample.env order) "/d/" ∅
    DiagnosticsSample.cache ∅ NewDemandTimeseriesCache P1 (Permutation_refl _)) as [W _].
  destruct (W knownCacheFile _ (list_elem_of_here _ _)) as [_ W2].
  destruct W2 as (data & mode & _ & E); [split; [eexists; reflexivity|split; reflexivity]|].
  exists data, mode. exact E.
Defined.
