(* ===== verification/Tracker.v ===== *)
(** Package [leansignalmetricstracker] (components/metricstracker/processor.go
    and collector_timeseries.go): the processor that enumerates the Prometheus
    series of every batch, fingerprints and counts them, and broadcasts the
    counts to the edge controller.

    xxh3 is a third-party hash: [Hash128] is the parameter [XXH3]. The theorems
    show that the fingerprint text identifies a series, that without hash
    collisions in a batch the collector counts every series exactly, and that
    the series names are those the demand filter matches. *)

From S2P Require Import Prelude GoText GoStrings Selector PData PromNaming Demand DemandFilter MetricsIndex.

(** [xxh3.Hash128]: the high and low halves. *)
Class XXH3 := { Hash128 : string → Z * Z }.

(** ** Fingerprints *)

(** [b[i] = byte(v & 0xff); v >>= 8] for [i] from 7 down to 0. *)
Fixpoint be_bytes (n : nat) (v : Z) (tail : list ascii) : list ascii :=
  match n with
  | O => tail
  | S n => be_bytes n (Z.shiftr v 8) (byte_of (Z.land v 0xff) :: tail)
  end.

Definition uint64ToBytes (v : Z) : list ascii := be_bytes 8 v [].

(** The two [copy] calls into the array. *)
Definition hash_key (hi lo : Z) : HashKey :=
  default (vreplicate 16 "000"%char) (to_array 16 (uint64ToBytes hi ++ uint64ToBytes lo)).

(** The keys of a map in sorted order; sorting makes the iteration order
    irrelevant. *)
Definition sorted_keys (m : gmap string string) : list string := sort_strings (map_to_list m).*1.

Definition extractSortedLabelPairs (attributes : gmap string string) : list LabelPair :=
  (λ k, MkLabelPair k (label attributes k)) <$> sorted_keys attributes.

Section Fingerprint.
Context `{UnicodeTables}.

Definition write_pair (k v : string) : string := k +:+ "=" +:+ Quote v.

Definition buildFingerprintString (metric : string) (attributes : gmap string string) : string :=
  if decide (size attributes = 0) then metric
  else metric +:+ "{" +:+ Join ((λ k, write_pair k (label attributes k)) <$> sorted_keys attributes) "," +:+ "}".

(** The same text from the collected entry. *)
Definition buildFingerprintFromEntry (entry : TimeseriesEntry) : string :=
  match te_Labels entry with
  | [] => te_MetricName entry
  | ls => te_MetricName entry +:+ "{" +:+ Join ((λ lp, write_pair (lp_Name lp) (lp_Value lp)) <$> ls) "," +:+ "}"
  end.

(** [buildPromSeriesFingerprint] with [writeSortedStringMap] is the same
    function under the separators "=" and ",". *)
Definition buildPromSeriesFingerprint (metric : string) (labels : gmap string string) : string :=
  if decide (size labels = 0) then metric
  else metric +:+ "{" +:+ Join ((λ k, k +:+ "=" +:+ Quote (label labels k)) <$> sorted_keys labels) "," +:+ "}".

End Fingerprint.

(** [bytesToHex]: [hexChars[v>>4]] and [hexChars[v&0x0f]]. *)
Fixpoint bytesToHex (l : list ascii) : string :=
  match l with
  | [] => ""
  | b :: l => String (lowerhex (Z.shiftr (code b) 4)) (String (lowerhex (Z.land (code b) 0x0f)) (bytesToHex l))
  end.

(** ** The collector *)

Section Collector.
Context `{UnicodeTables, XXH3}.

Definition series_key (metric : string) (attributes : gmap string string) : HashKey :=
  let '(hi, lo) := Hash128 (buildFingerprintString metric attributes) in hash_key hi lo.

Definition AddTimeseries (data : TimeseriesBatch) (metric : string) (attributes : gmap string string)
  : TimeseriesBatch :=
  let hashKey := series_key metric attributes in
  match data !! hashKey with
  | Some entry =>
      <[hashKey := MkTimeseriesEntry (te_MetricName entry) (te_Labels entry) (int64 (te_Samples entry + 1))]> data
  | None => <[hashKey := MkTimeseriesEntry metric (extractSortedLabelPairs attributes) 1]> data
  end.

(** [NewCollectorTimeseries], [Init] and [Clear]: an empty map. *)
Definition NewCollectorTimeseries : TimeseriesBatch := ∅.
Definition CollectorClear (data : TimeseriesBatch) : TimeseriesBatch := ∅.

Definition Len (data : TimeseriesBatch) : nat := size data.

(** The lines logged, for the map in an iteration order. *)
Definition PrintTimeseries (data : TimeseriesBatch) (order : list HashKey) : list string :=
  omap (λ k, (λ e, bytesToHex (key_bytes k) +:+ " , " +:+ buildFingerprintFromEntry e +:+ " , " +:+ Itoa (te_Samples e))
             <$> data !! k) order.

(** [Broadcast] hands every receiver its own deep copy: an equal value. *)
Definition Broadcast (data : TimeseriesBatch) : TimeseriesBatch :=
  list_to_map ((λ kv, (kv.1, MkTimeseriesEntry (te_MetricName kv.2) (te_Labels kv.2) (te_Samples kv.2)))
                 <$> map_to_list data).

End Collector.

(** ** The processor *)

Section Tracker.
Context `{UnicodeTables, PData, Namer, XXH3}.

(** One call of [processPromSeries]: name, point attributes, extra labels. *)
Record series := MkSeries {
  s_name : string;
  s_point : AttrMap;
  s_extra : list (string * string);
}.

Definition float64ToPromString (v : float64) : string := FormatFloat v.

Definition hasHistogramSum (dp : HistogramPoint) : bool := hp_hasSum dp.

(** The calls made for one metric, in order. *)
Definition histogram_series (base : string) (dp : HistogramPoint) : list series :=
  let attrs := hp_attrs dp in
  ((λ b, MkSeries (base +:+ "_bucket") attrs [("le", float64ToPromString b)]) <$> hp_bounds dp)
  ++ [MkSeries (base +:+ "_bucket") attrs [("le", "+Inf")]]
  ++ (if hasHistogramSum dp then [MkSeries (base +:+ "_sum") attrs []] else [])
  ++ [MkSeries (base +:+ "_count") attrs []].

Definition summary_series (base : string) (dp : SummaryPoint) : list series :=
  let attrs := sp_attrs dp in
  ((λ q, MkSeries base attrs [("quantile", float64ToPromString q)]) <$> sp_quantiles dp)
  ++ [MkSeries (base +:+ "_sum") attrs []; MkSeries (base +:+ "_count") attrs []].

Definition metric_series (m : Metric) : list series :=
  let base := BaseName m in
  match m_data m with
  | Gauge dps => (λ dp, MkSeries base (dp_attrs dp) []) <$> dps
  | Sum _ _ dps => (λ dp, MkSeries base (dp_attrs dp) []) <$> dps
  | Histogram dps => dps ≫= histogram_series base
  | ExponentialHistogram dps => (λ dp, MkSeries base (dp_attrs dp) []) <$> dps
  | Summary dps => dps ≫= summary_series base
  | EmptyMetric => []
  end.

Definition buildPromLabelMap (resAttrs pointAttrs : AttrMap) (extraLabels : list (string * string))
  : gmap string string := BuildSeriesLabels resAttrs pointAttrs extraLabels.

Definition processPromSeries (resAttrs : AttrMap) (batch : TimeseriesBatch) (s : series) : TimeseriesBatch :=
  AddTimeseries batch (s_name s) (buildPromLabelMap resAttrs (s_point s) (s_extra s)).

Definition processTimeSeriesProm (resAttrs : AttrMap) (batch : TimeseriesBatch) (m : Metric) : TimeseriesBatch :=
  foldl (processPromSeries resAttrs) batch (metric_series m).

Definition trackMetrics (md : MetricsBatch) (batch : TimeseriesBatch) : TimeseriesBatch :=
  foldl (λ batch rm,
           foldl (λ batch sm, foldl (processTimeSeriesProm (rm_attrs rm)) batch (sm_metrics sm))
             batch (rm_scopes rm))
    batch md.

(** The batch broadcast to the receivers, and the metrics handed on. *)
Definition TrackerConsumeMetrics (md : MetricsBatch) : TimeseriesBatch * MetricsBatch :=
  (Broadcast (trackMetrics md NewCollectorTimeseries), md).

(** The Prometheus names that are logged for a metric. *)
Definition logMetricProm (m : Metric) : list string :=
  let base := BaseName m in
  match m_data m with
  | Gauge _ | Sum _ _ _ | ExponentialHistogram _ => [base]
  | Histogram _ => [base +:+ "_bucket"; base +:+ "_sum"; base +:+ "_count"]
  | Summary _ => [base; base +:+ "_sum"; base +:+ "_count"]
  | EmptyMetric => []
  end.

(** The processor's two switches. *)
Record metricsTrackerProcessor := MkTracker { logMetrics : bool; logSeries : bool }.

(** The lines logged for a batch, in order: the names of a metric before its
    series. *)
Definition metric_log (p : metricsTrackerProcessor) (resAttrs : AttrMap) (m : Metric) : list string :=
  (if logMetrics p then logMetricProm m else []) ++
  (if logSeries p
   then (λ s, buildPromSeriesFingerprint (s_name s) (buildPromLabelMap resAttrs (s_point s) (s_extra s)))
          <$> metric_series m
   else []).

Definition tracker_log (p : metricsTrackerProcessor) (md : MetricsBatch) : list string :=
  md ≫= λ rm, rm_scopes rm ≫= λ sm, sm_metrics sm ≫= metric_log p (rm_attrs rm).

(** Every series of a batch with its complete label set. *)
Definition batch_series (md : MetricsBatch) : list (string * gmap string string) :=
  md ≫= λ rm, rm_scopes rm ≫= λ sm, sm_metrics sm ≫= λ m,
    (λ s, (s_name s, BuildSeriesLabels (rm_attrs rm) (s_point s) (s_extra s))) <$> metric_series m.

End Tracker.

(** ** Quoted values are self-delimiting *)

Lemma app_cancel_l (s t u : string) : s +:+ t = s +:+ u → t = u.
Proof. induction s as [|c s IH]; [done|]. rewrite !app_cons. intros [= E]. by apply IH. Qed.

Lemma Quote_prefix_free `{UnicodeTables} v1 v2 r1 r2 :
  Quote v1 +:+ r1 = Quote v2 +:+ r2 → v1 = v2 ∧ r1 = r2.
Proof.
  intros E. pose proof (parseQuotedValue_ok (MkParser (Quote v1 +:+ r1) 0 false) v1 r1 eq_refl) as P1.
  pose proof (parseQuotedValue_ok (MkParser (Quote v1 +:+ r1) 0 false) v2 r2) as P2.
  rewrite P1 in P2. specialize (P2 E). injection P2 as -> _. split; [done|]. by apply app_cancel_l in E.
Qed.

Definition no_eq (k : string) : Prop := Contains k "=" = false.

Lemma write_pair_prefix_free `{UnicodeTables} k1 k2 v1 v2 r1 r2 :
  no_eq k1 → no_eq k2 → write_pair k1 v1 +:+ r1 = write_pair k2 v2 +:+ r2 → k1 = k2 ∧ v1 = v2 ∧ r1 = r2.
Proof.
  intros N1 N2 E. unfold write_pair in E. autorewrite with go_str in E.
  apply app_sep_inj in E as [-> E]; [|done..]. apply Quote_prefix_free in E as [-> ->]. done.
Qed.

(** A list of pairs is recovered from its text. *)
Lemma join_pairs_inj `{UnicodeTables} (l1 l2 : list (string * string)) :
  l1 ≠ [] → l2 ≠ [] → Forall (no_eq ∘ fst) l1 → Forall (no_eq ∘ fst) l2 →
  Join ((λ p, write_pair p.1 p.2) <$> l1) "," +:+ "}" = Join ((λ p, write_pair p.1 p.2) <$> l2) "," +:+ "}" →
  l1 = l2.
Proof.
  revert l2. induction l1 as [|[k1 v1] l1 IH]; intros l2 N1 N2 F1 F2 E; [done|].
  destruct l2 as [|[k2 v2] l2]; [done|]. apply Forall_cons in F1 as [H1 F1], F2 as [H2 F2].
  simpl in H1, H2.
  assert (∀ k v (l : list (string * string)), ∃ t,
    Join ((λ p, write_pair p.1 p.2) <$> (k, v) :: l) "," +:+ "}" = write_pair k v +:+ t ∧
    t = match l with [] => "}" | _ => "," +:+ Join ((λ p, write_pair p.1 p.2) <$> l) "," +:+ "}" end) as Hsplit.
  { intros k v [|p l]; eexists; (split; [|done]); rewrite ?fmap_cons; [done|].
    rewrite Join_cons2. by rewrite !app_assoc_str. }
  destruct (Hsplit k1 v1 l1) as (t1 & E1 & T1), (Hsplit k2 v2 l2) as (t2 & E2 & T2).
  rewrite E1, E2 in E. apply write_pair_prefix_free in E as (-> & -> & E); [|done..].
  rewrite T1, T2 in E. destruct l1 as [|p1 l1], l2 as [|p2 l2]; [done|done|done|].
  autorewrite with go_str in E. injection E as E. f_equal. apply IH; done.
Qed.

(** ** Sorted labels *)

Lemma sorted_keys_perm m : sorted_keys m ≡ₚ (map_to_list m).*1.
Proof. apply sort_strings_perm. Qed.

Lemma elem_of_sorted_keys (m : gmap string string) k : k ∈ sorted_keys m ↔ is_Some (m !! k).
Proof.
  rewrite sorted_keys_perm, list_elem_of_fmap. split.
  - intros ([k' v] & -> & Hp%elem_of_map_to_list). eauto.
  - intros [v Hv]. exists (k, v). split; [done|]. by apply elem_of_map_to_list.
Qed.

Lemma sorted_keys_nil (m : gmap string string) : sorted_keys m = [] ↔ size m = 0.
Proof.
  rewrite map_size_empty_iff. split.
  - intros E. apply map_empty. intros k. destruct (m !! k) as [v|] eqn:Ek; [|done]. exfalso.
    assert (k ∈ sorted_keys m) as Hk by (apply elem_of_sorted_keys; eauto). rewrite E in Hk. by apply elem_of_nil in Hk.
  - intros ->. unfold sorted_keys. by rewrite map_to_list_empty.
Qed.

Definition label_pairs (m : gmap string string) : list (string * string) :=
  (λ k, (k, label m k)) <$> sorted_keys m.

Lemma label_pairs_inj m1 m2 : label_pairs m1 = label_pairs m2 → m1 = m2.
Proof.
  intros E. assert (sorted_keys m1 = sorted_keys m2) as EK.
  { apply (f_equal (fmap fst)) in E. unfold label_pairs in E. rewrite <- !list_fmap_compose in E.
    by rewrite !list_fmap_id in E. }
  apply map_eq. intros k. destruct (decide (k ∈ sorted_keys m1)) as [Hk|Hk].
  - assert (k ∈ sorted_keys m2) as Hk2 by by rewrite <- EK.
    assert (label m1 k = label m2 k) as EL.
    { assert ((k, label m1 k) ∈ label_pairs m2) as Hp.
      { rewrite <- E. apply list_elem_of_fmap. eauto. }
      apply list_elem_of_fmap in Hp as (k' & [= <- ->] & _). done. }
    apply elem_of_sorted_keys in Hk as [v1 E1], Hk2 as [v2 E2].
    unfold label in EL. rewrite E1, E2 in *. simpl in EL. by subst.
  - assert (k ∉ sorted_keys m2) as Hk2 by by rewrite <- EK.
    rewrite elem_of_sorted_keys in Hk, Hk2. apply eq_None_not_Some in Hk, Hk2. by rewrite Hk, Hk2.
Qed.

Section FingerprintLemmas.
Context `{UnicodeTables}.

Lemma fingerprint_pairs metric (a : gmap string string) :
  buildFingerprintString metric a =
  match label_pairs a with
  | [] => metric
  | ps => metric +:+ String "{" (Join ((λ p, write_pair p.1 p.2) <$> ps) "," +:+ "}")
  end.
Proof.
  unfold buildFingerprintString, label_pairs. destruct (decide (size a = 0)) as [E|N].
  - apply sorted_keys_nil in E. by rewrite E.
  - rewrite <- sorted_keys_nil in N. destruct (sorted_keys a) as [|k ks]; [done|].
    rewrite app_cons, app_empty_l.
    exact (f_equal (λ l, metric +:+ String "{" (Join l "," +:+ "}"))
             (list_fmap_compose (λ k, (k, label a k)) (λ p, write_pair p.1 p.2) (k :: ks))).
Qed.

Definition labels_ok (a : gmap string string) : Prop := ∀ k, is_Some (a !! k) → no_eq k.

Lemma label_pairs_no_eq a : labels_ok a → Forall (no_eq ∘ fst) (label_pairs a).
Proof.
  intros L. apply Forall_forall. intros p Hp. apply list_elem_of_fmap in Hp as (k & -> & Hk).
  apply L. by apply elem_of_sorted_keys.
Qed.

Lemma fingerprint_inj m1 m2 a1 a2 :
  Contains m1 "{" = false → Contains m2 "{" = false → labels_ok a1 → labels_ok a2 →
  buildFingerprintString m1 a1 = buildFingerprintString m2 a2 → m1 = m2 ∧ a1 = a2.
Proof.
  intros N1 N2 L1 L2. rewrite !fingerprint_pairs.
  pose proof (label_pairs_no_eq a1 L1) as F1. pose proof (label_pairs_no_eq a2 L2) as F2.
  destruct (label_pairs a1) as [|p1 l1] eqn:E1, (label_pairs a2) as [|p2 l2] eqn:E2; intros E.
  - split; [done|]. apply label_pairs_inj. by rewrite E1, E2.
  - symmetry in E. by apply app_sep_none in E.
  - by apply app_sep_none in E.
  - apply app_sep_inj in E as [-> E]; [|done..]. split; [done|].
    apply label_pairs_inj. rewrite E1, E2. by apply join_pairs_inj.
Qed.

(** *** Label names never contain the separator *)

Lemma EncodeRune_no_byte c r : (code c < 128)%Z → r ≠ code c → Contains (EncodeRune r) c = false.
Proof.
  intros Hc Hr. pose proof (code_range c) as Bc.
  assert (∀ d, (128 ≤ code d)%Z → bool_decide (d = c) = false) as Hd.
  { intros d Hd. apply bool_decide_eq_false. intros ->. lia. }
  assert (∀ z, (128 ≤ code (cont z))%Z) as HC by (intros z; rewrite code_cont; div_mod).
  destruct (decide (0 ≤ r < 0x80)%Z) as [Ha|Ha].
  - rewrite EncodeRune_ascii by done. rewrite Contains_cons. rewrite bool_decide_false; [done|].
    intros E. apply (f_equal code) in E. rewrite code_byte_of in E by lia. done.
  - unfold EncodeRune. assert (between 0 r 0x7F = false) as -> by (unfold between; lia).
    destruct (between 0x80 r 0x7FF) eqn:B2.
    { unfold between in B2. rewrite !Contains_cons, !Hd; [done|apply HC|].
      rewrite code_byte_of by div_mod. div_mod. }
    destruct (ValidRune r) eqn:V; cbn [negb].
    + unfold ValidRune, between, MaxRune in *.
      case_match; rewrite !Contains_cons, !Hd; try done; rewrite code_byte_of by div_mod; div_mod.
    + rewrite !Contains_cons, !Hd; [done|rewrite code_byte_of; lia..].
Qed.

End FingerprintLemmas.

Section LabelNames.
Context `{UnicodeTables, PData}.

Lemma norm_rune_not_eq r : norm_rune r ≠ code "=".
Proof.
  unfold norm_rune. change (code "=") with 61%Z. change (code "_") with 95%Z.
  destruct (IsLetter r || IsDigit r) eqn:E; [|lia]. intros ->. done.
Qed.

Lemma Normalize_no_eq s : no_eq (NormalizeLabelName s).
Proof.
  assert (∀ l, Contains (foldr (λ r acc, EncodeRune (norm_rune r) +:+ acc) "" l) "=" = false) as Hm.
  { induction l as [|r l IH]; [done|]. cbn [foldr]. rewrite Contains_app, IH, orb_false_r.
    apply EncodeRune_no_byte; [done|apply norm_rune_not_eq]. }
  unfold no_eq, NormalizeLabelName. case_decide; [by subst|].
  pose proof (Hm (runes s)) as M. fold (map_runes norm_rune s) in M. revert M.
  generalize (map_runes norm_rune s). intros l M. cbv zeta.
  destruct (match l with "" => _ | _ => _ end); [by rewrite Contains_app, M|].
  destruct (HasPrefix l "_" && negb (HasPrefix l "__")); [by rewrite Contains_app, M|done].
Qed.

Lemma labels_ok_insert a k v : labels_ok a → no_eq k → labels_ok (<[k := v]> a).
Proof.
  intros L N j. destruct (decide (k = j)) as [<-|Nk]; [done|]. rewrite lookup_insert_ne by done. apply L.
Qed.

Lemma labels_ok_add_attrs a attrs : labels_ok a → labels_ok (add_attrs a attrs).
Proof.
  unfold add_attrs. revert a. induction (entries attrs) as [|[k v] l IH]; intros a L; [done|].
  simpl. apply IH, labels_ok_insert; [done|apply Normalize_no_eq].
Qed.

Lemma labels_ok_synthesize k v a : labels_ok a → no_eq k → labels_ok (synthesize k v a).
Proof. intros L N. unfold synthesize. destruct (a !! k); [done|]. case_decide; [by apply labels_ok_insert|done]. Qed.

Lemma BuildSeriesLabels_ok res point extra : labels_ok (BuildSeriesLabels res point extra).
Proof.
  unfold BuildSeriesLabels, addSynthesizedJobInstance.
  assert (labels_ok (synthesize "instance" (instanceLabelFromResource res)
    (synthesize "job" (jobLabelFromResource res) (add_attrs (add_attrs ∅ res) point)))) as L.
  { apply labels_ok_synthesize; [|done]. apply labels_ok_synthesize; [|done].
    apply labels_ok_add_attrs, labels_ok_add_attrs. intros k [v Hv]. by rewrite lookup_empty in Hv. }
  revert L. generalize (synthesize "instance" (instanceLabelFromResource res)
    (synthesize "job" (jobLabelFromResource res) (add_attrs (add_attrs ∅ res) point))).
  induction extra as [|[k v] extra IH]; intros a L; [done|]. simpl. apply IH, labels_ok_insert; [done|apply Normalize_no_eq].
Qed.

End LabelNames.

(** ** Counting *)

Lemma filter_ext_in {A} (P Q : A → Prop) `{∀ x, Decision (P x), ∀ x, Decision (Q x)} (l : list A) :
  (∀ x, x ∈ l → P x ↔ Q x) → filter P l = filter Q l.
Proof.
  induction l as [|x l IH]; intros E; [done|]. rewrite !filter_cons.
  rewrite IH by (intros; apply E; by right). destruct (E x ltac:(left)).
  by destruct (decide (P x)), (decide (Q x)); try done; exfalso; auto.
Qed.

Section Counting.
Context `{UnicodeTables, XXH3}.

Notation series_id := (string * gmap string string)%type.

Definition collect (l : list series_id) (data : TimeseriesBatch) : TimeseriesBatch :=
  foldl (λ d s, AddTimeseries d s.1 s.2) data l.

(** The series of a list that hash to a key, in order. *)
Definition with_key (k : HashKey) (l : list series_id) : list series_id :=
  filter (λ s, series_key s.1 s.2 = k) l.

(** What the collector holds under a key: the first series that hashed to it,
    and how many did. *)
Lemma collect_lookup l k :
  collect l ∅ !! k =
  match with_key k l with
  | [] => None
  | s :: rest => Some (MkTimeseriesEntry s.1 (extractSortedLabelPairs s.2) (int64 (Z.of_nat (S (length rest)))))
  end.
Proof.
  induction l as [|s l IH] using rev_ind; [done|].
  unfold collect in *. rewrite foldl_app. simpl. unfold with_key in *. rewrite filter_app, filter_cons, filter_nil.
  unfold AddTimeseries at 1. cbv zeta. destruct (decide (series_key s.1 s.2 = k)) as [<-|N].
  - rewrite IH. destruct (filter _ l) as [|s0 rest]; simpl.
    + by rewrite lookup_insert_eq.
    + rewrite lookup_insert_eq. simpl. rewrite length_app, int64_add_l. simpl. do 3 f_equal. lia.
  - rewrite app_nil_r. destruct (foldl _ ∅ l !! series_key s.1 s.2); by rewrite lookup_insert_ne.
Qed.

Lemma Broadcast_id (data : TimeseriesBatch) : Broadcast data = data.
Proof.
  unfold Broadcast. rewrite <- (list_to_map_to_list data) at 2. f_equal.
  induction (map_to_list data) as [|[k [n l z]] r IH]; [done|]. simpl. by f_equal.
Qed.

(** No two different fingerprints of the list share a key. *)
Definition collision_free (l : list series_id) : Prop :=
  ∀ s1 s2, s1 ∈ l → s2 ∈ l → series_key s1.1 s1.2 = series_key s2.1 s2.2 →
           buildFingerprintString s1.1 s1.2 = buildFingerprintString s2.1 s2.2.

Definition series_ok (s : series_id) : Prop := Contains s.1 "{" = false ∧ labels_ok s.2.

Lemma with_key_same l s :
  collision_free l → Forall series_ok l → s ∈ l →
  with_key (series_key s.1 s.2) l = filter (λ s', s' = s) l.
Proof.
  intros CF F Hs. unfold with_key. rewrite Forall_forall in F. apply filter_ext_in.
  intros s' Hs'. split; [|by intros ->]. intros E.
  apply CF in E; [|done..]. destruct (F s Hs), (F s' Hs').
  apply fingerprint_inj in E as [E1 E2]; [|done..]. by destruct s, s'; simpl in *; subst.
Qed.

Lemma collect_counts l s :
  collision_free l → Forall series_ok l → s ∈ l →
  collect l ∅ !! series_key s.1 s.2
  = Some (MkTimeseriesEntry s.1 (extractSortedLabelPairs s.2)
            (int64 (Z.of_nat (length (filter (λ s', s' = s) l))))).
Proof.
  intros CF F Hs. rewrite collect_lookup, with_key_same by done.
  destruct (filter (λ s', s' = s) l) as [|x rest] eqn:E.
  - assert (s ∈ filter (λ s', s' = s) l) as Hin by by apply list_elem_of_filter.
    rewrite E in Hin. by apply elem_of_nil in Hin.
  - assert (x ∈ filter (λ s', s' = s) l) as [-> _]%list_elem_of_filter by (rewrite E; left). done.
Qed.

End Counting.

Section TrackerLemmas.
Context `{UnicodeTables, PData, Namer, XXH3}.

Lemma foldl_bind {A B S} (f : S → B → S) (g : A → list B) (l : list A) s :
  foldl f s (l ≫= g) = foldl (λ s x, foldl f s (g x)) s l.
Proof. revert s. induction l as [|x l IH]; intros s; [done|]. rewrite bind_cons, foldl_app. apply IH. Qed.

Lemma foldl_ext_fun {A S} (f g : S → A → S) (l : list A) s : (∀ s x, f s x = g s x) → foldl f s l = foldl g s l.
Proof. intros E. revert s. induction l as [|x l IH]; intros s; [done|]. simpl. by rewrite E, IH. Qed.

Lemma foldl_fmap_fun {A B S} (f : S → B → S) (g : A → B) (l : list A) s :
  foldl f s (g <$> l) = foldl (λ s x, f s (g x)) s l.
Proof. revert s. induction l as [|x l IH]; intros s; [done|]. simpl. apply IH. Qed.

(** The nested loops collect the series of the batch in order. *)
Lemma trackMetrics_collect md data : trackMetrics md data = collect (batch_series md) data.
Proof.
  unfold trackMetrics, collect, batch_series. rewrite foldl_bind. apply foldl_ext_fun. intros d rm.
  rewrite foldl_bind. apply foldl_ext_fun. intros d' sm. rewrite foldl_bind. apply foldl_ext_fun.
  intros d'' m. unfold processTimeSeriesProm. by rewrite foldl_fmap_fun.
Qed.

Lemma tracked_names m s : s ∈ metric_series m → s_name s ∈ familyNames m (BaseName m).
Proof.
  unfold metric_series, familyNames. destruct (m_data m) as [dps|? ? dps|dps|dps|dps|]; intros Hs.
  - apply list_elem_of_fmap in Hs as (dp & -> & _). left.
  - apply list_elem_of_fmap in Hs as (dp & -> & _). left.
  - apply list_elem_of_bind in Hs as (dp & Hs & _). unfold histogram_series in Hs.
    rewrite !elem_of_app, list_elem_of_fmap, !list_elem_of_singleton in Hs.
    destruct Hs as [(b & -> & _)|[->|[Hs| ->]]]; simpl; [set_solver..| |set_solver].
    destruct (hasHistogramSum dp); [apply list_elem_of_singleton in Hs as ->; simpl; set_solver|by apply elem_of_nil in Hs].
  - apply list_elem_of_fmap in Hs as (dp & -> & _). left.
  - apply list_elem_of_bind in Hs as (dp & Hs & _). unfold summary_series in Hs.
    rewrite !elem_of_app, list_elem_of_fmap, !elem_of_cons, elem_of_nil in Hs.
    destruct Hs as [(b & -> & _)|[->|[->|[]]]]; simpl; set_solver.
  - by apply elem_of_nil in Hs.
Qed.

Definition only_buckets (extra : list (string * string)) : Prop :=
  Forall (λ p, p.1 = "le" ∨ p.1 = "quantile") extra.

Lemma tracked_extra m s : s ∈ metric_series m → only_buckets (s_extra s).
Proof.
  unfold metric_series, only_buckets. destruct (m_data m) as [dps|? ? dps|dps|dps|dps|]; intros Hs.
  - apply list_elem_of_fmap in Hs as (dp & -> & _). constructor.
  - apply list_elem_of_fmap in Hs as (dp & -> & _). constructor.
  - apply list_elem_of_bind in Hs as (dp & Hs & _). unfold histogram_series in Hs.
    rewrite !elem_of_app, list_elem_of_fmap, !list_elem_of_singleton in Hs.
    destruct Hs as [(b & -> & _)|[->|[Hs| ->]]]; simpl; try (repeat constructor; by left).
    destruct (hasHistogramSum dp); [apply list_elem_of_singleton in Hs as ->; simpl; constructor|by apply elem_of_nil in Hs].
  - apply list_elem_of_fmap in Hs as (dp & -> & _). constructor.
  - apply list_elem_of_bind in Hs as (dp & Hs & _). unfold summary_series in Hs.
    rewrite !elem_of_app, list_elem_of_fmap, !elem_of_cons, elem_of_nil in Hs.
    destruct Hs as [(b & -> & _)|[->|[->|[]]]]; simpl; repeat constructor; by right.
  - by apply elem_of_nil in Hs.
Qed.

Lemma Normalize_le : NormalizeLabelName "le" = "le".
Proof. by apply Normalize_fix. Qed.

Lemma Normalize_quantile : NormalizeLabelName "quantile" = "quantile".
Proof. by apply Normalize_fix. Qed.

Lemma extra_lookup res point extra k :
  only_buckets extra → k ≠ "le" → k ≠ "quantile" →
  BuildSeriesLabels res point extra !! k = BuildSeriesLabels res point [] !! k.
Proof.
  intros HF N1 N2. unfold BuildSeriesLabels. simpl. generalize (addSynthesizedJobInstance (add_attrs (add_attrs ∅ res) point) res).
  induction HF as [|[n v] extra E HF IH]; intros a; [done|]. simpl. rewrite IH. simpl in E.
  apply lookup_insert_ne. destruct E as [->| ->]; rewrite ?Normalize_le, ?Normalize_quantile; done.
Qed.

End TrackerLemmas.

Lemma bytesToHex_encode l : bytesToHex l = hex_encode l.
Proof.
  induction l as [|b l IH]; [done|]. simpl. rewrite IH. pose proof (code_range b).
  rewrite Z.shiftr_div_pow2 by lia. change (2 ^ 4)%Z with 16%Z.
  change 15%Z with (Z.ones 4). rewrite Z.land_ones by lia.
  f_equal. f_equal. unfold lowerhex. change (2 ^ 4)%Z with 16%Z. by rewrite Z.mod_mod.
Qed.

(** The text of a collected entry is the text its key was hashed from. *)
Lemma entry_fingerprint `{UnicodeTables} m attrs n :
  buildFingerprintFromEntry (MkTimeseriesEntry m (extractSortedLabelPairs attrs) n) = buildFingerprintString m attrs.
Proof.
  unfold buildFingerprintFromEntry, buildFingerprintString, extractSortedLabelPairs. simpl.
  assert (length (sorted_keys attrs) = size attrs) as L.
  { unfold sorted_keys. by rewrite sort_strings_perm, length_fmap, length_map_to_list. }
  destruct (sorted_keys attrs) as [|k ks] eqn:E; simpl in L.
  - by rewrite <- L, decide_True.
  - rewrite decide_False by lia. rewrite !fmap_cons, <- list_fmap_compose. done.
Qed.

(** A logged line names the key as the caches print it, and the hashed text. *)
Lemma printed_line `{UnicodeTables} data k m attrs n :
  data !! k = Some (MkTimeseriesEntry m (extractSortedLabelPairs attrs) n) →
  PrintTimeseries data [k]
  = [HashKey_String k +:+ " , " +:+ buildFingerprintString m attrs +:+ " , " +:+ Itoa n].
Proof.
  intros E. unfold PrintTimeseries. cbn [omap list_omap]. rewrite E. cbn [fmap option_fmap option_map].
  by rewrite entry_fingerprint, bytesToHex_encode.
Qed.

(** The broadcast batch, exactly. *)
Lemma TrackerConsumeMetrics_counts `{UnicodeTables, PData, Namer, XXH3} (md : MetricsBatch) :
  collision_free (batch_series md) → Forall (λ s, Contains s.1 "{" = false) (batch_series md) →
  let '(batch, forwarded) := TrackerConsumeMetrics md in
  forwarded = md ∧
  (∀ s, s ∈ batch_series md →
     batch !! series_key s.1 s.2
     = Some (MkTimeseriesEntry s.1 (extractSortedLabelPairs s.2)
               (int64 (Z.of_nat (length (filter (λ s', s' = s) (batch_series md))))))) ∧
  (∀ k e, batch !! k = Some e → ∃ s, s ∈ batch_series md ∧ series_key s.1 s.2 = k).
Proof.
  intros CF HN. unfold TrackerConsumeMetrics. rewrite Broadcast_id, trackMetrics_collect.
  assert (Forall series_ok (batch_series md)) as F.
  { rewrite Forall_forall in HN |- *. intros s Hs. split; [by apply HN|].
    unfold batch_series in Hs. apply list_elem_of_bind in Hs as (rm & Hs & _).
    apply list_elem_of_bind in Hs as (sm & Hs & _). apply list_elem_of_bind in Hs as (m & Hs & _).
    apply list_elem_of_fmap in Hs as (x & -> & _). apply BuildSeriesLabels_ok. }
  split_and!; [done|intros s Hs; by apply collect_counts|].
  intros k e. rewrite collect_lookup. destruct (with_key k (batch_series md)) as [|s rest] eqn:E; [done|].
  intros _. exists s. assert (s ∈ with_key k (batch_series md)) as Hs by (rewrite E; left).
  by apply list_elem_of_filter in Hs as [? ?].
Qed.

(** ** Properties *)

(** C26: The fingerprint text identifies the series: two series whose metric
    names have no brace and whose fingerprints are equal have the same name and
    the same labels, whatever bytes the attribute keys and values contain
    (keys are normalized, values quoted). *)
Theorem fingerprints_identify_series `{UnicodeTables, PData} (n1 n2 : string)
    (res1 point1 res2 point2 : AttrMap) (extra1 extra2 : list (string * string)) :
  Contains n1 "{" = false → Contains n2 "{" = false →
  buildFingerprintString n1 (BuildSeriesLabels res1 point1 extra1)
  = buildFingerprintString n2 (BuildSeriesLabels res2 point2 extra2) →
  n1 = n2 ∧ BuildSeriesLabels res1 point1 extra1 = BuildSeriesLabels res2 point2 extra2.
Proof. intros N1 N2. apply fingerprint_inj; [done..|apply BuildSeriesLabels_ok|apply BuildSeriesLabels_ok]. Qed.

(** The broadcast batch counts every series exactly: if no two different
    fingerprints of the batch collide under the hash, each series the batch's
    datapoints are written as is found under its key with its name, its sorted
    labels and the number of times it occurs, every entry of the batch is such a
    series, and the metrics are handed on unchanged. *)
Theorem tracker_counts_series `{UnicodeTables, PData, Namer, XXH3} (md : MetricsBatch) :
  collision_free (batch_series md) → Forall (λ s, Contains s.1 "{" = false) (batch_series md) →
  let '(batch, forwarded) := TrackerConsumeMetrics md in
  forwarded = md ∧
  (∀ s, s ∈ batch_series md →
     batch !! series_key s.1 s.2
     = Some (MkTimeseriesEntry s.1 (extractSortedLabelPairs s.2)
               (int64 (Z.of_nat (length (filter (λ s', s' = s) (batch_series md))))))) ∧
  (∀ k e, batch !! k = Some e → ∃ s, s ∈ batch_series md ∧ series_key s.1 s.2 = k).
Proof. apply TrackerConsumeMetrics_counts. Qed.

(** Tracker and demand filter agree on what a series is: every series the
    tracker indexes for a metric has one of the names the filter matches the
    metric under, and its labels are those the filter evaluates except for le
    and quantile, the two labels the filter ignores. *)
Theorem tracker_agrees_with_filter `{UnicodeTables, PData, Namer} (m : Metric) (s : series) (res : AttrMap) (k : string) :
  s ∈ metric_series m →
  s_name s ∈ familyNames m (BaseName m) ∧
  (k ≠ "le" → k ≠ "quantile" →
   BuildSeriesLabels res (s_point s) (s_extra s) !! k
   = (add_attrs ∅ (s_point s) ∪ ResourceLabelMap res) !! k).
Proof.
  intros Hs. split; [by apply tracked_names|]. intros N1 N2.
  rewrite extra_lookup by (done || by eapply tracked_extra). by rewrite series_labels_union.
Qed.

(** ** Evaluation *)

Module TrackerSample.

(** A hash for small examples: the length and the byte sum of the text. *)
Definition hash : XXH3 :=
  {| Hash128 s := (Z.of_nat (len s), foldr (λ c acc, code c + acc)%Z 0%Z (bytes s)) |}.

Definition md := DemandFilterSample.batch [DemandFilterSample.metric "up" [[("env", "prod")]; [("env", "prod")]]].

Definition labels : gmap string string :=
  @BuildSeriesLabels latin1_tables AssocPData.pdata [("service.name", "api")] [("env", "prod")] [].

Example fingerprint_text :
  buildFingerprintString (H := latin1_tables) "up" {["env" := "prod"]}
  = "up{env=" +:+ String dquote ("prod" +:+ String dquote "}").
Proof. by vm_compute. Qed.

Example one_series :
  map_to_list (@TrackerConsumeMetrics latin1_tables AssocPData.pdata DemandFilterSample.namer hash md).1
  = [(series_key (H := latin1_tables) (H0 := hash) "up" labels,
      MkTimeseriesEntry "up" [MkLabelPair "env" "prod"; MkLabelPair "job" "api"; MkLabelPair "service_name" "api"] 2)].
Proof. by vm_compute. Qed.

(** A value that closes its quotes and goes on like a second label. *)
Definition one_value : list (string * string) :=
  [("a", "x" +:+ String dquote (",b=" +:+ String dquote "y"))].
Definition two_values : list (string * string) := [("a", "x"); ("b", "y")].

End TrackerSample.

(** Attributes in another order and under another spelling of a key have the
    fingerprint, so they are the same series; and a value that is written like two
    attributes is told apart from the two. *)
Lemma fingerprints_identify_series_witness :
  let build (point : list (string * string)) :=
    @BuildSeriesLabels latin1_tables AssocPData.pdata [("service.name", "api")] point [] in
  let text point := @buildFingerprintString latin1_tables "up" (build point) in
  build [("env", "prod"); ("http.method", "GET")] = build [("http_method", "GET"); ("env", "prod")] ∧
  text TrackerSample.one_value ≠ text TrackerSample.two_values.
Proof.
  intros build text. split.
  - assert (text [("env", "prod"); ("http.method", "GET")] = text [("http_method", "GET"); ("env", "prod")]) as E
      by (vm_compute; reflexivity).
    exact (proj2 (@fingerprints_identify_series latin1_tables AssocPData.pdata "up" "up"
      [("service.name", "api")] [("env", "prod"); ("http.method", "GET")]
      [("service.name", "api")] [("http_method", "GET"); ("env", "prod")] [] [] eq_refl eq_refl E)).
  - intros E.
    pose proof (proj2 (@fingerprints_identify_series latin1_tables AssocPData.pdata "up" "up"
      [("service.name", "api")] TrackerSample.one_value
      [("service.name", "api")] TrackerSample.two_values [] [] eq_refl eq_refl E)) as L.
    apply (f_equal (λ m, m !! ("b" : string))) in L. vm_compute in L. discriminate L.
Defined.

Lemma tracker_counts_series_witness :
  let md := TrackerSample.md in
  let s := ("up", TrackerSample.labels) in
  (@TrackerConsumeMetrics latin1_tables AssocPData.pdata DemandFilterSample.namer TrackerSample.hash md).1
    !! @series_key latin1_tables TrackerSample.hash s.1 s.2
  = Some (MkTimeseriesEntry "up" (extractSortedLabelPairs TrackerSample.labels) 2).
Proof.
  intros md s.
  assert (@batch_series latin1_tables AssocPData.pdata DemandFilterSample.namer md = [s; s]) as E by reflexivity.
  assert (@collision_free latin1_tables TrackerSample.hash
    (@batch_series latin1_tables AssocPData.pdata DemandFilterSample.namer md)) as CF.
  { rewrite E. intros s1 s2 H1 H2 _. rewrite !elem_of_cons, elem_of_nil in H1, H2.
    destruct_or!; subst; reflexivity. }
  assert (Forall (λ s, Contains s.1 "{" = false)
    (@batch_series latin1_tables AssocPData.pdata DemandFilterSample.namer md)) as F.
  { rewrite E. repeat constructor. }
  refine (proj1 (proj2 (@tracker_counts_series latin1_tables AssocPData.pdata DemandFilterSample.namer
    TrackerSample.hash md CF F)) s _).
  rewrite E. left.
Defined.

Lemma tracker_agrees_with_filter_witness :
  let m := DemandFilterSample.metric "up" [[("env", "prod")]] in
  let s := @MkSeries AssocPData.pdata "up" [("env", "prod")] [] in
  s ∈ @metric_series AssocPData.pdata DemandFilterSample.namer m ∧
  s_name s ∈ familyNames m (@BaseName AssocPData.pdata DemandFilterSample.namer m).
Proof.
  intros m s.
  assert (s ∈ @metric_series AssocPData.pdata DemandFilterSample.namer m) as Hs by left.
  split; [exact Hs|].
  exact (proj1 (@tracker_agrees_with_filter latin1_tables AssocPData.pdata DemandFilterSample.namer
    m s [] "env" Hs)).
Defined.
