(* ===== verification/Delivery.v ===== *)
(** How a batch of tracked series enters the two caches of the controller
    ([ReceiveTimeseriesBatch] of components/edgecontroller/extension.go).

    [ReceiveTimeseriesBatch] is the handler as a function. The handler holds no
    lock of its own: each call of a cache takes that cache's lock, and the index
    processor, or the batch of another pipeline, may come in between. [deliver_one]
    is the same handler one call at a time, from a [delivery], which says what the
    handler has still to do; uninterrupted it is the function ([deliver_alone]).
    [covered] is what the handler keeps: that a known series, and one about to be
    recorded, waits to be announced or is accounted for. *)

From S2P Require Import Prelude GoText MetricsIndex KnownCache DiscoveredCache.

Record caches := MkCaches {
  known : KnownTimeseriesCache;
  discovered : DiscoveredTimeseriesCache;
}.

(** One series; [None] is the panic of an update before the epoch. *)
Definition receive_one (nowUnix : Z) (oc : option caches) (ke : HashKey * TimeseriesEntry) : option caches :=
  c ← oc;
  let '(key, entry) := ke in
  if IsTimeseriesKnown (known c) key then
    k ← UpdateTimeseries (known c) nowUnix key entry; Some (MkCaches k (discovered c))
  else
    let d := Add (discovered c) key entry in
    k ← UpdateTimeseries (known c) nowUnix key entry; Some (MkCaches k d).

(** The batch's map in iteration order. *)
Definition ReceiveTimeseriesBatch (c : caches) (nowUnix : Z) (batch : list (HashKey * TimeseriesEntry))
  : option caches := foldl (receive_one nowUnix) (Some c) batch.

(** ** Call by call *)

(** What comes next: the look-up of the first series left, the [Add] of one that
    was not known, or the update. *)
Inductive delivery :=
| Looking (rest : list (HashKey * TimeseriesEntry))
| Adding (key : HashKey) (entry : TimeseriesEntry) (rest : list (HashKey * TimeseriesEntry))
| Recording (key : HashKey) (entry : TimeseriesEntry) (rest : list (HashKey * TimeseriesEntry)).

(** One call. [None]: the batch is finished, or the update panics. *)
Definition deliver_one (nowUnix : Z) (c : caches) (d : delivery) : option (caches * delivery) :=
  match d with
  | Looking [] => None
  | Looking ((key, entry) :: rest) =>
      if IsTimeseriesKnown (known c) key then Some (c, Recording key entry rest)
      else Some (c, Adding key entry rest)
  | Adding key entry rest => Some (MkCaches (known c) (Add (discovered c) key entry), Recording key entry rest)
  | Recording key entry rest =>
      k ← UpdateTimeseries (known c) nowUnix key entry; Some (MkCaches k (discovered c), Looking rest)
  end.

Definition deliver_step (nowUnix : Z) (x y : caches * delivery) : Prop := deliver_one nowUnix x.1 x.2 = Some y.

Lemma receive_none t l : foldl (receive_one t) None l = None.
Proof. by induction l. Qed.

(** With nobody in between, the calls are the function. *)
Lemma deliver_alone t batch c c' :
  ReceiveTimeseriesBatch c t batch = Some c' → rtc (deliver_step t) (c, Looking batch) (c', Looking []).
Proof.
  unfold ReceiveTimeseriesBatch. revert c. induction batch as [|[key entry] batch IH]; intros c E.
  { simpl in E. injection E as <-. apply rtc_refl. }
  cbn [foldl] in E. destruct (receive_one t (Some c) (key, entry)) as [c1|] eqn:E1; [|by rewrite receive_none in E].
  etrans; [|by apply IH]. unfold receive_one in E1. simpl in E1.
  destruct (IsTimeseriesKnown (known c) key) eqn:K;
    (destruct (UpdateTimeseries (known c) t key entry) as [k|] eqn:U; [|done]); simpl in E1; injection E1 as <-.
  - eapply rtc_l; [unfold deliver_step; simpl; by rewrite K|].
    eapply rtc_l; [|apply rtc_refl]. unfold deliver_step. simpl. by rewrite U.
  - eapply rtc_l; [unfold deliver_step; simpl; by rewrite K|].
    eapply rtc_l; [unfold deliver_step; reflexivity|].
    eapply rtc_l; [|apply rtc_refl]. unfold deliver_step. simpl. by rewrite U.
Qed.

(** ** What is kept *)

(** The series a delivery is committed to record: it found it known, or has
    queued it. *)
Definition promised (d : delivery) : gset HashKey :=
  match d with Recording key _ _ => {[key]} | _ => ∅ end.

(** Every known series, and every one of [P], is waiting to be announced or among
    [acc]. *)
Definition covered (P acc : gset HashKey) (c : caches) : Prop :=
  ∀ k, is_Some (known c !! k) ∨ k ∈ P → is_Some (discovered c !! k) ∨ k ∈ acc.

Lemma covered_mono P acc acc' c : acc ⊆ acc' → covered P acc c → covered P acc' c.
Proof. intros S HC k Hk. destruct (HC k Hk); [by left|right; set_solver]. Qed.

Lemma Update_dom c t key e c' :
  UpdateTimeseries c t key e = Some c' → ∀ k, is_Some (c' !! k) ↔ k = key ∨ is_Some (c !! k).
Proof.
  unfold UpdateTimeseries. intros E k.
  assert (∃ x, c' = <[key := x]> c) as [x ->].
  { destruct (c !! key) as [e0|].
    - destruct (samples _ !! _) as [v|]; [|done]. simpl in E. injection E as <-. eauto.
    - case_decide; [|done]. injection E as <-. eauto. }
  destruct (decide (k = key)) as [->|N]; [rewrite lookup_insert_eq; naive_solver|].
  rewrite lookup_insert_ne by done. naive_solver.
Qed.

Lemma is_Some_insert {A} (m : gmap HashKey A) (i k : HashKey) (x : A) :
  is_Some (<[i := x]> m !! k) ↔ k = i ∨ is_Some (m !! k).
Proof.
  destruct (decide (k = i)) as [->|N]; [rewrite lookup_insert_eq; naive_solver|].
  rewrite lookup_insert_ne by done. naive_solver.
Qed.

Lemma deliver_covered P acc t c d c' d' :
  deliver_one t c d = Some (c', d') → covered (promised d ∪ P) acc c → covered (promised d' ∪ P) acc c'.
Proof.
  intros E C k Hk. destruct d as [[|[key entry] rest]|key entry rest|key entry rest]; simpl in *; [done|..].
  - unfold IsTimeseriesKnown in E. case_bool_decide as K; injection E as <- <-; apply C; simpl in *; set_solver.
  - injection E as <- <-. simpl in *. unfold Add. rewrite is_Some_insert.
    destruct (decide (k = key)) as [->|N]; [by left; left|]. destruct (C k); [set_solver|by left; right|by right].
  - destruct (UpdateTimeseries (known c) t key entry) as [k'|] eqn:U; [|done]. simpl in E. injection E as <- <-.
    apply C. simpl in *. rewrite (Update_dom _ _ _ _ _ U) in Hk. set_solver.
Qed.

(** ** It ends *)

(** The calls left, and the return. *)
Definition delivery_rank (d : delivery) : nat :=
  match d with
  | Looking rest => 1 + 3 * length rest
  | Adding _ _ rest => 3 + 3 * length rest
  | Recording _ _ rest => 2 + 3 * length rest
  end.

Lemma deliver_decreases t c d c' d' : deliver_one t c d = Some (c', d') → delivery_rank d' < delivery_rank d.
Proof.
  destruct d as [[|[key entry] rest]|key entry rest|key entry rest]; simpl; [done|..].
  - destruct (IsTimeseriesKnown _ _); intros [= <- <-]; simpl; lia.
  - intros [= <- <-]. simpl. lia.
  - destruct (UpdateTimeseries _ _ _ _); simpl; [|done]. intros [= <- <-]. simpl. lia.
Qed.

(** The rings are arrays: their length never changes. *)
Definition rings_ok (c : caches) : Prop := map_Forall (λ _ e, length (samples e) = 8) (known c).

Lemma advance_length e h : length (samples (advanceRingBuffer e h)) = length (samples e).
Proof.
  unfold advanceRingBuffer. case_decide; [done|]. case_decide; simpl; [by rewrite length_fmap|].
  destruct (Nat.iter _ _ _) as [hd s] eqn:E. simpl. change s with (hd, s).2. rewrite <- E. clear E hd s.
  induction (Z.to_nat (int64 (h - lastHour e))) as [|n IH]; [done|].
  simpl. unfold set_slot. by rewrite length_insert, IH.
Qed.

Lemma Update_rings c t key e c' :
  UpdateTimeseries c t key e = Some c' → map_Forall (λ _ e, length (samples e) = 8) c →
  map_Forall (λ _ e, length (samples e) = 8) c'.
Proof.
  unfold UpdateTimeseries. intros E R. destruct (c !! key) as [e0|] eqn:K.
  - destruct (samples _ !! _) as [v|]; [|done]. simpl in E. injection E as <-. apply map_Forall_insert_2; [|done].
    simpl. unfold set_slot. rewrite length_insert, advance_length. by apply (R key).
  - case_decide; [|done]. injection E as <-. apply map_Forall_insert_2; [|done].
    simpl. unfold set_slot. by rewrite length_insert.
Qed.

Lemma deliver_rings t c d c' d' : deliver_one t c d = Some (c', d') → rings_ok c → rings_ok c'.
Proof.
  unfold rings_ok. destruct d as [[|[key entry] rest]|key entry rest|key entry rest]; simpl; [done|..].
  - by destruct (IsTimeseriesKnown _ _); intros [= <- <-].
  - by intros [= <- <-].
  - destruct (UpdateTimeseries _ _ _ _) as [k|] eqn:U; simpl; [|done]. intros [= <- <-]. by eapply Update_rings.
Qed.

(** There are clock readings an update works at: late enough for the whole ring to
    be stale, for instance. *)
Lemma Update_possible c key e :
  map_Forall (λ _ e, length (samples e) = 8) c → ∃ t c', UpdateTimeseries c t key e = Some c'.
Proof.
  intros R. unfold UpdateTimeseries. destruct (c !! key) as [e0|] eqn:K; [|exists 0%Z; eexists; reflexivity].
  set (h := (lastHour e0 + 8 + 2 ^ 64 * Z.abs (lastHour e0))%Z). exists (h * 3600)%Z.
  assert (hour_of (h * 3600) = h) as -> by (unfold hour_of; by rewrite Z.quot_mul).
  assert (advanceRingBuffer e0 h = MkKnown (ke_MetricName e0) (ke_LastUpdate e0) (ke_LastBackendSync e0) h
            (h mod 8) ((λ _, 0%Z) <$> samples e0)) as ->.
  { unfold advanceRingBuffer. rewrite decide_False by lia.
    assert (int64 (h - lastHour e0) = 8%Z) as ->.
    { unfold int64, wrap_s. replace (h - lastHour e0 + 2 ^ (64 - 1))%Z
        with (8 + 2 ^ (64 - 1) + Z.abs (lastHour e0) * 2 ^ 64)%Z by lia. by rewrite Z.mod_add. }
    rewrite decide_True by done. rewrite rem_HoursLog by lia.
    rewrite uint8_small; [done|]. pose proof (Z.mod_pos_bound h 8). unfold HoursLog. lia. }
  simpl. pose proof (R key e0 K) as L. simpl in L. pose proof (Z.mod_pos_bound h 8 eq_refl).
  destruct (lookup_lt_is_Some_2 ((λ _, 0%Z) <$> samples e0) (Z.to_nat (h mod 8))) as [v ->];
    [rewrite length_fmap; lia|]. simpl. eauto.
Qed.

Lemma deliver_possible c d :
  rings_ok c → d = Looking [] ∨ ∃ t x, deliver_one t c d = Some x.
Proof.
  intros R. destruct d as [[|[key entry] rest]|key entry rest|key entry rest]; simpl; [by left|right..].
  - exists 0%Z. destruct (IsTimeseriesKnown _ _); eauto.
  - exists 0%Z. eauto.
  - destruct (Update_possible (known c) key entry R) as (t & c' & U). exists t. rewrite U. simpl. eauto.
Qed.
