(* ===== verification/IndexSync.v ===== *)
(** Index synchronisation (components/edgecontroller/timeseries_processor.go): the
    series of the known and the discovered cache are announced, updated or deleted
    at the backend, one batch at a time, and the caches change when its
    acknowledgement arrives.

    The processing loop is split at its calls of the caches and where it waits for an
    acknowledgement: the first part of each operation computes a batch, the last
    applies it to the caches as they are then. The backend handles the message in
    between, and its answer may be lost. [sync_step] is what one processor and the
    backend do; batches arrive in between (see [Delivery] and [IndexSessions]).
    The theorems: the messages carry exactly the cached series, and what a refusal
    and a lost answer do. That no known series is forgotten is shown for the
    processors of all sessions together, in [IndexSessions]. *)

From S2P Require Import Prelude GoText MetricsIndex KnownCache DiscoveredCache Delivery.

Definition DiscoveredBatchSize : nat := 5000.
Definition KnownBatchSize : Z := 30000.
Definition LastBackendSyncThresholdSeconds : Z := 60.

(** ** Messages *)

Record Label := MkLabel { l_Name : string; l_Value : string }.

Record DiscoveredSeries := MkDiscoveredSeries {
  s_Fingerprint : list ascii;
  s_MetricName : string;
  s_Labels : list Label;
}.

Record ActiveSeries := MkActiveSeries {
  a_Fingerprint : list ascii;
  a_Samples : Z;
  a_LastUpdateMs : Z;
}.

Record Ack := MkAck { ack_Success : bool; ack_Message : string }.

(** [for i := 0; i+1 < len(labels); i += 2]. *)
Fixpoint pair_labels (l : list string) : list Label :=
  match l with
  | n :: v :: l => MkLabel n v :: pair_labels l
  | _ => []
  end.

(** A series with an undecodable fingerprint is skipped. *)
Definition discovered_series (it : DiscoveredTimeseriesItem) : option DiscoveredSeries :=
  fp ← hex_decode (di_HashKey it);
  Some (MkDiscoveredSeries fp (di_Name it) (pair_labels (di_Labels it))).

(** [sendDiscoveredTimeseriesBatch]: the series of the index-create message. *)
Definition index_create (items : list DiscoveredTimeseriesItem) : list DiscoveredSeries :=
  omap discovered_series items.

(** [sendActiveTimeseriesBatch] and [sendInactiveTimeseriesBatch]. *)
Definition index_update (items : list KnownActiveTimeseriesItem) : list ActiveSeries :=
  (λ it, MkActiveSeries (key_bytes (ai_HashKey it)) (TotalSamples it) (ai_LastUpdate it)) <$> items.

Definition index_delete (keys : list HashKey) : list (list ascii) := key_bytes <$> keys.

(** What the three send functions make of the acknowledgement they waited for:
    a refusal is logged and reported as success. *)
Definition send_outcome (r : result string Ack) : result string () :=
  match r with Err e => Err e | Ok _ => Ok () end.

(** ** The processing loop, around its waits *)

(** Where the loop is: at the start of a round; past an empty discovered cache; with
    the active batch taken; or waiting for the answer to a message. *)
Inductive phase :=
| Idle
| Checked
| Scanned (active : list KnownActiveTimeseriesItem)
| Creating (keys : list HashKey)
| Deleting (keys : list HashKey) (active : list KnownActiveTimeseriesItem)
| Updating (active : list KnownActiveTimeseriesItem).

Definition in_flight (w : phase) : bool :=
  match w with Creating _ | Deleting _ _ | Updating _ => true | _ => false end.

(** [processOneDiscoveredBatch] up to the send: the message and the keys to
    purge, or nothing when the cache is empty. *)
Definition discovered_begin (c : caches) (order : list HashKey)
  : option (list DiscoveredSeries * list HashKey) :=
  let '(items, keys) := GetBatch (discovered c) DiscoveredBatchSize order in
  match items with [] => None | _ => Some (index_create items, keys) end.

Definition discovered_end (c : caches) (keys : list HashKey) : caches :=
  MkCaches (known c) (PurgeBatch (discovered c) keys).

(** [processOneKnownBatch]: the active batch is taken first, then the inactive one,
    each with a clock reading of its own; the inactive one is sent first. *)
Definition known_active (c : caches) (nowUnix scanUnix : Z) (order : list HashKey)
  : list KnownActiveTimeseriesItem * caches :=
  let older := int64 (nowUnix - LastBackendSyncThresholdSeconds) in
  let '(active, k) := GetActiveTimeseriesBatch (known c) scanUnix older KnownBatchSize order in
  (active, MkCaches k (discovered c)).

Definition known_inactive (c : caches) (scanUnix : Z) (active : list KnownActiveTimeseriesItem)
    (order : list HashKey) : phase * caches :=
  let '(inactive, k) := GetInactiveTimeseriesBatch (known c) scanUnix KnownBatchSize order in
  let c := MkCaches k (discovered c) in
  match inactive, active with
  | [], [] => (Idle, c)
  | [], _ => (Updating active, c)
  | _, _ => (Deleting inactive active, c)
  end.

Definition delete_end (c : caches) (keys : list HashKey) (active : list KnownActiveTimeseriesItem) : phase * caches :=
  let c := MkCaches (DeleteBatch (known c) keys) (discovered c) in
  match active with [] => (Idle, c) | _ => (Updating active, c) end.

Definition update_end (c : caches) (nowUnix : Z) (active : list KnownActiveTimeseriesItem) : caches :=
  MkCaches (MarkSyncedBatch (known c) nowUnix (ai_HashKey <$> active)) (discovered c).

(** ** The machine *)

(** [accepted] is the backend's index and [answered] its answer to the message in
    flight. [doubtful] and [refused] are history: the series of deletions that
    were given up on without an answer, and whether any answer was a refusal. *)
Record sync := MkSync {
  sc : caches;
  waiting : phase;
  answered : option Ack;
  accepted : gset HashKey;
  doubtful : gset HashKey;
  refused : bool;
}.

(** The keys a phase asks the backend to delete. *)
Definition deleting (w : phase) : gset HashKey :=
  match w with Deleting keys _ => list_to_set keys | _ => ∅ end.

(** The backend's index once it has handled a message with success. *)
Definition handled (w : phase) (acc : gset HashKey) : gset HashKey :=
  match w with
  | Creating keys => list_to_set keys ∪ acc
  | Deleting keys _ => acc ∖ list_to_set keys
  | _ => acc
  end.

Inductive sync_step : sync → sync → Prop :=
| step_create s order msg keys :
    waiting s = Idle → discovered_begin (sc s) order = Some (msg, keys) →
    sync_step s (MkSync (sc s) (Creating keys) None (accepted s) (doubtful s) (refused s))
| step_checked s :
    waiting s = Idle → (∀ order, discovered_begin (sc s) order = None) →
    sync_step s (MkSync (sc s) Checked None (accepted s) (doubtful s) (refused s))
| step_active s t t' order active c' :
    waiting s = Checked → NoDup order → known_active (sc s) t t' order = (active, c') →
    sync_step s (MkSync c' (Scanned active) None (accepted s) (doubtful s) (refused s))
| step_inactive s t active order w c' :
    waiting s = Scanned active → NoDup order → known_inactive (sc s) t active order = (w, c') →
    sync_step s (MkSync c' w None (accepted s) (doubtful s) (refused s))
| step_handled s ack :
    (** The backend handles the message in flight and answers. *)
    in_flight (waiting s) = true → answered s = None →
    sync_step s (MkSync (sc s) (waiting s) (Some ack)
                   (if ack_Success ack then handled (waiting s) (accepted s) else accepted s)
                   (doubtful s) (refused s || negb (ack_Success ack)))
| step_created s keys ack :
    waiting s = Creating keys → answered s = Some ack → send_outcome (Ok ack) = Ok () →
    sync_step s (MkSync (discovered_end (sc s) keys) Idle None (accepted s) (doubtful s) (refused s))
| step_deleted s keys active ack w c' :
    waiting s = Deleting keys active → answered s = Some ack → delete_end (sc s) keys active = (w, c') →
    send_outcome (Ok ack) = Ok () →
    sync_step s (MkSync c' w None (accepted s) (doubtful s) (refused s))
| step_updated s t active ack :
    waiting s = Updating active → answered s = Some ack → send_outcome (Ok ack) = Ok () →
    sync_step s (MkSync (update_end (sc s) t active) Idle None (accepted s) (doubtful s) (refused s))
| step_failed s err :
    (** A send or acknowledgement error, whether or not the backend has the
        message: nothing is applied, the loop retries. *)
    in_flight (waiting s) = true → send_outcome (Err err) = Err err →
    sync_step s (MkSync (sc s) Idle None (accepted s) (deleting (waiting s) ∪ doubtful s) (refused s))
| step_late s k :
    (** A deletion that was given up on reaches the backend after all. *)
    k ∈ doubtful s →
    sync_step s (MkSync (sc s) (waiting s) (answered s) (accepted s ∖ {[k]}) (doubtful s) (refused s)).

(** The series an answered announcement is about to purge. *)
Definition applying (w : phase) (a : option Ack) : gset HashKey :=
  match w, a with Creating keys, Some _ => list_to_set keys | _, _ => ∅ end.

(** Without a refusal an answered announcement is in the index. *)
Definition applied_ok (s : sync) : Prop := applying (waiting s) (answered s) ⊆ accepted s ∪ doubtful s.

(** ** What a step keeps *)

Lemma scanned_dom h c c' k : scanned h c c' → is_Some (c' !! k) ↔ is_Some (c !! k).
Proof. intros S. destruct (S k) as [-> | ->]; [done|]. by rewrite fmap_is_Some. Qed.

Lemma known_active_ok c t t' order active c' :
  NoDup order → known_active c t t' order = (active, c') →
  discovered c' = discovered c ∧ scanned (hour_of t') (known c) (known c') ∧
  (Z.of_nat (length active) ≤ KnownBatchSize)%Z.
Proof.
  intros N. unfold known_active, GetActiveTimeseriesBatch.
  rewrite (decide_False (P := (KnownBatchSize ≤ 0)%Z)) by (unfold KnownBatchSize; lia). set (older := int64 _).
  destruct (active_scan_ok (known c) (hour_of t') older (Z.to_nat KnownBatchSize) order N) as (E & S & _).
  destruct (active_scan _ _ _ _ order) as [items k]. simpl in E, S. intros [= <- <-].
  split_and!; [done|done|]. rewrite E, length_take. unfold KnownBatchSize. lia.
Qed.

Lemma known_inactive_ok c t active order w c' :
  NoDup order → known_inactive c t active order = (w, c') →
  discovered c' = discovered c ∧ scanned (hour_of t) (known c) (known c') ∧
  match w with
  | Idle => active = []
  | Updating l => l = active
  | Deleting keys l => l = active ∧ (Z.of_nat (length keys) ≤ KnownBatchSize)%Z
  | _ => False
  end.
Proof.
  intros N. unfold known_inactive, GetInactiveTimeseriesBatch.
  rewrite (decide_False (P := (KnownBatchSize ≤ 0)%Z)) by (unfold KnownBatchSize; lia).
  destruct (inactive_scan_ok (known c) (hour_of t) (Z.to_nat KnownBatchSize) order N) as (E & S & _).
  destruct (inactive_scan _ _ _ order) as [keys k]. simpl in E, S.
  assert (Z.of_nat (length keys) ≤ KnownBatchSize)%Z as L by (rewrite E, length_take; unfold KnownBatchSize; lia).
  destruct keys, active; intros [= <- <-]; done.
Qed.

Lemma delete_end_eq c keys active w c' :
  delete_end c keys active = (w, c') →
  c' = MkCaches (DeleteBatch (known c) keys) (discovered c) ∧ deleting w = ∅ ∧ ∀ a, applying w a = ∅.
Proof. unfold delete_end. destruct active; by intros [= <- <-]. Qed.

Lemma sync_step_applied s s' : sync_step s s' → refused s' = false → applied_ok s → applied_ok s'.
Proof.
  intros S R I. unfold applied_ok in *. destruct S as [s order msg keys W E|s W ED|s t t' order active c' W N E
    |s t active order w c' W N E|s ack W AN|s keys ack W AN|s keys active ack w c' W AN E|s t active ack W AN|s err W
    |s k Hk]; simpl in *; try set_solver.
  - by destruct w.
  - apply orb_false_iff in R as [R ->%negb_false_iff]. destruct (waiting s); simpl; set_solver.
  - by destruct w.
  - intros x Hx. specialize (I x Hx). destruct (decide (x = k)); set_solver.
Qed.

(** What is queued, or known to the backend, or in its hands, stays so, or is
    dropped with an answered deletion. *)
Lemma sync_step_keeps s s' k :
  sync_step s s' → refused s' = false → applied_ok s →
  is_Some (discovered (sc s) !! k) ∨ k ∈ accepted s ∪ deleting (waiting s) ∪ doubtful s →
  is_Some (discovered (sc s') !! k) ∨
  k ∈ accepted s' ∪ deleting (waiting s') ∪ (doubtful s' ∪ deleting (waiting s) ∖ deleting (waiting s')).
Proof.
  intros S R I Hk. destruct (decide (k ∈ deleting (waiting s) ∖ deleting (waiting s'))) as [?|ND]; [set_solver|].
  cut (is_Some (discovered (sc s') !! k) ∨ k ∈ accepted s' ∪ deleting (waiting s') ∪ doubtful s'); [set_solver|].
  destruct S as [s order msg keys W E|s W ED|s t t' order active c' W N E|s t active order w c' W N E|s ack W AN
    |s keys ack W AN|s keys active ack w c' W AN E|s t active ack W AN|s err W|s k' Hk']; simpl in *;
    try set_solver; try (rewrite W in *; simpl in *; set_solver).
  - destruct (known_active_ok _ _ _ _ _ _ N E) as (-> & _). rewrite W in *. simpl in *. set_solver.
  - destruct (known_inactive_ok _ _ _ _ _ _ N E) as (-> & _). rewrite W in *. simpl in *. set_solver.
  - apply orb_false_iff in R as [R ->%negb_false_iff]. unfold handled.
    destruct (waiting s) as [| | |keys|keys active|active]; simpl in *; try set_solver.
    destruct (decide (k ∈ (list_to_set keys : gset HashKey))); set_solver.
  - unfold applied_ok in I. rewrite W, AN in *. simpl in *. unfold PurgeBatch. rewrite foldl_delete_lookup.
    case_decide as D; [|set_solver]. rewrite <- (elem_of_list_to_set (C := gset HashKey)) in D. set_solver.
  - apply delete_end_eq in E as (-> & E & _). rewrite W in *. simpl in *. set_solver.
  - destruct (decide (k = k')); set_solver.
Qed.

(** A step makes no series known, and forgets what an answered deletion has removed. *)
Lemma sync_step_known s s' k :
  sync_step s s' → is_Some (known (sc s') !! k) →
  is_Some (known (sc s) !! k) ∧ (k ∈ deleting (waiting s) ∖ deleting (waiting s') → k ∈ doubtful s').
Proof.
  intros S Hk. destruct S as [s order msg keys W E|s W ED|s t t' order active c' W N E|s t active order w c' W N E|s ack W AN
    |s keys ack W AN|s keys active ack w c' W AN E|s t active ack W AN|s err W|s k' Hk']; simpl in *;
    try (split; [done|rewrite ?W; simpl; set_solver]).
  - destruct (known_active_ok _ _ _ _ _ _ N E) as (_ & S & _). rewrite (scanned_dom _ _ _ _ S) in Hk.
    split; [done|rewrite W; simpl; set_solver].
  - destruct (known_inactive_ok _ _ _ _ _ _ N E) as (_ & S & _). rewrite (scanned_dom _ _ _ _ S) in Hk.
    split; [done|rewrite W; simpl; set_solver].
  - apply delete_end_eq in E as (-> & E & _). simpl in Hk. unfold DeleteBatch in Hk.
    rewrite foldl_delete_lookup in Hk. case_decide as D; [by destruct Hk|]. split; [done|]. rewrite W. simpl.
    rewrite elem_of_difference, elem_of_list_to_set. naive_solver.
  - rewrite MarkSyncedBatch_lookup, fmap_is_Some in Hk. split; [done|rewrite W; simpl; set_solver].
Qed.

(** With [P] about to be recorded, only an answered deletion of some of [P] leaves
    them uncovered. *)
Lemma sync_step_covered P s s' :
  sync_step s s' → refused s' = false → applied_ok s →
  covered P (accepted s ∪ deleting (waiting s) ∪ doubtful s) (sc s) →
  covered P (accepted s' ∪ deleting (waiting s') ∪
             (doubtful s' ∪ (deleting (waiting s) ∖ deleting (waiting s')) ∩ P)) (sc s').
Proof.
  intros S R I C k Hk.
  assert (is_Some (known (sc s) !! k) ∨ k ∈ P) as Hk0 by (destruct Hk as [Hk|Hk]; [left; by eapply sync_step_known|by right]).
  destruct (sync_step_keeps s s' k S R I (C k Hk0)) as [?|G]; [by left|right].
  destruct Hk as [Hk|Hk]; [|set_solver]. destruct (sync_step_known s s' k S Hk) as [_ D]. set_solver.
Qed.

(** The arrays stay arrays. *)
Lemma scanned_rings h c c' :
  scanned h c c' → map_Forall (λ _ e, length (samples e) = 8) c → map_Forall (λ _ e, length (samples e) = 8) c'.
Proof.
  intros S R k e E. destruct (S k) as [Ek|Ek]; rewrite Ek in E; [by apply (R k)|].
  destruct (c !! k) as [e0|] eqn:E0; [|done]. simpl in E. injection E as <-. rewrite advance_length. by apply (R k).
Qed.

Lemma sync_step_rings s s' : sync_step s s' → rings_ok (sc s) → rings_ok (sc s').
Proof.
  unfold rings_ok. intros S R. destruct S as [s order msg keys W E|s W ED|s t t' order active c' W N E
    |s t active order w c' W N E|s ack W AN|s keys ack W AN|s keys active ack w c' W AN E|s t active ack W AN|s err W
    |s k' Hk']; simpl in *; try done.
  - destruct (known_active_ok _ _ _ _ _ _ N E) as (_ & S & _). by eapply scanned_rings.
  - destruct (known_inactive_ok _ _ _ _ _ _ N E) as (_ & S & _). by eapply scanned_rings.
  - apply delete_end_eq in E as (-> & _). simpl. intros k e E. unfold DeleteBatch in E.
    rewrite foldl_delete_lookup in E. case_decide; [done|]. by apply (R k).
  - intros k e E. rewrite MarkSyncedBatch_lookup in E. destruct (known (sc s) !! k) as [e0|] eqn:E0; [|done].
    simpl in E. injection E as <-. pose proof (R k e0 E0). by case_decide.
Qed.

(** What is in doubt stays so. *)
Lemma sync_step_doubts s s' : sync_step s s' → doubtful s ⊆ doubtful s'.
Proof. intros S. destruct S; simpl; set_solver. Qed.

(** A refusal is remembered. *)
Lemma sync_step_refused s s' : sync_step s s' → refused s' = false → refused s = false.
Proof. intros S. destruct S; simpl; try done. by intros [-> _]%orb_false_iff. Qed.

(** ** Messages *)

Lemma pair_flatten ls : pair_labels (flatten_labels ls) = (λ lp, MkLabel (lp_Name lp) (lp_Value lp)) <$> ls.
Proof. induction ls as [|lp ls IH]; [done|]. rewrite flatten_cons. simpl. by f_equal. Qed.

(** What the index-create message says of one series. *)
Definition create_of (p : HashKey * TimeseriesEntry) : DiscoveredSeries :=
  MkDiscoveredSeries (key_bytes p.1) (te_MetricName p.2)
    ((λ lp, MkLabel (lp_Name lp) (lp_Value lp)) <$> te_Labels p.2).

Lemma discovered_series_item p : discovered_series (discovered_item p.1 p.2) = Some (create_of p).
Proof.
  unfold discovered_series, discovered_item, create_of. simpl. unfold HashKey_String.
  rewrite hex_decode_encode. simpl. by rewrite pair_flatten.
Qed.

Lemma index_create_items l : index_create ((λ p, discovered_item p.1 p.2) <$> l) = create_of <$> l.
Proof.
  unfold index_create. induction l as [|p l IH]; [done|]. rewrite !fmap_cons. cbn [omap list_omap].
  rewrite discovered_series_item. by f_equal.
Qed.

Lemma GetBatch_eq c n order :
  GetBatch c n order =
  let found := take (Nat.min n (size c)) (omap (λ k, (λ e, (k, e)) <$> c !! k) order) in
  ((λ p, discovered_item p.1 p.2) <$> found, found.*1).
Proof.
  unfold GetBatch.
  assert ((if decide (n < size c) then n else size c) = Nat.min n (size c)) as -> by (case_decide; lia).
  case_decide as E; [by rewrite E|]. apply collect_ok.
Qed.

(** An index-create message carries exactly the queued series it will purge: for a
    complete iteration order it lists, without skipping any, as many queued series
    as fit the batch, each with its fingerprint bytes, its metric name and its label
    pairs in order, and the keys purged on acknowledgement are those series' keys. *)
Lemma discovered_begin_ok c order msg keys :
  order ≡ₚ (map_to_list (discovered c)).*1 → discovered_begin c order = Some (msg, keys) →
  ∃ found, msg = create_of <$> found ∧ keys = found.*1 ∧ NoDup keys ∧
    length found = Nat.min DiscoveredBatchSize (size (discovered c)) ∧
    Forall (λ p, discovered c !! p.1 = Some p.2) found.
Proof.
  intros P E. unfold discovered_begin in E. rewrite GetBatch_eq in E. cbv zeta in E.
  set (all := omap (λ k, (λ e, (k, e)) <$> discovered c !! k) order) in E.
  set (found := take (DiscoveredBatchSize `min` size (discovered c)) all) in E.
  assert (all ≡ₚ map_to_list (discovered c)) as PA by by apply order_entries.
  assert (msg = create_of <$> found ∧ keys = found.*1) as [-> ->].
  { destruct ((λ p, discovered_item p.1 p.2) <$> found) eqn:EF in E; [done|].
    injection E as <- <-. split; [|done]. by rewrite <- index_create_items, EF. }
  exists found. split_and!; [done|done| | |].
  - assert (NoDup all.*1) as ND by (rewrite PA; apply NoDup_fst_map_to_list).
    unfold found. rewrite fmap_take. eapply sublist_NoDup; [exact ND|apply sublist_take].
  - unfold found. rewrite length_take, PA, length_map_to_list. lia.
  - apply Forall_forall. intros [k e] Hp. unfold found in Hp.
    assert ((k, e) ∈ all) as Ha by by apply subseteq_take in Hp.
    rewrite PA in Ha. by apply elem_of_map_to_list in Ha.
Qed.

(** A queue that fits a batch is announced whole. *)
Lemma discovered_begin_whole c order msg keys k e :
  order ≡ₚ (map_to_list (discovered c)).*1 → discovered_begin c order = Some (msg, keys) →
  size (discovered c) ≤ DiscoveredBatchSize → discovered c !! k = Some e →
  ∃ found, msg = create_of <$> found ∧ (k, e) ∈ found.
Proof.
  intros P E B Hk. destruct (discovered_begin_ok c order msg keys P E) as (found & -> & -> & ND & L & F).
  exists found. split; [done|]. rewrite Nat.min_r in L by done.
  assert (found ≡ₚ map_to_list (discovered c)) as ->; [|by apply elem_of_map_to_list].
  apply submseteq_length_Permutation; [|by rewrite length_map_to_list, L].
  apply NoDup_submseteq; [by eapply NoDup_fmap_1|]. intros [k' e'] Hp. rewrite Forall_forall in F.
  by apply elem_of_map_to_list, (F (k', e')).
Qed.

(** ** Properties *)

(** A known series is not queued again by a report. *)
Lemma report_does_not_queue c t k e c' :
  is_Some (known c !! k) → discovered c !! k = None →
  receive_one t (Some c) (k, e) = Some c' → discovered c' !! k = None.
Proof.
  intros Kn D. unfold receive_one. simpl. unfold IsTimeseriesKnown. rewrite bool_decide_true by done.
  destruct (UpdateTimeseries (known c) t k e); simpl; [|done]. by intros [= <-].
Qed.

(** C39: A refused announcement is treated as accepted: after an index-create
    acknowledged without success the queued series are purged, so the series
    remains known but is neither queued nor accepted, and no later report of it
    queues it again. *)
Theorem refused_announcement_is_dropped (s : sync) (keys : list HashKey) (ack : Ack) (k : HashKey) :
  waiting s = Creating keys → answered s = Some ack → ack_Success ack = false →
  k ∈ keys → is_Some (known (sc s) !! k) → k ∉ accepted s →
  ∃ s', sync_step s s' ∧ waiting s' = Idle ∧ is_Some (known (sc s') !! k) ∧
        discovered (sc s') !! k = None ∧ k ∉ accepted s' ∧
        ∀ t e c', receive_one t (Some (sc s')) (k, e) = Some c' → discovered c' !! k = None.
Proof.
  intros W AN _ Hk Kn NA. eexists. split; [by apply (step_created s keys ack)|]. simpl.
  assert (PurgeBatch (discovered (sc s)) keys !! k = None) as ED.
  { unfold PurgeBatch. by rewrite foldl_delete_lookup, decide_True. }
  split_and!; [done..|]. intros t e c'. exact (report_does_not_queue (discovered_end (sc s) keys) t k e c' Kn ED).
Qed.

(** A deletion the backend has carried out and whose answer is lost orphans a
    series: it stays known, is in no index, and no report of it queues it, also
    when the series has come back to life. *)
Theorem unanswered_deletion_orphans (s : sync) (keys : list HashKey) (active : list KnownActiveTimeseriesItem)
    (ack : Ack) (k : HashKey) :
  waiting s = Deleting keys active → answered s = Some ack →
  k ∈ keys → is_Some (known (sc s) !! k) → discovered (sc s) !! k = None → k ∉ accepted s →
  ∃ s', sync_step s s' ∧ waiting s' = Idle ∧ is_Some (known (sc s') !! k) ∧
        discovered (sc s') !! k = None ∧ k ∉ accepted s' ∧ k ∈ doubtful s' ∧
        ∀ t e c', receive_one t (Some (sc s')) (k, e) = Some c' → discovered c' !! k = None.
Proof.
  intros W _ Hk Kn ED NA. eexists. split; [apply (step_failed s "timeout"); [by rewrite W|done]|]. simpl. rewrite W. simpl.
  split_and!; [done..| |].
  - rewrite elem_of_union, elem_of_list_to_set. by left.
  - intros t e c'. exact (report_does_not_queue (sc s) t k e c' Kn ED).
Qed.

(** ** Evaluation *)

Module IndexSyncSample.

Definition key := KnownCacheSample.key "a".
Definition entry : TimeseriesEntry := MkTimeseriesEntry "up" [MkLabelPair "job" "api"] 3.

Definition received : caches :=
  default (MkCaches Init DInit) (ReceiveTimeseriesBatch (MkCaches Init DInit) 7200 [(key, entry)]).

Definition quota : Ack := MkAck false "quota".
Definition s3 : sync := MkSync received (Creating [key]) (Some quota) ∅ ∅ true.

Example message : discovered_begin received [key] = Some ([create_of (key, entry)], [key]).
Proof. by vm_compute. Qed.

(** Eight hours later the series is deleted, the answer is lost, and a new sample
    does not queue it. *)
Definition quiet_caches : caches := discovered_end received [key].
Definition d1 : sync := MkSync quiet_caches (Deleting [key] []) (Some (MkAck true "")) ∅ ∅ false.

Example orphaned :
  ∃ s', sync_step d1 s' ∧ is_Some (known (sc s') !! key) ∧ discovered (sc s') !! key = None ∧ key ∉ accepted s'.
Proof.
  destruct (unanswered_deletion_orphans d1 [key] [] (MkAck true "") key) as (s' & S & _ & K & D & A & _).
  - reflexivity.
  - reflexivity.
  - left.
  - apply (bool_decide_unpack _). vm_compute. reflexivity.
  - vm_compute. reflexivity.
  - apply not_elem_of_empty.
  - eauto.
Qed.

End IndexSyncSample.

Lemma refused_announcement_is_dropped_witness :
  let s := IndexSyncSample.s3 in
  let k := IndexSyncSample.key in
  ∃ s', sync_step s s' ∧ waiting s' = Idle ∧ is_Some (known (sc s') !! k) ∧
        discovered (sc s') !! k = None ∧ k ∉ accepted s' ∧
        ∀ t e c', receive_one t (Some (sc s')) (k, e) = Some c' → discovered c' !! k = None.
Proof.
  intros s k. apply (refused_announcement_is_dropped s [k] IndexSyncSample.quota k).
  - reflexivity.
  - reflexivity.
  - reflexivity.
  - left.
  - apply (bool_decide_unpack _). vm_compute. reflexivity.
  - apply not_elem_of_empty.
Defined.
