(* ===== verification/IndexSessions.v ===== *)
(** The index processors of all sessions (components/edgecontroller/extension.go
    and timeseries_processor.go): each connection starts a processor of its own,
    and the one of a lost connection may still be at work, with an answer it has
    received but not yet applied, when the next has begun. They share the caches
    and the backend, and the batches of the pipelines arrive in between, any number
    at a time.

    [IndexSync.sync_step] is what one processor does and [Delivery.deliver_one] what
    the delivery of one batch does, each a call of a cache or an exchange with the
    backend. [sessions_announced]: however the processors of however many sessions
    and the deliveries interleave, as long as no acknowledgement is a refusal every
    known series is waiting to be announced, in the backend's index, being deleted,
    or in doubt, for one of three reasons: the answer to its deletion was lost; it
    was deleted while another processor had still to apply an acknowledged
    announcement of it; or an acknowledged deletion of it was applied while a
    delivery that had found it known had still to record it. The last is a race in
    the handler: [late_report_orphans]. *)

From S2P Require Import Prelude GoText MetricsIndex KnownCache DiscoveredCache Delivery IndexSync.

(** What a processor waits for, and the answer to it. *)
Notation worker := (phase * option Ack)%type.

Record sessions := MkSessions {
  ss_caches : caches;
  workers : list worker;
  ss_inbound : list delivery;
  ss_accepted : gset HashKey;
  ss_doubtful : gset HashKey;
  ss_refused : bool;
}.

Definition sessions_init : sessions := MkSessions (MkCaches Init DInit) [] [] ∅ ∅ false.

(** The system as one of its processors sees it. *)
Definition view_of (s : sessions) (p : worker) : sync :=
  MkSync (ss_caches s) p.1 p.2 (ss_accepted s) (ss_doubtful s) (ss_refused s).

Definition applying_any (l : list worker) : gset HashKey := ⋃ ((λ p, applying p.1 p.2) <$> l).
Definition deleting_any (l : list worker) : gset HashKey := ⋃ ((λ p, deleting p.1) <$> l).
Definition promised_any (l : list delivery) : gset HashKey := ⋃ (promised <$> l).

(** After the work [y] of the processor [p] between [before] and [after]: a series
    that left the index while another processor has an announcement of it to apply,
    and one whose deletion was applied while a delivery has to record it, is in
    doubt from then on. *)
Definition worked (s : sessions) (before : list worker) (p : worker) (after : list worker) (y : sync) : sessions :=
  MkSessions (sc y) (before ++ (waiting y, answered y) :: after) (ss_inbound s) (accepted y)
    (doubtful y ∪ ((ss_accepted s ∖ accepted y) ∩ applying_any (before ++ after))
                ∪ ((deleting p.1 ∖ deleting (waiting y)) ∩ promised_any (ss_inbound s))) (refused y).

Definition with_workers (s : sessions) (l : list worker) : sessions :=
  MkSessions (ss_caches s) l (ss_inbound s) (ss_accepted s) (ss_doubtful s) (ss_refused s).
Definition opened (s : sessions) : sessions := with_workers s ((Idle, None) :: workers s).
Definition filled (s : sessions) (c : caches) (l : list delivery) : sessions :=
  MkSessions c (workers s) l (ss_accepted s) (ss_doubtful s) (ss_refused s).

Inductive sessions_step : sessions → sessions → Prop :=
| session_opens s :
    (** [startTimeseriesProcessor] of a new connection. *)
    sessions_step s (opened s)
| session_closes s before p after :
    (** A processor ends between two batches, once its context is done. *)
    workers s = before ++ p :: after → p.1 = Idle → sessions_step s (with_workers s (before ++ after))
| session_works s before p after y :
    workers s = before ++ p :: after → sync_step (view_of s p) y → sessions_step s (worked s before p after y)
| session_receives s batch :
    (** A pipeline hands over a batch. *)
    sessions_step s (filled s (ss_caches s) (Looking batch :: ss_inbound s))
| session_delivers s before d after t c' d' :
    ss_inbound s = before ++ d :: after → deliver_one t (ss_caches s) d = Some (c', d') →
    sessions_step s (filled s c' (before ++ d' :: after))
| session_delivered s before after :
    ss_inbound s = before ++ Looking [] :: after → sessions_step s (filled s (ss_caches s) (before ++ after)).

(** What holds without a refusal. *)
Definition sessions_ok (s : sessions) : Prop :=
  ss_refused s = false →
  covered (promised_any (ss_inbound s)) (ss_accepted s ∪ deleting_any (workers s) ∪ ss_doubtful s) (ss_caches s) ∧
  applying_any (workers s) ⊆ ss_accepted s ∪ ss_doubtful s.

(** ** The others *)

Lemma union_middle {A} (f : A → gset HashKey) before x after :
  ⋃ (f <$> before ++ x :: after) = f x ∪ ⋃ (f <$> before ++ after).
Proof. rewrite !fmap_app, fmap_cons, !union_list_app_L, union_list_cons. set_solver. Qed.

Lemma deleting_any_middle before p after :
  deleting_any (before ++ p :: after) = deleting p.1 ∪ deleting_any (before ++ after).
Proof. apply (union_middle (λ p, deleting p.1)). Qed.

Lemma applying_any_middle before p after :
  applying_any (before ++ p :: after) = applying p.1 p.2 ∪ applying_any (before ++ after).
Proof. apply (union_middle (λ p, applying p.1 p.2)). Qed.

Lemma promised_any_middle before d after :
  promised_any (before ++ d :: after) = promised d ∪ promised_any (before ++ after).
Proof. apply (union_middle promised). Qed.

(** With more in doubt a processor can do what it could do before. *)
Definition doubting (X : gset HashKey) (s : sync) : sync :=
  MkSync (sc s) (waiting s) (answered s) (accepted s) (doubtful s ∪ X) (refused s).

Lemma doubting_step X s s' : sync_step s s' → sync_step (doubting X s) (doubting X s').
Proof.
  intros S. destruct S as [s order msg keys W E|s W ED|s t t' order active c' W N E|s t active order w c' W N E|s ack W AN
    |s keys ack W AN|s keys active ack w c' W AN E|s t active ack W AN|s err W|s k Hk].
  - by apply (step_create (doubting X s) order msg).
  - by apply (step_checked (doubting X s)).
  - by apply (step_active (doubting X s) t t' order).
  - by apply (step_inactive (doubting X s) t active order).
  - by apply (step_handled (doubting X s) ack).
  - by apply (step_created (doubting X s) keys ack).
  - by apply (step_deleted (doubting X s) keys active ack).
  - by apply (step_updated (doubting X s) t active ack).
  - unfold doubting at 2. simpl. rewrite <- (assoc_L (∪)). by apply (step_failed (doubting X s) err).
  - apply (step_late (doubting X s) k). simpl. set_solver.
Qed.

(** ** Preservation *)

Lemma works_ok s before p after y :
  workers s = before ++ p :: after → sync_step (view_of s p) y → sessions_ok s →
  sessions_ok (worked s before p after y).
Proof.
  intros Ew S I R. simpl in R. destruct (I (sync_step_refused _ _ S R)) as [C A].
  rewrite Ew, deleting_any_middle in C. rewrite Ew, applying_any_middle in A.
  assert (applied_ok (view_of s p)) as A1 by (unfold applied_ok; simpl; set_solver).
  pose proof (sync_step_applied _ _ S R A1) as A1'. pose proof (sync_step_doubts _ _ S) as D. simpl in D. split.
  - set (X := deleting_any (before ++ after)) in *. set (P := promised_any (ss_inbound s)) in *.
    pose proof (sync_step_covered P _ _ (doubting_step X _ _ S) R) as C'. simpl. rewrite deleting_any_middle. fold X P.
    eapply covered_mono; [|apply C'].
    + simpl. set_solver.
    + unfold applied_ok in *. simpl in *. set_solver.
    + eapply covered_mono; [|exact C]. simpl. set_solver.
  - simpl. rewrite applying_any_middle. unfold applied_ok in A1'. simpl. intros x Hx.
    destruct (decide (x ∈ accepted y)); set_solver.
Qed.

Lemma sessions_step_ok s s' : sessions_step s s' → sessions_ok s → sessions_ok s'.
Proof.
  intros S I. destruct S as [s|s before p after Ew Ep|s before p after y Ew S|s batch|s before d after t c' d' Ed E
    |s before after Ed].
  - intros R. destruct (I R) as [C A]. simpl.
    pose proof (deleting_any_middle [] (Idle, None) (workers s)) as Ed.
    pose proof (applying_any_middle [] (Idle, None) (workers s)) as Ea. simpl in *.
    by rewrite Ed, Ea, !union_empty_l_L.
  - intros R. destruct (I R) as [C A]. rewrite Ew, deleting_any_middle, Ep in C. rewrite Ew, applying_any_middle in A. simpl in *.
    rewrite union_empty_l_L in C. split; [done|]. set_solver.
  - by eapply works_ok.
  - intros R. destruct (I R) as [C A]. simpl. pose proof (promised_any_middle [] (Looking batch) (ss_inbound s)) as Ep.
    simpl in Ep. by rewrite Ep, union_empty_l_L.
  - intros R. destruct (I R) as [C A]. split; [|done]. simpl in *. rewrite Ed, promised_any_middle in C.
    rewrite promised_any_middle. by eapply deliver_covered.
  - intros R. destruct (I R) as [C A]. split; [|done]. simpl in *. rewrite Ed, promised_any_middle in C.
    simpl in C. by rewrite union_empty_l_L in C.
Qed.

Lemma sessions_reachable s : rtc sessions_step sessions_init s → sessions_ok s.
Proof.
  assert (sessions_ok sessions_init) as I0 by (intros _; split; [|done]; intros k [[x Hx]|Hx]; [done|set_solver]).
  intros R. by apply (rtc_preserves _ _ sessions_step_ok _ _ R).
Qed.

(** No known series is forgotten. *)
Lemma sessions_announced (s : sessions) :
  rtc sessions_step sessions_init s → ss_refused s = false →
  ∀ k, is_Some (known (ss_caches s) !! k) →
    is_Some (discovered (ss_caches s) !! k) ∨ k ∈ ss_accepted s ∨
    (∃ p, p ∈ workers s ∧ k ∈ deleting p.1) ∨ k ∈ ss_doubtful s.
Proof.
  intros R F k Hk. destruct (sessions_reachable s R F) as [C _]. destruct (C k (or_introl Hk)) as [?|Ha]; [by left|right].
  rewrite !elem_of_union in Ha. destruct Ha as [[?|Hd]|?]; [by left|right; left|by right; right].
  unfold deleting_any in Hd. apply elem_of_union_list in Hd as (X & HX & Hd).
  apply list_elem_of_fmap in HX as (p & -> & Hp). by exists p.
Qed.

(** The race of the handler: when an answered deletion is applied after a delivery
    has found the series known and before it records it, the series comes back
    known, in no queue and not in the index. No later report queues it either. *)
Theorem late_report_orphans (s : sessions) (before after : list worker) (keys : list HashKey)
    (active : list KnownActiveTimeseriesItem) (ack : Ack) (before' after' : list delivery)
    (k : HashKey) (e : TimeseriesEntry) (rest : list (HashKey * TimeseriesEntry)) (t : Z) :
  workers s = before ++ (Deleting keys active, Some ack) :: after →
  ss_inbound s = before' ++ Recording k e rest :: after' → clock_ok t →
  k ∈ keys → discovered (ss_caches s) !! k = None → k ∉ ss_accepted s →
  ∃ s1 s2, sessions_step s s1 ∧ sessions_step s1 s2 ∧
    is_Some (known (ss_caches s2) !! k) ∧ discovered (ss_caches s2) !! k = None ∧
    k ∉ ss_accepted s2 ∧ k ∈ ss_doubtful s2 ∧ ss_refused s2 = ss_refused s ∧
    ∀ t' e' rest' x, deliver_one t' (ss_caches s2) (Looking ((k, e') :: rest')) = Some x → x.2 = Recording k e' rest'.
Proof.
  intros Ew Ed [T0 T1] Hk D NA.
  destruct (delete_end (ss_caches s) keys active) as [w c'] eqn:E. pose proof (delete_end_eq _ _ _ _ _ E) as (-> & Ew' & _).
  assert (DeleteBatch (known (ss_caches s)) keys !! k = None) as EK.
  { unfold DeleteBatch. by rewrite foldl_delete_lookup, decide_True. }
  assert (∃ u, UpdateTimeseries (DeleteBatch (known (ss_caches s)) keys) t k e = Some u) as [u U].
  { unfold UpdateTimeseries. rewrite EK. assert (0 ≤ hour_of t)%Z by (unfold hour_of; apply Z.quot_pos; lia).
    rewrite rem_HoursLog by done. pose proof (Z.mod_pos_bound (hour_of t) HoursLog eq_refl). unfold HoursLog in *.
    rewrite uint8_small by lia. rewrite decide_True by lia. eauto. }
  do 2 eexists. split; [|split].
  - eapply (session_works s before _ after _ Ew). by eapply (step_deleted (view_of s (Deleting keys active, Some ack))).
  - eapply (session_delivers _ before' _ after' t); [exact Ed|]. simpl. by rewrite U.
  - assert (is_Some (u !! k)) as K by (apply (Update_dom _ _ _ _ _ U); by left). simpl. split_and!; [done..| |done|].
    + rewrite Ew', Ed, promised_any_middle. simpl. rewrite <- (elem_of_list_to_set (C := gset HashKey)) in Hk. set_solver.
    + intros t' e' rest' x. unfold IsTimeseriesKnown. rewrite bool_decide_true by done. by intros [= <-].
Qed.

(** ** Evaluation *)

Module IndexSessionsSample.

Definition key : HashKey := IndexSyncSample.key.
Definition entry : TimeseriesEntry := IndexSyncSample.entry.
Definition yes : Ack := MkAck true "".

(** A series that was announced, and then silent for nine hours; a pipeline has
    looked it up and found it known. *)
Definition silent : sessions :=
  MkSessions (MkCaches (known IndexSyncSample.received) DInit) [(Idle, None)] [Recording key entry []]
    {[key]} ∅ false.
Definition nine : Z := 7200 + 9 * 3600.

(** Meanwhile the processor deletes it and the backend agrees. *)
Definition scanned_active := known_active (ss_caches silent) nine nine [key].
Definition scanned_inactive := known_inactive scanned_active.2 nine scanned_active.1 [key].
Definition y1 : sync := MkSync (ss_caches silent) Checked None {[key]} ∅ false.
Definition s1 : sessions := worked silent [] (Idle, None) [] y1.
Definition y2 : sync := MkSync scanned_active.2 (Scanned scanned_active.1) None {[key]} (ss_doubtful s1) false.
Definition s2 : sessions := worked s1 [] (Checked, None) [] y2.
Definition y3 : sync := MkSync scanned_inactive.2 scanned_inactive.1 None {[key]} (ss_doubtful s2) false.
Definition s3 : sessions := worked s2 [] (waiting y2, None) [] y3.
Definition y4 : sync :=
  MkSync scanned_inactive.2 scanned_inactive.1 (Some yes) (handled scanned_inactive.1 {[key]}) (ss_doubtful s3) false.
Definition s4 : sessions := worked s3 [] (waiting y3, None) [] y4.

Example deletes_it : scanned_inactive.1 = Deleting [key] [].
Proof. by vm_compute. Qed.

Lemma silent_deleted : rtc sessions_step silent s4.
Proof.
  eapply rtc_l. { eapply (session_works silent [] (Idle, None) [] y1); [done|]. by apply (step_checked (view_of silent _)). }
  eapply rtc_l. { eapply (session_works s1 [] (Checked, None) [] y2); [done|].
    eapply (step_active (view_of s1 _) nine nine [key]); [done|apply NoDup_singleton|apply surjective_pairing]. }
  eapply rtc_l. { eapply (session_works s2 [] (waiting y2, None) [] y3); [done|].
    eapply (step_inactive (view_of s2 _) nine); [done|apply NoDup_singleton|apply surjective_pairing]. }
  eapply rtc_l; [|apply rtc_refl]. eapply (session_works s3 [] (waiting y3, None) [] y4); [done|].
  apply (step_handled (view_of s3 (waiting y3, None)) yes); [by vm_compute|done].
Qed.

(** The report is recorded last, and the series is forgotten. *)
Example orphaned_by_a_late_report :
  ∃ s, rtc sessions_step silent s ∧ is_Some (known (ss_caches s) !! key) ∧
       discovered (ss_caches s) !! key = None ∧ key ∉ ss_accepted s ∧ ss_refused s = false.
Proof.
  destruct (late_report_orphans s4 [] [] [key] [] yes [] [] key entry [] nine) as (x & s & S1 & S2 & K & D & A & _ & R & _).
  - unfold s4, worked. simpl. by rewrite deletes_it.
  - reflexivity.
  - unfold clock_ok, nine. lia.
  - left.
  - reflexivity.
  - simpl. rewrite deletes_it. simpl. set_solver.
  - exists s. split_and!; [|done..]. etrans; [apply silent_deleted|]. by eapply rtc_l, rtc_l, rtc_refl.
Qed.

End IndexSessionsSample.
