(* ===== verification/AckProtocol.v ===== *)
(** Correlated acknowledgements (components/edgecontroller/extension.go:
    [nextCorrID], [resolvePending], [sendAndWaitAck]).

    A caller takes a fresh correlation id, registers a one-slot channel under
    it, sends, and waits for the acknowledgement or a timeout; the receive loop
    looks the id of an acknowledgement up, removes the registration, and sends
    on the channel after it has released the lock. [ack_step] interleaves any
    number of callers with the receive loop, a step per critical section or
    channel operation. The invariant [acks_ok]: ids are fresh and non-zero, a
    caller only ever gets an acknowledgement the server sent for its id, the
    receive loop never blocks on a full channel, and nothing stays registered
    for a caller that has returned. *)

From S2P Require Import Prelude MetricsIndex IndexSync.

(** How far a [sendAndWaitAck] call has come: it has its id, it is registered
    and sending or waiting, it has returned. *)
Inductive caller :=
| Numbered
| Waiting
| Returned (r : option Ack).

(** [channel] is the content of a caller's one-slot channel, [delivering] the
    acknowledgement [resolvePending] has unregistered and not yet sent on its
    channel (there is one receive loop); [served] is the history of the
    acknowledgements received. *)
Record acks := MkAcks {
  corrSeq : Z;
  pending : gset Z;
  channel : gmap Z (option Ack);
  callers : gmap Z caller;
  delivering : option (Z * Ack);
  served : list (Z * Ack);
}.

Definition acks_init : acks := MkAcks 0 ∅ ∅ ∅ None [].

(** [corrSeq++] on a [uint64]; the new value is the caller's id. *)
Definition nextCorrID (s : acks) : Z * acks :=
  let id := uint64 (corrSeq s + 1) in
  (id, MkAcks id (pending s) (channel s) (<[id := Numbered]> (callers s)) (delivering s) (served s)).

(** [sendAndWaitAck] up to the send: a fresh channel, registered under the id. *)
Definition register (s : acks) (id : Z) : acks :=
  MkAcks (corrSeq s) ({[id]} ∪ pending s) (<[id := None]> (channel s)) (<[id := Waiting]> (callers s))
    (delivering s) (served s).

(** [resolvePending] under the lock: id 0 and unregistered ids are ignored. *)
Definition resolvePending_lookup (s : acks) (id : Z) (ack : Ack) : acks :=
  let hit := negb (id =? 0)%Z && bool_decide (id ∈ pending s) in
  MkAcks (corrSeq s) (if hit then pending s ∖ {[id]} else pending s) (channel s) (callers s)
    (if hit then Some (id, ack) else delivering s) ((id, ack) :: served s).

(** [resolvePending] after the lock: the send on the channel. [None]: there is
    nothing to send, or the send blocks. *)
Definition resolvePending_send (s : acks) : option acks :=
  match delivering s with
  | Some (id, ack) =>
      match channel s !! id with
      | Some None => Some (MkAcks (corrSeq s) (pending s) (<[id := Some ack]> (channel s)) (callers s) None (served s))
      | _ => None
      end
  | None => None
  end.

(** [sendAndWaitAck] returns: what was in the channel, or an error ([None]);
    the deferred removal runs. *)
Definition return_with (s : acks) (id : Z) (r : option Ack) : acks :=
  MkAcks (corrSeq s) (pending s ∖ {[id]})
    (match r with Some _ => <[id := None]> (channel s) | None => channel s end)
    (<[id := Returned r]> (callers s)) (delivering s) (served s).

Inductive ack_step : acks → acks → Prop :=
| step_number s :
    (** Fewer than 2^64 messages in the life of the process. *)
    (corrSeq s + 1 < 2 ^ 64)%Z →
    ack_step s (nextCorrID s).2
| step_register s id :
    callers s !! id = Some Numbered →
    ack_step s (register s id)
| step_lookup s id ack :
    delivering s = None →
    ack_step s (resolvePending_lookup s id ack)
| step_send s s' :
    resolvePending_send s = Some s' →
    ack_step s s'
| step_acked s id ack :
    callers s !! id = Some Waiting → channel s !! id = Some (Some ack) →
    ack_step s (return_with s id (Some ack))
| step_error s id :
    (** The send failed, the context ended or the timeout fired. *)
    callers s !! id = Some Waiting →
    ack_step s (return_with s id None).

(** What the caller under [id] may look like. *)
Definition entry_ok (s : acks) (id : Z) (c : caller) : Prop :=
  (0 < id ≤ corrSeq s)%Z ∧
  (c = Numbered → id ∉ pending s ∧ channel s !! id = None) ∧
  (c = Waiting → is_Some (channel s !! id)) ∧
  (∀ a, c = Returned (Some a) → (id, a) ∈ served s).

(** A registered or half-delivered id has an empty channel, and never both. *)
Definition acks_ok (s : acks) : Prop :=
  (0 ≤ corrSeq s < 2 ^ 64)%Z ∧
  (∀ id c, callers s !! id = Some c → entry_ok s id c) ∧
  (∀ id slot, channel s !! id = Some slot → is_Some (callers s !! id)) ∧
  (∀ id a, channel s !! id = Some (Some a) → (id, a) ∈ served s) ∧
  (∀ id, id ∈ pending s → callers s !! id = Some Waiting ∧ channel s !! id = Some None) ∧
  (∀ id a, delivering s = Some (id, a) →
     (id, a) ∈ served s ∧ id ∉ pending s ∧ channel s !! id = Some None).

(** Case analysis on whether an updated id is the one looked at. *)
Ltac ids :=
  repeat match goal with
  | H : context [<[?i := _]> _ !! ?j] |- _ =>
      destruct (decide (i = j)) as [<-|?];
      [rewrite ?lookup_insert_eq in * | rewrite ?(lookup_insert_ne _ i j) in * by done]
  | |- context [<[?i := _]> _ !! ?j] =>
      destruct (decide (i = j)) as [<-|?];
      [rewrite ?lookup_insert_eq in * | rewrite ?(lookup_insert_ne _ i j) in * by done]
  end.

Lemma number_ok s : acks_ok s → (corrSeq s + 1 < 2 ^ 64)%Z → acks_ok (nextCorrID s).2.
Proof.
  intros (B & HC & HK & HS & HP & HD) Hb. unfold nextCorrID, uint64. simpl.
  rewrite wrap_u_id by lia. set (id := (corrSeq s + 1)%Z).
  assert (callers s !! id = None) as Hn.
  { destruct (callers s !! id) as [c|] eqn:Hc; [|done]. destruct (HC _ _ Hc) as (Bj & _). lia. }
  unfold acks_ok; simpl. split; [lia|]. split.
  { intros j c Hc. ids.
    - injection Hc as <-. split; [simpl; lia|]. split; [|done]. intros _. simpl. split.
      + intros [? _]%HP. congruence.
      + destruct (channel s !! id) as [slot|] eqn:E; [|done]. destruct (HK _ _ E). congruence.
    - destruct (HC j c Hc) as (Bj & Rest). split; [simpl; lia|exact Rest]. }
  split. { intros j slot Hs. ids; eauto. }
  split; [exact HS|]. split; [|exact HD].
  intros j Hj. destruct (HP j Hj) as [Hc Hs]. split; [|done]. ids; [congruence|done].
Qed.

Lemma register_ok s id : acks_ok s → callers s !! id = Some Numbered → acks_ok (register s id).
Proof.
  intros (B & HC & HK & HS & HP & HD) Hn. destruct (HC _ _ Hn) as (Bi & Ni & _).
  destruct (Ni eq_refl) as [Np Nc]. unfold acks_ok, register; simpl. split; [exact B|]. split.
  { intros j c Hc. destruct (decide (id = j)) as [<-|N]; simplify_map_eq.
    - split; [exact Bi|]. split; [done|]. split; [|done]. intros _. simpl. rewrite lookup_insert_eq. eauto.
    - destruct (HC j c Hc) as (Bj & Nj & Wj & Rj). split; [exact Bj|]. simpl.
      rewrite lookup_insert_ne by done. set_solver. }
  split. { intros j slot Hs. ids; eauto. }
  split. { intros j a Hs. ids; [done|eauto]. }
  split. { intros j Hj. ids; [done|]. apply HP. set_solver. }
  intros j a Hd. destruct (HD j a Hd) as (? & ? & ?). ids; [congruence|]. set_solver.
Qed.

Lemma lookup_ok s id ack : acks_ok s → delivering s = None → acks_ok (resolvePending_lookup s id ack).
Proof.
  intros (B & HC & HK & HS & HP & HD) Hd. unfold acks_ok, resolvePending_lookup; simpl.
  set (hit := _ && _). split; [exact B|].
  assert (∀ j, j ∈ (if hit then pending s ∖ {[id]} else pending s) → j ∈ pending s) as Hsub
    by (destruct hit; set_solver).
  split.
  { intros j c Hc. destruct (HC j c Hc) as (Bj & Nj & Wj & Rj). split; [exact Bj|]. simpl.
    split; [|split; [exact Wj|]].
    - intros Ec. destruct (Nj Ec). auto.
    - intros a Ea. right. auto. }
  split; [exact HK|]. split. { intros j a Ha. right. auto. }
  split. { intros j Hj. auto. }
  intros j a Ha. destruct hit eqn:Eh; [|congruence]. injection Ha as <- <-.
  unfold hit in Eh. apply andb_prop in Eh as [_ Hin%bool_decide_eq_true].
  destruct (HP id Hin). split; [left|]. split; [set_solver|done].
Qed.

Lemma send_ok s s' : acks_ok s → resolvePending_send s = Some s' → acks_ok s'.
Proof.
  intros (B & HC & HK & HS & HP & HD) E. unfold resolvePending_send in E.
  destruct (delivering s) as [[id ack]|] eqn:Ed; [|done]. destruct (HD _ _ eq_refl) as (Hs & Np & Hc).
  rewrite Hc in E. injection E as <-. unfold acks_ok; simpl. split; [exact B|]. split.
  { intros j c Hj. destruct (HC j c Hj) as (Bj & Nj & Wj & Rj). split; [exact Bj|]. simpl.
    split; [|split; [|exact Rj]].
    - intros Ej. destruct (Nj Ej) as [? Hn]. split; [done|]. ids; [congruence|done].
    - intros Ej. ids; eauto. }
  split. { intros j slot Hj. ids; eauto. }
  split. { intros j a Hj. ids; [congruence|eauto]. }
  split; [|done]. intros j Hj. ids; [done|]. auto.
Qed.

Lemma return_ok s id r :
  acks_ok s → callers s !! id = Some Waiting → (∀ a, r = Some a → channel s !! id = Some (Some a)) →
  acks_ok (return_with s id r).
Proof.
  intros (B & HC & HK & HS & HP & HD) Hw Hr. unfold acks_ok, return_with; simpl.
  set (ch := match r with Some _ => _ | None => _ end).
  assert (∀ j slot, ch !! j = Some slot → slot = None ∨ channel s !! j = Some slot) as Hch.
  { intros j slot Hj. subst ch. destruct r; [|eauto]. ids; [left; congruence|eauto]. }
  assert (∀ j, channel s !! j = Some None → ch !! j = Some None) as Hkeep.
  { intros j Hj. subst ch. destruct r; [|done]. ids; done. }
  assert (∀ j, is_Some (channel s !! j) ↔ is_Some (ch !! j)) as Hdom.
  { intros j. subst ch. destruct r as [a|]; [|done]. ids; [|done].
    rewrite (Hr a eq_refl). split; eauto. }
  split; [exact B|]. split.
  { intros j c Hc. destruct (decide (id = j)) as [<-|N]; simplify_map_eq.
    - destruct (HC _ _ Hw) as (Bi & _). split; [exact Bi|]. simpl. split; [done|]. split; [done|].
      intros a [= ->]. apply HS. auto.
    - destruct (HC j c Hc) as (Bj & Nj & Wj & Rj). split; [exact Bj|]. simpl. split; [|split; [|exact Rj]].
      + intros Ec. destruct (Nj Ec) as [? Hn]. split; [set_solver|].
        apply eq_None_not_Some. rewrite <-Hdom, Hn. apply is_Some_None.
      + intros Ec. apply Hdom. auto. }
  split.
  { intros j slot Hj. ids; [eauto|].
    destruct (proj2 (Hdom j) ltac:(rewrite Hj; eauto)) as [sl Hsl]. eauto. }
  split. { intros j a Hj. destruct (Hch _ _ Hj); [done|eauto]. }
  split.
  { intros j [Hj Nj]%elem_of_difference. destruct (HP j Hj). ids; [set_solver|]. auto. }
  intros j a Ha. destruct (HD j a Ha) as (? & ? & ?). split; [done|]. split; [set_solver|]. auto.
Qed.

Lemma ack_step_ok s s' : ack_step s s' → acks_ok s → acks_ok s'.
Proof.
  intros S O. destruct S as [s Hb|s id Hn|s id ack Hd|s s' E|s id ack Hw Hc|s id Hw].
  - by apply number_ok.
  - by apply register_ok.
  - by apply lookup_ok.
  - by eapply send_ok.
  - apply return_ok; [done..|]. congruence.
  - by apply return_ok.
Qed.

Lemma acks_init_ok : acks_ok acks_init.
Proof.
  unfold acks_ok, acks_init; simpl. split; [lia|].
  repeat split; intros *; rewrite ?lookup_empty; set_solver.
Qed.

Lemma reachable_ok s : rtc ack_step acks_init s → acks_ok s.
Proof.
  intros R. eapply (rtc_preserves _ _ ack_step_ok); [exact R|apply acks_init_ok].
Qed.

(** ** Properties *)

(** C14: The acknowledgement protocol is sound under any interleaving of callers
    with the receive loop: an acknowledgement a caller returns was sent by the
    server for that caller's correlation id; the next id is non-zero and not in
    use by any caller, past or present; the receive loop never blocks when it
    delivers an acknowledgement, even one whose caller has given up; and only
    waiting callers are registered, so nothing leaks once they have returned. *)
Theorem acknowledgements_reach_their_callers (s : acks) :
  rtc ack_step acks_init s → (corrSeq s + 1 < 2 ^ 64)%Z →
  (∀ id a, callers s !! id = Some (Returned (Some a)) → (id, a) ∈ served s) ∧
  ((nextCorrID s).1 ≠ 0%Z ∧ callers s !! (nextCorrID s).1 = None) ∧
  (is_Some (delivering s) → is_Some (resolvePending_send s)) ∧
  (∀ id, id ∈ pending s → callers s !! id = Some Waiting).
Proof.
  intros R Hb. pose proof (reachable_ok s R) as (B & HC & HK & HS & HP & HD).
  unfold nextCorrID, uint64; simpl. rewrite wrap_u_id by lia. split; [|split; [split|split]].
  - intros id a Hc. destruct (HC id _ Hc) as (_ & _ & _ & Sr). by apply Sr.
  - lia.
  - destruct (callers s !! _) as [c|] eqn:Hc; [|done]. destruct (HC _ _ Hc) as (Bj & _). lia.
  - intros [[id a] Hd]. unfold resolvePending_send. rewrite Hd.
    destruct (HD _ _ Hd) as (_ & _ & ->). eauto.
  - intros id Hp. by apply HP.
Qed.

(** A caller times out between the lookup of its acknowledgement and the send. *)
Definition late_ack : acks :=
  let s1 := register (nextCorrID acks_init).2 1 in
  return_with (resolvePending_lookup s1 1 (MkAck true "")) 1 None.

Lemma acknowledgements_reach_their_callers_witness :
  is_Some (delivering late_ack) ∧ is_Some (resolvePending_send late_ack).
Proof.
  assert (rtc ack_step acks_init late_ack) as R.
  { eapply rtc_l; [apply step_number; reflexivity|].
    eapply rtc_l; [apply (step_register _ 1); reflexivity|].
    eapply rtc_l; [apply (step_lookup _ 1 (MkAck true "")); reflexivity|].
    eapply rtc_l; [apply (step_error _ 1); reflexivity|apply rtc_refl]. }
  assert (corrSeq late_ack + 1 < 2 ^ 64)%Z as B by reflexivity.
  assert (is_Some (delivering late_ack)) as D by (eexists; reflexivity).
  exact (conj D (proj1 (proj2 (proj2 (acknowledgements_reach_their_callers late_ack R B))) D)).
Defined.
