(* ===== verification/Controller.v ===== *)
(** The edge controller (components/edgecontroller/extension.go): the state it
    shares between the control stream and the pipelines, the messages it
    receives and sends, and what the demand filters see of it.

    [handleServerMessage] is the dispatch of a server message; the goroutines it
    starts are the [tasks] that [handleUpdateConfig] and the query tunnel
    complete.
    [ctl_step] interleaves messages, tasks, pings, index traffic and the loss of
    the stream. The controller is the instance of [DemandHost] the filters are
    started against, so that the filter theorems apply to the demand sets a
    server sends. *)

From S2P Require Import Prelude GoText Selector PData PromNaming Demand DemandFilter.
From S2P Require Import SelectorCache LogFilter TraceFilter MetricsIndex KnownCache DiscoveredCache.
From S2P Require Import DemandCache DemandMatcher QueryHandler ConfigManager Diagnostics Delivery IndexSync AckProtocol.

(** ** Messages *)

Record TraceDemand := MkTraceDemand { td_Selector : string; td_FilterId : string }.

Record DemandSet := MkDemandSet {
  ds_Metrics : list string;
  ds_LogSelectors : list string;
  ds_TraceSelectors : list string;
  ds_MetricSelectors : list string;
  ds_TraceDemands : list TraceDemand;
  ds_Hash : Z;
}.

Record UpdateConfig := MkUpdateConfig { uc_Path : string; uc_Config : string; uc_SkipReload : bool }.

Inductive ServerBody :=
| Pong
| ServerAck (a : Ack)
| ServerDemandSet (d : DemandSet)
| GetStatus
| GetDiagnosis
| GetConfig
| ServerUpdateConfig (u : UpdateConfig)
| ServerQueryRequest (q : QueryRequest)
| UnknownBody.

Record ServerMessage := MkServerMessage { sm_CorrelationId : Z; sm_Body : ServerBody }.

Record Ping := MkPing {
  KnownCacheSize : Z;
  DiscoveredCacheSize : Z;
  PendingBackendUpdates : Z;
  DemandCacheSize : Z;
  DemandLastUpdate : Z;
  DemandedKnownCacheSize : Z;
  ping_DemandHash : Z;
}.

Inductive AgentBody :=
| Hello (version : string)
| AgentPing (p : Ping)
| AgentCommandResult (success : bool) (message : string)
| AgentConfigSnapshot (c : ConfigSnapshot)
| AgentQueryResponse (r : QueryResponse).

Record AgentMessage := MkAgentMessage { am_CorrelationId : Z; am_Body : AgentBody }.

Record diagnosis := MkDiagnosis {
  dg_demand : list string;
  dg_matched : list string;
  dg_missing : list string;
  dg_knownSeries : nat;
  dg_demandedSeries : nat;
  dg_demandHash : Z;
}.

(** ** State *)

(** A goroutine started by a server message. *)
Inductive task :=
| UpdateTask (id : Z) (u : UpdateConfig)
| QueryTask (id : Z) (q : QueryRequest).

(** [stream]: whether a stream is open. [sent] and [lost] are the history of the
    messages that went out and of those dropped because no stream was open or
    its [Send] failed; [commands] is the history of the messages received,
    [diagnoses] what the log was given; [restarts] counts the goroutines that
    wait to end the process after a config update. *)
Record controller := MkController {
  ctl_caches : caches;
  ctl_demand : DemandTimeseriesCache;
  ctl_acks : acks;
  stream : bool;
  tasks : list task;
  ctl_fs : FS;
  restarts : nat;
  sent : list AgentMessage;
  lost : list AgentMessage;
  diagnoses : list diagnosis;
  commands : list ServerMessage;
}.

Definition with_demand (s : controller) (d : DemandTimeseriesCache) : controller :=
  MkController (ctl_caches s) d (ctl_acks s) (stream s) (tasks s) (ctl_fs s) (restarts s)
    (sent s) (lost s) (diagnoses s) (commands s).
Definition with_caches (s : controller) (c : caches) : controller :=
  MkController c (ctl_demand s) (ctl_acks s) (stream s) (tasks s) (ctl_fs s) (restarts s)
    (sent s) (lost s) (diagnoses s) (commands s).
Definition with_acks (s : controller) (a : acks) : controller :=
  MkController (ctl_caches s) (ctl_demand s) a (stream s) (tasks s) (ctl_fs s) (restarts s)
    (sent s) (lost s) (diagnoses s) (commands s).
Definition with_tasks (s : controller) (ts : list task) : controller :=
  MkController (ctl_caches s) (ctl_demand s) (ctl_acks s) (stream s) ts (ctl_fs s) (restarts s)
    (sent s) (lost s) (diagnoses s) (commands s).
Definition with_stream (s : controller) (b : bool) : controller :=
  MkController (ctl_caches s) (ctl_demand s) (ctl_acks s) b (tasks s) (ctl_fs s) (restarts s)
    (sent s) (lost s) (diagnoses s) (commands s).
Definition with_fs (s : controller) (fs : FS) : controller :=
  MkController (ctl_caches s) (ctl_demand s) (ctl_acks s) (stream s) (tasks s) fs (restarts s)
    (sent s) (lost s) (diagnoses s) (commands s).
Definition with_restarts (s : controller) (n : nat) : controller :=
  MkController (ctl_caches s) (ctl_demand s) (ctl_acks s) (stream s) (tasks s) (ctl_fs s) n
    (sent s) (lost s) (diagnoses s) (commands s).
Definition with_diagnosis (s : controller) (d : diagnosis) : controller :=
  MkController (ctl_caches s) (ctl_demand s) (ctl_acks s) (stream s) (tasks s) (ctl_fs s) (restarts s)
    (sent s) (lost s) (d :: diagnoses s) (commands s).
Definition with_command (s : controller) (m : ServerMessage) : controller :=
  MkController (ctl_caches s) (ctl_demand s) (ctl_acks s) (stream s) (tasks s) (ctl_fs s) (restarts s)
    (sent s) (lost s) (diagnoses s) (m :: commands s).

Definition with_out (s : controller) (out dropped : list AgentMessage) : controller :=
  MkController (ctl_caches s) (ctl_demand s) (ctl_acks s) (stream s) (tasks s) (ctl_fs s) (restarts s)
    out dropped (diagnoses s) (commands s).

(** What the surroundings answer while a message is handled: the clock, whether
    a [Send] on the open stream succeeds, and what reading the config files and
    writing the diagnosis meet. *)
Record CtlEnv := MkCtlEnv { nowUnix : Z; send_succeeds : bool; read_env : ReadEnv; diag_env : DiagEnv }.

(** What [newEdgeControllerExtension] fixes: the version announced, the config
    manager, and the settings of the query tunnel and of the diagnosis. *)
Record settings := MkSettings {
  agentVersion : string;
  manager : configManager;
  queryConfig : QueryConfig;
  DiagnosticsDir : string;
}.

(** The outcome (whether the error is nil) and the state after. With no open
    stream the message is dropped without an error. *)
Definition sendAgentMessage (ok : bool) (s : controller) (msg : AgentMessage) : bool * controller :=
  if negb (stream s) then (true, with_out s (sent s) (msg :: lost s))
  else if ok then (true, with_out s (msg :: sent s) (lost s))
  else (false, with_out s (sent s) (msg :: lost s)).

Definition replyCommand (ok : bool) (s : controller) (correlationID : Z) (success : bool) (message : string)
  : controller :=
  if decide (correlationID = 0)%Z then s
  else (sendAgentMessage ok s (MkAgentMessage correlationID (AgentCommandResult success message))).2.

(** Entries missing either half are skipped. *)
Definition traceRoutesFromProto (l : list TraceDemand) : list Route :=
  omap (λ d, if decide (td_Selector d = "" ∨ td_FilterId d = "") then None
             else Some (MkRoute (td_FilterId d) (td_Selector d))) l.

(** ** Accounting *)

Section Controller.
Context `{Regexp, HTTPClient, CaseTables, YAML} (cfg : settings).

Definition demandedNameSet (k : KnownTimeseriesCache) (demand : DemandTimeseriesSnapshot) : gset string :=
  if decide (0 < length (MetricSelectors demand))
  then selectorDemandedNames (MetricSelectors demand) (MetricNameSet k)
  else expandDemandNames (Timeseries demand).

Definition buildPing (t : Z) (s : controller) : Ping :=
  let demand := GetDemandSnapshot (ctl_demand s) in
  let k := known (ctl_caches s) in
  MkPing (int32 (Z.of_nat (GetSize k))) (int32 (Z.of_nat (DGetSize (discovered (ctl_caches s)))))
    (int32 (Z.of_nat (GetPendingBackendUpdates k t))) (int32 (Z.of_nat (length (Timeseries demand))))
    (ds_LastUpdate demand) (int32 (Z.of_nat (CountDemanded k (demandedNameSet k demand)))) (DemandHash demand).

Definition buildDiagnosis (s : controller) : diagnosis :=
  let demand := GetDemandSnapshot (ctl_demand s) in
  let k := known (ctl_caches s) in
  let knownNames := MetricNameSet k in
  let '(demandList, (matched, missing)) :=
    if decide (0 < length (MetricSelectors demand))
    then (MetricSelectors demand, diagnoseDemandSelectors (MetricSelectors demand) knownNames)
    else (Timeseries demand, diagnoseDemand (Timeseries demand) knownNames) in
  MkDiagnosis demandList matched missing (GetSize k) (CountDemanded k (demandedNameSet k demand))
    (DemandHash demand).

(** ** Handling a message *)

(** [resolvePending], both halves. [None]: the send on the channel blocks. *)
Definition resolvePending (a : acks) (id : Z) (ack : Ack) : option acks :=
  let a := resolvePending_lookup a id ack in
  match delivering a with
  | Some _ => resolvePending_send a
  | None => Some a
  end.

Definition sendConfigSnapshot (env : CtlEnv) (s : controller) (correlationID : Z) : controller :=
  if decide (correlationID = 0)%Z then s
  else
    let '(snap, fs) := Snapshot (manager cfg) (read_env env) (ctl_fs s) in
    (sendAgentMessage (send_succeeds env) (with_fs s fs)
       (MkAgentMessage correlationID (AgentConfigSnapshot snap))).2.

(** The diagnosis goes to the log and the caches to the diagnostics directory. *)
Definition diagnose (env : CtlEnv) (s : controller) : controller :=
  let s := with_diagnosis s (buildDiagnosis s) in
  let c := ctl_caches s in
  with_fs s (writeCacheFiles (diag_env env) (DiagnosticsDir cfg) (ctl_fs s) (known c) (discovered c) (ctl_demand s)).2.

(** [UpdateDemands], then [UpdateTraceRoutes]. *)
Definition apply_demand_set (t : Z) (c : DemandTimeseriesCache) (d : DemandSet) : DemandTimeseriesCache :=
  let c := UpdateDemands c t (ds_Metrics d) (ds_LogSelectors d) (ds_TraceSelectors d)
             (ds_MetricSelectors d) (ds_Hash d) in
  UpdateTraceRoutes c (traceRoutesFromProto (ds_TraceDemands d)).

(** [None]: the receive loop blocks. *)
Definition handleServerMessage (env : CtlEnv) (s : controller) (msg : ServerMessage) : option controller :=
  let id := sm_CorrelationId msg in
  match sm_Body msg with
  | Pong => Some s
  | ServerAck ack => a ← resolvePending (ctl_acks s) id ack; Some (with_acks s a)
  | ServerDemandSet d =>
      let s := with_demand s (apply_demand_set (nowUnix env) (ctl_demand s) d) in
      Some (replyCommand (send_succeeds env) s id true "demand_set applied")
  | GetStatus => Some (replyCommand (send_succeeds env) s id true "running")
  | GetDiagnosis => Some (diagnose env s)
  | GetConfig => Some (sendConfigSnapshot env s id)
  | ServerUpdateConfig u => Some (with_tasks s (UpdateTask id u :: tasks s))
  | ServerQueryRequest q => Some (with_tasks s (QueryTask id q :: tasks s))
  | UnknownBody => Some s
  end.

(** One round of [recvLoop]. *)
Definition recv_one (env : CtlEnv) (s : controller) (msg : ServerMessage) : option controller :=
  handleServerMessage env (with_command s msg) msg.

(** The goroutine of an [UpdateConfig]; a written config whose reload is wanted
    starts the goroutine that restarts the process. *)
Definition handleUpdateConfig (ok : bool) (env : Env) (s : controller) (correlationID : Z) (req : UpdateConfig)
  : controller :=
  let '(fs, outcome) := Apply (manager cfg) env (ctl_fs s) (uc_Path req) (uc_Config req) (uc_SkipReload req) in
  let s := with_fs s fs in
  match outcome with
  | Err err => replyCommand ok s correlationID false (ErrorText err)
  | Ok (path, reload) =>
      let s := replyCommand ok s correlationID true (success_message path reload) in
      if reload : bool then with_restarts s (S (restarts s)) else s
  end.

Definition sendQueryResponse (ok : bool) (s : controller) (id : Z) (resp : QueryResponse) : controller :=
  (sendAgentMessage ok s (MkAgentMessage id (AgentQueryResponse resp))).2.

(** ** The stream *)

(** [connect] once the stream is open: other goroutines see it before the hello
    is sent on it. *)
Definition open_stream (s : controller) : controller := with_stream s true.

(** The deferred end of [connect]. *)
Definition disconnect (s : controller) : controller := with_stream s false.

(** The hello; when it cannot be sent the stream is given up. *)
Definition send_hello (ok : bool) (s : controller) : bool * controller :=
  let '(sent_hello, s) := sendAgentMessage ok s (MkAgentMessage 0 (Hello (agentVersion cfg))) in
  (sent_hello, if sent_hello : bool then s else disconnect s).

(** One round of [pingLoop]. *)
Definition ping (ok : bool) (t : Z) (s : controller) : controller :=
  (sendAgentMessage ok s (MkAgentMessage 0 (AgentPing (buildPing t s)))).2.

(** [newEdgeControllerExtension], then [Start]. *)
Definition start (fs : FS) : controller :=
  MkController (MkCaches Init DInit) (DemandInit NewDemandTimeseriesCache) acks_init false [] fs 0 [] [] [] [].

(** ** The machine *)

Inductive ctl_step : controller → controller → Prop :=
| ctl_receive s env msg s' :
    stream s = true → recv_one env s msg = Some s' → ctl_step s s'
| ctl_update_done s ok env before after id u :
    tasks s = before ++ UpdateTask id u :: after →
    ctl_step s (handleUpdateConfig ok env (with_tasks s (before ++ after)) id u)
| ctl_query_done s ok before after id q resp :
    (** The tunnel answers with the store's response or a refusal. *)
    tasks s = before ++ QueryTask id q :: after → answers (queryConfig cfg) q resp →
    ctl_step s (sendQueryResponse ok (with_tasks s (before ++ after)) id resp)
| ctl_caller s a :
    (** A step of a [sendAndWaitAck] caller. *)
    ack_step (ctl_acks s) a → delivering a = None → ctl_step s (with_acks s a)
| ctl_index s y y' :
    (** The synchronisation loop of a session proceeds. *)
    sc y = ctl_caches s → sync_step y y' → ctl_step s (with_caches s (sc y'))
| ctl_delivers s t d c d' :
    (** The delivery of a batch proceeds. *)
    deliver_one t (ctl_caches s) d = Some (c, d') → ctl_step s (with_caches s c)
| ctl_ping s ok t : ctl_step s (ping ok t s)
| ctl_open s : stream s = false → ctl_step s (open_stream s)
| ctl_hello s ok : stream s = true → ctl_step s (send_hello ok s).2
| ctl_disconnect s : ctl_step s (disconnect s)
| ctl_restart_dropped s n :
    (** A shutdown releases a goroutine that waits to restart the process. *)
    restarts s = S n → ctl_step s (with_restarts s n).

End Controller.

(** ** The controller as demand provider *)

(** Among the host's extensions the controller provides everything, and the
    other extensions of the distribution provide nothing. *)
Inductive extension := EdgeController | OtherExtension.

Definition from_controller {A} (f : controller → A) (e : extension) : option (controller → A) :=
  match e with EdgeController => Some f | OtherExtension => None end.

Definition edge_host : DemandHost := {|
  World := controller;
  Extension := extension;
  GetDemands := from_controller (λ s, Timeseries (GetDemandSnapshot (ctl_demand s)));
  GetMetricSelectors := from_controller (λ s, MetricSelectors (GetDemandSnapshot (ctl_demand s)));
  GetLogDemands := from_controller (λ s, LogSelectors (GetDemandSnapshot (ctl_demand s)));
  GetTraceDemands := from_controller (λ s, TraceSelectors (GetDemandSnapshot (ctl_demand s)));
  GetTraceRoutes := from_controller (λ s, TraceRoutes (GetDemandSnapshot (ctl_demand s)));
|}.

#[local] Existing Instance edge_host.

Lemma first_providing_edge {A} (f : controller → A) (exts : list extension) :
  EdgeController ∈ exts → first_providing (from_controller f) exts = Some (EdgeController, f).
Proof.
  induction exts as [|[] exts IH]; simpl; [by intros ?%elem_of_nil|done|].
  rewrite elem_of_cons. intros [?|?]; [done|auto].
Qed.

(** ** Handling lemmas *)

Section Lemmas.
Context `{Regexp, HTTPClient, CaseTables, YAML} (cfg : settings).

Lemma send_demand ok s msg : ctl_demand (sendAgentMessage ok s msg).2 = ctl_demand s.
Proof. unfold sendAgentMessage. by destruct (negb (stream s)), ok. Qed.

Lemma reply_demand ok s id b t : ctl_demand (replyCommand ok s id b t) = ctl_demand s.
Proof. unfold replyCommand. case_decide; [done|]. apply send_demand. Qed.

(** What the filters read once a demand set has been handled. *)
Lemma demand_set_snapshot env s id d s' :
  recv_one cfg env s (MkServerMessage id (ServerDemandSet d)) = Some s' →
  ctl_demand s' = apply_demand_set (nowUnix env) (ctl_demand s) d.
Proof. unfold recv_one, handleServerMessage. simpl. intros [= <-]. by rewrite reply_demand. Qed.

(** *** Accounting *)

Lemma elem_of_MetricNameSet k n :
  n ∈ MetricNameSet k ↔ ∃ key e, k !! key = Some e ∧ ke_MetricName e = n.
Proof.
  unfold MetricNameSet. rewrite elem_of_list_to_set, list_elem_of_fmap. split.
  - intros ([key e] & -> & Hin%elem_of_map_to_list). by exists key, e.
  - intros (key & e & Hk & <-). exists (key, e). split; [done|]. by apply elem_of_map_to_list.
Qed.

Lemma entry_count_le P k : entry_count P k ≤ GetSize k.
Proof.
  unfold entry_count, GetSize. rewrite <- length_map_to_list. apply length_filter.
Qed.

Lemma entry_count_0 P k : entry_count P k = 0 ↔ ∀ key e, k !! key = Some e → P e = false.
Proof.
  unfold entry_count. rewrite length_zero_iff_nil, filter_none. split.
  - intros F key e Hk. specialize (F (key, e)). rewrite elem_of_map_to_list in F.
    apply not_true_is_false, (F Hk).
  - intros F [key e] Hin%elem_of_map_to_list. simpl. by rewrite (F key e Hin).
Qed.

Lemma CountDemanded_0 k names : CountDemanded k names = 0 ↔ names ## MetricNameSet k.
Proof.
  assert (entry_count (λ e, bool_decide (ke_MetricName e ∈ names)) k = 0 ↔ names ## MetricNameSet k) as E.
  { rewrite entry_count_0, elem_of_disjoint. setoid_rewrite bool_decide_eq_false.
    setoid_rewrite elem_of_MetricNameSet. naive_solver. }
  unfold CountDemanded. case_decide as Hz; [|done]. apply size_empty_inv in Hz. set_solver.
Qed.

Lemma CountDemanded_le k names : CountDemanded k names ≤ GetSize k.
Proof. unfold CountDemanded. case_decide; [lia|apply entry_count_le]. Qed.

Lemma sort_strings_nil l : sort_strings l = [] ↔ l = [].
Proof.
  split; [|by intros ->]. intros E. apply Permutation_nil_r. by rewrite <- E, sort_strings_perm.
Qed.

Lemma name_mode_agrees ds k :
  CountDemanded k (expandDemandNames ds) = 0 ↔ (diagnoseDemand ds (MetricNameSet k)).1 = [].
Proof.
  rewrite CountDemanded_0. simpl. rewrite sort_strings_nil, filter_none, elem_of_disjoint.
  setoid_rewrite list_elem_of_filter. unfold demand_found. split.
  - intros D d [_ Hd] (n & Hn%list_elem_of_In & Hk%bool_decide_eq_true)%existsb_exists.
    apply (D n); [|done]. apply elem_of_expand. exists d. by apply elem_of_elements in Hn.
  - intros F n (d & Hd & Hn)%elem_of_expand Hk. apply (F d).
    + split; [|done]. intros ->. unfold expandDemandNames, expand_one in Hn. simpl in Hn. set_solver.
    + apply existsb_exists. exists n. rewrite <- list_elem_of_In, elem_of_elements. by rewrite bool_decide_true.
Qed.

Lemma selector_mode_agrees sels k :
  CountDemanded k (selectorDemandedNames sels (MetricNameSet k)) = 0 ↔
  (diagnoseDemandSelectors sels (MetricNameSet k)).1 = [].
Proof.
  rewrite CountDemanded_0. simpl. rewrite sort_strings_nil, elem_of_disjoint.
  rewrite <- length_zero_iff_nil, length_fmap, length_zero_iff_nil, filter_none.
  unfold selector_found, selectorDemandedNames. setoid_rewrite elem_of_filter. split.
  - intros D ns Hns (n & Hn%list_elem_of_In%elem_of_elements & Hm)%existsb_exists.
    apply (D n); [|done]. split; [|done]. apply existsb_exists. exists ns. by rewrite <- list_elem_of_In.
  - intros F n [(ns & Hns%list_elem_of_In & Hm)%existsb_exists _] Hk.
    apply (F ns Hns), existsb_exists. exists n. by rewrite <- list_elem_of_In, elem_of_elements.
Qed.

Lemma raw_parseNameSelectors sels : raw <$> parseNameSelectors sels = sels.
Proof.
  unfold parseNameSelectors. induction sels as [|x sels IH]; [done|]. rewrite !fmap_cons, IH. f_equal.
  unfold parseNameSelector. by destruct (Parse x).
Qed.

Lemma diagnose_partition ds names :
  (diagnoseDemand ds names).1 ++ (diagnoseDemand ds names).2 ≡ₚ filter (λ d, d ≠ "") ds.
Proof. simpl. rewrite !sort_strings_perm. apply (filter_split (λ d, demand_found d names)). Qed.

Lemma diagnose_selectors_partition sels names :
  (diagnoseDemandSelectors sels names).1 ++ (diagnoseDemandSelectors sels names).2 ≡ₚ sels.
Proof.
  simpl. rewrite !sort_strings_perm, <- fmap_app.
  rewrite (filter_split (λ ns, selector_found ns names)). by rewrite raw_parseNameSelectors.
Qed.

(** *** Commands and their answers *)

(** What kind of answer a command gets, by correlation id; [None] when it gets
    none. *)
Inductive answer_kind := KResult | KSnapshot | KQuery.

Definition command_key (msg : ServerMessage) : option (Z * answer_kind) :=
  let id := sm_CorrelationId msg in
  let unless_zero k := if decide (id = 0)%Z then None else Some (id, k) in
  match sm_Body msg with
  | ServerDemandSet _ | GetStatus | ServerUpdateConfig _ => unless_zero KResult
  | GetConfig => unless_zero KSnapshot
  | ServerQueryRequest _ => Some (id, KQuery)
  | _ => None
  end.

Definition task_key (t : task) : option (Z * answer_kind) :=
  match t with
  | UpdateTask id _ => if decide (id = 0)%Z then None else Some (id, KResult)
  | QueryTask id _ => Some (id, KQuery)
  end.

Definition answer_key (msg : AgentMessage) : option (Z * answer_kind) :=
  match am_Body msg with
  | Hello _ | AgentPing _ => None
  | AgentCommandResult _ _ => Some (am_CorrelationId msg, KResult)
  | AgentConfigSnapshot _ => Some (am_CorrelationId msg, KSnapshot)
  | AgentQueryResponse _ => Some (am_CorrelationId msg, KQuery)
  end.

(** The answers given up so far: handed to the stream, or lost with no stream open
    or a failed [Send]. *)
Definition answers_of (s : controller) : list (Z * answer_kind) :=
  omap answer_key (sent s) ++ omap answer_key (lost s).

(** Every command received that asks for an answer is being worked on or its one
    answer was given up: it went to the stream or was lost; and the receive loop is
    free. *)
Definition ctl_inv (s : controller) : Prop :=
  omap command_key (commands s) ≡ₚ omap task_key (tasks s) ++ answers_of s ∧
  acks_ok (ctl_acks s) ∧ delivering (ctl_acks s) = None.

Lemma omap_cons_list {A B} (f : A → option B) x l : omap f (x :: l) = option_list (f x) ++ omap f l.
Proof. simpl. by destruct (f x). Qed.

Lemma send_answers ok s msg :
  answers_of (sendAgentMessage ok s msg).2 ≡ₚ option_list (answer_key msg) ++ answers_of s.
Proof.
  unfold sendAgentMessage, answers_of. destruct (negb (stream s)), ok; cbn [snd sent lost with_out];
    rewrite omap_cons_list, ?app_assoc; try done; rewrite <- !app_assoc; apply Permutation_app_swap_app.
Qed.

Lemma send_inv ok s msg :
  omap command_key (commands s) ≡ₚ omap task_key (tasks s) ++ option_list (answer_key msg) ++ answers_of s →
  acks_ok (ctl_acks s) ∧ delivering (ctl_acks s) = None →
  ctl_inv (sendAgentMessage ok s msg).2.
Proof.
  intros P A. unfold ctl_inv. rewrite send_answers.
  unfold sendAgentMessage. by destruct (negb (stream s)), ok.
Qed.

Lemma resolve_ok a id ack :
  acks_ok a → delivering a = None →
  ∃ a', resolvePending a id ack = Some a' ∧ acks_ok a' ∧ delivering a' = None.
Proof.
  intros O D. unfold resolvePending. pose proof (lookup_ok a id ack O D) as O'.
  destruct (delivering (resolvePending_lookup a id ack)) as [[i x]|] eqn:E; [|by eexists].
  pose proof O' as (_ & _ & _ & _ & _ & HD). destruct (HD i x E) as (_ & _ & Hc).
  unfold resolvePending_send. rewrite E, Hc. eexists. split; [done|]. split; [|done].
  apply (send_ok (resolvePending_lookup a id ack)); [done|]. unfold resolvePending_send. by rewrite E, Hc.
Qed.

Lemma reply_inv ok s id b text :
  omap command_key (commands s)
    ≡ₚ omap task_key (tasks s) ++ option_list (if decide (id = 0)%Z then None else Some (id, KResult)) ++ answers_of s →
  acks_ok (ctl_acks s) ∧ delivering (ctl_acks s) = None →
  ctl_inv (replyCommand ok s id b text).
Proof.
  intros P A. unfold replyCommand. case_decide; [done|]. by apply send_inv.
Qed.

Lemma snapshot_inv env s id :
  omap command_key (commands s)
    ≡ₚ omap task_key (tasks s) ++ option_list (if decide (id = 0)%Z then None else Some (id, KSnapshot)) ++ answers_of s →
  acks_ok (ctl_acks s) ∧ delivering (ctl_acks s) = None →
  ctl_inv (sendConfigSnapshot cfg env s id).
Proof.
  intros P A. unfold sendConfigSnapshot. case_decide; [done|].
  destruct (Snapshot _ _ _) as [snap fs]. by apply send_inv.
Qed.

Lemma recv_inv env s msg :
  ctl_inv s → ∃ s', recv_one cfg env s msg = Some s' ∧ ctl_inv s'.
Proof.
  intros (P & O & D). unfold recv_one, handleServerMessage. destruct msg as [id body]; cbn [sm_Body sm_CorrelationId].
  assert (∀ s1 msg, tasks s1 = tasks s → answers_of s1 = answers_of s → commands s1 = msg :: commands s →
    omap command_key (commands s1)
      ≡ₚ omap task_key (tasks s1) ++ option_list (command_key msg) ++ answers_of s1) as Hrecv.
  { intros s1 msg -> -> ->. rewrite omap_cons_list, P. apply Permutation_app_swap_app. }
  destruct body as [|ack|d| | | |u|q|]; try (eexists; split; [reflexivity|]).
  - by split; [apply (Hrecv _ (MkServerMessage id Pong))|].
  - destruct (resolve_ok (ctl_acks s) id ack O D) as (a' & E & O' & D'). simpl. rewrite E. simpl.
    eexists. split; [reflexivity|]. split; [|done]. by apply (Hrecv _ (MkServerMessage id (ServerAck ack))).
  - apply reply_inv; [|done]. by apply (Hrecv _ (MkServerMessage id (ServerDemandSet d))).
  - apply reply_inv; [|done]. by apply (Hrecv _ (MkServerMessage id GetStatus)).
  - by split; [apply (Hrecv _ (MkServerMessage id GetDiagnosis))|].
  - apply snapshot_inv; [|done]. by apply (Hrecv _ (MkServerMessage id GetConfig)).
  - split; [|done]. cbn [commands tasks with_tasks with_command]. rewrite !omap_cons_list, P, <- app_assoc. done.
  - split; [|done]. cbn [commands tasks with_tasks with_command]. rewrite !omap_cons_list, P, <- app_assoc. done.
  - by split; [apply (Hrecv _ (MkServerMessage id UnknownBody))|].
Qed.

(** Taking a task out of the list. *)
Lemma task_removed s before t after :
  ctl_inv s → tasks s = before ++ t :: after →
  omap command_key (commands s) ≡ₚ omap task_key (before ++ after) ++ option_list (task_key t) ++ answers_of s.
Proof.
  intros (P & _) E. rewrite P, E, !omap_app, omap_cons_list, <- !app_assoc.
  apply Permutation_app_head, Permutation_app_swap_app.
Qed.

Lemma update_inv ok env s before after id u :
  ctl_inv s → tasks s = before ++ UpdateTask id u :: after →
  ctl_inv (handleUpdateConfig cfg ok env (with_tasks s (before ++ after)) id u).
Proof.
  intros I E. pose proof (task_removed _ _ _ _ I E) as P. destruct I as (_ & A). simpl in P.
  unfold handleUpdateConfig. cbn [ctl_fs with_tasks].
  destruct (Apply _ _ _ _ _ _) as [fs [[path reload]|err]]; [|by apply reply_inv].
  assert (ctl_inv (replyCommand ok (with_fs (with_tasks s (before ++ after)) fs) id true (success_message path reload)))
    as I by by apply reply_inv.
  destruct reload; exact I.
Qed.

Lemma ctl_step_inv s s' : ctl_step cfg s s' → ctl_inv s → ctl_inv s'.
Proof.
  intros S I. destruct S as [s env msg s' _ E|s ok env before after id u E|s ok before after id q resp E _
    |s a St D|s y y' _ _|s t d c d' _|s ok t|s Hs|s ok Hs|s|s n Hn].
  - destruct (recv_inv env s msg I) as (s1 & E1 & I1). congruence.
  - by apply update_inv.
  - pose proof (task_removed _ _ _ _ I E) as P. destruct I as (_ & A). by apply send_inv.
  - destruct I as (P & O & _). split; [done|]. split; [|done]. by eapply ack_step_ok.
  - exact I.
  - exact I.
  - destruct I as (P & A). by apply send_inv.
  - exact I.
  - destruct I as (P & A). unfold send_hello.
    assert (ctl_inv (sendAgentMessage ok s (MkAgentMessage 0 (Hello (agentVersion cfg)))).2) as I1
      by by apply send_inv.
    destruct (sendAgentMessage _ _ _) as [[] s1]; exact I1.
  - exact I.
  - exact I.
Qed.

Lemma ctl_reachable_inv fs s : rtc (ctl_step cfg) (start fs) s → ctl_inv s.
Proof.
  assert (ctl_inv (start fs)) as I0 by (split; [done|split; [apply acks_init_ok|done]]).
  intros R. by apply (rtc_preserves _ _ ctl_step_inv _ _ R).
Qed.

End Lemmas.

(** ** Properties *)

(** C2: A demand set handled by the controller governs the very next batch of
    every pipeline. Whatever batches and earlier demand sets the filters saw,
    caches included, the metric filter's next output is the reference filter
    under the new name and selector lists, the log filter's under the new log
    selectors, and the trace filter's under the new trace selectors and the
    new routes that have both halves. *)
Theorem demand_set_takes_effect
    `{Regexp, UnicodeTables, PData, Namer, YAML} (cfg : settings) (exts : list extension)
    (env : CtlEnv) (s s' : controller) (corr : Z) (d : DemandSet)
    (mets : list (controller * MetricsBatch)) (md : MetricsBatch)
    (logs : list (controller * list ResourceLogs)) (ld : list ResourceLogs)
    (trs : list (controller * list ResourceSpans)) (td : list ResourceSpans) :
  EdgeController ∈ exts →
  recv_one cfg env s (MkServerMessage corr (ServerDemandSet d)) = Some s' →
  Forall (λ '(w, md), Forall nul_free (metricSelectors (ctl_demand w)) ∧
                      all_metrics (λ _ x, has_points (m_data x) = true) md) (mets ++ [(s', md)]) →
  Forall (λ '(w, _), Forall nul_free (logSelectors (ctl_demand w))) (logs ++ [(s', ld)]) →
  Forall (λ '(w, _), Forall nul_free (traceSelectors (ctl_demand w)) ∧
                     Forall route_good (traceRoutes (ctl_demand w))) (trs ++ [(s', td)]) →
  last (run (Start newDemandFilterProcessor exts) (mets ++ [(s', md)]))
    = Some (spec_consume (Some (ds_Metrics d)) (ds_MetricSelectors d) md) ∧
  last (run_logs (LogStart newLogDemandFilterProcessor exts) (logs ++ [(s', ld)]))
    = Some (spec_logs (ds_LogSelectors d) ld) ∧
  last (run_traces (TraceStart newTraceDemandFilterProcessor exts) (trs ++ [(s', td)]))
    = Some (spec_traces true (traceRoutesFromProto (ds_TraceDemands d)) (ds_TraceSelectors d) td).
Proof.
  intros He Hh F1 F2 F3. apply demand_set_snapshot in Hh.
  split_and!.
  - rewrite run_ok; [|apply cache_ok_Start|].
    + rewrite last_fmap_snoc. unfold demands_of, selectors_of, Start. simpl.
      rewrite first_providing_edge by done. simpl. by rewrite Hh.
    + unfold selectors_of, Start. simpl. rewrite first_providing_edge by done. exact F1.
  - rewrite run_logs_ok.
    + rewrite last_fmap_snoc. unfold log_demand, LogStart. simpl.
      rewrite first_providing_edge by done. simpl. by rewrite Hh.
    + rewrite LogStart_cache. apply empty_cache_ok. intros i _ E. unfold id in E. by subst.
    + unfold log_demand, LogStart. simpl. rewrite first_providing_edge by done. exact F2.
  - rewrite run_traces_ok; [|apply TraceStart_caches|].
    + rewrite last_fmap_snoc. unfold trace_demand, trace_routes, TraceStart. simpl.
      rewrite first_providing_edge by done. simpl. by rewrite Hh.
    + unfold trace_demand, trace_routes, TraceStart. simpl. rewrite first_providing_edge by done. exact F3.
Qed.

(** No command is forgotten or answered twice. In any interleaving of messages,
    running goroutines, pings, index traffic and reconnections, the commands
    received that ask for an answer are exactly, id and kind of answer, those
    still being worked on and those whose answer went to the stream (or was lost
    with it); and the receive loop can always handle the next message. *)
Theorem commands_are_accounted_for `{Regexp, HTTPClient, CaseTables, YAML} (cfg : settings) (fs : FS) (s : controller) :
  rtc (ctl_step cfg) (start fs) s →
  omap command_key (commands s) ≡ₚ omap task_key (tasks s) ++ answers_of s ∧
  (∀ env msg, is_Some (recv_one cfg env s msg)).
Proof.
  intros R. pose proof (ctl_reachable_inv cfg fs s R) as I. split; [apply I|].
  intros env msg. destruct (recv_inv cfg env s msg I) as (s' & E & _). rewrite E. eauto.
Qed.

(** What a field of 32 bits says of a count: the signed number of 32 bits that
    agrees with it modulo 2^32, which is the count itself below 2^31. *)
Definition tells (field : Z) (count : nat) : Prop :=
  (- 2 ^ 31 ≤ field < 2 ^ 31)%Z ∧ (field `mod` 2 ^ 32 = Z.of_nat count `mod` 2 ^ 32)%Z ∧
  ((Z.of_nat count < 2 ^ 31)%Z → field = Z.of_nat count).

Lemma int32_tells n : tells (int32 (Z.of_nat n)) n.
Proof.
  unfold tells, int32. pose proof (wrap_s_range 32 (Z.of_nat n) ltac:(lia)) as R.
  split_and!; [lia|lia|by apply wrap_s_mod|]. intros L. apply wrap_s_id; lia.
Qed.

(** Both parts of the diagnosis and the count agree, in either mode. *)
Lemma diagnosis_agrees `{Regexp} (s : controller) :
  let d := buildDiagnosis s in
  dg_matched d ++ dg_missing d
    ≡ₚ (if decide (metricSelectors (ctl_demand s) = []) then filter (λ x, x ≠ "") (dg_demand d) else dg_demand d) ∧
  (dg_demandedSeries d = 0 ↔ dg_matched d = []).
Proof.
  intros d. subst d. unfold buildDiagnosis, demandedNameSet. simpl.
  destruct (metricSelectors (ctl_demand s)) as [|x l] eqn:E.
  - rewrite decide_False by (simpl; lia). rewrite (decide_True (P := [] = [])) by done. simpl.
    split; [apply diagnose_partition|apply name_mode_agrees].
  - rewrite decide_True by (simpl; lia). rewrite (decide_False (P := x :: l = [])) by done.
    cbn [dg_matched dg_missing]. split; [apply diagnose_selectors_partition|apply selector_mode_agrees].
Qed.

Lemma diagnosis_counts `{Regexp} (s : controller) :
  let d := buildDiagnosis s in
  dg_knownSeries d = GetSize (known (ctl_caches s)) ∧
  dg_demandedSeries d = CountDemanded (known (ctl_caches s)) (demandedNameSet (known (ctl_caches s)) (GetDemandSnapshot (ctl_demand s))) ∧
  dg_demandHash d = demandHash (ctl_demand s).
Proof. intros d. subst d. unfold buildDiagnosis. by case_decide. Qed.


(** ** Evaluation *)

Module ControllerSample.

Definition read_ok : ReadEnv := MkReadEnv (λ _, None) (λ _, None) (λ _ _, None) false (λ _, "").
Definition env : CtlEnv := MkCtlEnv 1000 true read_ok (DiagnosticsSample.env []).
Definition client : HTTPClient := QueryHandlerSample.client.
Definition cfg : settings := MkSettings "dev" ConfigManagerSample.m QueryHandlerSample.cfg "/d".
Definition step := @ctl_step LiteralRegexp.engine client QueryHandlerSample.tables DiagnosticsSample.yaml cfg.

Definition demand_set : DemandSet :=
  MkDemandSet [] ["{service_name=`api`}"] [] ["{__name__=`up`,job=`api`,env=`prod`}"]
    [MkTraceDemand "{resource.service.name=`api`}" "r1"; MkTraceDemand "{resource.service.name=`db`}" ""] 7.

Definition connected : controller := (send_hello cfg true (open_stream (start ∅))).2.

(** The demand set is applied, the route without a filter id skipped, and the
    command answered. *)
Definition demanded : controller :=
  let s := with_command connected (MkServerMessage 5 (ServerDemandSet demand_set)) in
  replyCommand true (with_demand s (apply_demand_set 1000 (ctl_demand s) demand_set)) 5 true "demand_set applied".

Example demanded_state :
  traceRoutes (ctl_demand demanded) = [MkRoute "r1" "{resource.service.name=`api`}"] ∧
  sent demanded = [MkAgentMessage 5 (AgentCommandResult true "demand_set applied"); MkAgentMessage 0 (Hello "dev")].
Proof. split; reflexivity. Qed.

(** One known series, [up], under a demand for it and for an unknown name. *)
Definition one_series : controller :=
  let entry := MkKnown "up" 1000 0 0 0 [] in
  with_demand
    (with_caches (start ∅) (MkCaches {[KnownCacheSample.key "a" := entry]} ∅))
    (UpdateDemands NewDemandTimeseriesCache 1000 ["up"; "down"; ""] [] [] [] 7).

Example one_series_diagnosis :
  @buildDiagnosis LiteralRegexp.engine one_series = MkDiagnosis ["up"; "down"; ""] ["up"] ["down"] 1 1 7.
Proof. vm_compute. reflexivity. Qed.

End ControllerSample.

(** The filters ran under the empty demand before the set arrived. *)
Lemma demand_set_takes_effect_witness :
  let exts := [OtherExtension; EdgeController] in
  let md := DemandFilterSample.md in
  let ld := LogFilterSample.ld in
  let td := TraceFilterSample.td in
  let w0 := ControllerSample.connected in
  let w1 := ControllerSample.demanded in
  last (@run_traces LiteralRegexp.engine AssocPData.pdata edge_host
          (@TraceStart LiteralRegexp.engine edge_host newTraceDemandFilterProcessor exts) [(w0, td); (w1, td)])
  = Some (@spec_traces LiteralRegexp.engine AssocPData.pdata true
            [MkRoute "r1" "{resource.service.name=`api`}"] [] td).
Proof.
  intros exts md ld td w0 w1.
  assert (EdgeController ∈ exts) as He by (right; left).
  assert (@recv_one LiteralRegexp.engine DiagnosticsSample.yaml ControllerSample.cfg ControllerSample.env w0
            (MkServerMessage 5 (ServerDemandSet ControllerSample.demand_set)) = Some w1) as Hh by reflexivity.
  refine (proj2 (proj2 (@demand_set_takes_effect LiteralRegexp.engine latin1_tables AssocPData.pdata
    DemandFilterSample.namer DiagnosticsSample.yaml ControllerSample.cfg exts ControllerSample.env w0 w1 5 ControllerSample.demand_set
    [(w0, md)] md [(w0, ld)] ld [(w0, td)] td He Hh _ _ _))); repeat constructor.
Defined.

Lemma commands_are_accounted_for_witness :
  omap command_key (commands ControllerSample.demanded) = [(5%Z, KResult)] ∧
  omap command_key (commands ControllerSample.demanded) ≡ₚ answers_of ControllerSample.demanded.
Proof.
  split; [reflexivity|].
  assert (rtc ControllerSample.step (start ∅) ControllerSample.demanded) as R.
  { eapply rtc_l; [by apply ctl_open|]. eapply rtc_l; [by apply (ctl_hello _ _ true)|].
    eapply rtc_l; [|apply rtc_refl].
    apply (ctl_receive _ _ ControllerSample.env (MkServerMessage 5 (ServerDemandSet ControllerSample.demand_set)));
      reflexivity. }
  exact (proj1 (@commands_are_accounted_for LiteralRegexp.engine ControllerSample.client QueryHandlerSample.tables
    DiagnosticsSample.yaml ControllerSample.cfg ∅ ControllerSample.demanded R)).
Defined.

