(* ===== verification/DemandSwitch.v ===== *)
(** A demand set arriving while batches are in flight
    (components/edgecontroller/extension.go and the three demand filters).

    The controller writes a demand set in two critical sections, [UpdateDemands]
    and then [UpdateTraceRoutes], and the metric and trace filters read their
    provider twice per batch, the finer list first. [demand_writes] is what the
    cache holds in turn, [observed] what a batch's two reads can return, and the
    theorem says which filterings a concurrent batch can get. *)

From S2P Require Import Prelude GoText Selector PData PromNaming Demand DemandFilter.
From S2P Require Import SelectorCache LogFilter TraceFilter DemandCache Controller.

(** The contents of the cache before, between and after the two updates. *)
Definition demand_writes (t : Z) (c : DemandTimeseriesCache) (d : DemandSet) : list DemandTimeseriesCache :=
  let updated := UpdateDemands c t (ds_Metrics d) (ds_LogSelectors d) (ds_TraceSelectors d)
                   (ds_MetricSelectors d) (ds_Hash d) in
  [c; updated; UpdateTraceRoutes updated (traceRoutesFromProto (ds_TraceDemands d))].

(** The two reads of a batch see contents of the cache in the order they were
    written. *)
Definition observed (t : Z) (c : DemandTimeseriesCache) (d : DemandSet)
    (first second : DemandTimeseriesCache) : Prop :=
  ∃ i j, i ≤ j ∧ demand_writes t c d !! i = Some first ∧ demand_writes t c d !! j = Some second.

(** The provider as one batch meets it: metric selectors and trace routes come
    from the first read, names and trace selectors from the second. The log
    filter reads once. *)
Definition from_reads {A} (f : DemandTimeseriesCache * DemandTimeseriesCache → A) (x : extension)
  : option (DemandTimeseriesCache * DemandTimeseriesCache → A) :=
  match x with EdgeController => Some f | OtherExtension => None end.

Definition reading_host : DemandHost := {|
  World := DemandTimeseriesCache * DemandTimeseriesCache;
  Extension := extension;
  GetMetricSelectors := from_reads (λ w, MetricSelectors (GetDemandSnapshot w.1));
  GetDemands := from_reads (λ w, Timeseries (GetDemandSnapshot w.2));
  GetLogDemands := from_reads (λ w, LogSelectors (GetDemandSnapshot w.1));
  GetTraceRoutes := from_reads (λ w, TraceRoutes (GetDemandSnapshot w.1));
  GetTraceDemands := from_reads (λ w, TraceSelectors (GetDemandSnapshot w.2));
|}.

#[local] Existing Instance reading_host.

Notation reads := (DemandTimeseriesCache * DemandTimeseriesCache)%type.

Lemma first_providing_reads {A} (f : reads → A) (exts : list extension) :
  EdgeController ∈ exts → first_providing (from_reads f) exts = Some (EdgeController, f).
Proof.
  induction exts as [|[] exts IH]; simpl; [by intros ?%elem_of_nil|done|].
  rewrite elem_of_cons. intros [?|?]; [done|auto].
Qed.

(** The six pairs of reads. *)
Lemma observed_inv t c d w1 w2 :
  observed t c d w1 w2 →
  let new := apply_demand_set t c d in
  (w1 = c ∧ w2 = c) ∨
  (traceRoutes w1 = traceRoutes c ∧ metricSelectors w1 = metricSelectors c ∧ logSelectors w1 = logSelectors c ∧
   timeseries w2 = timeseries new ∧ traceSelectors w2 = traceSelectors new) ∨
  (traceRoutes w1 = traceRoutes c ∧ metricSelectors w1 = metricSelectors new ∧ logSelectors w1 = logSelectors new ∧
   timeseries w2 = timeseries new ∧ traceSelectors w2 = traceSelectors new) ∨
  (w1 = new ∧ w2 = new).
Proof.
  intros (i & j & L & E1 & E2) new.
  destruct i as [|[|[|i]]], j as [|[|[|j]]]; try lia; simplify_eq/=; auto 10.
Qed.

(** ** Properties *)

Section Switch.
Context `{Regexp, UnicodeTables, PData, Namer}.

(** What the filters make of a batch under a demand in force. *)
Definition metrics_under (c : DemandTimeseriesCache) (md : MetricsBatch) : option MetricsBatch :=
  spec_consume (Some (timeseries c)) (metricSelectors c) md.
Definition logs_under (c : DemandTimeseriesCache) (ld : list ResourceLogs) : option (list ResourceLogs) :=
  spec_logs (logSelectors c) ld.
Definition traces_under (c : DemandTimeseriesCache) (td : list ResourceSpans) : option (list ResourceSpans) :=
  spec_traces true (traceRoutes c) (traceSelectors c) td.

Lemma metrics_switch t c d w1 w2 md :
  observed t c d w1 w2 →
  let new := apply_demand_set t c d in
  let out := spec_consume (Some (timeseries w2)) (metricSelectors w1) md in
  out = metrics_under c md ∨ out = metrics_under new md ∨
  (metricSelectors c = [] ∧ metricSelectors new ≠ [] ∧ out = spec_consume (Some (timeseries new)) [] md).
Proof.
  intros O new out. unfold out, metrics_under.
  destruct (observed_inv _ _ _ _ _ O) as [[-> ->]|[(_ & E & _ & -> & _)|[(_ & -> & _ & -> & _)|[-> ->]]]]; auto.
  rewrite E. fold new. destruct (metricSelectors c) as [|x l] eqn:EC; [|left; done].
  destruct (decide (metricSelectors new = [])) as [->|N]; auto.
Qed.

Lemma traces_switch t c d w1 w2 td :
  observed t c d w1 w2 →
  let new := apply_demand_set t c d in
  let out := spec_traces true (traceRoutes w1) (traceSelectors w2) td in
  out = traces_under c td ∨ out = traces_under new td ∨
  (traceRoutes c = [] ∧ traceRoutes new ≠ [] ∧ out = spec_traces true [] (traceSelectors new) td).
Proof.
  intros O new out. unfold out, traces_under.
  assert (traceRoutes w1 = traceRoutes c → traceSelectors w2 = traceSelectors new →
    spec_traces true (traceRoutes w1) (traceSelectors w2) td = traces_under c td ∨
    spec_traces true (traceRoutes w1) (traceSelectors w2) td = traces_under new td ∨
    (traceRoutes c = [] ∧ traceRoutes new ≠ [] ∧
     spec_traces true (traceRoutes w1) (traceSelectors w2) td = spec_traces true [] (traceSelectors new) td)) as G.
  { intros -> ->. unfold traces_under. destruct (traceRoutes c) as [|r l] eqn:EC; [|left; done].
    destruct (decide (traceRoutes new = [])) as [->|N]; auto. }
  destruct (observed_inv _ _ _ _ _ O) as [[-> ->]|[(? & _ & _ & _ & ?)|[(? & _ & _ & _ & ?)|[-> ->]]]]; auto.
Qed.

Lemma logs_switch t c d w1 w2 ld :
  observed t c d w1 w2 →
  spec_logs (logSelectors w1) ld = logs_under c ld ∨
  spec_logs (logSelectors w1) ld = logs_under (apply_demand_set t c d) ld.
Proof.
  intros O. unfold logs_under.
  destruct (observed_inv _ _ _ _ _ O) as [[-> ->]|[(_ & _ & -> & _)|[(_ & _ & -> & _)|[-> ->]]]]; auto.
Qed.

(** C25: A batch concurrent with a demand set is filtered by the old set or by the
    new one. Wherever its reads fall among the two critical sections that replace
    the set, and whatever the filters saw before, a log batch gets the old or the
    new filtering; so does a metric batch unless the set switches from names to
    selectors, where it may also be filtered by the new names; and so does a
    trace batch unless the set introduces routing, where it may also be kept
    whole under the new selectors, unrouted. *)
Theorem switch_is_old_or_new
    (exts : list extension) (t : Z) (c w1 w2 : DemandTimeseriesCache) (d : DemandSet)
    (mets : list (reads * MetricsBatch)) (md : MetricsBatch)
    (logs : list (reads * list ResourceLogs)) (ld : list ResourceLogs)
    (trs : list (reads * list ResourceSpans)) (td : list ResourceSpans) :
  EdgeController ∈ exts →
  observed t c d w1 w2 →
  Forall (λ '(w, md), Forall nul_free (metricSelectors w.1) ∧
                      all_metrics (λ _ x, has_points (m_data x) = true) md) (mets ++ [((w1, w2), md)]) →
  Forall (λ '(w, _), Forall nul_free (logSelectors w.1)) (logs ++ [((w1, w2), ld)]) →
  Forall (λ '(w, _), Forall nul_free (traceSelectors w.2) ∧
                     Forall route_good (traceRoutes w.1)) (trs ++ [((w1, w2), td)]) →
  let new := apply_demand_set t c d in
  (∃ out, last (run (Start newDemandFilterProcessor exts) (mets ++ [((w1, w2), md)])) = Some out ∧
     (out = metrics_under c md ∨ out = metrics_under new md ∨
      (metricSelectors c = [] ∧ metricSelectors new ≠ [] ∧ out = spec_consume (Some (timeseries new)) [] md))) ∧
  (∃ out, last (run_logs (LogStart newLogDemandFilterProcessor exts) (logs ++ [((w1, w2), ld)])) = Some out ∧
     (out = logs_under c ld ∨ out = logs_under new ld)) ∧
  (∃ out, last (run_traces (TraceStart newTraceDemandFilterProcessor exts) (trs ++ [((w1, w2), td)])) = Some out ∧
     (out = traces_under c td ∨ out = traces_under new td ∨
      (traceRoutes c = [] ∧ traceRoutes new ≠ [] ∧ out = spec_traces true [] (traceSelectors new) td))).
Proof.
  intros He O F1 F2 F3 new. split_and!.
  - exists (spec_consume (Some (timeseries w2)) (metricSelectors w1) md). split; [|by apply metrics_switch].
    rewrite run_ok; [|apply cache_ok_Start|].
    + rewrite last_fmap_snoc. unfold demands_of, selectors_of, Start. simpl. by rewrite first_providing_reads.
    + unfold selectors_of, Start. simpl. rewrite first_providing_reads by done. exact F1.
  - exists (spec_logs (logSelectors w1) ld). split; [|by apply (logs_switch t c d w1 w2)].
    rewrite run_logs_ok.
    + rewrite last_fmap_snoc. unfold log_demand, LogStart. simpl. by rewrite first_providing_reads.
    + rewrite LogStart_cache. apply empty_cache_ok. intros i _ E. unfold id in E. by subst.
    + unfold log_demand, LogStart. simpl. rewrite first_providing_reads by done. exact F2.
  - exists (spec_traces true (traceRoutes w1) (traceSelectors w2) td). split; [|by apply traces_switch].
    rewrite run_traces_ok; [|apply TraceStart_caches|].
    + rewrite last_fmap_snoc. unfold trace_demand, trace_routes, TraceStart. simpl. by rewrite first_providing_reads.
    + unfold trace_demand, trace_routes, TraceStart. simpl. rewrite first_providing_reads by done. exact F3.
Qed.

End Switch.

(** ** Evaluation *)

Module DemandSwitchSample.

(** Nothing demanded; then the spans of one service, routed to rule [r1]. *)
Definition old : DemandTimeseriesCache := NewDemandTimeseriesCache.
Definition sel : string := "{resource.service.name=`api`}".
Definition routed : DemandSet := MkDemandSet [] [] [sel] [] [MkTraceDemand sel "r1"] 7.
Definition between : DemandTimeseriesCache := UpdateDemands old 1000 [] [] [sel] [] 7.

Definition traces (w : reads) :=
  last (@run_traces LiteralRegexp.engine AssocPData.pdata reading_host
          (@TraceStart LiteralRegexp.engine reading_host newTraceDemandFilterProcessor [EdgeController])
          [(w, TraceFilterSample.td)]).

(** A batch that falls between the two updates forwards the group without the
    rule's id; under the old set it is dropped, under the new one stamped. *)
Example between_is_unrouted :
  traces (between, between) = Some (Some [TraceFilterSample.group TraceFilterSample.api]) ∧
  traces (old, old) = Some None ∧
  traces (apply_demand_set 1000 old routed, apply_demand_set 1000 old routed)
    = Some (Some [TraceFilterSample.group (TraceFilterSample.api ++ [(FilterIDAttr, "r1")])]).
Proof. split_and!; vm_compute; reflexivity. Qed.

End DemandSwitchSample.

Lemma switch_is_old_or_new_witness :
  let c := DemandSwitchSample.old in
  let w := (DemandSwitchSample.between, DemandSwitchSample.between) in
  observed 1000 c DemandSwitchSample.routed w.1 w.2 ∧
  ∃ out, DemandSwitchSample.traces w = Some out.
Proof.
  intros c w.
  assert (observed 1000 c DemandSwitchSample.routed w.1 w.2) as O by (exists 1, 1; done).
  split; [exact O|].
  destruct (proj2 (proj2 (@switch_is_old_or_new LiteralRegexp.engine latin1_tables AssocPData.pdata
    DemandFilterSample.namer [EdgeController] 1000 c w.1 w.2 DemandSwitchSample.routed
    [] DemandFilterSample.md [] LogFilterSample.ld [] TraceFilterSample.td
    (list_elem_of_here _ _) O ltac:(repeat constructor) ltac:(repeat constructor) ltac:(repeat constructor))))
    as (out & E & _).
  exists out. exact E.
Defined.
