(* ===== verification/Telemetry.v ===== *)
(** The edge controller's own metrics (components/edgecontroller/telemetry.go):
    two counters of connections, and five gauges observed from the live caches
    and stream by a callback.

    The meter of the OpenTelemetry SDK is [MeterProvider]: which instrument, or
    the callback, it refuses. The theorem relates what the gauges report to the
    heartbeat. *)

From S2P Require Import Prelude GoText Selector MetricsIndex KnownCache DiscoveredCache Demand DemandCache.
From S2P Require Import Delivery IndexSync QueryHandler ConfigManager Diagnostics AckProtocol Controller.

Definition meterScope : string := "github.com/leansignal/leansignal-agent/components/edgecontroller".

Definition attempts_name : string := "leansignal.edgecontroller.connection.attempts".
Definition established_name : string := "leansignal.edgecontroller.connection.established".
Definition known_name : string := "leansignal.edgecontroller.known_timeseries_cache.size".
Definition discovered_name : string := "leansignal.edgecontroller.discovered_timeseries_cache.size".
Definition demand_name : string := "leansignal.edgecontroller.demand_timeseries_cache.size".
Definition pending_name : string := "leansignal.edgecontroller.pending_backend_updates".
Definition up_name : string := "leansignal.edgecontroller.connection.up".

(** What creating an instrument of a scope, and registering the callback for
    some gauges, fail with. *)
Record MeterProvider := MkMeterProvider {
  counter_error : string → string → option string;
  gauge_error : string → string → option string;
  callback_error : string → list string → option string;
}.

(** The counters' values, and whether the callback is registered. *)
Record controllerMetrics := MkControllerMetrics {
  connectionAttempts : Z;
  connectionsEstablished : Z;
  reg : bool;
}.

(** The first call of a sequence that fails. *)
Definition first_error (calls : list (option string)) : option string :=
  foldr (λ call rest, match call with Some e => Some e | None => rest end) None calls.

Definition gauge_names : list string := [known_name; discovered_name; demand_name; pending_name; up_name].

(** The counters and the gauges are created in order, then the callback is
    registered; the first error is returned and [e.metrics] stays nil. *)
Definition registerMetrics (mp : MeterProvider) : result string controllerMetrics :=
  let creations := (counter_error mp meterScope <$> [attempts_name; established_name])
                   ++ (gauge_error mp meterScope <$> gauge_names) in
  match first_error (creations ++ [callback_error mp meterScope gauge_names]) with
  | Some e => Err e
  | None => Ok (MkControllerMetrics 0 0 true)
  end.

(** [e.metrics] is nil until the registration has succeeded; the error of
    [Unregister] is ignored. *)
Definition unregisterMetrics (metrics : option controllerMetrics) : option controllerMetrics :=
  (λ m, MkControllerMetrics (connectionAttempts m) (connectionsEstablished m) false) <$> metrics.

Definition recordConnectionAttempt (metrics : option controllerMetrics) : option controllerMetrics :=
  (λ m, MkControllerMetrics (connectionAttempts m + 1) (connectionsEstablished m) (reg m)) <$> metrics.

Definition recordConnectionEstablished (metrics : option controllerMetrics) : option controllerMetrics :=
  (λ m, MkControllerMetrics (connectionAttempts m) (connectionsEstablished m + 1) (reg m)) <$> metrics.

Definition connectedState (s : controller) : Z := if stream s then 1 else 0.

(** The callback: what a collection of the metrics observes. *)
Definition observe (t : Z) (s : controller) : list (string * Z) :=
  let k := known (ctl_caches s) in
  [(known_name, int64 (Z.of_nat (GetSize k)));
   (discovered_name, int64 (Z.of_nat (DGetSize (discovered (ctl_caches s)))));
   (demand_name, int64 (Z.of_nat (DemandSize (ctl_demand s))));
   (pending_name, int64 (Z.of_nat (GetPendingBackendUpdates k t)));
   (up_name, connectedState s)].

(** ** Lemmas *)

Lemma GetPending_le k t : GetPendingBackendUpdates k t ≤ GetSize k.
Proof. unfold GetPendingBackendUpdates. apply entry_count_le. Qed.

(** ** Properties *)

(** The gauges and the heartbeat report the same agent: when the caches and
    the demanded names number fewer than 2^31, a collection of the metrics and a
    ping taken of the same state agree on the known, discovered, demanded and
    pending counts, the pending ones are at most the known ones, and the
    connection gauge is one exactly when the ping goes out on a stream. *)
Theorem gauges_agree_with_ping `{Regexp} (t : Z) (s : controller) :
  (Z.of_nat (GetSize (known (ctl_caches s))) < 2 ^ 31)%Z →
  (Z.of_nat (DGetSize (discovered (ctl_caches s))) < 2 ^ 31)%Z →
  (Z.of_nat (DemandSize (ctl_demand s)) < 2 ^ 31)%Z →
  let p := buildPing t s in
  observe t s = [(known_name, KnownCacheSize p); (discovered_name, DiscoveredCacheSize p);
                 (demand_name, DemandCacheSize p); (pending_name, PendingBackendUpdates p);
                 (up_name, connectedState s)] ∧
  (PendingBackendUpdates p ≤ KnownCacheSize p)%Z ∧
  (connectedState s = 1%Z ↔ ∃ s', sendAgentMessage true s (MkAgentMessage 0 (AgentPing p)) = (true, s') ∧
                                   sent s' = MkAgentMessage 0 (AgentPing p) :: sent s).
Proof.
  intros B1 B2 B3 p.
  assert (∀ n : nat, (Z.of_nat n < 2 ^ 31)%Z → int64 (Z.of_nat n) = Z.of_nat n ∧ int32 (Z.of_nat n) = Z.of_nat n) as W.
  { intros n Hn. unfold int64, int32. by rewrite !wrap_s_id by lia. }
  pose proof (GetPending_le (known (ctl_caches s)) t) as L. unfold DemandSize in B3.
  destruct (W _ B1) as [K1 K2], (W _ B2) as [D1 D2], (W _ B3) as [T1 T2], (W (GetPendingBackendUpdates
    (known (ctl_caches s)) t)) as [P1 P2]; [lia|].
  subst p. unfold observe, buildPing, DemandSize. simpl. rewrite K1, K2, D1, D2, T1, T2, P1, P2.
  split; [done|]. split; [lia|].
  unfold connectedState, sendAgentMessage. destruct (stream s); simpl; split; try done; [eauto|].
  intros (s' & [= <-] & E). simpl in E. apply (f_equal length) in E. simpl in E. lia.
Qed.

Lemma gauges_agree_with_ping_witness :
  let s := ControllerSample.one_series in
  observe 1000 s = [(known_name, 1%Z); (discovered_name, 0%Z); (demand_name, 3%Z); (pending_name, 1%Z); (up_name, 0%Z)] ∧
  (PendingBackendUpdates (@buildPing LiteralRegexp.engine 1000 s) ≤ KnownCacheSize (@buildPing LiteralRegexp.engine 1000 s))%Z.
Proof.
  intros s. split; [vm_compute; reflexivity|].
  exact (proj1 (proj2 (@gauges_agree_with_ping LiteralRegexp.engine 1000 s
    ltac:(vm_compute; reflexivity) ltac:(vm_compute; reflexivity) ltac:(vm_compute; reflexivity)))).
Defined.
