(* ===== verification/Lifecycle.v ===== *)
(** The life of the edge controller (components/edgecontroller/extension.go):
    [Start], the connection loop with its sessions, the goroutines of a session
    and of the commands, and [Shutdown].

    [agent] is the controller with what runs around it: where the connection
    loop is, the index processors and heartbeats of the sessions, the wait group
    and the root context, the registrations, the batches of series being delivered,
    and how far [Shutdown] has come. A
    processor or a heartbeat of an earlier session may still be running when a
    later one is open. [agent_step] lets every goroutine take its next step in
    any order; a select with several ready cases takes any of them.

    The theorems: the invariant [agent_ok], in particular that the wait group
    counts what runs and is never raised from zero; that the agent is a run of
    the controller's machine, so that its theorems hold for it; that [Shutdown]
    can always finish, within a bound; and that nothing happens after it has. *)

From S2P Require Import Prelude GoText Selector MetricsIndex KnownCache DiscoveredCache Demand DemandCache.
From S2P Require Import Delivery IndexSync QueryHandler ConfigManager Diagnostics AckProtocol Controller Telemetry.

(** Receivers of tracked series: this extension, and others. *)
Inductive receiver := Self | OtherReceiver (n : nat).

#[export] Instance receiver_eq_dec : EqDecision receiver.
Proof. solve_decision. Defined.

(** Where [connectionLoop] is: not started; before its first select; inside
    [connect], dialling, with the stream set and the hello unsent, in the receive
    loop of a session, or past it; in its second select; returned. *)
Inductive loop_state :=
| NotStarted
| LoopTop
| Dialing
| Opened
| Receiving (sid : nat)
| Closing
| Pausing
| LoopDone.

#[export] Instance loop_state_eq_dec : EqDecision loop_state.
Proof. solve_decision. Defined.

(** Where [timeseriesProcessorLoop] is: its first select, a batch, its second
    select. *)
Inductive proc_state := AtTop | Working | Sleeping.

#[export] Instance proc_state_eq_dec : EqDecision proc_state.
Proof. solve_decision. Defined.

(** How far [Shutdown] has come. *)
Inductive shutdown_state := Up | ReceiverGone | MetricsGone | RootCancelled | ShutDown.

#[export] Instance shutdown_state_eq_dec : EqDecision shutdown_state.
Proof. solve_decision. Defined.

Definition exitCodeConfigApplied : Z := 75.

Record agent := MkAgent {
  ctl : controller;
  loop : loop_state;
  nextSession : nat;
  procs : list (nat * proc_state);
  pings : list nat;
  wg : Z;
  cancelled : bool;
  receivers : list receiver;
  inbound : list delivery;
  metrics : option controllerMetrics;
  shutdown : shutdown_state;
  exit_code : option Z;
}.

Definition set_ctl (a : agent) (c : controller) : agent :=
  MkAgent c (loop a) (nextSession a) (procs a) (pings a) (wg a) (cancelled a) (receivers a) (inbound a) (metrics a)
    (shutdown a) (exit_code a).
Definition set_loop (a : agent) (l : loop_state) : agent :=
  MkAgent (ctl a) l (nextSession a) (procs a) (pings a) (wg a) (cancelled a) (receivers a) (inbound a) (metrics a)
    (shutdown a) (exit_code a).
Definition set_procs (a : agent) (ps : list (nat * proc_state)) : agent :=
  MkAgent (ctl a) (loop a) (nextSession a) ps (pings a) (wg a) (cancelled a) (receivers a) (inbound a) (metrics a)
    (shutdown a) (exit_code a).
Definition set_pings (a : agent) (ps : list nat) : agent :=
  MkAgent (ctl a) (loop a) (nextSession a) (procs a) ps (wg a) (cancelled a) (receivers a) (inbound a) (metrics a)
    (shutdown a) (exit_code a).
Definition set_session (a : agent) (n : nat) : agent :=
  MkAgent (ctl a) (loop a) n (procs a) (pings a) (wg a) (cancelled a) (receivers a) (inbound a) (metrics a)
    (shutdown a) (exit_code a).
Definition set_metrics (a : agent) (m : option controllerMetrics) : agent :=
  MkAgent (ctl a) (loop a) (nextSession a) (procs a) (pings a) (wg a) (cancelled a) (receivers a) (inbound a) m
    (shutdown a) (exit_code a).
Definition set_exit (a : agent) (code : Z) : agent :=
  MkAgent (ctl a) (loop a) (nextSession a) (procs a) (pings a) (wg a) (cancelled a) (receivers a) (inbound a) (metrics a)
    (shutdown a) (Some code).

Definition set_inbound (a : agent) (l : list delivery) : agent :=
  MkAgent (ctl a) (loop a) (nextSession a) (procs a) (pings a) (wg a) (cancelled a) (receivers a) l (metrics a)
    (shutdown a) (exit_code a).

(** [wg.Add] and [wg.Done]. *)
Definition wg_add (a : agent) (n : Z) : agent :=
  MkAgent (ctl a) (loop a) (nextSession a) (procs a) (pings a) (wg a + n) (cancelled a) (receivers a) (inbound a) (metrics a)
    (shutdown a) (exit_code a).
Definition wg_done (a : agent) : agent := wg_add a (-1).

(** ** Start *)

(** A nil meter provider registers nothing. When the registration fails nothing
    has been started. *)
Definition Start (meterProvider : option MeterProvider) (registered : list receiver) (fs : FS)
  : option string * agent :=
  let registered := RegisterTimeseriesReceiver registered Self in
  match (match meterProvider with
         | None => Ok None
         | Some mp => match registerMetrics mp with Err e => Err e | Ok m => Ok (Some m) end
         end) with
  | Err e => (Some e, MkAgent (start fs) NotStarted 0 [] [] 0 false registered [] None Up None)
  | Ok m => (None, MkAgent (start fs) LoopTop 0 [] [] 1 false registered [] m Up None)
  end.

(** ** Sessions *)

(** [go e.pingLoop(pingCtx)], then [startTimeseriesProcessor]. *)
Definition start_session (a : agent) : agent :=
  let sid := nextSession a in
  let a := set_pings (set_session (set_loop a (Receiving sid)) (S sid)) (sid :: pings a) in
  set_procs (wg_add a 1) ((sid, AtTop) :: procs a).

(** The context of a session's goroutines: cancelled with the root, or once the
    receive loop has ended. *)
Definition session_done (a : agent) (sid : nat) : bool :=
  cancelled a || match loop a with Receiving s => negb (s =? sid) | _ => true end.

(** The goroutines a message starts. *)
Definition spawned (msg : ServerMessage) : nat :=
  match sm_Body msg with ServerUpdateConfig _ | ServerQueryRequest _ => 1 | _ => 0 end.

(** ** Shutdown *)

Definition unregister_receiver (a : agent) : agent :=
  MkAgent (ctl a) (loop a) (nextSession a) (procs a) (pings a) (wg a) (cancelled a)
    (UnregisterTimeseriesReceiver (receivers a) Self) (inbound a) (metrics a) ReceiverGone (exit_code a).

Definition unregister_metrics (a : agent) : agent :=
  MkAgent (ctl a) (loop a) (nextSession a) (procs a) (pings a) (wg a) (cancelled a)
    (receivers a) (inbound a) (unregisterMetrics (metrics a)) MetricsGone (exit_code a).

(** [cancelFn] is nil when [Start] failed. *)
Definition cancel_root (a : agent) : agent :=
  MkAgent (ctl a) (loop a) (nextSession a) (procs a) (pings a) (wg a)
    (match loop a with NotStarted => cancelled a | _ => true end)
    (receivers a) (inbound a) (metrics a) RootCancelled (exit_code a).

Definition wait_returns (a : agent) : agent :=
  MkAgent (ctl a) (loop a) (nextSession a) (procs a) (pings a) (wg a) (cancelled a)
    (receivers a) (inbound a) (metrics a) ShutDown (exit_code a).

(** ** The machine *)

Section Machine.
Context `{Regexp, HTTPClient, CaseTables, YAML} (cfg : settings).

(** [connectionLoop] and [connect]. *)
Inductive loop_step : agent → agent → Prop :=
| loop_stops a :
    loop a = LoopTop → cancelled a = true → loop_step a (wg_done (set_loop a LoopDone))
| loop_dials a :
    loop a = LoopTop → cancelled a = false →
    loop_step a (set_metrics (set_loop a Dialing) (recordConnectionAttempt (metrics a)))
| loop_dial_fails a :
    loop a = Dialing → loop_step a (set_loop a Pausing)
| loop_opens a :
    loop a = Dialing →
    loop_step a (set_metrics (set_ctl (set_loop a Opened) (open_stream (ctl a)))
                   (recordConnectionEstablished (metrics a)))
| loop_hello_fails a c :
    loop a = Opened → send_hello cfg false (ctl a) = (false, c) →
    loop_step a (set_ctl (set_loop a Pausing) c)
| loop_hello a c :
    loop a = Opened → send_hello cfg true (ctl a) = (true, c) →
    loop_step a (start_session (set_ctl a c))
| loop_receives a sid env msg c :
    loop a = Receiving sid → recv_one cfg env (ctl a) msg = Some c →
    loop_step a (wg_add (set_ctl a c) (Z.of_nat (spawned msg)))
| loop_loses a sid :
    loop a = Receiving sid → loop_step a (set_loop a Closing)
| loop_closes a :
    loop a = Closing → loop_step a (set_ctl (set_loop a Pausing) (disconnect (ctl a)))
| loop_gives_up a :
    loop a = Pausing → cancelled a = true → loop_step a (wg_done (set_loop a LoopDone))
| loop_retries a :
    loop a = Pausing → loop_step a (set_loop a LoopTop).

(** [timeseriesProcessorLoop] of one session. *)
Inductive proc_step : agent → agent → Prop :=
| proc_stops a before sid st after :
    procs a = before ++ (sid, st) :: after → st ≠ Working → session_done a sid = true →
    proc_step a (wg_done (set_procs a (before ++ after)))
| proc_begins a before sid after :
    procs a = before ++ (sid, AtTop) :: after → session_done a sid = false →
    proc_step a (set_procs a (before ++ (sid, Working) :: after))
| proc_syncs a before sid after y y' :
    procs a = before ++ (sid, Working) :: after → sc y = ctl_caches (ctl a) → sync_step y y' →
    proc_step a (set_ctl a (with_caches (ctl a) (sc y')))
| proc_waits_ack a before sid after k :
    procs a = before ++ (sid, Working) :: after → ack_step (ctl_acks (ctl a)) k → delivering k = None →
    proc_step a (set_ctl a (with_acks (ctl a) k))
| proc_ends a before sid after :
    procs a = before ++ (sid, Working) :: after →
    proc_step a (set_procs a (before ++ (sid, Sleeping) :: after))
| proc_again a before sid after :
    procs a = before ++ (sid, Sleeping) :: after →
    proc_step a (set_procs a (before ++ (sid, AtTop) :: after)).

(** The goroutines of the commands, all counted by the wait group. *)
Inductive task_step : agent → agent → Prop :=
| task_update a ok env before id u after :
    tasks (ctl a) = before ++ UpdateTask id u :: after →
    task_step a (wg_done (set_ctl a (handleUpdateConfig cfg ok env (with_tasks (ctl a) (before ++ after)) id u)))
| task_query a ok before id q after resp :
    tasks (ctl a) = before ++ QueryTask id q :: after → answers (queryConfig cfg) q resp →
    task_step a (wg_done (set_ctl a (sendQueryResponse ok (with_tasks (ctl a) (before ++ after)) id resp))).

(** What the wait group does not count: heartbeats, the goroutines that wait to
    restart the process, and the batches of the pipelines. *)
Inductive untracked_step : agent → agent → Prop :=
| ping_sent a before sid after ok t :
    pings a = before ++ sid :: after →
    untracked_step a (set_pings (set_ctl a (ping ok t (ctl a)))
                        (if stream (ctl a) && negb ok then before ++ after else pings a))
| ping_stops a before sid after :
    pings a = before ++ sid :: after → session_done a sid = true →
    untracked_step a (set_pings a (before ++ after))
| restart_fires a :
    0 < restarts (ctl a) → untracked_step a (set_exit a exitCodeConfigApplied)
| restart_dropped a n :
    restarts (ctl a) = S n → cancelled a = true →
    untracked_step a (set_ctl a (with_restarts (ctl a) n))
| batch_arrives a batch :
    (** A pipeline hands a batch over, holding the registry's lock until the delivery
        has returned. *)
    Self ∈ receivers a → untracked_step a (set_inbound a (Looking batch :: inbound a))
| batch_proceeds a before d after t c d' :
    inbound a = before ++ d :: after → deliver_one t (ctl_caches (ctl a)) d = Some (c, d') →
    untracked_step a (set_inbound (set_ctl a (with_caches (ctl a) c)) (before ++ d' :: after))
| batch_delivered a before after :
    inbound a = before ++ Looking [] :: after → untracked_step a (set_inbound a (before ++ after)).

(** [Shutdown], statement by statement. Unregistering the receiver takes the
    registry's lock, so it waits for the deliveries under way. *)
Inductive shutdown_step : agent → agent → Prop :=
| shutdown_receiver a : shutdown a = Up → inbound a = [] → shutdown_step a (unregister_receiver a)
| shutdown_metrics a : shutdown a = ReceiverGone → shutdown_step a (unregister_metrics a)
| shutdown_cancel a : shutdown a = MetricsGone → shutdown_step a (cancel_root a)
| shutdown_wait a : shutdown a = RootCancelled → wg a = 0%Z → shutdown_step a (wait_returns a).

(** A step of a process that has not exited. *)
Definition agent_step (a a' : agent) : Prop :=
  exit_code a = None ∧
  (loop_step a a' ∨ proc_step a a' ∨ task_step a a' ∨ untracked_step a a' ∨ shutdown_step a a').

End Machine.

(** ** The invariant *)

Definition loop_running (l : loop_state) : bool :=
  match l with NotStarted | LoopDone => false | _ => true end.

Definition started (l : loop_state) : bool := match l with NotStarted => false | _ => true end.

(** Whether [e.stream] is set. *)
Definition stream_open (l : loop_state) : bool :=
  match l with Opened | Receiving _ | Closing => true | _ => false end.

(** The running goroutines the wait group has to count. *)
Definition tracked (a : agent) : nat :=
  (if loop_running (loop a) then 1 else 0) + length (procs a) + length (tasks (ctl a)).

Definition before_cancel (d : shutdown_state) : bool :=
  match d with Up | ReceiverGone | MetricsGone => true | _ => false end.

(** The counters: every established stream was dialled, and a dial under way is
    not counted as established; the callback is registered until [Shutdown]
    removes it. *)
Definition metrics_ok (l : loop_state) (d : shutdown_state) (m : controllerMetrics) : Prop :=
  (0 ≤ connectionsEstablished m)%Z ∧
  (connectionsEstablished m + (if decide (l = Dialing) then 1 else 0) ≤ connectionAttempts m)%Z ∧
  reg m = match d with Up | ReceiverGone => true | _ => false end.

Record agent_ok (regs : list receiver) (a : agent) : Prop := {
  ok_wg : wg a = Z.of_nat (tracked a);
  ok_stream : stream (ctl a) = stream_open (loop a);
  ok_sessions : Forall (λ sid, sid < nextSession a) (procs a).*1 ∧ Forall (λ sid, sid < nextSession a) (pings a);
  ok_current : ∀ sid, loop a = Receiving sid → nextSession a = S sid;
  ok_receivers : receivers a = (match shutdown a with Up => regs ++ [Self] | _ => regs end);
  ok_inbound : shutdown a = Up ∨ inbound a = [];
  ok_rings : rings_ok (ctl_caches (ctl a));
  ok_cancelled : cancelled a = (started (loop a) && negb (before_cancel (shutdown a)));
  ok_failed : loop a = NotStarted → tracked a = 0 ∧ pings a = [];
  ok_down : shutdown a = ShutDown → tracked a = 0;
  ok_metrics : ∀ m, metrics a = Some m → metrics_ok (loop a) (shutdown a) m;
}.

(** *** What the controller's operations leave alone *)

Section Frames.
Context `{Regexp, HTTPClient, CaseTables, YAML} (cfg : settings).

Lemma send_stream ok s msg : stream (sendAgentMessage ok s msg).2 = stream s.
Proof. unfold sendAgentMessage. by destruct (stream s) eqn:E, ok. Qed.
Lemma send_tasks ok s msg : tasks (sendAgentMessage ok s msg).2 = tasks s.
Proof. unfold sendAgentMessage. by destruct (stream s) eqn:E, ok. Qed.

Lemma send_caches ok s msg : ctl_caches (sendAgentMessage ok s msg).2 = ctl_caches s.
Proof. unfold sendAgentMessage. by destruct (stream s) eqn:E, ok. Qed.

Lemma reply_stream ok s id b text : stream (replyCommand ok s id b text) = stream s.
Proof. unfold replyCommand. case_decide; [done|]. apply send_stream. Qed.
Lemma reply_tasks ok s id b text : tasks (replyCommand ok s id b text) = tasks s.
Proof. unfold replyCommand. case_decide; [done|]. apply send_tasks. Qed.

Lemma reply_caches ok s id b text : ctl_caches (replyCommand ok s id b text) = ctl_caches s.
Proof. unfold replyCommand. case_decide; [done|]. apply send_caches. Qed.

#[local] Hint Rewrite send_stream send_tasks send_caches reply_stream reply_tasks reply_caches : frames.

Lemma recv_frame env s msg s' :
  recv_one cfg env s msg = Some s' →
  stream s' = stream s ∧ length (tasks s') = spawned msg + length (tasks s) ∧ ctl_caches s' = ctl_caches s.
Proof.
  unfold recv_one, handleServerMessage, spawned. destruct msg as [id []]; cbn [sm_Body sm_CorrelationId]; intros E.
  2: { destruct (resolvePending _ _ _); [|done]. by injection E as <-. }
  all: injection E as <-; autorewrite with frames; try done.
  unfold sendConfigSnapshot. case_decide; [done|]. destruct (Snapshot _ _ _) as [snap fs].
  by autorewrite with frames.
Qed.

Lemma update_frame ok env s id u :
  let s' := handleUpdateConfig cfg ok env s id u in
  stream s' = stream s ∧ tasks s' = tasks s ∧ ctl_caches s' = ctl_caches s.
Proof.
  unfold handleUpdateConfig. destruct (Apply _ _ _ _ _ _) as [fs [[path []]|err]]; split_and!; simpl;
    by autorewrite with frames.
Qed.

Lemma hello_frame ok s b s' :
  stream s = true → send_hello cfg ok s = (b, s') → b = ok ∧ stream s' = b ∧ tasks s' = tasks s ∧ ctl_caches s' = ctl_caches s.
Proof.
  unfold send_hello, sendAgentMessage. intros E. rewrite E. destruct ok; simpl; intros [= <- <-]; done.
Qed.

End Frames.

(** *** Every step preserves it *)

Section Preservation.
Context `{Regexp, HTTPClient, CaseTables, YAML} (cfg : settings) (regs : list receiver).

(** The counters across a move of the loop. *)
Lemma metrics_ok_move l l' d m : l' ≠ Dialing → metrics_ok l d m → metrics_ok l' d m.
Proof.
  intros N (P & L & R). split; [done|]. split; [|done]. rewrite (decide_False (P := l' = Dialing)) by done.
  case_decide; lia.
Qed.

Ltac fields I := destruct I as [Iwg Istr [Is1 Is2] Icur Irec Iinb Iring Icanc Ifail Idown Imet].
Ltac down := match goal with I : _ = ShutDown → _ |- _ = ShutDown → _ =>
  let Hd := fresh in intros Hd; specialize (I Hd); lia end.
Ltac show := constructor; cbn in *; unfold tracked in *; cbn in *; try done; try lia; try down; try congruence.

Lemma attempt_ok d m m' :
  (∀ m, m' = Some m → metrics_ok LoopTop d m) → recordConnectionAttempt m' = Some m → metrics_ok Dialing d m.
Proof.
  intros I. destruct m' as [m0|]; [|done]. intros [= <-]. destruct (I m0 eq_refl) as (P & L & R).
  split; [done|]. split; [|done]. simpl in *. lia.
Qed.

Lemma established_ok d m m' :
  (∀ m, m' = Some m → metrics_ok Dialing d m) → recordConnectionEstablished m' = Some m → metrics_ok Opened d m.
Proof.
  intros I. destruct m' as [m0|]; [|done]. intros [= <-]. destruct (I m0 eq_refl) as (P & L & R).
  split; [simpl; lia|]. split; [|done]. simpl in *. lia.
Qed.

Lemma below_S l n : Forall (λ sid, sid < n) l → Forall (λ sid, sid < S n) l.
Proof. intros F. eapply Forall_impl; [exact F|]. simpl. lia. Qed.

Lemma loop_step_ok a a' : loop_step cfg a a' → agent_ok regs a → agent_ok regs a'.
Proof.
  intros S I. destruct S as [a L C|a L C|a L|a L|a c L E|a c L E|a sid env msg c L E|a sid L|a L|a L C|a L];
    fields I; unfold tracked in *; rewrite L in *; cbn in *.
  - show.
  - show. intros m. by apply attempt_ok.
  - show. intros m Hm. eapply (metrics_ok_move Dialing); [done|]. by apply Imet.
  - show. intros m. by apply established_ok.
  - destruct (hello_frame cfg _ _ _ _ Istr E) as (_ & Es & Et & Ec). show; rewrite ?Et, ?Ec; try done; try lia; down.
  - destruct (hello_frame cfg _ _ _ _ Istr E) as (_ & Es & Et & Ec). show; rewrite ?Et, ?Ec; try done; try lia; try down; try congruence.
    split; constructor; try lia; by apply below_S.
  - destruct (recv_frame cfg _ _ _ _ E) as (Es & Et & Ec). show; rewrite ?L, ?Et, ?Ec; cbn; try done; try lia; try congruence; down.
  - show.
  - show.
  - show.
  - show.
Qed.
(** Replacing or dropping one entry of a list. *)
Lemma session_replaced (P : nat → Prop) before sid st st' after :
  Forall P (before ++ (sid, st) :: after : list (nat * proc_state)).*1 →
  Forall P (before ++ (sid, st') :: after : list (nat * proc_state)).*1.
Proof. by rewrite !fmap_app, !Forall_app, !fmap_cons, !Forall_cons. Qed.

Lemma proc_step_ok a a' : proc_step a a' → agent_ok regs a → agent_ok regs a'.
Proof.
  intros S I. destruct S as [a before sid st after E N D|a before sid after E D|a before sid after y y' E Ey Sy
    |a before sid after k E Sk Dk|a before sid after E|a before sid after E]; fields I;
    unfold tracked in *; rewrite E in *; rewrite length_app in *; cbn in *.
  - show; rewrite ?length_app; cbn; try lia; try down.
    + split; [|done]. rewrite !fmap_app, !Forall_app, fmap_cons, Forall_cons in Is1. rewrite fmap_app, Forall_app. tauto.
    + intros Hn. destruct (Ifail Hn). lia.
  - show; rewrite ?length_app; cbn; try lia; try down; [|naive_solver lia]. split; [|done].
    by eapply session_replaced.
  - rewrite <- Ey in Iring. pose proof (sync_step_rings _ _ Sy Iring).
    show; rewrite ?E, ?length_app; cbn; try lia; try down; naive_solver lia.
  - show; rewrite ?E, ?length_app; cbn; try lia; try down; naive_solver lia.
  - show; rewrite ?length_app; cbn; try lia; try down; [|naive_solver lia]. split; [|done].
    by eapply session_replaced.
  - show; rewrite ?length_app; cbn; try lia; try down; [|naive_solver lia]. split; [|done].
    by eapply session_replaced.
Qed.

Lemma task_step_ok a a' : task_step cfg a a' → agent_ok regs a → agent_ok regs a'.
Proof.
  intros S I. destruct S as [a ok env before id u after E|a ok before id q after resp E A]; fields I;
    unfold tracked in *; rewrite E in *; rewrite length_app in *; cbn in *.
  - destruct (update_frame cfg ok env (with_tasks (ctl a) (before ++ after)) id u) as (Es & Et & Ec).
    show; rewrite ?Et, ?Ec; cbn; rewrite ?length_app; try lia; try down; naive_solver lia.
  - unfold sendQueryResponse.
    pose proof (send_stream ok (with_tasks (ctl a) (before ++ after)) (MkAgentMessage id (AgentQueryResponse resp))) as Es.
    pose proof (send_tasks ok (with_tasks (ctl a) (before ++ after)) (MkAgentMessage id (AgentQueryResponse resp))) as Et.
    pose proof (send_caches ok (with_tasks (ctl a) (before ++ after)) (MkAgentMessage id (AgentQueryResponse resp))) as Ec.
    show; rewrite ?Et, ?Ec; cbn; rewrite ?length_app; try lia; try down; naive_solver lia.
Qed.

Lemma untracked_step_ok a a' : Self ∉ regs → untracked_step a a' → agent_ok regs a → agent_ok regs a'.
Proof.
  intros NS S I. destruct S as [a before sid after ok t E|a before sid after E D|a Hr|a n Hr Hc|a batch Hin
    |a before d after t c d' E Ed|a before after E]; fields I.
  - pose proof (send_stream ok (ctl a) (MkAgentMessage 0 (AgentPing (buildPing t (ctl a))))) as Es.
    pose proof (send_tasks ok (ctl a) (MkAgentMessage 0 (AgentPing (buildPing t (ctl a))))) as Et.
    pose proof (send_caches ok (ctl a) (MkAgentMessage 0 (AgentPing (buildPing t (ctl a))))) as Ec.
    show; unfold ping; rewrite ?Et, ?Es, ?Ec; try done.
    + split; [done|]. destruct (stream (ctl a) && negb ok); [|done].
      rewrite E in Is2. rewrite Forall_app, Forall_cons in Is2. rewrite Forall_app. tauto.
    + intros Hn. destruct (Ifail Hn) as [_ Hp]. rewrite Hp in E. by destruct before.
  - show.
    + split; [done|]. rewrite E in Is2. rewrite Forall_app, Forall_cons in Is2. rewrite Forall_app. tauto.
    + intros Hn. destruct (Ifail Hn) as [_ Hp]. rewrite Hp in E. by destruct before.
  - show.
  - show.
  - show. left. rewrite Irec in Hin. by destruct (shutdown a).
  - show; [|by eapply deliver_rings]. destruct Iinb as [?|En]; [by left|]. rewrite En in E. by destruct before.
  - show. destruct Iinb as [?|En]; [by left|]. rewrite En in E. by destruct before.
Qed.

Lemma shutdown_step_ok a a' : Self ∉ regs → shutdown_step a a' → agent_ok regs a → agent_ok regs a'.
Proof.
  intros NS S I. destruct S as [a E N|a E|a E|a E W]; fields I; rewrite E in *.
  - show; [|by right]. rewrite Irec. by apply unregister_last.
  - assert (inbound a = []) as En by by destruct Iinb. show; [by right|].
    intros m. destruct (metrics a) as [m0|]; [|done]. intros [= <-]. destruct (Imet m0 eq_refl) as (P & L & R). by split.
  - assert (inbound a = []) as En by by destruct Iinb. show; [by right|]. rewrite Icanc. by destruct (loop a).
  - assert (inbound a = []) as En by by destruct Iinb. show. by right.
Qed.

Lemma agent_step_ok a a' : Self ∉ regs → agent_step cfg a a' → agent_ok regs a → agent_ok regs a'.
Proof.
  intros NS [_ [S|[S|[S|[S|S]]]]].
  - by apply loop_step_ok.
  - by apply proc_step_ok.
  - by apply task_step_ok.
  - by apply untracked_step_ok.
  - by apply shutdown_step_ok.
Qed.

Lemma Start_ok mp fs : agent_ok regs (Start mp regs fs).2.
Proof.
  unfold Start. destruct mp as [mp|]; [destruct (registerMetrics mp) as [m|e] eqn:E|]; show;
    try (by left); try apply map_Forall_empty.
  intros m0 [= ->]. unfold registerMetrics in E. case_match; [done|]. by injection E as <-.
Qed.

Lemma agent_reachable_ok mp fs a :
  Self ∉ regs → rtc (agent_step cfg) (Start mp regs fs).2 a → agent_ok regs a.
Proof.
  intros NS R. refine (rtc_preserves _ _ _ _ _ R (Start_ok mp fs)). intros a1 a2. by apply agent_step_ok.
Qed.

End Preservation.

(** ** The agent runs the controller *)

Section Simulation.
Context `{Regexp, HTTPClient, CaseTables, YAML} (cfg : settings) (regs : list receiver).

Lemma loop_simulates a a' :
  loop_step cfg a a' → stream (ctl a) = stream_open (loop a) → rtc (ctl_step cfg) (ctl a) (ctl a').
Proof.
  intros S Hs. destruct S as [a L C|a L C|a L|a L|a c L E|a c L E|a sid env msg c L E|a sid L|a L|a L C|a L];
    rewrite L in Hs; simpl in *; try apply rtc_refl; apply rtc_once.
  - by apply ctl_open.
  - replace c with (send_hello cfg false (ctl a)).2 by (by rewrite E). by apply ctl_hello.
  - replace c with (send_hello cfg true (ctl a)).2 by (by rewrite E). by apply ctl_hello.
  - by eapply ctl_receive.
  - apply ctl_disconnect.
Qed.

Lemma agent_simulates a a' :
  agent_step cfg a a' → agent_ok regs a → rtc (ctl_step cfg) (ctl a) (ctl a').
Proof.
  intros [_ [S|[S|[S|[S|S]]]]] I.
  - apply loop_simulates; [done|apply I].
  - destruct S; simpl; try apply rtc_refl; apply rtc_once; [by eapply ctl_index|by apply ctl_caller].
  - destruct S; simpl; apply rtc_once; [by apply ctl_update_done|by apply (ctl_query_done cfg _ _ _ _ _ _ _ ltac:(eassumption))].
  - destruct S as [a before sid after ok t E|a before sid after E D|a Hr|a n Hr Hc|a batch Hin
      |a before d after t c d' E Ed|a before after E]; simpl; try apply rtc_refl; apply rtc_once.
    + apply ctl_ping.
    + by apply ctl_restart_dropped.
    + by apply (ctl_delivers cfg (ctl a) t d c d').
  - destruct S; apply rtc_refl.
Qed.

Lemma agent_run_simulates mp fs a :
  Self ∉ regs → rtc (agent_step cfg) (Start mp regs fs).2 a → rtc (ctl_step cfg) (start fs) (ctl a).
Proof.
  intros NS R. pose proof (Start_ok regs mp fs) as I.
  assert (ctl (Start mp regs fs).2 = start fs) as <-.
  { unfold Start. destruct mp as [mp|]; [destruct (registerMetrics mp)|]; done. }
  refine (rtc_simulates _ _ (agent_ok regs) ctl _ _ _ R I). intros a1 a2 S I1.
  split; [by eapply agent_step_ok|by apply agent_simulates].
Qed.

End Simulation.

(** ** Draining *)

(** How far [Shutdown] and the goroutines it waits for are from done. *)
Definition shutdown_rank (d : shutdown_state) : nat :=
  match d with Up => 4 | ReceiverGone => 3 | MetricsGone => 2 | RootCancelled => 1 | ShutDown => 0 end.
Definition loop_rank (l : loop_state) : nat :=
  match l with
  | Dialing => 6
  | Opened => 5
  | Receiving _ => 3
  | Closing => 2
  | LoopTop | Pausing => 1
  | NotStarted | LoopDone => 0
  end.
Definition proc_rank (p : nat * proc_state) : nat := match p.2 with Working => 2 | _ => 1 end.
Definition drain_rank (a : agent) : nat :=
  shutdown_rank (shutdown a) + loop_rank (loop a) + sum_list_with proc_rank (procs a) + length (tasks (ctl a)) +
  sum_list_with delivery_rank (inbound a).

Definition at_top (ps : list (nat * proc_state)) : nat := length (filter (λ p, p.2 = AtTop) ps).

(** A step on the way out: [Shutdown] itself, a step of a delivery under way, and
    once the root is cancelled, a move of the connection loop that does not begin
    another round, a move of a processor that does not, or the end of a command. A
    select takes the cancelled context over a timer here, and no further message or
    batch arrives. A delivery panics at a clock reading before the epoch, which is no
    step. *)
Definition drain_step `{Regexp, HTTPClient, CaseTables, YAML} (cfg : settings) (a a' : agent) : Prop :=
  exit_code a = None ∧
  (shutdown_step a a' ∨
   (untracked_step a a' ∧ inbound a' ≠ inbound a ∧ length (inbound a') ≤ length (inbound a)) ∨
   (before_cancel (shutdown a) = false ∧
    ((loop_step cfg a a' ∧ loop a' ≠ loop a ∧ loop a' ≠ LoopTop) ∨
     (proc_step a a' ∧ procs a' ≠ procs a ∧ at_top (procs a') ≤ at_top (procs a)) ∨
     task_step cfg a a'))).

(** The calls left of the deliveries under way. *)
Definition delivering_rank (a : agent) : nat := sum_list_with delivery_rank (inbound a).

Lemma drain_rank_bound a : drain_rank a ≤ 10 + 2 * length (procs a) + length (tasks (ctl a)) + delivering_rank a.
Proof.
  assert (sum_list_with proc_rank (procs a) ≤ 2 * length (procs a)) as B.
  { induction (procs a) as [|[? []] l IH]; simpl; lia. }
  unfold drain_rank, delivering_rank. destruct (shutdown a), (loop a); simpl; lia.
Qed.

Section Drain.
Context `{Regexp, HTTPClient, CaseTables, YAML} (cfg : settings) (regs : list receiver).

Lemma drain_is_step a a' : drain_step cfg a a' → agent_step cfg a a'.
Proof. intros [X [S|[[S _]|[_ [[S _]|[[S _]|S]]]]]]; split; auto. Qed.

(** Every such step comes closer to the end. *)
Lemma drain_decreases a a' : agent_ok regs a → drain_step cfg a a' → drain_rank a' < drain_rank a.
Proof.
  intros I [_ S]. unfold drain_rank. destruct S as [S|[[S [Ni Li]]|[D [[S [Nl Nt]]|[[S [Np Ha]]|S]]]]].
  - destruct S as [a D N|a D|a D|a D W]; simpl; rewrite D; simpl; lia.
  - destruct S as [a before sid after ok t E|a before sid after E D|a Hr|a n Hr Hc|a batch Hin
      |a before d after t c d' E Ed|a before after E]; simpl in *; try done; try lia.
    + pose proof (deliver_decreases _ _ _ _ _ Ed). rewrite E, !sum_list_with_app. simpl. lia.
    + rewrite E, !sum_list_with_app. simpl. lia.
  - pose proof (ok_stream _ _ I) as St.
    destruct S as [a L C|a L C|a L|a L|a c L E|a c L E|a sid env msg c L E|a sid L|a L|a L C|a L];
      rewrite L in *; simpl in *; try lia; try done.
    + rewrite (ok_cancelled _ _ I), L, D in C. done.
    + destruct (hello_frame cfg _ _ _ _ St E) as (_ & _ & -> & _). lia.
    + destruct (hello_frame cfg _ _ _ _ St E) as (_ & _ & -> & _). lia.
  - destruct S as [a before sid st after E N Dn|a before sid after E Dn|a before sid after y y' E Ey Sy
      |a before sid after k E Sk Dk|a before sid after E|a before sid after E]; simpl in *; try done.
    + rewrite E, !sum_list_with_app. simpl. assert (1 ≤ proc_rank (sid, st)) by (destruct st; cbn; lia). lia.
    + unfold session_done in Dn. rewrite (ok_cancelled _ _ I), D in Dn.
      destruct (loop a) eqn:L; simpl in Dn; try done.
    + rewrite E, !sum_list_with_app. simpl. lia.
    + exfalso. rewrite E in Ha. unfold at_top in Ha. rewrite !filter_app, !length_app, !filter_cons in Ha.
      simpl in Ha. lia.
  - destruct S as [a ok env before id u after E|a ok before id q after resp E A]; simpl.
    + destruct (update_frame cfg ok env (with_tasks (ctl a) (before ++ after)) id u) as (_ & -> & _).
      rewrite E. simpl. rewrite !length_app. simpl. lia.
    + unfold sendQueryResponse. rewrite send_tasks, E. simpl. rewrite !length_app. simpl. lia.
Qed.

(** With the root cancelled the connection loop is led out by its own steps. *)
Lemma loop_drains a :
  cancelled a = true → stream (ctl a) = stream_open (loop a) → loop_running (loop a) = true →
  ∃ a', loop_step cfg a a' ∧ loop a' ≠ loop a ∧ loop a' ≠ LoopTop.
Proof.
  intros C Hs Hr. destruct (loop a) as [| | | |sid| | |] eqn:L; try done.
  - eexists. split; [by apply loop_stops|done].
  - eexists. split; [by apply loop_dial_fails|done].
  - destruct (send_hello cfg false (ctl a)) as [b c] eqn:E.
    destruct (hello_frame cfg false (ctl a) b c Hs E) as (-> & _).
    eexists. split; [by apply (loop_hello_fails cfg a c)|done].
  - eexists. split; [by apply (loop_loses cfg a sid)|done].
  - eexists. split; [by apply loop_closes|done].
  - eexists. split; [by apply loop_gives_up|done].
Qed.

Lemma procs_drain a p ps :
  cancelled a = true → procs a = p :: ps →
  ∃ a', proc_step a a' ∧ procs a' ≠ procs a ∧ at_top (procs a') ≤ at_top (procs a).
Proof.
  intros C E. rewrite E. assert (ps ≠ p :: ps) as Nps by (intros Heq; apply (f_equal length) in Heq; simpl in Heq; lia).
  destruct p as [sid []].
  - eexists. split; [apply (proc_stops a [] sid AtTop ps); [done..|]|]. { unfold session_done. by rewrite C. }
    split; [done|]. unfold at_top. rewrite filter_cons. simpl. lia.
  - eexists. split; [by apply (proc_ends a [] sid ps)|]. split; [done|]. unfold at_top. by rewrite !filter_cons.
  - eexists. split; [apply (proc_stops a [] sid Sleeping ps); [done..|]|]. { unfold session_done. by rewrite C. }
    split; [done|]. unfold at_top. by rewrite filter_cons.
Qed.

Lemma tasks_drain a t ts : tasks (ctl a) = t :: ts → ∃ a', task_step cfg a a'.
Proof.
  intros E. destruct t as [id u|id q].
  - pose (env := MkEnv "" (Some "") None None None None (MkFile "" perm_0600) false false false None None (λ _, None) (λ _ _, ValidatorOk)).
    eexists. by apply (task_update cfg a true env [] id u ts).
  - eexists. apply (task_query cfg a true [] id q ts (errResp 429 "too many concurrent queries")); [done|by left].
Qed.

Lemma deliveries_drain a d ds :
  rings_ok (ctl_caches (ctl a)) → inbound a = d :: ds →
  ∃ a', untracked_step a a' ∧ inbound a' ≠ inbound a ∧ length (inbound a') ≤ length (inbound a).
Proof.
  intros R E. destruct (deliver_possible _ d R) as [->|(t & [c d'] & Ed)].
  - eexists. split; [by apply (batch_delivered a [] ds)|]. rewrite E. simpl. split; [|lia].
    intros Heq. apply (f_equal length) in Heq. simpl in Heq. lia.
  - eexists. split; [by apply (batch_proceeds a [] d ds t c d')|]. rewrite E. simpl. split; [|lia].
    intros [= Eq]. apply deliver_decreases in Ed. rewrite Eq in Ed. lia.
Qed.

(** Until [Shutdown] has returned there is such a step. *)
Lemma drain_progress a :
  agent_ok regs a → exit_code a = None → shutdown a ≠ ShutDown → ∃ a', drain_step cfg a a'.
Proof.
  intros I X N. unfold drain_step.
  destruct (inbound a) as [|d ds] eqn:In.
  2: { destruct (deliveries_drain a d ds (ok_rings _ _ I) In) as (a' & S). rewrite In in S. eauto. }
  destruct (shutdown a) eqn:D; [..|done].
  1-3: eexists; split; [done|left; by constructor].
  pose proof (ok_cancelled _ _ I) as C. rewrite D in C. simpl in C. rewrite andb_true_r in C.
  destruct (loop_running (loop a)) eqn:LR.
  { destruct (loop_drains a) as (a' & S & Nl & Nt); [rewrite C; by destruct (loop a)|apply I|done|].
    exists a'. split; [done|]. right. right. split; [done|]. by left. }
  destruct (procs a) as [|p ps] eqn:P.
  - destruct (tasks (ctl a)) as [|t ts] eqn:T.
    + eexists. split; [done|]. left. apply shutdown_wait; [done|].
      rewrite (ok_wg _ _ I). unfold tracked. by rewrite LR, P, T.
    + destruct (tasks_drain a t ts T) as (a' & S). exists a'. split; [done|]. right. right. auto.
  - assert (cancelled a = true) as C'.
    { rewrite C. destruct (loop a) eqn:L; try done. destruct (ok_failed _ _ I L) as [Tr _].
      unfold tracked in Tr. rewrite P in Tr. simpl in Tr. lia. }
    destruct (procs_drain a p ps C' P) as (a' & S & Np & Ha).
    exists a'. split; [done|]. right. right. split; [done|]. right. left. by rewrite P in *.
Qed.

Lemma drain_keeps_running a a' : drain_step cfg a a' → exit_code a' = None.
Proof.
  intros [X S]. destruct S as [S|[[S [Ni _]]|[_ [[S _]|[[S _]|S]]]]]; destruct S; done.
Qed.

Hypothesis NS : Self ∉ regs.

Lemma drain_run a a' :
  agent_ok regs a → exit_code a = None → rtc (drain_step cfg) a a' → agent_ok regs a' ∧ exit_code a' = None.
Proof.
  intros I X R. refine (rtc_preserves _ (λ a, agent_ok regs a ∧ exit_code a = None) _ _ _ R (conj I X)).
  intros a1 a2 S [I1 _]. split; [|by eapply drain_keeps_running].
  by apply (agent_step_ok cfg regs a1), I1; [|apply drain_is_step].
Qed.

Lemma drain_bound a a' n : agent_ok regs a → nsteps (drain_step cfg) n a a' → n ≤ drain_rank a.
Proof.
  intros I N. enough (n + drain_rank a' ≤ drain_rank a) by lia.
  refine (nsteps_measure _ (agent_ok regs) _ _ _ _ _ N I). intros a1 a2 S I1.
  split; [by apply (agent_step_ok cfg regs a1), I1; [|apply drain_is_step]|by apply drain_decreases].
Qed.

End Drain.

(** ** After the end *)

(** What is left to run: heartbeats without a stream, and goroutines that wait to
    restart the process. *)
Definition quiet (a : agent) : Prop :=
  shutdown a = ShutDown ∧ loop_running (loop a) = false ∧ procs a = [] ∧ tasks (ctl a) = [] ∧
  stream (ctl a) = false ∧ Self ∉ receivers a ∧ inbound a = [] ∧ (∀ m, metrics a = Some m → reg m = false).

(** What the outside sees of the controller. *)
Definition visible (a : agent) := (sent (ctl a), commands (ctl a), ctl_caches (ctl a), ctl_demand (ctl a), ctl_fs (ctl a)).

Lemma down_is_quiet regs a : Self ∉ regs → agent_ok regs a → shutdown a = ShutDown → quiet a.
Proof.
  intros NS I D. pose proof (ok_down _ _ I D) as T. unfold tracked in T.
  pose proof (ok_stream _ _ I) as St. pose proof (ok_receivers _ _ I) as Rc. pose proof (ok_metrics _ _ I) as M.
  rewrite D in Rc, M.
  destruct (loop_running (loop a)) eqn:L; [lia|]. unfold quiet. rewrite Rc. split_and!; try done.
  - apply length_zero_iff_nil. lia.
  - apply length_zero_iff_nil. lia.
  - rewrite St. by destruct (loop a).
  - destruct (ok_inbound _ _ I) as [U|?]; [by rewrite U in D|done].
  - intros m Hm. by destruct (M m Hm) as (_ & _ & ->).
Qed.

Lemma quiet_step `{Regexp, HTTPClient, CaseTables, YAML} cfg a a' :
  agent_step cfg a a' → quiet a → quiet a' ∧ visible a' = visible a.
Proof.
  intros [_ S] (D & L & P & T & St & Rc & In & M). unfold quiet, visible.
  destruct S as [S|[S|[S|[S|S]]]].
  - by destruct S as [a E| a E|a E|a E|a c E|a c E|a sid env msg c E|a sid E|a E|a E|a E]; rewrite E in L.
  - destruct S as [a before ? ? ? E|a before ? ? E|a before ? ? ? ? E|a before ? ? ? E|a before ? ? E|a before ? ? E];
      rewrite P in E; by destruct before.
  - destruct S as [a ? ? before ? ? ? E|a ? before ? ? ? ? E]; rewrite T in E; by destruct before.
  - destruct S as [a before sid after ok t E|a before sid after E Dn|a Hr|a n Hr Hc|a batch Hin
      |a before d after t c d' E Ed|a before after E]; simpl; try done.
    2,3: rewrite In in E; by destruct before.
    unfold ping, sendAgentMessage. rewrite St. done.
  - destruct S; congruence.
Qed.

Lemma quiet_run `{Regexp, HTTPClient, CaseTables, YAML} cfg a a' :
  rtc (agent_step cfg) a a' → quiet a → quiet a' ∧ visible a' = visible a.
Proof.
  induction 1 as [|a1 a2 a3 S R IH]; intros Q; [done|].
  destruct (quiet_step cfg a1 a2 S Q) as [Q2 <-]. by apply IH.
Qed.

(** The wait group is raised only by the connection loop, which it counts. *)
Lemma wg_raised `{Regexp, HTTPClient, CaseTables, YAML} cfg regs a a' :
  agent_ok regs a → agent_step cfg a a' → (wg a < wg a')%Z → (0 < wg a)%Z.
Proof.
  intros I [_ S] Hlt. rewrite (ok_wg _ _ I) in *. unfold tracked.
  enough (loop_running (loop a) = true) as -> by lia.
  destruct S as [S|[S|[S|[S|S]]]]; destruct S; simpl in Hlt; rewrite ?(ok_wg _ _ I) in Hlt; try lia;
    match goal with E : loop _ = _ |- _ => by rewrite E end.
Qed.

(** ** Properties *)

Section Properties.
Context `{Regexp, HTTPClient, CaseTables, YAML}.

(** C19: The life of the agent is well kept. In every state reachable from
    [Start], whether or not it succeeded, the wait group equals the number of
    tracked goroutines (the connection loop, the index processors, the commands
    being worked on), so it is never negative, and any step that raises it finds
    it positive, so no [Add] races with [Shutdown]'s [Wait]; a stream is set
    exactly while [connect] holds one; and the connections counted as established
    never exceed the attempts. *)
Theorem lifecycle_invariant (cfg : settings) (mp : option MeterProvider) (regs : list receiver) (fs : FS) (a : agent) :
  Self ∉ regs → rtc (agent_step cfg) (Start mp regs fs).2 a →
  wg a = Z.of_nat ((if loop_running (loop a) then 1 else 0) + length (procs a) + length (tasks (ctl a))) ∧
  (∀ a', agent_step cfg a a' → (wg a < wg a')%Z → (0 < wg a)%Z) ∧
  connectedState (ctl a) = (if stream_open (loop a) then 1 else 0)%Z ∧
  (∀ m, metrics a = Some m → (0 ≤ connectionsEstablished m ≤ connectionAttempts m)%Z).
Proof.
  intros NS R. pose proof (agent_reachable_ok cfg regs mp fs a NS R) as I. split_and!.
  - apply I.
  - intros a'. by apply (wg_raised cfg regs).
  - unfold connectedState. by rewrite (ok_stream _ _ I).
  - intros m Hm. destruct (ok_metrics _ _ I m Hm) as (P & L & _). case_decide; lia.
Qed.

(** C18: The agent, with all its goroutines, is a run of the controller's machine:
    whatever interleaving of sessions, processors, heartbeats, commands and
    shutdown led to a state, the controller in it is reachable by that machine;
    so the commands received that ask for an answer are exactly, id and kind of
    answer agreeing, those still being worked on, those whose one answer was handed
    to the stream, and those whose one answer was lost because no stream was open or
    its [Send] failed - which may happen whenever a session ends; what went out
    answers no command twice; and the receive loop can always handle the next
    message. *)
Theorem agent_refines_controller (cfg : settings) (mp : option MeterProvider) (regs : list receiver) (fs : FS) (a : agent) :
  Self ∉ regs → rtc (agent_step cfg) (Start mp regs fs).2 a →
  rtc (ctl_step cfg) (start fs) (ctl a) ∧
  omap command_key (commands (ctl a))
    ≡ₚ omap task_key (tasks (ctl a)) ++ omap answer_key (sent (ctl a)) ++ omap answer_key (lost (ctl a)) ∧
  omap answer_key (sent (ctl a)) ⊆+ omap command_key (commands (ctl a)) ∧
  (∀ env msg, is_Some (recv_one cfg env (ctl a) msg)).
Proof.
  intros NS R. pose proof (agent_run_simulates cfg regs mp fs a NS R) as S. split; [exact S|].
  pose proof (ctl_reachable_inv cfg fs _ S) as I. destruct (id I) as (P & _). unfold answers_of in P.
  split; [exact P|]. split.
  { rewrite P. apply submseteq_inserts_l, submseteq_inserts_r. done. }
  intros env msg. destruct (recv_inv cfg env (ctl a) msg I) as (s' & E & _). rewrite E. eauto.
Qed.

(** C20: [Shutdown] finishes, whatever is running when it is called. From every
    reachable state of a process that has not exited, also when [Start] failed,
    (1) the steps on the way out - [Shutdown]'s own, and once it has cancelled the
    root those in which the connection loop, the index processors and the commands
    wind down - come to an end, after at most four of [Shutdown], six of the loop,
    two per running processor, one per command being worked on and the calls left of
    the batches being delivered, for which [Shutdown] waits too; and (2) where
    they can go no further, in whatever order they were taken, [Shutdown] has
    returned. *)
Theorem shutdown_completes (cfg : settings) (mp : option MeterProvider) (regs : list receiver) (fs : FS) (a : agent) :
  Self ∉ regs → rtc (agent_step cfg) (Start mp regs fs).2 a → exit_code a = None →
  (∀ n a', nsteps (drain_step cfg) n a a' → n ≤ 10 + 2 * length (procs a) + length (tasks (ctl a)) + delivering_rank a) ∧
  (∀ a', rtc (drain_step cfg) a a' → (∀ a'', ¬ drain_step cfg a' a'') → shutdown a' = ShutDown).
Proof.
  intros NS R X. pose proof (agent_reachable_ok cfg regs mp fs a NS R) as I. split.
  - intros n a' N. pose proof (drain_bound cfg regs NS a a' n I N). pose proof (drain_rank_bound a). lia.
  - intros a' S Stuck. destruct (drain_run cfg regs NS a a' I X S) as [I' X'].
    destruct (decide (shutdown a' = ShutDown)) as [D|N]; [done|].
    destruct (drain_progress cfg regs a' I' X' N) as (a'' & S'). by destruct (Stuck a'').
Qed.

(** C21: Nothing happens after [Shutdown] has returned. No goroutine that could
    touch the agent's state is left: the connection loop, the index processors,
    the commands and the deliveries of batches are over, the stream is closed,
    neither the receiver nor the callback is registered; and however the remaining heartbeats and restart
    timers go on, no message is sent or received and no cache, demand or file
    changes any more. *)
Theorem nothing_after_shutdown (cfg : settings) (mp : option MeterProvider) (regs : list receiver) (fs : FS)
    (a a' : agent) :
  Self ∉ regs → rtc (agent_step cfg) (Start mp regs fs).2 a → shutdown a = ShutDown →
  rtc (agent_step cfg) a a' →
  quiet a' ∧ visible a' = visible a.
Proof.
  intros NS R D R'. apply (quiet_run cfg a a' R'). apply (down_is_quiet regs); [done| |done].
  by eapply agent_reachable_ok.
Qed.

End Properties.

(** ** Evaluation *)

Module LifecycleSample.

Definition cfg : settings := ControllerSample.cfg.
Definition step := @agent_step LiteralRegexp.engine QueryHandlerSample.client QueryHandlerSample.tables
  DiagnosticsSample.yaml cfg.

Definition mp : MeterProvider := MkMeterProvider (λ _ _, None) (λ _ _, None) (λ _ _, None).
Definition a0 : agent := (Start (Some mp) [] ∅).2.

(** Dial, open, greet. *)
Definition a1 : agent := set_metrics (set_loop a0 Dialing) (recordConnectionAttempt (metrics a0)).
Definition a2 : agent :=
  set_metrics (set_ctl (set_loop a1 Opened) (open_stream (ctl a1))) (recordConnectionEstablished (metrics a1)).
Definition a3 : agent := start_session (set_ctl a2 (send_hello cfg true (ctl a2)).2).

Lemma run3 : rtc step a0 a3.
Proof.
  eapply rtc_l. { split; [done|]. left. by apply loop_dials. }
  eapply rtc_l. { split; [done|]. left. by apply loop_opens. }
  eapply rtc_l; [|apply rtc_refl]. split; [done|]. left. by apply loop_hello.
Qed.

(** Shut down from there, in the order of [Shutdown]'s statements; the processor
    leaves before the connection loop. *)
Definition b1 : agent := cancel_root (unregister_metrics (unregister_receiver a3)).
Definition b2 : agent := set_loop (wg_done (set_procs b1 [])) Closing.
Definition b3 : agent := wg_done (set_loop (set_ctl (set_loop b2 Pausing) (disconnect (ctl b2))) LoopDone).
Definition b4 : agent := wait_returns b3.

Lemma run_down : rtc step a3 b4.
Proof.
  eapply rtc_l. { split; [done|]. do 4 right. by apply shutdown_receiver. }
  eapply rtc_l. { split; [done|]. do 4 right. by apply shutdown_metrics. }
  eapply rtc_l. { split; [done|]. do 4 right. by apply shutdown_cancel. }
  eapply rtc_l. { split; [done|]. right. left. by apply (proc_stops b1 [] 0 AtTop []). }
  eapply rtc_l. { split; [done|]. left. by apply (loop_loses _ _ 0). }
  eapply rtc_l. { split; [done|]. left. by apply loop_closes. }
  eapply rtc_l. { split; [done|]. left. by apply loop_gives_up. }
  eapply rtc_l; [|apply rtc_refl]. split; [done|]. do 4 right. by apply shutdown_wait.
Qed.

(** The heartbeat of the closed session fires once more. *)
Definition b5 : agent :=
  set_pings (set_ctl b4 (@ping LiteralRegexp.engine true 1000 (ctl b4))) (pings b4).

Lemma run_ping : rtc step b4 b5.
Proof.
  eapply rtc_l; [|apply rtc_refl]. split; [done|]. do 3 right. left.
  by apply (@ping_sent LiteralRegexp.engine b4 [] 0 [] true 1000).
Qed.

(** A query of the first session is answered on the second session's stream,
    before that session's hello. *)
Definition query : ServerMessage := MkServerMessage 9 (ServerQueryRequest (QueryHandlerSample.request "GET" "/api/v1/query")).

Definition c1 : agent :=
  wg_add (set_ctl a3 (default (ctl a3) (@recv_one LiteralRegexp.engine DiagnosticsSample.yaml cfg ControllerSample.env (ctl a3) query))) 1.
Definition c2 : agent := set_ctl (set_loop c1 Pausing) (disconnect (ctl c1)).
Definition c3 : agent := set_metrics (set_loop (set_loop c2 LoopTop) Dialing) (recordConnectionAttempt (metrics c2)).
Definition c4 : agent :=
  set_metrics (set_ctl (set_loop c3 Opened) (open_stream (ctl c3))) (recordConnectionEstablished (metrics c3)).
Definition c5 : agent :=
  wg_done (set_ctl c4 (sendQueryResponse true (with_tasks (ctl c4) []) 9 (errResp 429 "too many concurrent queries"))).

Lemma run_overtake : rtc step a3 c5.
Proof.
  eapply rtc_l. { split; [done|]. left. by apply (@loop_receives LiteralRegexp.engine DiagnosticsSample.yaml cfg a3 0 ControllerSample.env query). }
  eapply rtc_l. { split; [done|]. left. by apply (loop_loses _ _ 0). }
  eapply rtc_l. { split; [done|]. left. by apply loop_closes. }
  eapply rtc_l. { split; [done|]. left. by apply loop_retries. }
  eapply rtc_l. { split; [done|]. left. by apply loop_dials. }
  eapply rtc_l. { split; [done|]. left. by apply loop_opens. }
  eapply rtc_l; [|apply rtc_refl]. split; [done|]. do 2 right. left.
  apply (@task_query _ _ cfg c4 true [] 9 (QueryHandlerSample.request "GET" "/api/v1/query") []); [done|by left].
Qed.

Example answer_overtakes_hello :
  loop c5 = Opened ∧ (am_Body <$> sent (ctl c5)) =
    [AgentQueryResponse (errResp 429 "too many concurrent queries"); Hello "dev"].
Proof. done. Qed.

(** The same answer given while no stream is open reaches nobody. *)
Definition c3' : agent :=
  wg_done (set_ctl c2 (sendQueryResponse true (with_tasks (ctl c2) []) 9 (errResp 429 "too many concurrent queries"))).

Lemma run_lost : rtc step a3 c3'.
Proof.
  eapply rtc_l. { split; [done|]. left. by apply (@loop_receives LiteralRegexp.engine DiagnosticsSample.yaml cfg a3 0 ControllerSample.env query). }
  eapply rtc_l. { split; [done|]. left. by apply (loop_loses _ _ 0). }
  eapply rtc_l. { split; [done|]. left. by apply loop_closes. }
  eapply rtc_l; [|apply rtc_refl]. split; [done|]. do 2 right. left.
  apply (@task_query _ _ cfg c2 true [] 9 (QueryHandlerSample.request "GET" "/api/v1/query") []); [done|by left].
Qed.

(** A meter provider that refuses the last gauge fails the start: nothing runs,
    and the receiver is still registered. *)
Example failed_start :
  let r := Start (Some (MkMeterProvider (λ _ _, None) (λ _ n, if decide (n = up_name) then Some "taken" else None)
                          (λ _ _, None))) [] ∅ in
  r.1 = Some "taken" ∧ wg r.2 = 0%Z ∧ receivers r.2 = [Self].
Proof. vm_compute. done. Qed.

End LifecycleSample.

Lemma lifecycle_invariant_witness :
  let a := LifecycleSample.a3 in
  wg a = 2%Z ∧ connectedState (ctl a) = 1%Z ∧
  (∀ m, metrics a = Some m → (0 ≤ connectionsEstablished m ≤ connectionAttempts m)%Z).
Proof.
  intros a.
  pose proof (@lifecycle_invariant LiteralRegexp.engine QueryHandlerSample.client QueryHandlerSample.tables
    DiagnosticsSample.yaml LifecycleSample.cfg (Some LifecycleSample.mp) [] ∅ a (not_elem_of_nil _) LifecycleSample.run3)
    as (W & _ & C & M).
  split; [exact W|]. split; [exact C|exact M].
Defined.

(** The answer that overtakes a hello went out; the one given between two sessions
    is lost. *)
Lemma agent_refines_controller_witness :
  let partition (a : agent) := omap command_key (commands (ctl a))
    ≡ₚ omap task_key (tasks (ctl a)) ++ omap answer_key (sent (ctl a)) ++ omap answer_key (lost (ctl a)) in
  let a := LifecycleSample.c5 in
  let a' := LifecycleSample.c3' in
  (omap answer_key (sent (ctl a)) = [(9%Z, KQuery)] ∧ omap answer_key (lost (ctl a)) = [] ∧ partition a) ∧
  (omap answer_key (sent (ctl a')) = [] ∧ omap answer_key (lost (ctl a')) = [(9%Z, KQuery)] ∧ partition a').
Proof.
  intros partition a a'.
  assert (∀ x, rtc LifecycleSample.step LifecycleSample.a3 x → partition x) as P.
  { intros x R.
    assert (rtc LifecycleSample.step LifecycleSample.a0 x) as R0 by (etrans; [apply LifecycleSample.run3|exact R]).
    exact (proj1 (proj2 (@agent_refines_controller LiteralRegexp.engine QueryHandlerSample.client
      QueryHandlerSample.tables DiagnosticsSample.yaml LifecycleSample.cfg (Some LifecycleSample.mp) [] ∅ x
      (not_elem_of_nil _) R0))). }
  split; (split; [reflexivity|split; [reflexivity|]]).
  - apply P, LifecycleSample.run_overtake.
  - apply P, LifecycleSample.run_lost.
Defined.

Lemma shutdown_completes_witness :
  let a := LifecycleSample.a3 in
  length (procs a) = 1 ∧
  (∀ n a', nsteps (@drain_step LiteralRegexp.engine QueryHandlerSample.client QueryHandlerSample.tables
                     DiagnosticsSample.yaml LifecycleSample.cfg) n a a' → n ≤ 12).
Proof.
  intros a. split; [reflexivity|].
  exact (proj1 (@shutdown_completes LiteralRegexp.engine QueryHandlerSample.client QueryHandlerSample.tables
    DiagnosticsSample.yaml LifecycleSample.cfg (Some LifecycleSample.mp) [] ∅ a (not_elem_of_nil _)
    LifecycleSample.run3 eq_refl)).
Defined.

Lemma nothing_after_shutdown_witness :
  pings LifecycleSample.b5 = [0] ∧
  quiet LifecycleSample.b5 ∧ visible LifecycleSample.b5 = visible LifecycleSample.b4.
Proof.
  split; [reflexivity|].
  assert (rtc LifecycleSample.step LifecycleSample.a0 LifecycleSample.b4) as R
    by (etrans; [apply LifecycleSample.run3|apply LifecycleSample.run_down]).
  exact (@nothing_after_shutdown LiteralRegexp.engine QueryHandlerSample.client QueryHandlerSample.tables
    DiagnosticsSample.yaml LifecycleSample.cfg (Some LifecycleSample.mp) [] ∅ LifecycleSample.b4 LifecycleSample.b5
    (not_elem_of_nil _) R eq_refl LifecycleSample.run_ping).
Defined.
