(* ===== verification/AgentIndex.v ===== *)
(** The index in the running agent: [Lifecycle]'s agent, whose connection loop opens
    and loses sessions, together with what the processors of these sessions wait
    for and what the backend has ([IndexSessions]).

    [Lifecycle] lets a processor that is at work take any step of the index
    synchronisation. Here each one follows its own program: [indexed_step] pairs a
    step of the agent with the step of the sessions it is. The theorem: both
    projections of a run are runs, over the same caches and the same deliveries, so
    that no series the agent knows is forgotten, whatever its connections, its
    commands and its shutdown do, but for the doubts of [IndexSessions]. *)

From S2P Require Import Prelude GoText Selector MetricsIndex KnownCache DiscoveredCache Demand DemandCache.
From S2P Require Import Delivery IndexSync IndexSessions QueryHandler ConfigManager Diagnostics AckProtocol Controller Telemetry Lifecycle.

Section Machine.
Context `{Regexp, HTTPClient, CaseTables, YAML} (cfg : settings).

(** The processor at some position of the agent and what it waits for. *)
Definition paired (a : agent) (s : sessions) (before : list (nat * proc_state)) (q : nat * proc_state)
    (after : list (nat * proc_state)) (wb : list worker) (p : worker) (wa : list worker) : Prop :=
  exit_code a = None ∧ procs a = before ++ q :: after ∧ workers s = wb ++ p :: wa ∧ length before = length wb.

(** A processor that was at work still is. *)
Definition keeps_work (a a' : agent) : Prop :=
  Forall2 (λ q q', q.2 = Working → q'.2 = Working) (procs a) (procs a').

Inductive indexed_step : agent * sessions → agent * sessions → Prop :=
| indexed_opens a s a' :
    (** [connect] has sent its hello and starts the session's processor. *)
    agent_step cfg a a' → ctl_caches (ctl a') = ctl_caches (ctl a) → inbound a' = inbound a →
    procs a' = (nextSession a, AtTop) :: procs a →
    indexed_step (a, s) (a', opened s)
| indexed_syncs a s before sid after wb p wa y :
    paired a s before (sid, Working) after wb p wa → sync_step (view_of s p) y →
    indexed_step (a, s) (set_ctl a (with_caches (ctl a) (sc y)), worked s wb p wa y)
| indexed_ends a s before sid after wb p wa :
    (** A batch is done when nothing is waited for any more. *)
    paired a s before (sid, Working) after wb p wa → p.1 = Idle →
    indexed_step (a, s) (set_procs a (before ++ (sid, Sleeping) :: after), s)
| indexed_stops a s before sid st after wb p wa :
    paired a s before (sid, st) after wb p wa → st ≠ Working → session_done a sid = true →
    indexed_step (a, s) (wg_done (set_procs a (before ++ after)), with_workers s (wb ++ wa))
| indexed_receives a s batch :
    exit_code a = None → Self ∈ receivers a →
    indexed_step (a, s) (set_inbound a (Looking batch :: inbound a),
                         filled s (ss_caches s) (Looking batch :: ss_inbound s))
| indexed_delivers a s before d after t c d' :
    exit_code a = None → inbound a = before ++ d :: after →
    deliver_one t (ctl_caches (ctl a)) d = Some (c, d') →
    indexed_step (a, s) (set_inbound (set_ctl a (with_caches (ctl a) c)) (before ++ d' :: after),
                         filled s c (before ++ d' :: after))
| indexed_delivered a s before after :
    exit_code a = None → inbound a = before ++ Looking [] :: after →
    indexed_step (a, s) (set_inbound a (before ++ after), filled s (ss_caches s) (before ++ after))
| indexed_other a s a' :
    (** Everything else the agent does leaves the caches, the deliveries and the work
        alone. *)
    agent_step cfg a a' → ctl_caches (ctl a') = ctl_caches (ctl a) → inbound a' = inbound a → keeps_work a a' →
    indexed_step (a, s) (a', s).

(** The same caches and deliveries, and a processor that is not at work waits for
    nothing. *)
Definition index_ok (x : agent * sessions) : Prop :=
  ctl_caches (ctl x.1) = ss_caches x.2 ∧ inbound x.1 = ss_inbound x.2 ∧
  Forall2 (λ q p, q.2 ≠ Working → p.1 = Idle) (procs x.1) (workers x.2).

Lemma paired_ok a s before q after wb p wa :
  paired a s before q after wb p wa → index_ok (a, s) →
  Forall2 (λ q p, q.2 ≠ Working → p.1 = Idle) before wb ∧ (q.2 ≠ Working → p.1 = Idle) ∧
  Forall2 (λ q p, q.2 ≠ Working → p.1 = Idle) after wa.
Proof.
  intros (_ & Ep & Ew & L) (_ & _ & F). simpl in F. rewrite Ep, Ew in F. apply Forall2_app_inv in F as [F1 F2]; [|done].
  by apply Forall2_cons in F2 as [F2 F3].
Qed.

(** Each step is one of the agent and, at most, one of the sessions. *)
Lemma indexed_step_ok x x' :
  indexed_step x x' → index_ok x → agent_step cfg x.1 x'.1 ∧ rtc sessions_step x.2 x'.2 ∧ index_ok x'.
Proof.
  intros S I. destruct S as [a s a' S Ec Ei Ep|a s before sid after wb p wa y P S|a s before sid after wb p wa P Id
    |a s before sid st after wb p wa P N D|a s batch X Rc|a s before d after t c d' X Ed E|a s before after X Ed
    |a s a' S Ec Ei K]; simpl.
  - split; [done|]. split; [apply rtc_once, session_opens|]. destruct I as (C & Dl & F). simpl in *. split_and!; simpl.
    + by rewrite Ec.
    + by rewrite Ei.
    + rewrite Ep. by constructor.
  - pose proof (paired_ok _ _ _ _ _ _ _ _ P I) as (F1 & _ & F3). destruct I as (C & Dl & F). simpl in *.
    destruct P as (X & Ep & Ew & L). split.
    { split; [done|]. right. left. apply (proc_syncs a before sid after (view_of s p) y); [done|by rewrite C|done]. }
    split; [apply rtc_once; by eapply session_works|]. split_and!; [done|done|]. simpl. rewrite Ep.
    apply Forall2_app; [done|]. by constructor.
  - pose proof (paired_ok _ _ _ _ _ _ _ _ P I) as (F1 & _ & F3). destruct I as (C & Dl & F). simpl in *.
    destruct P as (X & Ep & Ew & L). split; [split; [done|]; right; left; by apply proc_ends|].
    split; [apply rtc_refl|]. split_and!; [done|done|]. simpl. rewrite Ew. apply Forall2_app; [done|]. by constructor.
  - pose proof (paired_ok _ _ _ _ _ _ _ _ P I) as (F1 & F2 & F3). destruct I as (C & Dl & F). simpl in *.
    destruct P as (X & Ep & Ew & L). split; [split; [done|]; right; left; by eapply proc_stops|].
    split; [apply rtc_once; eapply session_closes; [done|by apply F2]|]. split_and!; [done|done|]. by apply Forall2_app.
  - destruct I as (C & Dl & F). simpl in *. split; [split; [done|]; do 3 right; left; by apply batch_arrives|].
    split; [apply rtc_once, session_receives|]. split_and!; simpl; [done|by rewrite Dl|done].
  - destruct I as (C & Dl & F). simpl in *. split; [split; [done|]; do 3 right; left; by eapply batch_proceeds|].
    rewrite C in E. rewrite Dl in Ed. split; [apply rtc_once; by eapply session_delivers|]. by split_and!.
  - destruct I as (C & Dl & F). simpl in *. split; [split; [done|]; do 3 right; left; by apply batch_delivered|].
    rewrite Dl in Ed. split; [apply rtc_once; by apply session_delivered|]. by split_and!.
  - split; [done|]. split; [apply rtc_refl|]. destruct I as (C & Dl & F). simpl in *.
    split_and!; simpl; [by rewrite Ec|by rewrite Ei|].
    unfold keeps_work in K. revert K F. generalize (procs a), (procs a'), (workers s). intros l l' w K. revert w.
    induction K as [|q q' l l' Hq K IH]; intros w F; inversion F as [|? p ? w' Hp F']; subst; constructor; [|by apply IH].
    intros N. apply Hp. intros E. by apply N, Hq.
Qed.

(** A batch that nothing comes in between is handled as by the function. *)
Lemma indexed_batch a s t batch c :
  exit_code a = None → Self ∈ receivers a → inbound a = [] → ss_inbound s = [] → ss_caches s = ctl_caches (ctl a) →
  ReceiveTimeseriesBatch (ctl_caches (ctl a)) t batch = Some c →
  rtc indexed_step (a, s) (set_inbound (set_ctl a (with_caches (ctl a) c)) [], filled s c []).
Proof.
  intros X Rc Ia Is C E. eapply rtc_l; [by apply indexed_receives|]. rewrite C, Ia, Is.
  assert (∀ x y, rtc (deliver_step t) x y →
    rtc indexed_step (set_inbound (set_ctl a (with_caches (ctl a) x.1)) [x.2], filled s x.1 [x.2])
                     (set_inbound (set_ctl a (with_caches (ctl a) y.1)) [y.2], filled s y.1 [y.2])) as G.
  { induction 1 as [x|x y z S R IH]; [apply rtc_refl|]. eapply rtc_l; [|exact IH].
    destruct x as [c1 d1], y as [c2 d2].
    by apply (indexed_delivers (set_inbound (set_ctl a (with_caches (ctl a) c1)) [d1]) (filled s c1 [d1]) [] d1 [] t). }
  etrans.
  - assert (with_caches (ctl a) (ctl_caches (ctl a)) = ctl a) as Ew by by destruct (ctl a).
    assert (set_ctl a (ctl a) = a) as Es by by destruct a.
    pose proof (G _ _ (deliver_alone _ _ _ _ E)) as R. simpl in R. by rewrite Ew, Es in R.
  - eapply rtc_l; [|apply rtc_refl].
    by apply (indexed_delivered (set_inbound (set_ctl a (with_caches (ctl a) c)) [Looking []]) (filled s c [Looking []]) [] []).
Qed.

Lemma indexed_run mp regs fs x :
  rtc indexed_step ((Start mp regs fs).2, sessions_init) x →
  rtc (agent_step cfg) (Start mp regs fs).2 x.1 ∧ rtc sessions_step sessions_init x.2 ∧ index_ok x.
Proof.
  intros R. assert (index_ok ((Start mp regs fs).2, sessions_init)) as I0.
  { unfold Start. destruct mp as [mp|]; [destruct (registerMetrics mp)|]; by split. }
  remember ((Start mp regs fs).2, sessions_init) as x0 eqn:E0.
  assert (rtc (agent_step cfg) x0.1 x.1 ∧ rtc sessions_step x0.2 x.2 ∧ index_ok x) as G; [|by subst].
  clear E0. induction R as [x|x y z S R IH]; [split_and!; [apply rtc_refl..|done]|].
  destruct (indexed_step_ok x y S I0) as (A & B & I). destruct (IH I) as (A' & B' & I').
  split_and!; [by eapply rtc_l|by etrans|done].
Qed.

(** C7: No series is lost between the tracker and the index, in the agent as a whole.
    In every state reachable by connecting and losing connections, receiving
    commands and batches, announcing, updating, deleting and shutting down, with any
    send failing, any answer lost, processors of lost connections overlapping with
    the current one and any number of batches being delivered, one call of a cache at
    a time: the agent's processors have kept to the protocol of the sessions, and as
    long as no acknowledgement was a refusal each series the agent knows is still
    queued to be announced, or in the backend's index, or being deleted, or in doubt:
    its deletion was given up on without an answer, or overlapped with another
    processor's acknowledged announcement of it, or with a report that had found it
    known. *)
Theorem known_series_are_announced (mp : option MeterProvider) (regs : list receiver) (fs : FS) (a : agent) (s : sessions) :
  rtc indexed_step ((Start mp regs fs).2, sessions_init) (a, s) → ss_refused s = false →
  rtc (agent_step cfg) (Start mp regs fs).2 a ∧
  ∀ k, is_Some (known (ctl_caches (ctl a)) !! k) →
    is_Some (discovered (ctl_caches (ctl a)) !! k) ∨ k ∈ ss_accepted s ∨
    (∃ p, p ∈ workers s ∧ k ∈ deleting p.1) ∨ k ∈ ss_doubtful s.
Proof.
  intros R F. destruct (indexed_run mp regs fs (a, s) R) as (A & B & C & _). split; [done|]. simpl in C. rewrite C.
  by apply sessions_announced.
Qed.

End Machine.

(** ** Evaluation *)

Module AgentIndexSample.

Definition istep := @indexed_step LiteralRegexp.engine QueryHandlerSample.client QueryHandlerSample.tables
  DiagnosticsSample.yaml LifecycleSample.cfg.

Definition key : HashKey := IndexSyncSample.key.
Definition yes : Ack := MkAck true "".

(** A session is opened, a batch arrives and the processor announces its series; the
    backend answers, and before the answer is applied the connection is lost. *)
Definition a4 : agent :=
  set_inbound (set_ctl LifecycleSample.a3 (with_caches (ctl LifecycleSample.a3) IndexSyncSample.received)) [].
Definition a5 : agent := set_procs a4 [(0, Working)].
Definition y6 : sync := MkSync IndexSyncSample.received (Creating [key]) None ∅ ∅ false.
Definition a6 : agent := set_ctl a5 (with_caches (ctl a5) (sc y6)).
Definition s4 : sessions := filled (opened sessions_init) IndexSyncSample.received [].
Definition s6 : sessions := worked s4 [] (Idle, None) [] y6.
Definition y7 : sync :=
  MkSync IndexSyncSample.received (Creating [key]) (Some yes) (handled (Creating [key]) ∅) (ss_doubtful s6) false.
Definition a7 : agent := set_ctl a6 (with_caches (ctl a6) (sc y7)).
Definition s7 : sessions := worked s6 [] (Creating [key], None) [] y7.
Definition a8 : agent := set_loop a7 Closing.

Lemma indexed : rtc istep (LifecycleSample.a0, sessions_init) (a8, s7).
Proof.
  eapply rtc_l. { apply indexed_other; [split; [done|]; left; by apply loop_dials|done|done|constructor]. }
  eapply rtc_l. { apply indexed_other; [split; [done|]; left; by apply loop_opens|done|done|constructor]. }
  apply rtc_l with (LifecycleSample.a3, opened sessions_init).
  { apply indexed_opens; [split; [done|]; left; by apply loop_hello|done|done|done]. }
  transitivity (a4, s4).
  { apply (indexed_batch _ LifecycleSample.a3 (opened sessions_init) 7200 [(key, IndexSyncSample.entry)]);
      [done|left|done|done|done|reflexivity]. }
  apply rtc_l with (a5, s4).
  { apply indexed_other; [split; [done|]; right; left; by apply (proc_begins a4 [] 0 [])|done|done|].
    constructor; [done|constructor]. }
  apply rtc_l with (a6, s6).
  { eapply (indexed_syncs _ a5 s4 [] 0 [] [] (Idle, None) [] y6); [done|].
    eapply (step_create (view_of s4 (Idle, None)) [key]); [reflexivity|apply IndexSyncSample.message]. }
  apply rtc_l with (a7, s7).
  { eapply (indexed_syncs _ a6 s6 [] 0 [] [] (Creating [key], None) [] y7); [done|].
    by apply (step_handled (view_of s6 (Creating [key], None)) yes). }
  eapply rtc_l; [|apply rtc_refl].
  apply indexed_other; [split; [done|]; left; by apply (loop_loses _ _ 0)|done|done|]. constructor; [done|constructor].
Qed.

End AgentIndexSample.

Lemma known_series_are_announced_witness :
  let a := AgentIndexSample.a8 in
  let s := AgentIndexSample.s7 in
  let k := AgentIndexSample.key in
  is_Some (known (ctl_caches (ctl a)) !! k) ∧
  (is_Some (discovered (ctl_caches (ctl a)) !! k) ∨ k ∈ ss_accepted s ∨
   (∃ p, p ∈ workers s ∧ k ∈ deleting p.1) ∨ k ∈ ss_doubtful s).
Proof.
  intros a s k.
  assert (is_Some (known (ctl_caches (ctl a)) !! k)) as K by (apply (bool_decide_unpack _); vm_compute; reflexivity).
  split; [exact K|].
  exact (proj2 (@known_series_are_announced LiteralRegexp.engine QueryHandlerSample.client QueryHandlerSample.tables
    DiagnosticsSample.yaml LifecycleSample.cfg (Some LifecycleSample.mp) [] ∅ a s AgentIndexSample.indexed eq_refl) k K).
Defined.
