(* ===== verification/Ingest.v ===== *)
(** From the pipeline to the caches: the metrics tracker
    (components/metricstracker) broadcasts the series of a batch through the
    registry (components/metricsindex) to the edge controller, whose
    [ReceiveTimeseriesBatch] puts them into the known and discovered caches.

    The theorem composes the three: every series of a consumed batch is known
    afterwards, counted once per occurrence, and queued to be announced when it
    was not known before. *)

From S2P Require Import Prelude GoText GoStrings Selector PData PromNaming Demand DemandFilter MetricsIndex Tracker.
From S2P Require Import KnownCache DiscoveredCache Delivery IndexSync Diagnostics Controller Telemetry Lifecycle.

(** One receiver of the registry; [order] is the batch's map in iteration order,
    and [None] the panic of an update before the epoch. *)
Definition deliver (t : Z) (order : list (HashKey * TimeseriesEntry)) (r : receiver) (batch : TimeseriesBatch)
    (oc : option caches) : option caches :=
  match r with
  | Self => c ← oc; ReceiveTimeseriesBatch c t order
  | OtherReceiver _ => oc
  end.

Section Ingest.
Context `{UnicodeTables, PData, Namer, XXH3}.

(** [ConsumeMetrics] of the tracker, as the caches of the controller see it. *)
Definition ingest (t : Z) (order : list (HashKey * TimeseriesEntry)) (receivers : list receiver)
    (md : MetricsBatch) (c : caches) : option caches :=
  BroadcastTimeseriesBatch (deliver t order) receivers (TrackerConsumeMetrics md).1 (Some c).

(** ** Receiving *)

Definition entry_ok (ke : HashKey * TimeseriesEntry) : Prop := (- 2 ^ 63 ≤ te_Samples ke.2 < 2 ^ 63)%Z.

(** The histories after a batch. *)
Definition hist_batch (t : Z) (g : gmap HashKey history) (order : list (HashKey * TimeseriesEntry))
  : gmap HashKey history := foldl (λ g ke, hist_update g t ke.1 (te_Samples ke.2)) g order.

Lemma receive_one_ok t c g k e :
  cache_represents (known c) g → clock_ok t → entry_ok (k, e) →
  ∃ c', receive_one t (Some c) (k, e) = Some c' ∧ cache_represents (known c') (hist_update g t k (te_Samples e)) ∧
        (∃ e', known c' !! k = Some e' ∧ ke_LastUpdate e' = t ∧
               ke_MetricName e' = default (te_MetricName e) (ke_MetricName <$> known c !! k)) ∧
        (known c !! k = None → discovered c' !! k = Some e) ∧
        (∀ k', k' ≠ k → known c' !! k' = known c !! k' ∧ discovered c' !! k' = discovered c !! k').
Proof.
  intros R Ht He. destruct (UpdateTimeseries_ok _ _ t k e R Ht He) as (kc & E & R' & O & x & Ex & Et & _ & Em).
  unfold receive_one. simpl. unfold IsTimeseriesKnown.
  destruct (bool_decide (is_Some (known c !! k))) eqn:K; rewrite E; eexists; (split; [done|]); simpl.
  - split_and!; [done|by exists x| |by intros k' N; rewrite O].
    intros Hn. rewrite Hn, bool_decide_eq_true in K. by destruct K.
  - split_and!; [done|by exists x|by intros _; unfold Add; rewrite lookup_insert_eq|].
    intros k' N. unfold Add. by rewrite O, lookup_insert_ne.
Qed.

Lemma receive_batch_ok t order : ∀ c g,
  NoDup order.*1 → Forall entry_ok order → cache_represents (known c) g → clock_ok t →
  ∃ c', ReceiveTimeseriesBatch c t order = Some c' ∧ cache_represents (known c') (hist_batch t g order) ∧
        (∀ k e, (k, e) ∈ order →
           (∃ e', known c' !! k = Some e' ∧ ke_LastUpdate e' = t ∧
                  ke_MetricName e' = default (te_MetricName e) (ke_MetricName <$> known c !! k)) ∧
           (known c !! k = None → discovered c' !! k = Some e)) ∧
        (∀ k, k ∉ order.*1 → known c' !! k = known c !! k ∧ discovered c' !! k = discovered c !! k).
Proof.
  induction order as [|[k e] order IH]; intros c g ND F R Ht.
  { exists c. split_and!; try done. by intros ?? ?%elem_of_nil. }
  rewrite fmap_cons, NoDup_cons in ND. destruct ND as [N ND]. apply Forall_cons in F as [Fe F].
  destruct (receive_one_ok t c g k e R Ht Fe) as (c1 & E1 & R1 & K1 & D1 & O1).
  destruct (IH c1 _ ND F R1 Ht) as (c' & E & R' & K & O).
  exists c'. split_and!.
  - unfold ReceiveTimeseriesBatch in *. cbn [foldl]. by rewrite E1.
  - exact R'.
  - intros k' e' [[= -> ->]|Hin]%elem_of_cons.
    + destruct (O k N) as [-> ->]. done.
    + destruct (K k' e' Hin) as [K' D'].
      destruct (O1 k') as [<- _]; [|by split]. intros ->. apply N, list_elem_of_fmap. by exists (k, e').
  - intros k' N'. rewrite fmap_cons, not_elem_of_cons in N'. destruct N' as [N1 N2].
    destruct (O k' N2) as [-> ->]. by apply O1.
Qed.

(** Of the registered receivers only the controller touches its caches. *)
Lemma broadcast_once t order regs batch oc :
  Self ∉ regs →
  BroadcastTimeseriesBatch (deliver t order) (RegisterTimeseriesReceiver regs Self) batch oc
  = deliver t order Self batch oc.
Proof.
  intros N. unfold BroadcastTimeseriesBatch, RegisterTimeseriesReceiver. rewrite foldl_app. cbn [foldl]. f_equal.
  revert oc. induction regs as [|r regs IH]; intros oc; [done|].
  rewrite not_elem_of_cons in N. destruct N as [N1 N2]. destruct r; [done|]. simpl. by apply IH.
Qed.

Lemma int64_range z : (- 2 ^ 63 ≤ int64 z < 2 ^ 63)%Z.
Proof. unfold int64. apply (wrap_s_range 64). lia. Qed.

(** The batch in the caches, exactly. *)
Lemma ingest_ok (t : Z) (regs : list receiver) (md : MetricsBatch)
    (order : list (HashKey * TimeseriesEntry)) (c : caches) (g : gmap HashKey history) :
  Self ∉ regs → collision_free (batch_series md) → Forall (λ s, Contains s.1 "{" = false) (batch_series md) →
  order ≡ₚ map_to_list (TrackerConsumeMetrics md).1 → cache_represents (known c) g → clock_ok t →
  ∃ c', ingest t order (RegisterTimeseriesReceiver regs Self) md c = Some c' ∧
    cache_represents (known c') (hist_batch t g order) ∧
    (∀ s, s ∈ batch_series md →
       let count := int64 (Z.of_nat (length (filter (λ s', s' = s) (batch_series md)))) in
       let key := series_key s.1 s.2 in
       (∃ e, known c' !! key = Some e ∧ ke_LastUpdate e = t ∧
             ke_MetricName e = default s.1 (ke_MetricName <$> known c !! key)) ∧
       (known c !! key = None →
        discovered c' !! key = Some (MkTimeseriesEntry s.1 (extractSortedLabelPairs s.2) count))) ∧
    (∀ k, (∀ s, s ∈ batch_series md → series_key s.1 s.2 ≠ k) →
       known c' !! k = known c !! k ∧ discovered c' !! k = discovered c !! k).
Proof.
  intros NS CF HN P R Ht. unfold ingest. rewrite broadcast_once by done. cbn [deliver mbind option_bind].
  pose proof (TrackerConsumeMetrics_counts md CF HN) as T.
  destruct (TrackerConsumeMetrics md) as [batch fwd]. destruct T as (_ & HS & HB). cbn [fst] in P.
  assert (∀ k e, (k, e) ∈ order ↔ batch !! k = Some e) as Hin.
  { intros k e. rewrite P. apply elem_of_map_to_list. }
  destruct (receive_batch_ok t order c g) as (c' & E & R' & K & O).
  { rewrite P. apply NoDup_fst_map_to_list. }
  { apply Forall_forall. intros [k e] Hke%Hin. destruct (HB k e Hke) as (s & Hs & <-).
    rewrite (HS s Hs) in Hke. injection Hke as <-. apply int64_range. }
  { done. } { done. }
  exists c'. split_and!; [done|done| |].
  - intros s Hs. by destruct (K _ _ (proj2 (Hin _ _) (HS s Hs))).
  - intros k Hk. apply O. intros (x & -> & Hx)%list_elem_of_fmap. destruct x as [k e].
    apply Hin in Hx. destruct (HB k e Hx) as (s & Hs & Es). by apply (Hk s Hs).
Qed.

(** ** Properties *)

(** C23: Every tracked series becomes known. With the controller registered among
    any other receivers, and no two fingerprints of the batch colliding, a batch
    consumed by the tracker reaches the caches without a panic: each series its
    datapoints are written as is then known under its fingerprint and its name (or
    the one it was known under before), updated at the time of the batch, its hourly counts grown by the number of its occurrences;
    if it was not known it is queued for announcement with its name, labels and
    count; and every other entry of both caches is untouched. *)
Theorem tracked_series_become_known (t : Z) (regs : list receiver) (md : MetricsBatch)
    (order : list (HashKey * TimeseriesEntry)) (c : caches) (g : gmap HashKey history) :
  Self ∉ regs → collision_free (batch_series md) → Forall (λ s, Contains s.1 "{" = false) (batch_series md) →
  order ≡ₚ map_to_list (TrackerConsumeMetrics md).1 → cache_represents (known c) g → clock_ok t →
  ∃ c', ingest t order (RegisterTimeseriesReceiver regs Self) md c = Some c' ∧
    cache_represents (known c') (hist_batch t g order) ∧
    (∀ s, s ∈ batch_series md →
       let count := int64 (Z.of_nat (length (filter (λ s', s' = s) (batch_series md)))) in
       let key := series_key s.1 s.2 in
       (∃ e, known c' !! key = Some e ∧ ke_LastUpdate e = t ∧
             ke_MetricName e = default s.1 (ke_MetricName <$> known c !! key)) ∧
       (known c !! key = None →
        discovered c' !! key = Some (MkTimeseriesEntry s.1 (extractSortedLabelPairs s.2) count))) ∧
    (∀ k, (∀ s, s ∈ batch_series md → series_key s.1 s.2 ≠ k) →
       known c' !! k = known c !! k ∧ discovered c' !! k = discovered c !! k).
Proof. apply ingest_ok. Qed.

End Ingest.

(** ** Evaluation *)

Module IngestSample.

Definition md := TrackerSample.md.
Definition s := ("up", TrackerSample.labels).
Definition batch := (@TrackerConsumeMetrics latin1_tables AssocPData.pdata DemandFilterSample.namer TrackerSample.hash md).1.
Definition empty : caches := MkCaches Init DInit.

End IngestSample.

Lemma tracked_series_become_known_witness :
  let key := @series_key latin1_tables TrackerSample.hash "up" TrackerSample.labels in
  ∃ c', @ingest latin1_tables AssocPData.pdata DemandFilterSample.namer TrackerSample.hash 7200
          (map_to_list IngestSample.batch) [OtherReceiver 1; Self] IngestSample.md IngestSample.empty = Some c' ∧
    (∃ e, known c' !! key = Some e ∧ ke_LastUpdate e = 7200%Z ∧ ke_MetricName e = "up").
Proof.
  intros key.
  assert (@batch_series latin1_tables AssocPData.pdata DemandFilterSample.namer IngestSample.md
          = [IngestSample.s; IngestSample.s]) as E by reflexivity.
  assert (@collision_free latin1_tables TrackerSample.hash
    (@batch_series latin1_tables AssocPData.pdata DemandFilterSample.namer IngestSample.md)) as CF.
  { rewrite E. intros s1 s2 H1 H2 _. rewrite !elem_of_cons, elem_of_nil in H1, H2. destruct_or!; subst; reflexivity. }
  assert (Forall (λ s, Contains s.1 "{" = false)
    (@batch_series latin1_tables AssocPData.pdata DemandFilterSample.namer IngestSample.md)) as F.
  { rewrite E. repeat constructor. }
  assert (cache_represents (known IngestSample.empty) ∅) as R
    by (intros k; unfold IngestSample.empty; simpl; unfold Init; rewrite !lookup_empty; constructor).
  assert (Self ∉ [OtherReceiver 1]) as NS by (intros [?|[]%elem_of_nil]%elem_of_cons; done).
  assert (clock_ok 7200) as B by (split; reflexivity || lia).
  assert (map_to_list IngestSample.batch ≡ₚ map_to_list IngestSample.batch) as P by reflexivity.
  destruct (@tracked_series_become_known latin1_tables AssocPData.pdata DemandFilterSample.namer TrackerSample.hash
    7200 [OtherReceiver 1] IngestSample.md (map_to_list IngestSample.batch) IngestSample.empty ∅
    NS CF F P R B) as (c' & Hc & _ & K & _).
  exists c'. split; [exact Hc|]. apply (K IngestSample.s). rewrite E. left.
Defined.
