(* ===== verification/Pipeline.v ===== *)
(** The metrics pipelines of the shipped configuration, from end to end
    (config/agent-config.example.yaml): a batch passes the tracker of
    [metrics/all] (components/metricstracker), which tells the controller about its
    series, and a copy of it is forwarded to [metrics/filtered], where the demand
    filter (components/demandfilter) asks the same controller what is demanded.

    The theorems compare the two ends. What is forwarded answers every demanded
    selector exactly as the complete batch does; and whatever is forwarded is known
    to the controller and counted as demanded by its ping. *)

From S2P Require Import Prelude GoText GoStrings Selector PData PromNaming Demand DemandFilter MetricsIndex Tracker.
From S2P Require Import KnownCache DiscoveredCache DemandCache DemandMatcher Delivery IndexSync Diagnostics Controller Telemetry Lifecycle Ingest.

#[local] Existing Instance edge_host.

(** ** The path of a batch *)

Section Pipeline.
Context `{Regexp, UnicodeTables, PData, Namer, XXH3}.

(** The filter after the batches it has seen, each under the demand of its time. *)
Definition filtered_before (p : demandFilterProcessor) (earlier : list (controller * MetricsBatch))
  : demandFilterProcessor := foldl (λ p '(w, md), (ConsumeMetrics p w md).2) p earlier.

(** [ConsumeMetrics] of the tracker, then that of the filter. [None]: a panic in
    the controller. *)
Definition metrics_path (t : Z) (order : list (HashKey * TimeseriesEntry)) (receivers : list receiver)
    (p : demandFilterProcessor) (w : controller) (md : MetricsBatch) : option (controller * option MetricsBatch) :=
  c ← ingest t order receivers md (ctl_caches w);
  let w := with_caches w c in
  Some (w, (ConsumeMetrics p w (TrackerConsumeMetrics md).2).1).

(** The series that reach the backend. *)
Definition forwarded_series (out : option MetricsBatch) : list (string * gmap string string) :=
  match out with Some md => batch_series md | None => [] end.

(** The demand asks for the series: its complete label set, the name and also
    [le] and [quantile] included, is accepted by one of the selectors in force, or,
    without selectors, its name is one of the demanded ones. *)
Definition series_demanded (d : DemandTimeseriesCache) (s : string * gmap string string) : bool :=
  if decide (metricSelectors d = []) then bool_decide (s.1 ∈ timeseries d)
  else existsb (λ sel, Selector_Matches sel (<["__name__" := s.1]> s.2)) (parseable (metricSelectors d)).

(** ** Series and [RemoveIf] *)

Definition series_rows (res : AttrMap) (m : Metric) : list (string * gmap string string) :=
  (λ s, (s_name s, BuildSeriesLabels res (s_point s) (s_extra s))) <$> metric_series m.

Definition kept_rows (f : ResourceMetrics → Metric → Metric * bool) (rm : ResourceMetrics) (m : Metric) :=
  if (f rm m).2 then series_rows (rm_attrs rm) (f rm m).1 else [].

(** A pruned batch has the series of the metrics that are kept: the scopes and
    resources that disappear had none left. *)
Lemma prune_scope_rows f rm sm :
  (if (prune_scope (f rm) sm).2 then [] else sm_metrics (prune_scope (f rm) sm).1 ≫= series_rows (rm_attrs rm))
  = sm_metrics sm ≫= kept_rows f rm.
Proof.
  unfold prune_scope. simpl.
  assert (remove_if (λ m, let '(m', keep) := f rm m in (m', negb keep)) (sm_metrics sm) ≫= series_rows (rm_attrs rm)
          = sm_metrics sm ≫= kept_rows f rm) as <-.
  { rewrite remove_if_bind. apply bind_ext_in. intros m _. unfold kept_rows. by destruct (f rm m) as [m' []]. }
  case_bool_decide as E; [|done]. apply length_zero_iff_nil in E. by rewrite E.
Qed.

Lemma batch_series_prune f md :
  batch_series (prune f md) = md ≫= λ rm, rm_scopes rm ≫= λ sm, sm_metrics sm ≫= kept_rows f rm.
Proof.
  unfold batch_series, prune. rewrite remove_if_bind. apply bind_ext_in. intros rm _. unfold prune_resource. simpl.
  assert (remove_if (prune_scope (f rm)) (rm_scopes rm) ≫= (λ sm, sm_metrics sm ≫= series_rows (rm_attrs rm))
          = rm_scopes rm ≫= λ sm, sm_metrics sm ≫= kept_rows f rm) as <-.
  { rewrite remove_if_bind. apply bind_ext_in. intros sm _. apply prune_scope_rows. }
  case_bool_decide as E; [|done]. apply length_zero_iff_nil in E. by rewrite E.
Qed.

(** ** Datapoints *)

(** The points of a family, each written as several series of its own attributes. *)
Lemma family_keep {A} (attrs : A → AttrMap) (g : A → list series) (p : AttrMap → bool) (dps : list A) :
  (∀ dp s, s ∈ g dp → s_point s = attrs dp) →
  remove_if (λ dp, (dp, negb (p (attrs dp)))) dps ≫= g = filter (λ s, p (s_point s) = true) (dps ≫= g).
Proof.
  intros Hg. rewrite remove_if_bind, filter_bind. apply bind_ext_in. intros dp _. simpl.
  destruct (p (attrs dp)) eqn:E; simpl; symmetry.
  - apply filter_all. intros s Hs. by rewrite (Hg dp s Hs).
  - apply filter_none. intros s Hs. rewrite (Hg dp s Hs). congruence.
Qed.

Lemma fmap_bind_one {A B} (f : A → B) l : f <$> l = l ≫= λ x, [f x].
Proof. induction l as [|x l IH]; [done|]. by rewrite fmap_cons, bind_cons, IH. Qed.

(** Removing datapoints removes their series. *)
Lemma metric_series_keep p m :
  metric_series (set_data m (keep_points p (m_data m))) = filter (λ s, p (s_point s) = true) (metric_series m).
Proof.
  assert (BaseName (set_data m (keep_points p (m_data m))) = BaseName m) as EB
    by (unfold BaseName, metricType; simpl; by destruct (m_data m)).
  unfold metric_series. rewrite EB. cbn [m_data set_data].
  destruct (m_data m) as [dps|mono temp dps|dps|dps|dps|]; cbn [keep_points]; rewrite ?fmap_bind_one;
    [apply family_keep..|done]; intros dp s.
  1, 2, 4: by intros ->%list_elem_of_singleton.
  - unfold histogram_series. rewrite !elem_of_app, list_elem_of_fmap. intros [(b & -> & _)|Hs]; [done|].
    destruct (hasHistogramSum dp); set_solver.
  - unfold summary_series. rewrite elem_of_app, list_elem_of_fmap. intros [(b & -> & _)|Hs]; [done|]. set_solver.
Qed.

Lemma no_points_no_series m : has_points (m_data m) = false → metric_series m = [].
Proof.
  unfold has_points, metric_series. destruct (m_data m) as [[]|? ? []|[]|[]|[]|]; simpl; try done;
    rewrite bool_decide_eq_false; lia.
Qed.

(** ** What the filter keeps *)

(** The verdict on a series, decided for its datapoint. *)
Definition kept (d : DemandTimeseriesCache) (res : AttrMap) (m : Metric) (s : series) : bool :=
  if decide (metricSelectors d = []) then isMetricDemanded m (list_to_set (timeseries d))
  else point_demanded (metricSelectors d) res m (s_point s).

Definition kept_series (d : DemandTimeseriesCache) (res : AttrMap) (m : Metric) : list (string * gmap string string) :=
  (λ s, (s_name s, BuildSeriesLabels res (s_point s) (s_extra s))) <$>
    filter (λ s, kept d res m s = true) (metric_series m).

Lemma selector_rows raw rm m :
  kept_rows (λ rm m, filterMetricDatapoints m (ResourceLabelMap (rm_attrs rm)) (compileSelectors raw)) rm m
  = (λ s, (s_name s, BuildSeriesLabels (rm_attrs rm) (s_point s) (s_extra s))) <$>
      filter (λ s, point_demanded raw (rm_attrs rm) m (s_point s) = true) (metric_series m).
Proof.
  unfold kept_rows, filterMetricDatapoints, series_rows.
  rewrite (filter_ext_in _ (λ s, matchDP (candidatesFor (compileSelectors raw) (familyNames m (BaseName m)))
    (ResourceLabelMap (rm_attrs rm)) (s_point s) = true)) by (intros s _; by rewrite point_demanded_cands).
  destruct (candidatesFor _ _) as [|cs csl]; [by rewrite (proj2 (filter_none _ _)) by done|].
  destruct (existsb _ (cs :: csl)) eqn:EF; cbn [fst snd].
  - rewrite filter_all; [done|]. intros s _. apply existsb_exists in EF as (c & Hc & E).
    apply bool_decide_eq_true, length_zero_iff_nil in E. apply existsb_exists. exists c. by rewrite E.
  - rewrite <- metric_series_keep. case_match eqn:E; [done|]. by rewrite no_points_no_series.
Qed.

Lemma name_rows ds rm m :
  kept_rows (λ _ m, (m, isMetricDemanded m ds)) rm m
  = (λ s, (s_name s, BuildSeriesLabels (rm_attrs rm) (s_point s) (s_extra s))) <$>
      filter (λ _, isMetricDemanded m ds = true) (metric_series m).
Proof.
  unfold kept_rows, series_rows. simpl. destruct (isMetricDemanded m ds); [by rewrite filter_all|].
  by rewrite (proj2 (filter_none _ _)).
Qed.

(** The filter against the controller, whatever it has seen before. *)
Definition attached (p : demandFilterProcessor) : Prop :=
  cache_ok p ∧ provider p = Some (λ w : controller, timeseries (ctl_demand w)) ∧
  selectorProvider p = Some (λ w : controller, metricSelectors (ctl_demand w)).

Lemma attached_start exts : EdgeController ∈ exts → attached (DemandFilter.Start newDemandFilterProcessor exts).
Proof.
  intros E. split; [apply cache_ok_Start|]. unfold DemandFilter.Start. simpl. by rewrite first_providing_edge.
Qed.

Lemma ConsumeMetrics_kept p w md :
  attached p → Forall nul_free (metricSelectors (ctl_demand w)) →
  forwarded_series (ConsumeMetrics p w md).1
    = (md ≫= λ rm, rm_scopes rm ≫= λ sm, sm_metrics sm ≫= kept_series (ctl_demand w) (rm_attrs rm)) ∧
  attached (ConsumeMetrics p w md).2.
Proof.
  intros (C & P & S) F. unfold ConsumeMetrics, kept_series, kept. rewrite P, S. cbv beta.
  destruct (metricSelectors (ctl_demand w)) as [|r raw] eqn:ER.
  - rewrite (decide_False (P := 0 < length [])) by (simpl; lia). case_decide as E; cbn [fst snd forwarded_series].
    + apply length_zero_iff_nil in E. rewrite E. split; [|done].
      symmetry. apply bind_nil. intros rm. apply bind_nil. intros sm. apply bind_nil. intros m.
      rewrite (proj2 (filter_none _ _)); [done|]. intros s _. unfold isMetricDemanded. by destruct (m_data m).
    + split; [|done]. unfold filterByNames. rewrite batch_series_prune. do 3 (apply bind_ext_in; intros ? _).
      apply name_rows.
  - rewrite (decide_True (P := 0 < length (r :: raw))) by (simpl; lia). unfold consumeSelectorMode.
    destruct (parsedSelectors_ok p (r :: raw) C ltac:(done) F) as (p' & -> & C' & E1 & E2).
    assert (attached p') as A by (split; [done|]; by rewrite E1, E2).
    pose proof (set_empty_compile (r :: raw)) as SE. destruct (set_empty _); simpl; (split; [|done]).
    + symmetry. apply bind_nil. intros rm. apply bind_nil. intros sm. apply bind_nil. intros m.
      rewrite (proj2 (filter_none _ _)); [done|]. intros s _. unfold point_demanded. by rewrite (proj1 SE eq_refl).
    + unfold filterBySelectors. rewrite batch_series_prune. do 3 (apply bind_ext_in; intros ? _). apply selector_rows.
Qed.

Lemma attached_before earlier p :
  attached p → Forall (λ x, Forall nul_free (metricSelectors (ctl_demand x.1))) earlier →
  attached (filtered_before p earlier).
Proof.
  revert p. induction earlier as [|[w md] earlier IH]; intros p A F; [done|]. apply Forall_cons in F as [Fw F].
  simpl. apply IH; [|done]. by apply ConsumeMetrics_kept.
Qed.

(** ** What is demanded is kept *)

Lemma strip_weaker sel (l l' : gmap string string) :
  (∀ k, k ≠ "le" → k ≠ "quantile" → label l k = label l' k) →
  Selector_Matches sel l = true → Selector_Matches (strip sel) l' = true.
Proof.
  intros E. unfold Selector_Matches, strip. rewrite !all_match_forallb, !forallb_forall. intros F m Hm. simpl in Hm.
  apply list_elem_of_In, list_elem_of_filter in Hm as [R Hm]. apply list_elem_of_In in Hm. specialize (F m Hm).
  unfold Matcher_Matches in *. unfold relevant in R. apply negb_true_iff, bool_decide_eq_false in R.
  rewrite <- E; naive_solver.
Qed.

Lemma demanded_kept d res m s :
  s ∈ metric_series m →
  series_demanded d (s_name s, BuildSeriesLabels res (s_point s) (s_extra s)) = true → kept d res m s = true.
Proof.
  intros Hs. pose proof (tracked_names m s Hs) as Hn. unfold series_demanded, kept. case_decide.
  - intros Hd%bool_decide_eq_true. rewrite isMetricDemanded_family.
    + apply existsb_exists. exists (s_name s). rewrite <- list_elem_of_In. split; [done|].
      by apply bool_decide_eq_true, elem_of_list_to_set.
    + intros E. unfold metric_series in Hs. rewrite E in Hs. by apply elem_of_nil in Hs.
  - intros (sel & Hsel & M)%existsb_exists. apply existsb_exists. exists sel. split; [done|].
    apply existsb_exists. exists (s_name s). rewrite <- list_elem_of_In. split; [done|].
    revert M. apply strip_weaker. intros k N1 N2. unfold series_labels, label. simpl.
    destruct (decide (k = "__name__")) as [->|N]; [by rewrite !lookup_insert_eq|]. rewrite !lookup_insert_ne by done.
    by rewrite extra_lookup by (done || by eapply tracked_extra).
Qed.

(** ** What is kept is counted *)

Lemma kept_accounted d res m s k :
  accountable m → s ∈ metric_series m → s_name s ∈ MetricNameSet k → kept d res m s = true →
  s_name s ∈ demandedNameSet k (GetDemandSnapshot d).
Proof.
  intros A Hs Hk. pose proof (tracked_names m s Hs) as Hn. unfold kept, demandedNameSet. simpl.
  destruct (metricSelectors d) as [|r raw]; case_decide; try done.
  - intros D. rewrite decide_False by (simpl; lia). by eapply expansion_covers_filter.
  - intros D. rewrite decide_True by (simpl; lia). eapply selector_accounting_covers_filter; [done| |done..].
    intros E. rewrite point_demanded_cands, E in D. done.
Qed.

Lemma counted_keys (k : KnownTimeseriesCache) names (X : gset HashKey) :
  (∀ key, key ∈ X → ∃ e, k !! key = Some e ∧ ke_MetricName e ∈ names) → size X ≤ CountDemanded k names.
Proof.
  intros HX. unfold CountDemanded. case_decide as E.
  - apply size_empty_inv in E. assert (X ≡ ∅) as ->; [|by rewrite size_empty].
    apply elem_of_equiv_empty. intros key (e & _ & He)%HX. set_solver.
  - unfold entry_count. rewrite <- (length_fmap fst). apply submseteq_length, NoDup_submseteq; [apply NoDup_elements|].
    intros key (e & Hk & He)%elem_of_elements%HX. apply list_elem_of_fmap. exists (key, e). split; [done|].
    apply list_elem_of_filter. split; [by apply bool_decide_eq_true|]. by apply elem_of_map_to_list.
Qed.

Notation kept_batch d md :=
  (md ≫= λ rm, rm_scopes rm ≫= λ sm, sm_metrics sm ≫= kept_series d (rm_attrs rm)).

Lemma kept_batch_in (d : DemandTimeseriesCache) (md : MetricsBatch) P s :
  all_metrics P md → s ∈ kept_batch d md →
  ∃ rm m x, P rm m ∧ s = (s_name x, BuildSeriesLabels (rm_attrs rm) (s_point x) (s_extra x)) ∧
    x ∈ metric_series m ∧ kept d (rm_attrs rm) m x = true.
Proof.
  intros HA Hs. apply list_elem_of_bind in Hs as (rm & Hs & Hrm). apply list_elem_of_bind in Hs as (sm & Hs & Hsm).
  apply list_elem_of_bind in Hs as (m & Hs & Hm). unfold kept_series in Hs.
  apply list_elem_of_fmap in Hs as (x & -> & Hx). apply list_elem_of_filter in Hx as [Hd Hx].
  exists rm, m, x. split_and!; try done. unfold all_metrics in HA. rewrite Forall_forall in HA.
  specialize (HA rm Hrm). rewrite Forall_forall in HA. specialize (HA sm Hsm). rewrite Forall_forall in HA. auto.
Qed.

Lemma kept_is_sublist d md :
  kept_batch d md `sublist_of` batch_series md.
Proof.
  do 3 (apply bind_sublist; intros ? _). unfold kept_series. apply fmap_sublist, sublist_filter.
Qed.

(** ** Properties *)

(** C3: The filter is transparent to the demand. Whatever batches and demands it has
    seen, caches included: the series it forwards are, in order, some of the series
    the tracker announces for the batch, and among them are all the demanded ones,
    none less and none twice. A query that only asks for what the demand asks for
    (a selector in force, with any matchers on [le] and [quantile], or a demanded
    name) gets from the forwarded batch exactly the series it would get from the
    complete one. *)
Theorem demanded_series_are_forwarded (exts : list extension) (earlier : list (controller * MetricsBatch))
    (w : controller) (md : MetricsBatch) :
  EdgeController ∈ exts →
  Forall (λ x, Forall nul_free (metricSelectors (ctl_demand x.1))) earlier →
  Forall nul_free (metricSelectors (ctl_demand w)) →
  let p := filtered_before (DemandFilter.Start newDemandFilterProcessor exts) earlier in
  let out := forwarded_series (ConsumeMetrics p w (TrackerConsumeMetrics md).2).1 in
  out `sublist_of` batch_series md ∧
  filter (λ s, series_demanded (ctl_demand w) s = true) out
  = filter (λ s, series_demanded (ctl_demand w) s = true) (batch_series md).
Proof.
  intros He Fe Fw p out.
  assert (attached p) as A by (apply attached_before; [by apply attached_start|done]).
  destruct (ConsumeMetrics_kept p w md A Fw) as [E _]. subst out. cbn [snd TrackerConsumeMetrics]. rewrite E.
  split; [apply kept_is_sublist|]. unfold batch_series. rewrite !filter_bind. apply bind_ext_in. intros rm _.
  rewrite !filter_bind. apply bind_ext_in. intros sm _. rewrite !filter_bind. apply bind_ext_in. intros m _.
  apply filter_fmap_weaker. intros s. apply demanded_kept.
Qed.

(** C24: Whatever is forwarded is accounted for. A batch takes the whole path without a
    panic and leaves the demand alone; each series that comes out of it is known to
    the controller under its fingerprint and name, updated at the time of the batch,
    and its name is among those the controller counts as demanded; and, below 2^31
    known series, the next ping reports at least as many demanded series as the
    batch forwarded. The fingerprints of the batch do not collide, with each other
    or with a series known under another name, and each metric has a base name
    that, for a summary, does not end in a family suffix. *)
Theorem forwarded_series_are_accounted (t t' : Z) (exts : list extension) (earlier : list (controller * MetricsBatch))
    (regs : list receiver) (order : list (HashKey * TimeseriesEntry)) (w : controller) (md : MetricsBatch)
    (g : gmap HashKey history) :
  EdgeController ∈ exts →
  Forall (λ x, Forall nul_free (metricSelectors (ctl_demand x.1))) earlier →
  Forall nul_free (metricSelectors (ctl_demand w)) →
  Self ∉ regs → collision_free (batch_series md) → Forall (λ s, Contains s.1 "{" = false) (batch_series md) →
  order ≡ₚ map_to_list (TrackerConsumeMetrics md).1 → cache_represents (known (ctl_caches w)) g → clock_ok t →
  (∀ s e, s ∈ batch_series md → known (ctl_caches w) !! series_key s.1 s.2 = Some e → ke_MetricName e = s.1) →
  all_metrics (λ _ m, accountable m) md →
  let p := filtered_before (DemandFilter.Start newDemandFilterProcessor exts) earlier in
  ∃ w' out, metrics_path t order (RegisterTimeseriesReceiver regs Self) p w md = Some (w', out) ∧
    ctl_demand w' = ctl_demand w ∧
    (∀ s, s ∈ forwarded_series out →
       ∃ e, known (ctl_caches w') !! series_key s.1 s.2 = Some e ∧ ke_MetricName e = s.1 ∧ ke_LastUpdate e = t ∧
            s.1 ∈ demandedNameSet (known (ctl_caches w')) (GetDemandSnapshot (ctl_demand w'))) ∧
    ((Z.of_nat (GetSize (known (ctl_caches w'))) < 2 ^ 31)%Z →
     (Z.of_nat (size (list_to_set ((λ s, series_key s.1 s.2) <$> forwarded_series out) : gset HashKey))
      ≤ DemandedKnownCacheSize (buildPing t' w'))%Z).
Proof.
  intros He Fe Fw NS CF HN P R Ht HM HA p.
  assert (attached p) as A by (apply attached_before; [by apply attached_start|done]).
  destruct (ingest_ok t regs md order (ctl_caches w) g NS CF HN P R Ht) as (c' & E & _ & K & _).
  exists (with_caches w c'), (ConsumeMetrics p (with_caches w c') md).1. unfold metrics_path. rewrite E.
  do 2 (split; [done|]). destruct (ConsumeMetrics_kept p (with_caches w c') md A Fw) as [Eo _].
  cbn [ctl_demand with_caches ctl_caches] in *.
  assert (∀ s, s ∈ forwarded_series (ConsumeMetrics p (with_caches w c') md).1 →
    ∃ e, known c' !! series_key s.1 s.2 = Some e ∧ ke_MetricName e = s.1 ∧ ke_LastUpdate e = t ∧
         s.1 ∈ demandedNameSet (known c') (GetDemandSnapshot (ctl_demand w))) as Hs.
  { intros s Hs. rewrite Eo in Hs.
    assert (s ∈ batch_series md) as Hb by (eapply elem_of_sublist; [done|apply kept_is_sublist]).
    destruct (K s Hb) as [(e & Ek & Et & Em) _].
    assert (ke_MetricName e = s.1) as En.
    { rewrite Em. destruct (known (ctl_caches w) !! _) as [e0|] eqn:E0; [|done]. simpl. by apply (HM s). }
    exists e. split_and!; [done..|].
    destruct (kept_batch_in _ _ _ s HA Hs) as (rm & m & x & Ha & -> & Hx & Hd). eapply kept_accounted; [done..| |done].
    apply elem_of_MetricNameSet. eauto. }
  split; [exact Hs|]. intros B. unfold buildPing. cbn [DemandedKnownCacheSize ctl_caches with_caches ctl_demand].
  pose proof (CountDemanded_le (known c') (demandedNameSet (known c') (GetDemandSnapshot (ctl_demand w)))).
  unfold int32. rewrite wrap_s_id by lia. apply inj_le, counted_keys. intros key Hk.
  apply elem_of_list_to_set, list_elem_of_fmap in Hk as (s & -> & Hin). destruct (Hs s Hin) as (e & ? & En & _ & ?).
  exists e. by rewrite En.
Qed.

End Pipeline.

(** ** Evaluation *)

Module PipelineSample.

(** Two series of [up] and one of [down], under a selector that asks for one of
    the three; the filter had seen the batch before the demand arrived. *)
Definition md := DemandFilterSample.md.
Definition w : controller := ControllerSample.demanded.
Definition earlier : list (controller * @MetricsBatch AssocPData.pdata) := [(ControllerSample.connected, md)].
Definition exts : list extension := [OtherExtension; EdgeController].

Definition rows := @batch_series latin1_tables AssocPData.pdata DemandFilterSample.namer.
Definition order := map_to_list (@TrackerConsumeMetrics latin1_tables AssocPData.pdata DemandFilterSample.namer TrackerSample.hash md).1.
Definition p := @filtered_before LiteralRegexp.engine latin1_tables AssocPData.pdata DemandFilterSample.namer
  (@DemandFilter.Start LiteralRegexp.engine edge_host newDemandFilterProcessor exts) earlier.

Lemma no_collision : @collision_free latin1_tables TrackerSample.hash (rows md).
Proof.
  assert (Forall (λ s1, Forall (λ s2, @series_key latin1_tables TrackerSample.hash s1.1 s1.2
    ≠ @series_key latin1_tables TrackerSample.hash s2.1 s2.2 ∨ s1 = s2) (rows md)) (rows md)) as F
    by (apply (bool_decide_unpack _); vm_compute; reflexivity).
  intros s1 s2 H1 H2 E. rewrite Forall_forall in F. specialize (F s1 H1). rewrite Forall_forall in F.
  destruct (F s2 H2) as [N|Es]; [done|by rewrite Es].
Qed.

End PipelineSample.

Lemma demanded_series_are_forwarded_witness :
  let out := @forwarded_series latin1_tables AssocPData.pdata DemandFilterSample.namer
    (@ConsumeMetrics LiteralRegexp.engine latin1_tables AssocPData.pdata DemandFilterSample.namer edge_host
       PipelineSample.p PipelineSample.w PipelineSample.md).1 in
  length out = 1 ∧ out `sublist_of` PipelineSample.rows PipelineSample.md.
Proof.
  intros out. split; [vm_compute; reflexivity|].
  assert (EdgeController ∈ PipelineSample.exts) as He by (right; left).
  refine (proj1 (@demanded_series_are_forwarded LiteralRegexp.engine latin1_tables AssocPData.pdata
    DemandFilterSample.namer TrackerSample.hash PipelineSample.exts PipelineSample.earlier PipelineSample.w
    PipelineSample.md He _ _)); repeat constructor.
Defined.

Lemma forwarded_series_are_accounted_witness :
  ∃ w' out, @metrics_path LiteralRegexp.engine latin1_tables AssocPData.pdata DemandFilterSample.namer TrackerSample.hash
      7200 PipelineSample.order [OtherReceiver 1; Self] PipelineSample.p PipelineSample.w PipelineSample.md = Some (w', out) ∧
    (∀ s, s ∈ @forwarded_series latin1_tables AssocPData.pdata DemandFilterSample.namer out →
       s.1 ∈ @demandedNameSet LiteralRegexp.engine (known (ctl_caches w')) (GetDemandSnapshot (ctl_demand w'))).
Proof.
  assert (EdgeController ∈ PipelineSample.exts) as He by (right; left).
  assert (Self ∉ [OtherReceiver 1]) as NS by (intros [?|[]%elem_of_nil]%elem_of_cons; done).
  assert (cache_represents (known (ctl_caches PipelineSample.w)) ∅) as R
    by (intros k; change (known (ctl_caches PipelineSample.w)) with Init; unfold Init; rewrite !lookup_empty; constructor).
  assert (clock_ok 7200) as B by (split; reflexivity || lia).
  destruct (@forwarded_series_are_accounted LiteralRegexp.engine latin1_tables AssocPData.pdata
    DemandFilterSample.namer TrackerSample.hash 7200 7210 PipelineSample.exts PipelineSample.earlier [OtherReceiver 1]
    PipelineSample.order PipelineSample.w PipelineSample.md ∅ He) as (w' & out & E & _ & Hs & _).
  - repeat constructor.
  - repeat constructor.
  - exact NS.
  - exact PipelineSample.no_collision.
  - repeat constructor.
  - reflexivity.
  - exact R.
  - exact B.
  - intros s e _ Hk. change (known (ctl_caches PipelineSample.w)) with Init in Hk. unfold Init in Hk.
    rewrite lookup_empty in Hk. discriminate.
  - repeat constructor; discriminate.
  - exists w', out. split; [exact E|]. intros s Hin. destruct (Hs s Hin) as (e & _ & _ & _ & D). exact D.
Defined.
