(* ===== verification/Components.v ===== *)
(** Configuration and construction of the components: the configuration structs,
    their defaults and checks, the factories, and what the edge controller is
    built from (config.go and factory.go of each package under components/).

    The theorem follows the operator's switch [remote_config_write] from the
    configuration into the running controller. *)

From S2P Require Import Prelude GoText GoStrings Selector PData Demand TraceRouter Backoff Tracker.
From S2P Require Import MetricsIndex KnownCache DiscoveredCache DemandCache QueryHandler ConfigManager.
From S2P Require Import Diagnostics Delivery IndexSync AckProtocol Controller.

(** [time.Duration] in nanoseconds. *)
Definition Second : Z := 1000000000.

(** ** The edge controller *)

Record Config := MkConfig {
  ec_Endpoint : string;
  ec_AgentKey : string;
  ec_Insecure : bool;
  ec_ReconnectInterval : Z;
  ec_PingInterval : Z;
  ec_LocalVMQueryURL : string;
  ec_LocalLokiQueryURL : string;
  ec_LocalTempoQueryURL : string;
  ec_DiagnosticsDir : string;
  ec_RemoteConfigWrite : bool;
  ec_ConfigFile : string;
}.

Definition EdgeValidate (cfg : Config) : result string () :=
  if decide (ec_Endpoint cfg = "") then Err "endpoint is required"
  else if decide (ec_AgentKey cfg = "") then Err "agent_key is required"
  else Ok ().

Definition edge_default : Config :=
  MkConfig "localhost:9090" "" false (5 * Second) (30 * Second) "http://127.0.0.1:8428" "" "" "" true "".

Definition defaultAgentVersion : string := "dev".
Definition maxMessageBytes : Z := 16 * 1024 * 1024.
Definition AckTimeout : Z := 30 * Second.

(** The process's arguments and executable are read here. *)
Definition newEdgeControllerExtension (args : list string) (exe : string) (cfg : Config) : settings :=
  MkSettings defaultAgentVersion (newConfigManager (ec_ConfigFile cfg) (ec_RemoteConfigWrite cfg) args exe)
    (MkQueryConfig (ec_LocalVMQueryURL cfg) (ec_LocalLokiQueryURL cfg) (ec_LocalTempoQueryURL cfg))
    (ec_DiagnosticsDir cfg).

(** An empty build version leaves the default. *)
Definition createExtension (buildVersion : string) (args : list string) (exe : string) (cfg : Config) : settings :=
  let ext := newEdgeControllerExtension args exe cfg in
  if decide (buildVersion ≠ "") then MkSettings buildVersion (manager ext) (queryConfig ext) (DiagnosticsDir ext)
  else ext.

(** [dialOptions]: the transport, the keepalive and the message bounds. *)
Inductive credentials := InsecureCredentials | TLSCredentials (minVersion : Z).

Record DialOptions := MkDialOptions {
  transport : credentials;
  keepalive_Time : Z;
  keepalive_Timeout : Z;
  PermitWithoutStream : bool;
  MaxCallRecvMsgSize : Z;
  MaxCallSendMsgSize : Z;
}.

Definition VersionTLS12 : Z := 0x0303.

Definition dialOptions (cfg : Config) : DialOptions :=
  MkDialOptions (if ec_Insecure cfg then InsecureCredentials else TLSCredentials VersionTLS12)
    (ec_PingInterval cfg) (20 * Second) true maxMessageBytes maxMessageBytes.

(** [time.NewTicker] panics on a period that is not positive; [pingLoop] calls it
    with the configured interval. *)
Definition NewTicker (d : Z) : option Z := if decide (d ≤ 0)%Z then None else Some d.
Definition pingLoop_ticker (cfg : Config) : option Z := NewTicker (ec_PingInterval cfg).

(** ** The other components *)

(** The configuration of the three demand filters: [log_filtered], off. *)
Record FilterConfig := MkFilterConfig { LogFiltered : bool }.
Definition demandfilter_default : FilterConfig := MkFilterConfig false.
Definition logdemandfilter_default : FilterConfig := MkFilterConfig false.
Definition tracedemandfilter_default : FilterConfig := MkFilterConfig false.

(** The processors that change the batches they are given say so, and get their
    own copy. *)
Inductive component_kind := DemandFilterKind | LogFilterKind | TraceFilterKind | TrackerKind.
Definition MutatesData (k : component_kind) : bool :=
  match k with DemandFilterKind | LogFilterKind | TraceFilterKind => true | TrackerKind => false end.

Record TrackerConfig := MkTrackerConfig { LogMetrics : bool; LogSeries : bool }.
Definition tracker_default : TrackerConfig := MkTrackerConfig true true.
Definition newMetricsTrackerProcessor (cfg : TrackerConfig) : metricsTrackerProcessor :=
  MkTracker (LogMetrics cfg) (LogSeries cfg).

(** Without an endpoint, so that it does not validate as it is. *)
Definition router_default : RouterConfig := MkRouterConfig "" [] (30 * Second).

Definition backoff_default : Z := DefaultRetryInterval.
Definition createBackoffExtension (interval : Z) : backoffExtension := newBackoffExtension interval.

(** ** Files under the operator's switch *)

(** The files the diagnosis writes. *)
Definition diagnosis_paths (cfg : settings) : list string :=
  let dir := if decide (DiagnosticsDir cfg = "") then defaultDiagnosticsDir else DiagnosticsDir cfg in
  PathJoin dir <$> [knownCacheFile; discoveredCacheFile; demandCacheFile].

(** The same files elsewhere. *)
Definition same_files (cfg : settings) (fs fs' : FS) : Prop :=
  ∀ p, p ∉ diagnosis_paths cfg → ∀ f, fs' !! p = Some (FileNode f) ↔ fs !! p = Some (FileNode f).

Lemma made_dirs_keep_files l (fs : FS) p f :
  foldl (λ fs '(p, mode), match fs !! p with Some _ => fs | None => <[p := DirNode mode]> fs end) fs l !! p
    = Some (FileNode f) ↔ fs !! p = Some (FileNode f).
Proof.
  revert fs. induction l as [|[q mode] l IH]; intros fs; [done|]. simpl. rewrite IH.
  destruct (fs !! q) eqn:E; [done|]. destruct (decide (q = p)) as [->|N].
  - rewrite lookup_insert_eq, E. naive_solver.
  - by rewrite lookup_insert_ne.
Qed.

Section Switch.
Context `{Regexp, HTTPClient, CaseTables, YAML} (cfg : settings).

Lemma send_fs ok s msg : ctl_fs (sendAgentMessage ok s msg).2 = ctl_fs s.
Proof. unfold sendAgentMessage. by destruct (negb (stream s)), ok. Qed.

Lemma reply_fs ok s id b t : ctl_fs (replyCommand ok s id b t) = ctl_fs s.
Proof. unfold replyCommand. case_decide; [done|]. apply send_fs. Qed.

Lemma snapshot_files_disabled m env fs us :
  writeEnabled m = false → (snapshot_files m env fs us).2 = fs.
Proof.
  intros W. induction us as [|u us IH]; [done|]. cbn [snapshot_files].
  assert ((snapshot_file m env fs u).2 = fs) as E.
  { unfold snapshot_file. rewrite W. by repeat case_match. }
  destruct (snapshot_file m env fs u) as [f fs1]. simpl in E. subst fs1.
  by destruct (snapshot_files m env fs us).
Qed.

Lemma snapshot_disabled m env fs : writeEnabled m = false → (Snapshot m env fs).2 = fs.
Proof.
  intros W. unfold Snapshot. destruct (uris m) as [|u us]; [done|].
  pose proof (snapshot_files_disabled m env fs (u :: us) W) as E. by destruct (snapshot_files m env fs (u :: us)).
Qed.

Lemma diagnose_files env s : same_files cfg (ctl_fs s) (ctl_fs (diagnose cfg env s)).
Proof.
  intros p N f. unfold diagnose, writeCacheFiles. unfold diagnosis_paths in N.
  cbn [ctl_fs with_fs ctl_caches with_diagnosis ctl_demand].
  set (dir := if decide (DiagnosticsDir cfg = "") then _ else _) in *.
  unfold MkdirAll. destruct (mkdir_error (diag_env env) (ctl_fs s) dir); [apply made_dirs_keep_files|].
  pose proof (write_docs_other (diag_env env) dir
    (cache_docs (diag_env env) (known (ctl_caches s)) (discovered (ctl_caches s)) (ctl_demand s))) as O.
  rewrite O by exact N. apply made_dirs_keep_files.
Qed.

Lemma recv_files env s msg s' :
  writeEnabled (manager cfg) = false → recv_one cfg env s msg = Some s' → same_files cfg (ctl_fs s) (ctl_fs s').
Proof.
  intros W. unfold recv_one, handleServerMessage. destruct msg as [id []]; cbn [sm_Body sm_CorrelationId]; intros E.
  2: { destruct (resolvePending _ _ _); [|done]. by injection E as <-. }
  all: injection E as <-; try by intros ??; rewrite ?reply_fs.
  - apply (diagnose_files env (with_command s _)).
  - unfold sendConfigSnapshot. case_decide; [done|].
    pose proof (snapshot_disabled (manager cfg) (read_env env) (ctl_fs s) W) as E.
    simpl. destruct (Snapshot _ _ _) as [snap fs]. simpl in E. subst fs. intros p _ f. by rewrite send_fs.
Qed.

Lemma update_files ok env s id u :
  writeEnabled (manager cfg) = false → ctl_fs (handleUpdateConfig cfg ok env s id u) = ctl_fs s.
Proof. intros W. unfold handleUpdateConfig, Apply. rewrite W. simpl. by rewrite reply_fs. Qed.

Lemma step_files s s' :
  writeEnabled (manager cfg) = false → ctl_step cfg s s' → same_files cfg (ctl_fs s) (ctl_fs s').
Proof.
  intros W S. destruct S as [s env msg s' _ E|s ok env before after id u E|s ok before after id q resp E _
    |s a St D|s y y' _ _|s t d c d' _|s ok t|s Hs|s ok Hs|s|s n Hn].
  - by eapply recv_files.
  - intros p _ f. by rewrite update_files.
  - intros p _ f. unfold sendQueryResponse. by rewrite send_fs.
  - done.
  - done.
  - done.
  - intros p _ f. unfold ping. by rewrite send_fs.
  - done.
  - intros p _ f. unfold send_hello.
    pose proof (send_fs ok s (MkAgentMessage 0 (Hello (agentVersion cfg)))) as E.
    destruct (sendAgentMessage _ _ _) as [[] s1]; simpl in *; by rewrite E.
  - done.
  - done.
Qed.

End Switch.

(** ** Properties *)

(** C22: The operator's switch protects the host. An agent built from a
    configuration with remote_config_write off never changes a file of the host
    other than the three of its diagnosis: whatever messages the server sends, in
    whatever interleaving with the agent's own work and with whatever failures,
    every other path holds a file afterwards exactly when it held that file when
    the agent started. *)
Theorem write_switch_protects_files `{Regexp, HTTPClient, CaseTables, YAML}
    (buildVersion : string) (args : list string) (exe : string) (config : Config) (fs : FS) (s : controller) :
  let cfg := createExtension buildVersion args exe config in
  ec_RemoteConfigWrite config = false →
  rtc (ctl_step cfg) (start fs) s →
  ∀ p, p ∉ diagnosis_paths cfg → ∀ f, ctl_fs s !! p = Some (FileNode f) ↔ fs !! p = Some (FileNode f).
Proof.
  intros cfg W R.
  assert (writeEnabled (manager cfg) = false) as W'.
  { unfold cfg, createExtension. by case_decide. }
  change fs with (ctl_fs (start fs)). revert R. generalize (start fs). intros s0 R.
  induction R as [s1|s1 s2 s3 S R IH]; [done|]. intros p N f. rewrite IH by done. by apply (step_files cfg).
Qed.

(** ** Evaluation *)

Module ComponentsSample.

(** Of the defaults, the back-off valve validates, the edge controller misses
    its key and the router its endpoint. *)
Example defaults :
  EdgeValidate edge_default = Err "agent_key is required" ∧
  RouterValidate router_default = Err ErrEndpointRequired ∧
  BackoffValidate backoff_default = true.
Proof. done. Qed.

(** A ping interval of zero is accepted and stops the heartbeat with a panic. *)
Example zero_interval_panics :
  let cfg := MkConfig "lean-api:443" "key" false (5 * Second) 0 "" "" "" "" true "" in
  EdgeValidate cfg = Ok () ∧ pingLoop_ticker cfg = None.
Proof. done. Qed.

Definition off : Config := MkConfig "lean-api:443" "key" false (5 * Second) (30 * Second) "" "" "" "/d" false "".
Definition cfg : settings := createExtension "1.2.3" ["--config"; "file:/etc/a.yaml"] "/bin/otel" off.
Definition fs : FS := {["/etc/a.yaml" := FileNode (MkFile "a: 1" 420)]}.

Definition update : ServerMessage :=
  MkServerMessage 4 (ServerUpdateConfig (MkUpdateConfig "" "a: 2" false)).

Definition s1 : controller := open_stream (start fs).
Definition s2 : controller := with_tasks (with_command s1 update) [UpdateTask 4 (MkUpdateConfig "" "a: 2" false)].
Definition s3 : controller :=
  handleUpdateConfig cfg true ConfigManagerSample.ok_env (with_tasks s2 []) 4 (MkUpdateConfig "" "a: 2" false).

Example refused : ctl_fs s3 !! "/etc/a.yaml" = Some (FileNode (MkFile "a: 1" 420)) ∧
  (am_Body <$> sent s3) = [AgentCommandResult false (ErrorText ErrWriteDisabled)].
Proof. done. Qed.

End ComponentsSample.

Lemma write_switch_protects_files_witness :
  let s := ComponentsSample.s3 in
  ctl_fs s !! "/etc/a.yaml" = Some (FileNode (MkFile "a: 1" 420)).
Proof.
  intros s.
  assert (rtc (@ctl_step LiteralRegexp.engine QueryHandlerSample.client QueryHandlerSample.tables
    DiagnosticsSample.yaml ComponentsSample.cfg) (start ComponentsSample.fs) s) as R.
  { eapply rtc_l; [by apply ctl_open|].
    eapply rtc_l; [by apply (ctl_receive _ _ ControllerSample.env ComponentsSample.update)|].
    eapply rtc_l; [|apply rtc_refl].
    by apply (ctl_update_done _ ComponentsSample.s2 true ConfigManagerSample.ok_env [] []). }
  apply (@write_switch_protects_files LiteralRegexp.engine QueryHandlerSample.client QueryHandlerSample.tables
    DiagnosticsSample.yaml "1.2.3" ["--config"; "file:/etc/a.yaml"] "/bin/otel" ComponentsSample.off
    ComponentsSample.fs s eq_refl R "/etc/a.yaml"); [|reflexivity].
  apply (bool_decide_unpack _). vm_compute. reflexivity.
Defined.
