(* ===== verification/Wire.v ===== *)
(** The control messages on the wire (proto/leansignal/agent/v1/agent_control.proto
    and the size limits of components/edgecontroller/extension.go).

    A message is the tree of its fields as the protocol definition numbers them;
    proto3 leaves out fields that hold their default. The encoder of the protobuf
    library is the class [Protobuf]: it refuses a string field that is not valid
    UTF-8, and the length of what it produces is the documented one. gRPC refuses a
    message longer than the limit the connection was opened with.

    The theorems: everything the agent bounds itself - heartbeats, index updates
    and deletions, answers to queries, small configurations - stays within the
    limit and goes out when its texts are valid; an index-create message is bounded by the number of series only, and a
    queued series that cannot be sent keeps every index message back. *)

From S2P Require Import Prelude GoText GoStrings MetricsIndex KnownCache DiscoveredCache.
From S2P Require Import QueryHandler ConfigManager Delivery IndexSync Controller Components.

(** ** Fields *)

Inductive pfield :=
| PVarint (number v : Z)
| PString (number : Z) (s : string)
| PBytes (number : Z) (s : string)
| PMessage (number : Z) (fields : list pfield).

(** Seven bits of an unsigned 64-bit number to a byte. *)
Definition varint_len (v : Z) : Z := Z.log2 (uint64 v) / 7 + 1.

(** The key of a field: its number and a wire type of three bits, 0 for a varint
    and 2 for what is preceded by its length. *)
Definition tag (number wire_type : Z) : Z := number * 8 + wire_type.

Definition delimited_len (number n : Z) : Z := varint_len (tag number 2) + varint_len n + n.

Fixpoint field_len (f : pfield) : Z :=
  match f with
  | PVarint n v => varint_len (tag n 0) + varint_len v
  | PString n s | PBytes n s => delimited_len n (Z.of_nat (len s))
  | PMessage n fs => delimited_len n (foldr (λ f z, field_len f + z)%Z 0%Z fs)
  end.

Definition fields_len (fs : list pfield) : Z := foldr (λ f z, field_len f + z)%Z 0%Z fs.

Fixpoint field_utf8 (f : pfield) : bool :=
  match f with
  | PString _ s => ValidString s
  | PMessage _ fs => forallb field_utf8 fs
  | PVarint _ _ | PBytes _ _ => true
  end.

Definition fields_utf8 (fs : list pfield) : bool := forallb field_utf8 fs.

(** The encoder of the protobuf library, as the format documents it. *)
Class Protobuf := {
  Marshal : list pfield → option string;
  Marshal_utf8 fs : is_Some (Marshal fs) ↔ fields_utf8 fs = true;
  Marshal_len fs b : Marshal fs = Some b → Z.of_nat (len b) = fields_len fs;
}.

(** Singular fields, left out at their default; elements of repeated fields are
    always written. *)
Definition varint_field (n v : Z) : list pfield := if decide (v = 0%Z) then [] else [PVarint n v].
Definition bool_field (n : Z) (b : bool) : list pfield := if b then [PVarint n 1] else [].
Definition string_field (n : Z) (s : string) : list pfield := if decide (s = "") then [] else [PString n s].
Definition bytes_field (n : Z) (s : string) : list pfield := if decide (s = "") then [] else [PBytes n s].

(** ** The messages *)

Definition label_fields (l : Label) : list pfield := string_field 1 (l_Name l) ++ string_field 2 (l_Value l).

Definition discovered_fields (s : DiscoveredSeries) : list pfield :=
  bytes_field 1 (of_bytes (s_Fingerprint s)) ++ string_field 2 (s_MetricName s) ++
  ((λ l, PMessage 3 (label_fields l)) <$> s_Labels s).

Definition active_fields (s : ActiveSeries) : list pfield :=
  bytes_field 1 (of_bytes (a_Fingerprint s)) ++ varint_field 2 (a_Samples s) ++ varint_field 3 (a_LastUpdateMs s).

Definition ping_fields (p : Ping) : list pfield :=
  varint_field 1 (KnownCacheSize p) ++ varint_field 2 (DiscoveredCacheSize p) ++
  varint_field 3 (PendingBackendUpdates p) ++ varint_field 4 (DemandCacheSize p) ++
  varint_field 5 (DemandLastUpdate p) ++ varint_field 6 (DemandedKnownCacheSize p) ++
  varint_field 7 (ping_DemandHash p).

Definition header_fields (h : string * list string) : list pfield :=
  string_field 1 h.1 ++ (PString 2 <$> h.2).

Definition response_fields (r : QueryResponse) : list pfield :=
  varint_field 1 (StatusCode r) ++ bytes_field 2 (RespBody r) ++
  ((λ h, PMessage 3 (header_fields h)) <$> RespHeaders r) ++ string_field 4 (RespError r).

Definition config_file_fields (f : ConfigFile) : list pfield :=
  string_field 1 (cf_Path f) ++ bytes_field 2 (cf_Content f) ++ bool_field 3 (cf_Writable f) ++
  string_field 4 (cf_Error f).

Definition snapshot_fields (c : ConfigSnapshot) : list pfield :=
  ((λ f, PMessage 1 (config_file_fields f)) <$> Files c) ++ string_field 2 (PrimaryPath c) ++
  bool_field 3 (WriteEnabled c) ++ string_field 4 (cs_Error c).

(** What the agent sends: the replies of the controller, and the index messages
    of its processor. *)
Inductive wire_body :=
| Reply (b : AgentBody)
| IndexCreate (series : list DiscoveredSeries)
| IndexUpdate (series : list ActiveSeries)
| IndexDelete (fingerprints : list (list ascii)).

Definition body_field (b : wire_body) : pfield :=
  match b with
  | Reply (Hello version) => PMessage 2 (string_field 1 version)
  | Reply (AgentPing p) => PMessage 3 (ping_fields p)
  | IndexCreate series => PMessage 4 ((λ s, PMessage 1 (discovered_fields s)) <$> series)
  | IndexUpdate series => PMessage 5 ((λ s, PMessage 1 (active_fields s)) <$> series)
  | IndexDelete fps => PMessage 6 ((λ fp, PBytes 1 (of_bytes fp)) <$> fps)
  | Reply (AgentCommandResult success message) => PMessage 7 (bool_field 1 success ++ string_field 2 message)
  | Reply (AgentQueryResponse r) => PMessage 8 (response_fields r)
  | Reply (AgentConfigSnapshot c) => PMessage 9 (snapshot_fields c)
  end.

Definition envelope (id : Z) (b : wire_body) : list pfield := varint_field 1 id ++ [body_field b].

(** [stream.Send] refuses what cannot be encoded and what is longer than the limit
    [dialOptions] gives to [grpc.MaxCallSendMsgSize]. *)
Definition send_refused `{Protobuf} (id : Z) (b : wire_body) : bool :=
  match Marshal (envelope id b) with
  | None => true
  | Some data => bool_decide (maxMessageBytes < Z.of_nat (len data))%Z
  end.

(** ** The processor behind the limit *)

(** [sync_step] with the messages as they are sent, and batches that arrive between
    its steps: an announcement is under way only when [Send] took it. When [Send] refuses it, and also when there is no
    stream and the wait for the acknowledgement is in vain, the loop reports the
    error and tries again, all caches unchanged. *)
Inductive wire_step `{Protobuf} : sync → sync → Prop :=
| wire_create s id order msg keys :
    waiting s = Idle → order ≡ₚ (map_to_list (discovered (sc s))).*1 →
    discovered_begin (sc s) order = Some (msg, keys) → send_refused id (IndexCreate msg) = false →
    wire_step s (MkSync (sc s) (Creating keys) None (accepted s) (doubtful s) (refused s))
| wire_create_fails s order msg keys :
    waiting s = Idle → order ≡ₚ (map_to_list (discovered (sc s))).*1 →
    discovered_begin (sc s) order = Some (msg, keys) →
    wire_step s s
| wire_receives s t batch c :
    ReceiveTimeseriesBatch (sc s) t batch = Some c →
    wire_step s (MkSync c (waiting s) (answered s) (accepted s) (doubtful s) (refused s))
| wire_other s s' :
    sync_step s s' → (waiting s = Idle → ∀ keys, waiting s' ≠ Creating keys) → wire_step s s'.

(** The texts of a queued series. *)
Definition series_texts (e : TimeseriesEntry) : list string :=
  te_MetricName e :: (te_Labels e ≫= λ lp, [lp_Name lp; lp_Value lp]).

(** A series no message can carry. *)
Definition unsendable (e : TimeseriesEntry) : Prop :=
  ∃ t, t ∈ series_texts e ∧ (ValidString t = false ∨ maxMessageBytes < Z.of_nat (len t))%Z.

(** ** Lengths *)

Lemma varint_len_bounds v : (1 ≤ varint_len v ≤ 10)%Z.
Proof.
  unfold varint_len, uint64, wrap_u. pose proof (Z.mod_pos_bound v (2 ^ 64) ltac:(lia)) as B.
  pose proof (Z.log2_nonneg (v mod 2 ^ 64)) as N.
  assert (Z.log2 (v mod 2 ^ 64) < 64)%Z as U.
  { destruct (decide (v mod 2 ^ 64 = 0)%Z) as [->|]; [done|]. apply Z.log2_lt_pow2; lia. }
  assert (0 ≤ Z.log2 (v mod 2 ^ 64) / 7)%Z by (apply Z.div_pos; lia).
  assert (Z.log2 (v mod 2 ^ 64) / 7 < 10)%Z by (apply Z.div_lt_upper_bound; lia). lia.
Qed.

Lemma delimited_bounds n k : (k ≤ delimited_len n k ≤ k + 20)%Z.
Proof. unfold delimited_len. pose proof (varint_len_bounds (tag n 2)). pose proof (varint_len_bounds k). lia. Qed.

Lemma fields_len_cons f fs : fields_len (f :: fs) = (field_len f + fields_len fs)%Z.
Proof. done. Qed.
Lemma fields_len_app fs gs : fields_len (fs ++ gs) = (fields_len fs + fields_len gs)%Z.
Proof. induction fs as [|f fs IH]; [done|]. rewrite <- app_comm_cons, !fields_len_cons, IH. lia. Qed.

Lemma field_len_nonneg : ∀ f, (0 ≤ field_len f)%Z.
Proof.
  fix IH 1. intros [n v|n s|n s|n fs]; simpl.
  - pose proof (varint_len_bounds v). pose proof (varint_len_bounds (tag n 0)). lia.
  - pose proof (delimited_bounds n (Z.of_nat (len s))). lia.
  - pose proof (delimited_bounds n (Z.of_nat (len s))). lia.
  - assert (0 ≤ foldr (λ f z, field_len f + z) 0 fs)%Z as P.
    { induction fs as [|f fs IHfs]; [done|]. cbn [foldr]. pose proof (IH f). lia. }
    pose proof (delimited_bounds n (foldr (λ f z, field_len f + z) 0 fs)%Z). lia.
Qed.

Lemma fields_len_nonneg fs : (0 ≤ fields_len fs)%Z.
Proof. induction fs as [|f fs IH]; [done|]. rewrite fields_len_cons. pose proof (field_len_nonneg f). lia. Qed.

(** A message is no shorter than any of its fields. *)
Lemma field_le_fields f fs : f ∈ fs → (field_len f ≤ fields_len fs)%Z.
Proof.
  intros I. induction I as [f fs|f g fs I IH]; rewrite fields_len_cons.
  - pose proof (fields_len_nonneg fs). lia.
  - pose proof (field_len_nonneg g). lia.
Qed.

Lemma message_len n fs : field_len (PMessage n fs) = delimited_len n (fields_len fs).
Proof. done. Qed.

Lemma varint_field_len n v : (fields_len (varint_field n v) ≤ 20)%Z.
Proof.
  unfold varint_field. case_decide; [done|]. unfold fields_len. simpl.
  pose proof (varint_len_bounds v). pose proof (varint_len_bounds (tag n 0)). lia.
Qed.
Lemma bool_field_len n b : (fields_len (bool_field n b) ≤ 20)%Z.
Proof. destruct b; [|done]. exact (varint_field_len n 1). Qed.
Lemma string_field_len n s : (fields_len (string_field n s) ≤ Z.of_nat (len s) + 20)%Z.
Proof.
  unfold string_field. case_decide; [simpl; lia|]. unfold fields_len. simpl.
  pose proof (delimited_bounds n (Z.of_nat (len s))). lia.
Qed.
Lemma bytes_field_len n s : (fields_len (bytes_field n s) ≤ Z.of_nat (len s) + 20)%Z.
Proof.
  unfold bytes_field. case_decide; [simpl; lia|]. unfold fields_len. simpl.
  pose proof (delimited_bounds n (Z.of_nat (len s))). lia.
Qed.

(** A repeated field. *)
Lemma repeated_len {A} (g : A → pfield) (l : list A) (k : Z) :
  (∀ x, x ∈ l → field_len (g x) ≤ k)%Z → (fields_len (g <$> l) ≤ Z.of_nat (length l) * k)%Z.
Proof.
  induction l as [|x l IH]; intros B; [done|]. rewrite fmap_cons, fields_len_cons. simpl length.
  pose proof (B x ltac:(left)). pose proof (IH ltac:(intros; apply B; by right)). lia.
Qed.

(** ** Sending *)

Section Sending.
Context `{Protobuf}.

Lemma sent_iff id b :
  send_refused id b = false ↔
  fields_utf8 (envelope id b) = true ∧ (fields_len (envelope id b) ≤ maxMessageBytes)%Z.
Proof.
  unfold send_refused. pose proof (Marshal_utf8 (envelope id b)) as U. pose proof (Marshal_len (envelope id b)) as L.
  destruct (Marshal (envelope id b)) as [data|].
  - rewrite bool_decide_eq_false, (L data eq_refl). split; [|lia]. intros. split; [apply U; eauto|lia].
  - split; [done|]. intros [E _]. apply U in E as []. done.
Qed.

Lemma envelope_len id b : (field_len (body_field b) ≤ fields_len (envelope id b) ≤ field_len (body_field b) + 20)%Z.
Proof.
  unfold envelope. rewrite fields_len_app, fields_len_cons. change (fields_len []) with 0%Z.
  pose proof (varint_field_len 1 id). pose proof (fields_len_nonneg (varint_field 1 id)). lia.
Qed.

Lemma varint_field_utf8 n v : fields_utf8 (varint_field n v) = true.
Proof. unfold varint_field. by case_decide. Qed.

(** A message goes out when its texts are valid and its body leaves room for the
    envelope. *)
Lemma sent_intro id b n fs :
  body_field b = PMessage n fs → fields_utf8 fs = true → (fields_len fs ≤ maxMessageBytes - 40)%Z →
  send_refused id b = false.
Proof.
  intros E U L. apply sent_iff. pose proof (envelope_len id b) as B. rewrite E, message_len in B.
  pose proof (delimited_bounds n (fields_len fs)). split; [|lia].
  unfold envelope, fields_utf8. rewrite forallb_app, E. simpl. fold (fields_utf8 (varint_field 1 id)) (fields_utf8 fs).
  by rewrite varint_field_utf8, U.
Qed.

Lemma fingerprint_len (k : HashKey) : Z.of_nat (len (of_bytes (key_bytes k))) = 16%Z.
Proof.
  assert (∀ l, len (of_bytes l) = length l) as -> by (induction l as [|c l IH]; simpl; [done|by f_equal]).
  unfold key_bytes. by rewrite length_vec_to_list.
Qed.

(** Index updates and deletions carry numbers and fingerprints only. *)
Lemma update_message_fits id items :
  (Z.of_nat (length items) ≤ KnownBatchSize)%Z → send_refused id (IndexUpdate (index_update items)) = false.
Proof.
  intros B. eapply sent_intro; [reflexivity| |].
  - unfold fields_utf8. apply forallb_forall. intros f Hf%list_elem_of_In. apply list_elem_of_fmap in Hf as (s & -> & _). simpl.
    unfold active_fields, bytes_field, varint_field. by repeat case_decide.
  - assert (fields_len ((λ s, PMessage 1 (active_fields s)) <$> index_update items)
            ≤ Z.of_nat (length (index_update items)) * 96)%Z as L.
    { apply repeated_len. intros s (it & -> & _)%list_elem_of_fmap. rewrite message_len.
      unfold active_fields. rewrite !fields_len_app. simpl.
      pose proof (bytes_field_len 1 (of_bytes (key_bytes (ai_HashKey it)))) as L1.
      rewrite fingerprint_len in L1.
      pose proof (varint_field_len 2 (TotalSamples it)). pose proof (varint_field_len 3 (ai_LastUpdate it)).
      match goal with |- (delimited_len ?n ?k ≤ _)%Z => pose proof (delimited_bounds n k) end. lia. }
    assert (length (index_update items) = length items) as Ei by apply length_fmap. rewrite Ei in L. unfold KnownBatchSize, maxMessageBytes in *. lia.
Qed.

Lemma delete_message_fits id keys :
  (Z.of_nat (length keys) ≤ KnownBatchSize)%Z → send_refused id (IndexDelete (index_delete keys)) = false.
Proof.
  intros B. eapply sent_intro; [reflexivity| |].
  - unfold fields_utf8. apply forallb_forall. intros f Hf%list_elem_of_In.
    by apply list_elem_of_fmap in Hf as (s & -> & _).
  - assert (fields_len ((λ fp, PBytes 1 (of_bytes fp)) <$> index_delete keys)
            ≤ Z.of_nat (length (index_delete keys)) * 36)%Z as L.
    { apply repeated_len. intros fp (k & -> & _)%list_elem_of_fmap. simpl.
      match goal with |- (delimited_len ?n ?k ≤ _)%Z => pose proof (delimited_bounds n k) as D end.
      rewrite fingerprint_len in *. lia. }
    assert (length (index_delete keys) = length keys) as Ei by apply length_fmap. rewrite Ei in L. unfold KnownBatchSize, maxMessageBytes in *. lia.
Qed.

(** ** Replies *)

Lemma ping_fits id p : send_refused id (Reply (AgentPing p)) = false.
Proof.
  eapply sent_intro; [reflexivity| |].
  - unfold ping_fields, fields_utf8. rewrite !forallb_app. fold fields_utf8. by rewrite !varint_field_utf8.
  - unfold ping_fields. rewrite !fields_len_app.
    repeat match goal with |- context [fields_len (varint_field ?n ?v)] =>
      pose proof (varint_field_len n v); generalize dependent (fields_len (varint_field n v)); intros end.
    unfold maxMessageBytes. lia.
Qed.

(** The texts of an answer to a query, besides its body. *)
Definition header_bytes (h : string * list string) : Z :=
  Z.of_nat (len h.1) + 40 + foldr (λ v z, Z.of_nat (len v) + 20 + z)%Z 0%Z h.2.
Definition headers_bytes (hs : list (string * list string)) : Z := foldr (λ h z, header_bytes h + z)%Z 0%Z hs.

Definition response_texts (r : QueryResponse) : list string :=
  (RespHeaders r ≫= λ h, h.1 :: h.2) ++ [RespError r].

Lemma header_fields_len h : (field_len (PMessage 3 (header_fields h)) ≤ header_bytes h)%Z.
Proof.
  rewrite message_len. unfold header_fields, header_bytes. rewrite fields_len_app. pose proof (string_field_len 1 h.1).
  match goal with |- (delimited_len ?n ?k ≤ _)%Z => pose proof (delimited_bounds n k) end.
  enough (fields_len (PString 2 <$> h.2) ≤ foldr (λ v z, Z.of_nat (len v) + 20 + z) 0 h.2)%Z by lia.
  clear. induction h.2 as [|v l IH]; [done|]. rewrite fmap_cons, fields_len_cons. cbn [foldr field_len].
  pose proof (delimited_bounds 2 (Z.of_nat (len v))). lia.
Qed.

Lemma string_field_utf8 n s : ValidString s = true → fields_utf8 (string_field n s) = true.
Proof. intros V. unfold string_field. case_decide; [done|]. unfold fields_utf8. simpl. by rewrite V. Qed.

Lemma fields_utf8_app fs gs : fields_utf8 (fs ++ gs) = fields_utf8 fs && fields_utf8 gs.
Proof. apply forallb_app. Qed.

Lemma repeated_utf8 {A} (g : A → pfield) (l : list A) :
  (∀ x, x ∈ l → field_utf8 (g x) = true) → fields_utf8 (g <$> l) = true.
Proof.
  intros B. apply forallb_forall. intros f Hf%list_elem_of_In. apply list_elem_of_fmap in Hf as (x & -> & Hx). by apply B.
Qed.

Lemma response_fits id r :
  Forall (λ t, ValidString t = true) (response_texts r) →
  (headers_bytes (RespHeaders r) + Z.of_nat (len (RespError r)) ≤ 2 ^ 20 - 100)%Z →
  (Z.of_nat (len (RespBody r)) ≤ maxQueryResponseBytes)%Z →
  send_refused id (Reply (AgentQueryResponse r)) = false.
Proof.
  intros T B L. unfold response_texts in T. apply Forall_app in T as [T [V _]%Forall_cons]. rewrite Forall_forall in T.
  eapply sent_intro; [reflexivity| |].
  - unfold response_fields. rewrite !fields_utf8_app, varint_field_utf8, string_field_utf8 by done.
    rewrite repeated_utf8; [unfold bytes_field; by case_decide|].
    intros h Hh. simpl. fold (fields_utf8 (header_fields h)). unfold header_fields.
    rewrite fields_utf8_app, string_field_utf8; [|apply T; apply list_elem_of_bind; exists h; split; [left|done]].
    apply repeated_utf8. intros v Hv. apply T, list_elem_of_bind. exists h. split; [by right|done].
  - unfold response_fields. rewrite !fields_len_app.
    pose proof (varint_field_len 1 (StatusCode r)). pose proof (bytes_field_len 2 (RespBody r)).
    pose proof (string_field_len 4 (RespError r)).
    assert (fields_len ((λ h, PMessage 3 (header_fields h)) <$> RespHeaders r) ≤ headers_bytes (RespHeaders r))%Z.
    { clear. induction (RespHeaders r) as [|h hs IH]; [done|]. rewrite fmap_cons, fields_len_cons.
      pose proof (header_fields_len h). cbn [headers_bytes foldr] in *. unfold headers_bytes in IH. lia. }
    unfold maxQueryResponseBytes, maxMessageBytes in *. lia.
Qed.

(** The texts of a snapshot, besides the contents of the files. *)
Definition file_texts (f : ConfigFile) : list string := [cf_Path f; cf_Error f].
Definition snapshot_texts (c : ConfigSnapshot) : list string :=
  (Files c ≫= file_texts) ++ [PrimaryPath c; cs_Error c].
Definition texts_bytes (ts : list string) : Z := foldr (λ t z, Z.of_nat (len t) + z)%Z 0%Z ts.

Lemma texts_bytes_app a b : texts_bytes (a ++ b) = (texts_bytes a + texts_bytes b)%Z.
Proof. induction a as [|t a IH]; [done|]. simpl in *. unfold texts_bytes in *. simpl. lia. Qed.

Lemma bool_field_utf8 n b : fields_utf8 (bool_field n b) = true.
Proof. by destruct b. Qed.
Lemma bytes_field_utf8 n s : fields_utf8 (bytes_field n s) = true.
Proof. unfold bytes_field. by case_decide. Qed.

Lemma file_fields_len f :
  (field_len (PMessage 1 (config_file_fields f)) ≤ texts_bytes (file_texts f) + Z.of_nat (len (cf_Content f)) + 100)%Z.
Proof.
  rewrite message_len. unfold config_file_fields. rewrite !fields_len_app.
  pose proof (string_field_len 1 (cf_Path f)). pose proof (bytes_field_len 2 (cf_Content f)).
  pose proof (bool_field_len 3 (cf_Writable f)). pose proof (string_field_len 4 (cf_Error f)).
  match goal with |- (delimited_len ?n ?k ≤ _)%Z => pose proof (delimited_bounds n k) end.
  unfold texts_bytes, file_texts. simpl. lia.
Qed.

Lemma files_fields_len files :
  Forall (λ f, Z.of_nat (len (cf_Content f)) ≤ maxConfigFileBytes)%Z files →
  (fields_len ((λ f, PMessage 1 (config_file_fields f)) <$> files)
   ≤ texts_bytes (files ≫= file_texts) + Z.of_nat (length files) * (maxConfigFileBytes + 100))%Z.
Proof.
  induction 1 as [|f files B _ IH]; [done|]. rewrite fmap_cons, fields_len_cons, bind_cons, texts_bytes_app.
  pose proof (file_fields_len f). cbn [length]. lia.
Qed.

Lemma snapshot_fits id c :
  Forall (λ t, ValidString t = true) (snapshot_texts c) → (texts_bytes (snapshot_texts c) ≤ 2 ^ 19)%Z →
  length (Files c) ≤ 15 → Forall (λ f, Z.of_nat (len (cf_Content f)) ≤ maxConfigFileBytes)%Z (Files c) →
  send_refused id (Reply (AgentConfigSnapshot c)) = false.
Proof.
  intros T B N F. unfold snapshot_texts in *. apply Forall_app in T as [T [V1 [V2 _]%Forall_cons]%Forall_cons].
  rewrite texts_bytes_app in B. rewrite Forall_forall in T. eapply sent_intro; [reflexivity| |].
  - unfold snapshot_fields. rewrite !fields_utf8_app, bool_field_utf8, !string_field_utf8 by done.
    rewrite repeated_utf8; [done|]. intros f Hf. simpl. fold (fields_utf8 (config_file_fields f)). unfold config_file_fields.
    rewrite !fields_utf8_app, bytes_field_utf8, bool_field_utf8, !string_field_utf8; [done|..];
      apply T, list_elem_of_bind; exists f; (split; [unfold file_texts; set_solver|done]).
  - unfold snapshot_fields. rewrite !fields_len_app. pose proof (files_fields_len _ F).
    pose proof (string_field_len 2 (PrimaryPath c)). pose proof (bool_field_len 3 (WriteEnabled c)).
    pose proof (string_field_len 4 (cs_Error c)).
    assert (texts_bytes [PrimaryPath c; cs_Error c] = Z.of_nat (len (PrimaryPath c)) + Z.of_nat (len (cs_Error c)))%Z
      by (unfold texts_bytes; simpl; lia).
    unfold maxConfigFileBytes, maxMessageBytes in *. nia.
Qed.

(** ** Series that cannot be sent *)

(** A text somewhere in a message. *)
Inductive has_text (t : string) : pfield → Prop :=
| text_here n : has_text t (PString n t)
| text_in n f fs : f ∈ fs → has_text t f → has_text t (PMessage n fs).

Lemma has_text_len t f : has_text t f → (Z.of_nat (len t) ≤ field_len f)%Z.
Proof.
  induction 1 as [n|n f fs I _ IH].
  - simpl. pose proof (delimited_bounds n (Z.of_nat (len t))). lia.
  - rewrite message_len. pose proof (field_le_fields f fs I). pose proof (delimited_bounds n (fields_len fs)). lia.
Qed.

Lemma has_text_utf8 t f : has_text t f → ValidString t = false → field_utf8 f = false.
Proof.
  intros T V. induction T as [n|n f fs I _ IH]; simpl; [done|].
  apply not_true_iff_false. rewrite forallb_forall. intros A. rewrite A in IH; [done|by apply list_elem_of_In].
Qed.

Lemma unsendable_text id b t :
  has_text t (body_field b) → (ValidString t = false ∨ maxMessageBytes < Z.of_nat (len t))%Z → send_refused id b = true.
Proof.
  intros T U. apply not_false_iff_true. rewrite sent_iff. intros [V L]. destruct U as [U|U].
  - unfold envelope in V. rewrite fields_utf8_app in V. apply andb_true_iff in V as [_ V].
    unfold fields_utf8 in V. simpl in V. by rewrite (has_text_utf8 _ _ T U) in V.
  - pose proof (has_text_len _ _ T). pose proof (envelope_len id b). lia.
Qed.

Lemma string_field_in n t : t ≠ "" → PString n t ∈ string_field n t.
Proof. intros N. unfold string_field. rewrite decide_False by done. left. Qed.

(** Every text of a queued series is in the announcement that carries it. *)
Lemma series_in_message p ps t :
  p ∈ ps → t ∈ series_texts p.2 → t ≠ "" → has_text t (body_field (IndexCreate (create_of <$> ps))).
Proof.
  intros Hp Ht N. apply (text_in t 4 (PMessage 1 (discovered_fields (create_of p)))).
  { apply list_elem_of_fmap. exists (create_of p). split; [done|]. apply list_elem_of_fmap. eauto. }
  unfold series_texts in Ht. apply elem_of_cons in Ht as [->|Ht].
  - apply (text_in _ 1 (PString 2 (te_MetricName p.2))); [|apply text_here]. unfold discovered_fields. simpl.
    rewrite !elem_of_app. right. left. by apply string_field_in.
  - apply list_elem_of_bind in Ht as (lp & Ht & Hl).
    apply (text_in _ 1 (PMessage 3 (label_fields (MkLabel (lp_Name lp) (lp_Value lp))))).
    { unfold discovered_fields. simpl. rewrite !elem_of_app. right. right. apply list_elem_of_fmap.
      eexists. split; [reflexivity|]. apply list_elem_of_fmap. by exists lp. }
    unfold label_fields. simpl. apply elem_of_cons in Ht as [->|[->|[]%elem_of_nil]%elem_of_cons].
    + apply (text_in _ 3 (PString 1 (lp_Name lp))); [|apply text_here]. apply elem_of_app. left. by apply string_field_in.
    + apply (text_in _ 3 (PString 2 (lp_Value lp))); [|apply text_here]. apply elem_of_app. right. by apply string_field_in.
Qed.

(** So are the texts of an answer and of a snapshot. *)
Lemma response_in_message r t :
  t ∈ response_texts r → t ≠ "" → has_text t (body_field (Reply (AgentQueryResponse r))).
Proof.
  intros Ht N. unfold response_texts in Ht. apply elem_of_app in Ht as [Ht|Ht].
  - apply list_elem_of_bind in Ht as (h & Ht & Hh). apply (text_in _ 8 (PMessage 3 (header_fields h))).
    { unfold response_fields. rewrite !elem_of_app. right. right. left. apply list_elem_of_fmap. eauto. }
    unfold header_fields. apply elem_of_cons in Ht as [->|Ht].
    + apply (text_in _ 3 (PString 1 h.1)); [|apply text_here]. apply elem_of_app. left. by apply string_field_in.
    + apply (text_in _ 3 (PString 2 t)); [|apply text_here]. apply elem_of_app. right. by apply list_elem_of_fmap_2.
  - apply list_elem_of_singleton in Ht as ->. apply (text_in _ 8 (PString 4 (RespError r))); [|apply text_here].
    unfold response_fields. rewrite !elem_of_app. do 3 right. by apply string_field_in.
Qed.

Lemma snapshot_in_message c t :
  t ∈ snapshot_texts c → t ≠ "" → has_text t (body_field (Reply (AgentConfigSnapshot c))).
Proof.
  intros Ht N. unfold snapshot_texts in Ht. apply elem_of_app in Ht as [Ht|Ht].
  - apply list_elem_of_bind in Ht as (f & Ht & Hf). apply (text_in _ 9 (PMessage 1 (config_file_fields f))).
    { unfold snapshot_fields. rewrite !elem_of_app. left. apply list_elem_of_fmap. eauto. }
    unfold file_texts in Ht. apply elem_of_cons in Ht as [->|[->|[]%elem_of_nil]%elem_of_cons].
    + apply (text_in _ 1 (PString 1 (cf_Path f))); [|apply text_here]. unfold config_file_fields.
      rewrite !elem_of_app. left. by apply string_field_in.
    + apply (text_in _ 1 (PString 4 (cf_Error f))); [|apply text_here]. unfold config_file_fields.
      rewrite !elem_of_app. do 3 right. by apply string_field_in.
  - apply elem_of_cons in Ht as [->|[->|[]%elem_of_nil]%elem_of_cons].
    + apply (text_in _ 9 (PString 2 (PrimaryPath c))); [|apply text_here]. unfold snapshot_fields.
      rewrite !elem_of_app. right. left. by apply string_field_in.
    + apply (text_in _ 9 (PString 4 (cs_Error c))); [|apply text_here]. unfold snapshot_fields.
      rewrite !elem_of_app. do 3 right. by apply string_field_in.
Qed.

(** What goes out has valid texts only. *)
Lemma sent_texts id b ts :
  (∀ t, t ∈ ts → t ≠ "" → has_text t (body_field b)) → send_refused id b = false →
  Forall (λ t, ValidString t = true) ts.
Proof.
  intros Hts S. apply Forall_forall. intros t Ht. destruct (ValidString t) eqn:V; [done|].
  rewrite (unsendable_text id b t) in S; [done|apply Hts; [done|intros ->; by vm_compute in V]|by left].
Qed.

(** A known series that no message can carry is queued, and the queue fits a batch. *)
Definition blocked (k : HashKey) (e : TimeseriesEntry) (acc : gset HashKey) (s : sync) : Prop :=
  waiting s = Idle ∧ is_Some (known (sc s) !! k) ∧ discovered (sc s) !! k = Some e ∧ accepted s ⊆ acc.

Lemma receive_one_keeps t c ke c' k e :
  receive_one t (Some c) ke = Some c' → is_Some (known c !! k) → discovered c !! k = Some e →
  is_Some (known c' !! k) ∧ discovered c' !! k = Some e.
Proof.
  destruct ke as [key entry]. unfold receive_one. simpl. intros E K D.
  destruct (IsTimeseriesKnown (known c) key) eqn:EK;
    (destruct (UpdateTimeseries (known c) t key entry) as [k'|] eqn:EU; [|done]); simpl in E; injection E as <-; simpl.
  - split; [|done]. apply (Update_dom _ _ _ _ _ EU). by right.
  - split; [apply (Update_dom _ _ _ _ _ EU); by right|]. unfold Add. rewrite lookup_insert_ne; [done|]. intros ->.
    unfold IsTimeseriesKnown in EK. by rewrite bool_decide_true in EK.
Qed.

Lemma receive_keeps t batch c c' k e :
  ReceiveTimeseriesBatch c t batch = Some c' → is_Some (known c !! k) → discovered c !! k = Some e →
  is_Some (known c' !! k) ∧ discovered c' !! k = Some e.
Proof.
  unfold ReceiveTimeseriesBatch. revert c. induction batch as [|ke batch IH]; intros c E K D.
  { simpl in E. by injection E as <-. }
  cbn [foldl] in E. destruct (receive_one t (Some c) ke) as [c1|] eqn:E1; [|by rewrite receive_none in E].
  destruct (receive_one_keeps t c ke c1 k e E1 K D) as [K1 D1]. by apply (IH c1).
Qed.

(** A queue that is not empty has a batch. *)
Lemma queued_begins c k : is_Some (discovered c !! k) → ∃ order, discovered_begin c order ≠ None.
Proof.
  intros [e E]. exists [k]. unfold discovered_begin. rewrite GetBatch_eq. cbv zeta.
  assert (DiscoveredBatchSize `min` size (discovered c) ≠ 0) as N.
  { assert (size (discovered c) ≠ 0) by (intros S; apply map_size_empty_inv in S; by rewrite S, lookup_empty in E).
    unfold DiscoveredBatchSize. lia. }
  revert N. generalize (DiscoveredBatchSize `min` size (discovered c)). intros [|n] N; [done|].
  cbn [omap list_omap]. by rewrite E.
Qed.

Lemma blocked_step k e acc s s' :
  unsendable e → size (discovered (sc s)) ≤ DiscoveredBatchSize → wire_step s s' → blocked k e acc s → blocked k e acc s'.
Proof.
  intros (t & Ht & U) B S (W & K & D & A).
  destruct S as [s id order msg keys _ P E R|s order msg keys _ P E|s t' batch c' E|s s' S C]; [|done|..].
  - exfalso. destruct (discovered_begin_whole _ _ _ _ _ _ P E B D) as (found & -> & Hf).
    rewrite (unsendable_text id _ t) in R; [done| |done]. apply (series_in_message (k, e)); [done..|].
    intros ->. destruct U as [U|U]; [by vm_compute in U|unfold maxMessageBytes in U; simpl in U; lia].
  - destruct (receive_keeps _ _ _ _ _ _ E K D). by split_and!.
  - specialize (C W). destruct S as [s order msg keys _ E|s _ EN|s t1 t2 order active c' W' _ _|s t1 active order w c' W' _ _
      |s ack F _|s keys ack W'|s keys active ack w c' W'|s t1 active ack W'|s err F|s k' Hk];
      try congruence; try by rewrite W in F.
    + by destruct (C keys).
    + destruct (queued_begins (sc s) k) as [order N]; [eauto|]. by rewrite EN in N.
    + split_and!; [done..|]. simpl. set_solver.
Qed.

End Sending.

(** ** Properties *)

Section Claims.
Context `{Protobuf}.

(** C16: What the agent bounds itself fits the 16 MiB limit of the connection, so it
    goes out unless the encoder refuses one of its texts. Whatever its caches hold,
    the index updates and deletions it takes from the known series are sent, and so
    is a heartbeat, since they carry no text. An answer to a query whose headers and
    error stay within the mebibyte left for them is sent exactly when these are valid
    UTF-8, whatever the body; and a configuration of at most 15 sources with half a
    mebibyte of paths and errors exactly when the paths and errors are valid UTF-8,
    whatever the files contain. *)
Theorem bounded_messages_are_sent (id : Z) :
  (∀ c t t' order, NoDup order →
     send_refused id (IndexUpdate (index_update (known_active c t t' order).1)) = false) ∧
  (∀ c t active order keys c', NoDup order → known_inactive c t active order = (Deleting keys active, c') →
     send_refused id (IndexDelete (index_delete keys)) = false) ∧
  (∀ p, send_refused id (Reply (AgentPing p)) = false) ∧
  (∀ `{HTTPClient, CaseTables} cfg req, let r := (execute cfg req).1 in
     (headers_bytes (RespHeaders r) + Z.of_nat (len (RespError r)) ≤ 2 ^ 20 - 100)%Z →
     send_refused id (Reply (AgentQueryResponse r)) = false ↔
     Forall (λ t, ValidString t = true) (response_texts r)) ∧
  (∀ m env fs, let c := (Snapshot m env fs).1 in
     (texts_bytes (snapshot_texts c) ≤ 2 ^ 19)%Z → length (uris m) ≤ 15 →
     send_refused id (Reply (AgentConfigSnapshot c)) = false ↔
     Forall (λ t, ValidString t = true) (snapshot_texts c)).
Proof.
  split_and!.
  - intros c t t' order N. destruct (known_active c t t' order) as [active c'] eqn:E.
    destruct (known_active_ok _ _ _ _ _ _ N E) as (_ & _ & B). by apply update_message_fits.
  - intros c t active order keys c' N E. destruct (known_inactive_ok _ _ _ _ _ _ N E) as (_ & _ & _ & B).
    by apply delete_message_fits.
  - apply ping_fits.
  - intros HC CT cfg req r B. split; [apply sent_texts, response_in_message|].
    intros T. apply response_fits; [done..|]. apply execute_bounded.
  - intros m env fs c B N. split; [apply sent_texts, snapshot_in_message|]. intros T.
    destruct (Snapshot_bound m env fs) as [L F]. apply snapshot_fits; [done..|unfold c; lia|done].
Qed.

(** C17: One series can keep the whole index back. When a queued, known series has a
    text that is not valid UTF-8, or longer than a message may be, and the queue
    stays within one batch, then in every run, whatever arrives and however often
    the processor tries, the series stays queued, no announcement, update or
    deletion is ever under way, and the backend's index gains nothing. *)
Theorem unsendable_series_blocks_the_index (s s' : sync) (k : HashKey) (e : TimeseriesEntry) :
  unsendable e → waiting s = Idle → is_Some (known (sc s) !! k) → discovered (sc s) !! k = Some e →
  rtc (λ a b, size (discovered (sc a)) ≤ DiscoveredBatchSize ∧ wire_step a b) s s' →
  waiting s' = Idle ∧ discovered (sc s') !! k = Some e ∧ accepted s' ⊆ accepted s.
Proof.
  intros U W K D R.
  assert (blocked k e (accepted s) s') as (W' & _ & D' & A'); [|done].
  refine (rtc_preserves _ (blocked k e (accepted s)) _ _ _ R _); [|done].
  intros a b [B S]. by apply blocked_step.
Qed.

End Claims.

(** ** An encoder *)

Module WireFormat.

Fixpoint varint (fuel : nat) (v : Z) : string :=
  match fuel with
  | O => ""
  | S fuel => if decide (v < 128)%Z then String (byte_of v) "" else String (byte_of (128 + v mod 128)) (varint fuel (v / 128))
  end.

Definition uvarint (v : Z) : string := varint 10 (uint64 v).

Fixpoint encode_field (f : pfield) : string :=
  match f with
  | PVarint n v => uvarint (tag n 0) +:+ uvarint v
  | PString n s | PBytes n s => uvarint (tag n 2) +:+ uvarint (Z.of_nat (len s)) +:+ s
  | PMessage n fs =>
      let body := foldr (λ f s, encode_field f +:+ s) "" fs in
      uvarint (tag n 2) +:+ uvarint (Z.of_nat (len body)) +:+ body
  end.

Definition encode (fs : list pfield) : string := foldr (λ f s, encode_field f +:+ s) "" fs.

Lemma varint_S fuel v :
  varint (S fuel) v =
  if decide (v < 128)%Z then String (byte_of v) "" else String (byte_of (128 + v mod 128)) (varint fuel (v / 128)).
Proof. done. Qed.

Lemma varint_length fuel v :
  (0 ≤ v < 2 ^ (7 * Z.of_nat (S fuel)))%Z → Z.of_nat (len (varint (S fuel) v)) = (Z.log2 v / 7 + 1)%Z.
Proof.
  revert v. induction fuel as [|fuel IH]; intros v B.
  { cbn [varint]. simpl in B. rewrite decide_True by lia. simpl.
    assert (Z.log2 v < 7)%Z. { destruct (decide (v = 0)%Z) as [->|]; [done|]. apply Z.log2_lt_pow2; lia. }
    rewrite Z.div_small; [done|]. pose proof (Z.log2_nonneg v). lia. }
  rewrite varint_S. case_decide as L.
  { simpl. assert (Z.log2 v < 7)%Z. { destruct (decide (v = 0)%Z) as [->|]; [done|]. apply Z.log2_lt_pow2; lia. }
    rewrite Z.div_small; [done|]. pose proof (Z.log2_nonneg v). lia. }
  change (len (String ?c ?s)) with (S (len s)). rewrite Nat2Z.inj_succ, IH.
  - assert (Z.log2 v = Z.log2 (v / 128) + 1 * 7)%Z as ->.
    { change 128%Z with (2 ^ 7)%Z. rewrite <- Z.shiftr_div_pow2, Z.log2_shiftr by lia.
      assert (7 ≤ Z.log2 v)%Z by (apply Z.log2_le_pow2; lia). lia. }
    rewrite Z.div_add by lia. lia.
  - split; [apply Z.div_pos; lia|]. apply Z.div_lt_upper_bound; [lia|].
    replace (128 * 2 ^ (7 * Z.of_nat (S fuel)))%Z with (2 ^ (7 * Z.of_nat (S (S fuel))))%Z; [lia|].
    change 128%Z with (2 ^ 7)%Z. rewrite <- Z.pow_add_r by lia. f_equal. lia.
Qed.

Lemma uvarint_length v : Z.of_nat (len (uvarint v)) = varint_len v.
Proof.
  apply varint_length. unfold uint64, wrap_u. pose proof (Z.mod_pos_bound v (2 ^ 64) ltac:(lia)).
  simpl (7 * _)%Z. lia.
Qed.

Lemma encode_field_length : ∀ f, Z.of_nat (len (encode_field f)) = field_len f.
Proof.
  fix IH 1. intros [n v|n s|n s|n fs]; cbn [encode_field field_len]; unfold delimited_len;
    rewrite !len_app, !Nat2Z.inj_add, !uvarint_length; try lia.
  assert (Z.of_nat (len (foldr (λ f s, encode_field f +:+ s) "" fs)) = foldr (λ f z, field_len f + z) 0 fs)%Z as ->; [|lia].
  induction fs as [|f fs IHfs]; [done|]. cbn [foldr]. rewrite len_app, Nat2Z.inj_add, IHfs, IH. done.
Qed.

Lemma encode_length fs : Z.of_nat (len (encode fs)) = fields_len fs.
Proof.
  induction fs as [|f fs IH]; [done|]. rewrite fields_len_cons, <- IH, <- encode_field_length.
  unfold encode. cbn [foldr]. by rewrite len_app, Nat2Z.inj_add.
Qed.

#[export] Instance format : Protobuf.
Proof.
  refine {| Marshal fs := if fields_utf8 fs then Some (encode fs) else None |}.
  - intros fs. destruct (fields_utf8 fs); [naive_solver|]. split; [by intros []|done].
  - intros fs b. destruct (fields_utf8 fs); [|done]. intros [= <-]. apply encode_length.
Defined.

End WireFormat.

(** ** Evaluation *)

Module WireSample.

(** The example of the protobuf documentation: field 1 with the value 150. *)
Example documented : WireFormat.encode [PVarint 1 150] = of_bytes [ascii_of_nat 8; ascii_of_nat 150; ascii_of_nat 1].
Proof. by vm_compute. Qed.

(** A complaint cut between the bytes of a letter is never sent. *)
Example truncated_complaint_is_refused :
  @send_refused WireFormat.format 7 (Reply (AgentCommandResult false
    (ErrorText (ErrConfigInvalid (TrimSpace (sanitizeValidatorOutput (ConfigManagerSample.long_complaint +:+ "!")
       "/etc/a.yaml.1.tmp" "/etc/a.yaml")))))) = true.
Proof. vm_compute. reflexivity. Qed.

(** A series with a label value that is not valid UTF-8. *)
Definition key : HashKey := IndexSyncSample.key.
Definition bad_entry : TimeseriesEntry :=
  MkTimeseriesEntry "up" [MkLabelPair "path" (String (ascii_of_nat 255) "")] 1.

Definition received : caches :=
  default (MkCaches Init DInit) (ReceiveTimeseriesBatch (MkCaches Init DInit) 7200 [(key, bad_entry)]).
Definition s : sync := MkSync received Idle None ∅ ∅ false.

Lemma bad : unsendable bad_entry.
Proof.
  exists (String (ascii_of_nat 255) ""). split; [|left; by vm_compute].
  unfold series_texts, bad_entry. simpl. right. right. left.
Qed.

Example bad_is_refused : @send_refused WireFormat.format 1 (IndexCreate [create_of (key, bad_entry)]) = true.
Proof. vm_compute. reflexivity. Qed.

Lemma small_queue : size (discovered (sc s)) ≤ DiscoveredBatchSize.
Proof. vm_compute size. unfold DiscoveredBatchSize. lia. Qed.

(** The processor tries, and the state is as before. *)
Lemma tries : @wire_step WireFormat.format s s.
Proof.
  apply (@wire_create_fails WireFormat.format s [key] [create_of (key, bad_entry)] [key]).
  - reflexivity.
  - vm_compute. reflexivity.
  - vm_compute. reflexivity.
Qed.

(** A series with samples in sight, and one whose samples are out of it. *)
Definition two_series : caches := MkCaches KnownCacheSample.after DInit.

(** A store whose answer has a header that is not valid UTF-8, and a source with
    such a path. *)
Definition bad_header : HTTPClient := {|
  URL := string;
  url_parse s := Some s;
  new_request_error _ _ _ _ := None;
  client_do hr := Ok (MkHttpResponse 200 {["Content-Type" := [String (ascii_of_nat 255) ""]]} (Ok "[]"));
|}.

Definition bad_path : configManager :=
  newConfigManager "" true ["--config"; "file:/etc/" +:+ String (ascii_of_nat 255) ".yaml"] "/bin/agent".

Lemma all_valid ts : Forall (λ t, ValidString t = true) ts → forallb ValidString ts = true.
Proof. induction 1 as [|t ts V _ IH]; simpl; [done|by rewrite V]. Qed.

End WireSample.

Lemma unsendable_series_blocks_the_index_witness :
  let s := WireSample.s in
  waiting s = Idle ∧ discovered (sc s) !! WireSample.key = Some WireSample.bad_entry ∧ accepted s ⊆ accepted s.
Proof.
  intros s.
  assert (is_Some (known (sc s) !! WireSample.key)) as K by (apply (bool_decide_unpack _); vm_compute; reflexivity).
  assert (discovered (sc s) !! WireSample.key = Some WireSample.bad_entry) as D by (vm_compute; reflexivity).
  exact (@unsendable_series_blocks_the_index WireFormat.format s s WireSample.key WireSample.bad_entry WireSample.bad
    eq_refl K D (rtc_l _ _ _ _ (conj WireSample.small_queue WireSample.tries) (rtc_refl _ s))).
Defined.

(** One message of each kind: the update and the deletion of a cache with a series
    of each sort, a heartbeat, the answer of a store and the configuration. An answer
    with a header that is not valid UTF-8 stays behind, and so does a configuration
    with such a path. *)
Lemma bounded_messages_are_sent_witness :
  let c := WireSample.two_series in
  let order := [KnownCacheSample.key "a"; KnownCacheSample.key "b"] in
  let active := (known_active c 32500 32500 order).1 in
  let sent b := @send_refused WireFormat.format 1 b = false in
  let answer client := (@execute client QueryHandlerSample.tables QueryHandlerSample.cfg
                          (QueryHandlerSample.request "GET" "/api/v1/query")).1 in
  let config m := (Snapshot m ConfigManagerSample.reading ConfigManagerSample.fs).1 in
  (length active = 1 ∧ sent (IndexUpdate (index_update active))) ∧
  ((known_inactive c 32500 active order).1 = Deleting [KnownCacheSample.key "b"] active ∧
   sent (IndexDelete (index_delete [KnownCacheSample.key "b"]))) ∧
  sent (Reply (AgentPing (MkPing 3 0 0 2 (-1) 1 5))) ∧
  sent (Reply (AgentQueryResponse (answer QueryHandlerSample.client))) ∧
  (sent (Reply (AgentQueryResponse (answer WireSample.bad_header))) → False) ∧
  sent (Reply (AgentConfigSnapshot (config ConfigManagerSample.m))) ∧
  (sent (Reply (AgentConfigSnapshot (config WireSample.bad_path))) → False).
Proof.
  intros c order active sent answer config.
  assert (NoDup order) as N by (apply (bool_decide_unpack _); vm_compute; reflexivity).
  destruct (@bounded_messages_are_sent WireFormat.format 1) as (Upd & Del & Beat & Ans & Cfg).
  assert (known_inactive c 32500 active order =
          (Deleting [KnownCacheSample.key "b"] active, (known_inactive c 32500 active order).2)) as E
    by (vm_compute; reflexivity).
  split_and!.
  - vm_compute. reflexivity.
  - exact (Upd c 32500%Z 32500%Z order N).
  - rewrite E. reflexivity.
  - exact (Del c 32500%Z active order _ _ N E).
  - exact (Beat _).
  - apply (Ans QueryHandlerSample.client QueryHandlerSample.tables); [vm_compute; discriminate|].
    repeat constructor.
  - intros S. apply (Ans WireSample.bad_header QueryHandlerSample.tables) in S; [|vm_compute; discriminate].
    apply WireSample.all_valid in S. vm_compute in S. discriminate S.
  - apply Cfg; [vm_compute; discriminate|vm_compute; lia|]. repeat constructor.
  - intros S. apply Cfg in S; [|vm_compute; discriminate|vm_compute; lia].
    apply WireSample.all_valid in S. vm_compute in S. discriminate S.
Defined.
