(* ===== verification/ServerWire.v ===== *)
(** What the control plane sends to the agent, from the bytes on
    (proto/leansignal/agent/v1/agent_control.proto and the receive loop of
    components/edgecontroller/extension.go).

    A received message is limited like a sent one. Its fields are read the way
    proto3 prescribes, for each message of the protocol definition: a later value
    replaces an earlier one, repeated fields accumulate, a member of a oneof replaces
    another and is merged with itself, a field that is not of the protocol or not of
    its type is skipped, and a text that is not valid UTF-8 spoils the message.
    Taking a byte string apart into fields is the protobuf library's and the class
    [ProtobufReader]; [WireReader] is a concrete instance.

    The theorem: what a control plane writes, also a newer one that adds fields, is
    what the running agent handles; and what is too long or spoilt ends the session
    and changes nothing else. *)

From S2P Require Import Prelude GoText GoStrings Selector Demand MetricsIndex KnownCache DiscoveredCache DemandCache.
From S2P Require Import QueryHandler ConfigManager Diagnostics Delivery IndexSync AckProtocol Controller Telemetry Lifecycle Components Wire.

(** ** Fields as they are found *)

(** [WFixed]: a field of four or eight bytes, which the protocol does not use. *)
Inductive wfield :=
| WVarint (number v : Z)
| WBytes (number : Z) (b : string)
| WFixed (number : Z).

Definition wnumber (w : wfield) : Z :=
  match w with WVarint n _ | WBytes n _ | WFixed n => n end.

Definition pnumber (f : pfield) : Z :=
  match f with PVarint n _ | PString n _ | PBytes n _ | PMessage n _ => n end.

(** Field numbers have 29 bits. *)
Definition numbered (f : pfield) : Prop := (1 ≤ pnumber f < 2 ^ 29)%Z.

(** How a field comes back. *)
Definition written `{Protobuf} (f : pfield) (w : wfield) : Prop :=
  match f with
  | PVarint n v => w = WVarint n (uint64 v)
  | PString n s => w = WBytes n s ∧ ValidString s = true
  | PBytes n s => w = WBytes n s
  | PMessage n fs => ∃ b, w = WBytes n b ∧ Marshal fs = Some b
  end.

(** The other half of the protobuf library: an encoded message, which is below two
    gibibytes, has the fields it was encoded from, in order. *)
Class ProtobufReader `{Protobuf} := {
  Fields : string → option (list wfield);
  Fields_Marshal fs b :
    Marshal fs = Some b → Forall numbered fs → (Z.of_nat (len b) < 2 ^ 31)%Z →
    ∃ ws, Fields b = Some ws ∧ Forall2 written fs ws;
}.

(** ** Reading the messages *)

Section Read.
Context `{ProtobufReader}.

(** One field after the other. *)
Fixpoint read_all {A} (read : A → wfield → option A) (a : A) (ws : list wfield) : option A :=
  match ws with
  | [] => Some a
  | w :: ws => a ← read a w; read_all read a ws
  end.

(** A message into the value there is. *)
Definition merge {A} (read : A → wfield → option A) (a : A) (b : string) : option A :=
  ws ← Fields b; read_all read a ws.

Definition text (b : string) : option string := if ValidString b then Some b else None.

(** [message Pong {}] and the like: nothing but what is skipped. *)
Definition read_empty (u : unit) (w : wfield) : option unit := Some u.

Definition read_ack (a : Ack) (w : wfield) : option Ack :=
  match w with
  | WVarint 1 v => Some (MkAck (bool_decide (v ≠ 0%Z)) (ack_Message a))
  | WBytes 2 b => t ← text b; Some (MkAck (ack_Success a) t)
  | _ => Some a
  end.

Definition read_trace_demand (d : TraceDemand) (w : wfield) : option TraceDemand :=
  match w with
  | WBytes 1 b => t ← text b; Some (MkTraceDemand t (td_FilterId d))
  | WBytes 2 b => t ← text b; Some (MkTraceDemand (td_Selector d) t)
  | _ => Some d
  end.

Definition read_demand_set (d : DemandSet) (w : wfield) : option DemandSet :=
  let '(MkDemandSet metrics logs traces selectors demands hash) := d in
  match w with
  | WBytes 1 b => t ← text b; Some (MkDemandSet (metrics ++ [t]) logs traces selectors demands hash)
  | WVarint 2 v => Some (MkDemandSet metrics logs traces selectors demands v)
  | WBytes 3 b => t ← text b; Some (MkDemandSet metrics (logs ++ [t]) traces selectors demands hash)
  | WBytes 4 b => t ← text b; Some (MkDemandSet metrics logs (traces ++ [t]) selectors demands hash)
  | WBytes 5 b => t ← text b; Some (MkDemandSet metrics logs traces (selectors ++ [t]) demands hash)
  | WBytes 6 b =>
      x ← merge read_trace_demand (MkTraceDemand "" "") b;
      Some (MkDemandSet metrics logs traces selectors (demands ++ [x]) hash)
  | _ => Some d
  end.

Definition read_update_config (u : UpdateConfig) (w : wfield) : option UpdateConfig :=
  match w with
  | WBytes 1 b => Some (MkUpdateConfig (uc_Path u) b (uc_SkipReload u))
  | WBytes 2 b => t ← text b; Some (MkUpdateConfig t (uc_Config u) (uc_SkipReload u))
  | WVarint 3 v => Some (MkUpdateConfig (uc_Path u) (uc_Config u) (bool_decide (v ≠ 0%Z)))
  | _ => Some u
  end.

Definition read_header (h : string * list string) (w : wfield) : option (string * list string) :=
  match w with
  | WBytes 1 b => t ← text b; Some (t, h.2)
  | WBytes 2 b => t ← text b; Some (h.1, h.2 ++ [t])
  | _ => Some h
  end.

(** An enumeration is open: a value that is not of the protocol is kept. *)
Definition target_of_number (v : Z) : QueryTarget :=
  match int32 v with
  | 0 => QUERY_TARGET_VM
  | 1 => QUERY_TARGET_LOKI
  | 2 => QUERY_TARGET_TEMPO
  | n => QUERY_TARGET_OTHER n
  end%Z.

Definition read_query (q : QueryRequest) (w : wfield) : option QueryRequest :=
  let '(MkQueryRequest target method path query headers body) := q in
  match w with
  | WBytes 1 b => t ← text b; Some (MkQueryRequest target t path query headers body)
  | WBytes 2 b => t ← text b; Some (MkQueryRequest target method t query headers body)
  | WBytes 3 b => t ← text b; Some (MkQueryRequest target method path t headers body)
  | WBytes 4 b => Some (MkQueryRequest target method path query headers b)
  | WBytes 5 b => h ← merge read_header ("", []) b; Some (MkQueryRequest target method path query (headers ++ [h]) body)
  | WVarint 6 v => Some (MkQueryRequest (target_of_number v) method path query headers body)
  | _ => Some q
  end.

Definition empty_demand_set : DemandSet := MkDemandSet [] [] [] [] [] 0.
Definition empty_query : QueryRequest := MkQueryRequest QUERY_TARGET_VM "" "" "" [] "".

(** [UnknownBody] is a body that is not set, which the dispatch treats the same. *)
Definition read_server (m : ServerMessage) (w : wfield) : option ServerMessage :=
  let '(MkServerMessage id body) := m in
  match w with
  | WVarint 1 v => Some (MkServerMessage v body)
  | WBytes 2 b => _ ← merge read_empty () b; Some (MkServerMessage id Pong)
  | WBytes 3 b =>
      a ← merge read_ack (match body with ServerAck a => a | _ => MkAck false "" end) b;
      Some (MkServerMessage id (ServerAck a))
  | WBytes 4 b =>
      d ← merge read_demand_set (match body with ServerDemandSet d => d | _ => empty_demand_set end) b;
      Some (MkServerMessage id (ServerDemandSet d))
  | WBytes 5 b => _ ← merge read_empty () b; Some (MkServerMessage id GetStatus)
  | WBytes 6 b =>
      u ← merge read_update_config (match body with ServerUpdateConfig u => u | _ => MkUpdateConfig "" "" false end) b;
      Some (MkServerMessage id (ServerUpdateConfig u))
  | WBytes 7 b =>
      q ← merge read_query (match body with ServerQueryRequest q => q | _ => empty_query end) b;
      Some (MkServerMessage id (ServerQueryRequest q))
  | WBytes 8 b => _ ← merge read_empty () b; Some (MkServerMessage id GetDiagnosis)
  | WBytes 9 b => _ ← merge read_empty () b; Some (MkServerMessage id GetConfig)
  | _ => Some m
  end.

(** [stream.Recv]: refused when it is longer than the limit [dialOptions] gives to
    [grpc.MaxCallRecvMsgSize], or cannot be read. *)
Definition Recv (data : string) : option ServerMessage :=
  if decide (maxMessageBytes < Z.of_nat (len data))%Z then None
  else merge read_server (MkServerMessage 0 UnknownBody) data.

(** One round of [recvLoop]: an error ends it, and with it [connect]. [None]: the
    dispatch blocks. *)
Definition recv_round `{Regexp, YAML} (cfg : settings) (env : CtlEnv) (a : agent) (data : string) : option agent :=
  match Recv data with
  | None => Some (set_loop a Closing)
  | Some msg => c ← recv_one cfg env (ctl a) msg; Some (wg_add (set_ctl a c) (Z.of_nat (spawned msg)))
  end.

End Read.

(** ** What a control plane writes *)

(** Of these the agent only has the protocol definition. *)
Definition ack_fields (a : Ack) : list pfield := bool_field 1 (ack_Success a) ++ string_field 2 (ack_Message a).

Definition trace_demand_fields (d : TraceDemand) : list pfield :=
  string_field 1 (td_Selector d) ++ string_field 2 (td_FilterId d).

Definition demand_set_fields (d : DemandSet) : list pfield :=
  (PString 1 <$> ds_Metrics d) ++ varint_field 2 (ds_Hash d) ++ (PString 3 <$> ds_LogSelectors d) ++
  (PString 4 <$> ds_TraceSelectors d) ++ (PString 5 <$> ds_MetricSelectors d) ++
  ((λ x, PMessage 6 (trace_demand_fields x)) <$> ds_TraceDemands d).

Definition update_config_fields (u : UpdateConfig) : list pfield :=
  bytes_field 1 (uc_Config u) ++ string_field 2 (uc_Path u) ++ bool_field 3 (uc_SkipReload u).

Definition target_number (t : QueryTarget) : Z :=
  match t with
  | QUERY_TARGET_VM => 0
  | QUERY_TARGET_LOKI => 1
  | QUERY_TARGET_TEMPO => 2
  | QUERY_TARGET_OTHER n => n
  end.

Definition query_fields (q : QueryRequest) : list pfield :=
  string_field 1 (GetMethod q) ++ string_field 2 (GetPath q) ++ string_field 3 (GetRawQuery q) ++
  bytes_field 4 (GetBody q) ++ ((λ h, PMessage 5 (header_fields h)) <$> GetHeaders q) ++
  varint_field 6 (target_number (GetTarget q)).

(** The member of the oneof, with the numbers its message has. *)
Definition server_body (b : ServerBody) : option (Z * list pfield * list Z) :=
  match b with
  | Pong => Some (2, [], [])%Z
  | ServerAck a => Some (3, ack_fields a, [1; 2])%Z
  | ServerDemandSet d => Some (4, demand_set_fields d, [1; 2; 3; 4; 5; 6])%Z
  | GetStatus => Some (5, [], [])%Z
  | ServerUpdateConfig u => Some (6, update_config_fields u, [1; 2; 3])%Z
  | ServerQueryRequest q => Some (7, query_fields q, [1; 2; 3; 4; 5; 6])%Z
  | GetDiagnosis => Some (8, [], [])%Z
  | GetConfig => Some (9, [], [])%Z
  | UnknownBody => None
  end.

(** The fields [gs] are the fields [fs] of a message with the numbers [known], and
    others that this version of the protocol does not have. *)
Definition adds_to (known : list Z) (fs gs : list pfield) : Prop :=
  filter (λ f, pnumber f ∈ known) gs = fs ∧ Forall numbered gs.

Definition envelope_numbers : list Z := [1; 2; 3; 4; 5; 6; 7; 8; 9]%Z.

(** A version of the protocol that may be newer sends the message. *)
Definition server_writes (m : ServerMessage) (gs : list pfield) : Prop :=
  match server_body (sm_Body m) with
  | None => adds_to envelope_numbers (varint_field 1 (sm_CorrelationId m)) gs
  | Some (n, fs, known) =>
      ∃ fs', adds_to known fs fs' ∧ adds_to envelope_numbers (varint_field 1 (sm_CorrelationId m) ++ [PMessage n fs']) gs
  end.

(** The numbers are in the range of their types, and a target that has a name is
    called by it. *)
Definition in_range (m : ServerMessage) : Prop :=
  (0 ≤ sm_CorrelationId m < 2 ^ 64)%Z ∧
  match sm_Body m with
  | ServerDemandSet d => (0 ≤ ds_Hash d < 2 ^ 64)%Z
  | ServerQueryRequest q =>
      match GetTarget q with
      | QUERY_TARGET_OTHER n => (- 2 ^ 31 ≤ n < 2 ^ 31)%Z ∧ n ∉ [0; 1; 2]%Z
      | _ => True
      end
  | _ => True
  end.

(** ** Reading what was written *)

Section Reading.
Context `{ProtobufReader}.

Definition fits (f : pfield) (w : wfield) : Prop :=
  written f w ∧ match w with WBytes _ b => (Z.of_nat (len b) < 2 ^ 31)%Z | _ => True end.

(** The fields [fs], as they come back, take [a] to [a']. *)
Definition yields {A} (read : A → wfield → option A) (fs : list pfield) (a a' : A) : Prop :=
  ∀ ws, Forall2 fits fs ws → read_all read a ws = Some a'.

Lemma read_all_app {A} (read : A → wfield → option A) a ws ws' :
  read_all read a (ws ++ ws') = (a' ← read_all read a ws; read_all read a' ws').
Proof. revert a. induction ws as [|w ws IH]; intros a; [done|]. simpl. destruct (read a w); [apply IH|done]. Qed.

Section Parts.
Context {A : Type} (read : A → wfield → option A).

Lemma yields_nil a : yields read [] a a.
Proof. intros ws F. by inversion F. Qed.

Lemma yields_app fs gs a a1 a2 : yields read fs a a1 → yields read gs a1 a2 → yields read (fs ++ gs) a a2.
Proof.
  intros Y1 Y2 ws F. apply Forall2_app_inv_l in F as (ws1 & ws2 & F1 & F2 & ->).
  rewrite read_all_app, (Y1 ws1 F1). by apply Y2.
Qed.

Lemma yields_one f a a' : (∀ w, fits f w → read a w = Some a') → yields read [f] a a'.
Proof.
  intros E ws F. inversion F as [|? w ? ws' Fw F']; subst. inversion F'; subst. simpl. by rewrite (E w Fw).
Qed.

(** Singular fields; at the default nothing is written and nothing changes. *)
Lemma yields_string n s (set : string → A) :
  (∀ t, read (set "") (WBytes n t) = t ← text t; Some (set t)) → yields read (string_field n s) (set "") (set s).
Proof.
  intros E. unfold string_field. case_decide as D; [subst; apply yields_nil|]. apply yields_one.
  intros w [[-> V] _]. rewrite E. unfold text. by rewrite V.
Qed.

Lemma yields_bytes n s (set : string → A) :
  (∀ t, read (set "") (WBytes n t) = Some (set t)) → yields read (bytes_field n s) (set "") (set s).
Proof.
  intros E. unfold bytes_field. case_decide as D; [subst; apply yields_nil|]. apply yields_one.
  intros w [-> _]. apply E.
Qed.

Lemma yields_varint n v (set : Z → A) :
  read (set 0%Z) (WVarint n (uint64 v)) = Some (set v) → yields read (varint_field n v) (set 0%Z) (set v).
Proof.
  intros E. unfold varint_field. case_decide as D; [subst; apply yields_nil|]. apply yields_one.
  by intros w [-> _].
Qed.

Lemma yields_bool n b (set : bool → A) :
  (∀ v, read (set false) (WVarint n v) = Some (set (bool_decide (v ≠ 0%Z)))) →
  yields read (bool_field n b) (set false) (set b).
Proof.
  intros E. destruct b; [|apply yields_nil]. apply yields_one. intros w [-> _]. by rewrite E.
Qed.

(** Repeated fields. *)
Lemma yields_repeated {X} (g : X → pfield) (set : list X → A) l :
  (∀ pre x, x ∈ l → yields read [g x] (set pre) (set (pre ++ [x]))) → yields read (g <$> l) (set []) (set l).
Proof.
  enough (∀ pre, (∀ pre x, x ∈ l → yields read [g x] (set pre) (set (pre ++ [x]))) →
    yields read (g <$> l) (set pre) (set (pre ++ l))) as G by (intros E; by apply (G [])).
  induction l as [|x l IH]; intros pre E; [rewrite app_nil_r; apply yields_nil|].
  rewrite fmap_cons, cons_middle, (assoc_L (++)). apply (yields_app [g x] (g <$> l) _ (set (pre ++ [x]))).
  - apply E. left.
  - apply IH. intros pre' y Hy. apply E. by right.
Qed.

Lemma yields_strings n (set : list string → A) l :
  (∀ pre t, read (set pre) (WBytes n t) = t ← text t; Some (set (pre ++ [t]))) →
  yields read (PString n <$> l) (set []) (set l).
Proof.
  intros E. apply yields_repeated. intros pre x _. apply yields_one. intros w [[-> V] _]. rewrite E. unfold text. by rewrite V.
Qed.

End Parts.

(** ** Messages *)

Lemma written_number f w : written f w → wnumber w = pnumber f.
Proof. destruct f; simpl; naive_solver. Qed.

Lemma written_fits gs b ws :
  Marshal gs = Some b → (Z.of_nat (len b) < 2 ^ 31)%Z → Forall2 written gs ws → Forall2 fits gs ws.
Proof.
  intros M B F. apply Marshal_len in M. rewrite M in B. clear M.
  assert (∀ f, f ∈ gs → (field_len f < 2 ^ 31)%Z) as L by (intros f Hf; pose proof (field_le_fields f gs Hf); lia).
  clear B. induction F as [|f w gs ws W F IH]; [constructor|]. constructor; [|apply IH; intros; apply L; by right].
  split; [done|]. pose proof (L f ltac:(left)) as Lf. destruct f as [n v|n t|n t|n fs]; simpl in W.
  - by subst.
  - destruct W as [-> _]. simpl in Lf. pose proof (delimited_bounds n (Z.of_nat (len t))). lia.
  - subst. simpl in Lf. pose proof (delimited_bounds n (Z.of_nat (len t))). lia.
  - destruct W as (b' & -> & E%Marshal_len). rewrite message_len in Lf. pose proof (delimited_bounds n (fields_len fs)). lia.
Qed.

(** Fields that are not of the protocol make no difference. *)
Lemma read_known {A} (read : A → wfield → option A) (known : list Z) gs ws a :
  (∀ a w, wnumber w ∉ known → read a w = Some a) → Forall2 fits gs ws →
  ∃ ws', read_all read a ws = read_all read a ws' ∧ Forall2 fits (filter (λ f, pnumber f ∈ known) gs) ws'.
Proof.
  intros S F. revert a. induction F as [|f w gs ws W F IH]; intros a.
  { by exists []. }
  pose proof (written_number f w (proj1 W)) as N. rewrite filter_cons. case_decide as D.
  - destruct (read a w) as [a1|] eqn:E.
    + destruct (IH a1) as (ws' & E' & F'). exists (w :: ws'). simpl. rewrite E. by split; [|constructor].
    + destruct (IH a) as (ws' & _ & F'). exists (w :: ws'). simpl. rewrite E. by split; [|constructor].
  - destruct (IH a) as (ws' & E' & F'). exists ws'. simpl. rewrite S by by rewrite N. by split.
Qed.

Lemma merge_adds {A} (read : A → wfield → option A) (known : list Z) fs gs a a' b :
  (∀ a w, wnumber w ∉ known → read a w = Some a) → adds_to known fs gs → yields read fs a a' →
  Marshal gs = Some b → (Z.of_nat (len b) < 2 ^ 31)%Z → merge read a b = Some a'.
Proof.
  intros S [E N] Y M B. destruct (Fields_Marshal gs b M N B) as (ws & EF & F). unfold merge. rewrite EF. simpl.
  destruct (read_known read known gs ws a S (written_fits gs b ws M B F)) as (ws' & -> & F').
  apply Y. by rewrite <- E.
Qed.

(** A message of this version. *)
Lemma merge_yields {A} (read : A → wfield → option A) fs a a' b :
  yields read fs a a' → Forall numbered fs → Marshal fs = Some b → (Z.of_nat (len b) < 2 ^ 31)%Z →
  merge read a b = Some a'.
Proof.
  intros Y N M B. destruct (Fields_Marshal fs b M N B) as (ws & EF & F). unfold merge. rewrite EF. simpl.
  apply Y. by apply written_fits with b.
Qed.

(** *** The messages of the protocol *)

Lemma trace_demand_read d : yields read_trace_demand (trace_demand_fields d) (MkTraceDemand "" "") d.
Proof.
  destruct d as [sel fid]. eapply yields_app.
  - by apply (yields_string _ 1 sel (λ t, MkTraceDemand t "")).
  - by apply (yields_string _ 2 fid (MkTraceDemand sel)).
Qed.

Lemma header_read h : yields read_header (header_fields h) ("", []) h.
Proof.
  destruct h as [name values]. eapply yields_app.
  - by apply (yields_string _ 1 name (λ t, (t, []))).
  - by apply (yields_strings _ 2 (pair name)).
Qed.

Lemma ack_read a : yields read_ack (ack_fields a) (MkAck false "") a.
Proof.
  destruct a as [success message]. eapply yields_app.
  - by apply (yields_bool _ 1 success (λ b, MkAck b "")).
  - by apply (yields_string _ 2 message (MkAck success)).
Qed.

Lemma update_config_read u : yields read_update_config (update_config_fields u) (MkUpdateConfig "" "" false) u.
Proof.
  destruct u as [path config skip]. eapply yields_app; [|eapply yields_app].
  - by apply (yields_bytes _ 1 config (λ t, MkUpdateConfig "" t false)).
  - by apply (yields_string _ 2 path (λ t, MkUpdateConfig t config false)).
  - by apply (yields_bool _ 3 skip (MkUpdateConfig path config)).
Qed.

(** An element of a repeated message. *)
Lemma yields_message {A B} (read : A → wfield → option A) (sub : B → wfield → option B) n fs a (e x : B) (set : B → A) :
  (∀ t, read a (WBytes n t) = y ← merge sub e t; Some (set y)) → yields sub fs e x → Forall numbered fs →
  yields read [PMessage n fs] a (set x).
Proof.
  intros E Y N. apply yields_one. intros w [(b & -> & M) Bd]. rewrite E. by rewrite (merge_yields sub fs e x b).
Qed.

Lemma numbered_string n s : (1 ≤ n < 2 ^ 29)%Z → Forall numbered (string_field n s).
Proof. intros. unfold string_field. case_decide; [constructor|]. constructor; [done|constructor]. Qed.

Lemma demand_set_read d :
  (0 ≤ ds_Hash d < 2 ^ 64)%Z → yields read_demand_set (demand_set_fields d) empty_demand_set d.
Proof.
  destruct d as [metrics logs traces selectors demands hash]. simpl. intros B.
  eapply yields_app; [|eapply yields_app; [|eapply yields_app; [|eapply yields_app; [|eapply yields_app]]]].
  - by apply (yields_strings _ 1 (λ l, MkDemandSet l [] [] [] [] 0)).
  - apply (yields_varint _ 2 hash (MkDemandSet metrics [] [] [] [])). simpl.
    unfold uint64, wrap_u. by rewrite Z.mod_small.
  - by apply (yields_strings _ 3 (λ l, MkDemandSet metrics l [] [] [] hash)).
  - by apply (yields_strings _ 4 (λ l, MkDemandSet metrics logs l [] [] hash)).
  - by apply (yields_strings _ 5 (λ l, MkDemandSet metrics logs traces l [] hash)).
  - apply (yields_repeated _ (λ x, PMessage 6 (trace_demand_fields x))
      (λ l, MkDemandSet metrics logs traces selectors l hash)). intros pre x _.
    eapply (yields_message _ read_trace_demand 6 _ _ (MkTraceDemand "" "") x
      (λ y, MkDemandSet metrics logs traces selectors (pre ++ [y]) hash)); [done|apply trace_demand_read|].
    unfold trace_demand_fields. apply Forall_app. split; apply numbered_string; lia.
Qed.

Lemma target_back n :
  (- 2 ^ 31 ≤ n < 2 ^ 31)%Z → int32 (uint64 n) = n.
Proof.
  intros B. unfold int32, uint64, wrap_s, wrap_u. change (2 ^ (32 - 1))%Z with (2 ^ 31)%Z in *.
  destruct (decide (0 ≤ n)%Z).
  - rewrite (Z.mod_small n) by lia. rewrite Z.mod_small; lia.
  - replace (n mod 2 ^ 64)%Z with (n + 2 ^ 64)%Z by (rewrite <- (Z.mod_add n 1), Z.mod_small; lia).
    replace (n + 2 ^ 64 + 2 ^ 31)%Z with (n + 2 ^ 31 + 2 ^ 32 * 2 ^ 32)%Z by lia.
    rewrite Z.mod_add, Z.mod_small; lia.
Qed.

Definition target_ok (t : QueryTarget) : Prop :=
  match t with QUERY_TARGET_OTHER n => (- 2 ^ 31 ≤ n < 2 ^ 31)%Z ∧ n ∉ [0; 1; 2]%Z | _ => True end.

Lemma target_read t : target_ok t → target_of_number (uint64 (target_number t)) = t.
Proof.
  destruct t as [| | |n]; try done. intros [B N]. unfold target_of_number. simpl. rewrite target_back by done.
  destruct n as [|[p|[p|p|]|]|p]; try done; exfalso; apply N; set_solver.
Qed.

Lemma query_read q : target_ok (GetTarget q) → yields read_query (query_fields q) empty_query q.
Proof.
  destruct q as [target method path query headers body]. simpl. intros T.
  eapply yields_app; [|eapply yields_app; [|eapply yields_app; [|eapply yields_app; [|eapply yields_app]]]].
  - by apply (yields_string _ 1 method (λ t, MkQueryRequest QUERY_TARGET_VM t "" "" [] "")).
  - by apply (yields_string _ 2 path (λ t, MkQueryRequest QUERY_TARGET_VM method t "" [] "")).
  - by apply (yields_string _ 3 query (λ t, MkQueryRequest QUERY_TARGET_VM method path t [] "")).
  - by apply (yields_bytes _ 4 body (MkQueryRequest QUERY_TARGET_VM method path query [])).
  - apply (yields_repeated _ (λ h, PMessage 5 (header_fields h))
      (λ l, MkQueryRequest QUERY_TARGET_VM method path query l body)). intros pre h _.
    eapply (yields_message _ read_header 5 _ _ ("", []) h
      (λ y, MkQueryRequest QUERY_TARGET_VM method path query (pre ++ [y]) body)); [done|apply header_read|].
    unfold header_fields. apply Forall_app. split; [apply numbered_string; lia|].
    apply Forall_fmap, Forall_forall. intros x _. unfold numbered. simpl. lia.
  - pose proof (target_read target T) as E. unfold varint_field. cbn [GetTarget]. case_decide as D.
    + rewrite D in E. change (target_of_number (uint64 0)) with QUERY_TARGET_VM in E. subst target. apply yields_nil.
    + apply yields_one. intros w [-> _]. simpl. by rewrite E.
Qed.

(** *** Numbers outside the protocol *)

Ltac skip_unknown :=
  intros a w N; destruct w as [n v|n b|n]; try (by destruct a); destruct a; simpl in *;
  repeat (case_match; try done); exfalso; subst; apply N; apply (bool_decide_unpack _); reflexivity.

Lemma skip_ack (a : Ack) w : wnumber w ∉ [1; 2]%Z → read_ack a w = Some a.
Proof. revert a w. skip_unknown. Qed.
Lemma skip_demand_set (a : DemandSet) w : wnumber w ∉ [1; 2; 3; 4; 5; 6]%Z → read_demand_set a w = Some a.
Proof. revert a w. skip_unknown. Qed.
Lemma skip_update_config (a : UpdateConfig) w : wnumber w ∉ [1; 2; 3]%Z → read_update_config a w = Some a.
Proof. revert a w. skip_unknown. Qed.
Lemma skip_query (a : QueryRequest) w : wnumber w ∉ [1; 2; 3; 4; 5; 6]%Z → read_query a w = Some a.
Proof. revert a w. skip_unknown. Qed.
Lemma skip_server (a : ServerMessage) w : wnumber w ∉ envelope_numbers → read_server a w = Some a.
Proof. unfold envelope_numbers. revert a w. skip_unknown. Qed.

(** *** The envelope *)

Lemma body_read id body n fs known fs' :
  in_range (MkServerMessage id body) → server_body body = Some (n, fs, known) → adds_to known fs fs' →
  yields read_server [PMessage n fs'] (MkServerMessage id UnknownBody) (MkServerMessage id body).
Proof.
  intros [_ R] E A. apply yields_one. intros w [(b & -> & M) B].
  assert (merge read_empty () b = Some ()) as Me.
  { apply (merge_adds _ [] [] fs'); [done| |apply yields_nil|done..]. split; [|apply A].
    apply filter_none. intros f _ Hf. by apply elem_of_nil in Hf. }
  destruct body as [|a|d| | | |u|q|]; simpl in E; [..|done]; injection E as <- <- <-; simpl; rewrite ?Me; try done.
  - by rewrite (merge_adds _ _ _ _ _ _ _ skip_ack A (ack_read a) M B).
  - by rewrite (merge_adds _ _ _ _ _ _ _ skip_demand_set A (demand_set_read d R) M B).
  - by rewrite (merge_adds _ _ _ _ _ _ _ skip_update_config A (update_config_read u) M B).
  - by rewrite (merge_adds _ _ _ _ _ _ _ skip_query A (query_read q R) M B).
Qed.

Lemma id_read id : (0 ≤ id < 2 ^ 64)%Z →
  yields read_server (varint_field 1 id) (MkServerMessage 0 UnknownBody) (MkServerMessage id UnknownBody).
Proof.
  intros B. apply (yields_varint _ 1 id (λ v, MkServerMessage v UnknownBody)). simpl.
  unfold uint64, wrap_u. by rewrite Z.mod_small.
Qed.

(** What was sent is what is received. *)
Lemma Recv_sent m gs b :
  in_range m → server_writes m gs → Marshal gs = Some b → (Z.of_nat (len b) ≤ maxMessageBytes)%Z → Recv b = Some m.
Proof.
  destruct m as [id body]. intros R W M B. unfold Recv. rewrite decide_False by lia. unfold server_writes in W. simpl in W.
  assert (Z.of_nat (len b) < 2 ^ 31)%Z as B' by (unfold maxMessageBytes in B; lia).
  destruct (server_body body) as [[[n fs] known]|] eqn:E.
  - destruct W as (fs' & A & W). eapply merge_adds; [apply skip_server|done| |done..].
    eapply yields_app; [apply id_read, R|by eapply body_read].
  - destruct body; try done. eapply merge_adds; [apply skip_server|done|apply id_read, R|done..].
Qed.

Lemma Recv_too_long data : (maxMessageBytes < Z.of_nat (len data))%Z → Recv data = None.
Proof. intros B. unfold Recv. by rewrite decide_True. Qed.

End Reading.

(** ** Properties *)

Section Claims.
Context `{ProtobufReader, Regexp, HTTPClient, CaseTables, YAML}.

(** C15: The running agent handles what the control plane sends. While the agent
    receives, whatever bytes arrive are dealt with without blocking, in one step of
    the agent: the message is dispatched, or the session ends and nothing else
    changes. A message of the protocol, within the ranges of its types and the limit
    of the connection, is dispatched as exactly that message, also when a newer
    control plane adds fields to the envelope or to the body in any place; and a
    longer one ends the session. *)
Theorem pushed_messages_are_handled (cfg : settings) (mp : option MeterProvider) (regs : list receiver) (fs : FS)
    (a : agent) (sid : nat) (env : CtlEnv) :
  Self ∉ regs → rtc (agent_step cfg) (Start mp regs fs).2 a → exit_code a = None → loop a = Receiving sid →
  (∀ data, ∃ a', recv_round cfg env a data = Some a' ∧ agent_step cfg a a' ∧
     (a' = set_loop a Closing ∨
      ∃ msg c, Recv data = Some msg ∧ recv_one cfg env (ctl a) msg = Some c ∧
               a' = wg_add (set_ctl a c) (Z.of_nat (spawned msg)))) ∧
  (∀ m gs b, in_range m → server_writes m gs → Marshal gs = Some b →
     ((Z.of_nat (len b) ≤ maxMessageBytes)%Z → Recv b = Some m) ∧
     ((maxMessageBytes < Z.of_nat (len b))%Z → recv_round cfg env a b = Some (set_loop a Closing))).
Proof.
  intros NS R X L. split.
  - intros data. unfold recv_round. destruct (Recv data) as [msg|].
    + pose proof (ctl_reachable_inv cfg fs _ (agent_run_simulates cfg regs mp fs a NS R)) as I.
      destruct (recv_inv cfg env (ctl a) msg I) as (c & E & _). rewrite E. simpl. eexists. split; [done|].
      split; [split; [done|]; left; by eapply loop_receives|]. right. by exists msg, c.
    + eexists. split; [done|]. split; [split; [done|]; left; by eapply loop_loses|]. by left.
  - intros m gs b Rm W M. split; [by apply (Recv_sent m gs)|]. intros B. unfold recv_round. by rewrite Recv_too_long.
Qed.

End Claims.

(** ** A reader *)

Module WireReader.

Fixpoint read_varint (fuel : nat) (s : string) : option (Z * string) :=
  match fuel, s with
  | S fuel, String c s =>
      if decide (code c < 128)%Z then Some (code c, s)
      else '(v, r) ← read_varint fuel s; Some (code c - 128 + 128 * v, r)%Z
  | _, _ => None
  end.

(** The next [n] bytes. *)
Definition take_bytes (n : Z) (s : string) : option (string * string) :=
  if decide (n ≤ Z.of_nat (len s))%Z then Some (upto (Z.to_nat n) s, from (Z.to_nat n) s) else None.

Definition read_field (s : string) : option (wfield * string) :=
  '(t, s) ← read_varint 10 s;
  let n := (t / 8)%Z in
  match (t mod 8)%Z with
  | 0 => '(v, s) ← read_varint 10 s; Some (WVarint n (uint64 v), s)
  | 1 => '(_, s) ← take_bytes 8 s; Some (WFixed n, s)
  | 2 => '(l, s) ← read_varint 10 s; '(b, s) ← take_bytes l s; Some (WBytes n b, s)
  | 5 => '(_, s) ← take_bytes 4 s; Some (WFixed n, s)
  | _ => None
  end%Z.

Fixpoint read_fields (fuel : nat) (s : string) : option (list wfield) :=
  match s, fuel with
  | "", _ => Some []
  | _, O => None
  | _, S fuel => '(w, s) ← read_field s; ws ← read_fields fuel s; Some (w :: ws)
  end.

Lemma read_varint_S fuel c s :
  read_varint (S fuel) (String c s) =
  if decide (code c < 128)%Z then Some (code c, s)
  else '(v, r) ← read_varint fuel s; Some (code c - 128 + 128 * v, r)%Z.
Proof. done. Qed.

Lemma read_varint_back fuel v rest :
  (0 ≤ v < 2 ^ (7 * Z.of_nat (S fuel)))%Z →
  read_varint (S fuel) (WireFormat.varint (S fuel) v +:+ rest) = Some (v, rest).
Proof.
  revert v. induction fuel as [|fuel IH]; intros v B; rewrite WireFormat.varint_S;
    (case_decide as D; rewrite app_cons, read_varint_S;
       [rewrite code_byte_of by lia; by rewrite decide_True, app_empty_l|]).
  { simpl in B. lia. }
  pose proof (Z.mod_pos_bound v 128 ltac:(lia)). rewrite code_byte_of, decide_False by lia.
  rewrite IH.
  - simpl. do 2 f_equal. pose proof (Z.div_mod v 128 ltac:(lia)). lia.
  - split; [apply Z.div_pos; lia|]. apply Z.div_lt_upper_bound; [lia|].
    replace (128 * 2 ^ (7 * Z.of_nat (S fuel)))%Z with (2 ^ (7 * Z.of_nat (S (S fuel))))%Z; [lia|].
    change 128%Z with (2 ^ 7)%Z. rewrite <- Z.pow_add_r by lia. f_equal. lia.
Qed.

#[local] Arguments read_varint : simpl never.
#[local] Arguments WireFormat.uvarint : simpl never.

Lemma read_uvarint v rest : read_varint 10 (WireFormat.uvarint v +:+ rest) = Some (uint64 v, rest).
Proof.
  unfold WireFormat.uvarint. apply read_varint_back. unfold uint64, wrap_u.
  pose proof (Z.mod_pos_bound v (2 ^ 64) ltac:(lia)). simpl (7 * _)%Z. lia.
Qed.

Lemma take_app s rest : take_bytes (Z.of_nat (len s)) (s +:+ rest) = Some (s, rest).
Proof. unfold take_bytes. rewrite decide_True by (rewrite len_app; lia). by rewrite Nat2Z.id, upto_app, from_app. Qed.

Lemma read_tag n wt rest :
  (1 ≤ n < 2 ^ 29)%Z → (0 ≤ wt < 8)%Z →
  ∃ t, read_varint 10 (WireFormat.uvarint (tag n wt) +:+ rest) = Some (t, rest) ∧ (t / 8 = n)%Z ∧ (t mod 8 = wt)%Z.
Proof.
  intros Bn Bw. exists (tag n wt). rewrite read_uvarint. unfold uint64, wrap_u, tag. rewrite Z.mod_small by lia.
  split; [done|]. split; [rewrite Z.div_add_l, Z.div_small; lia|]. rewrite Z.add_comm, Z.mod_add, Z.mod_small; lia.
Qed.

Lemma read_delimited n b rest :
  (1 ≤ n < 2 ^ 29)%Z → (Z.of_nat (len b) < 2 ^ 31)%Z →
  read_field (WireFormat.uvarint (tag n 2) +:+ (WireFormat.uvarint (Z.of_nat (len b)) +:+ b) +:+ rest)
  = Some (WBytes n b, rest).
Proof.
  intros Bn Bl. unfold read_field. destruct (read_tag n 2 ((WireFormat.uvarint (Z.of_nat (len b)) +:+ b) +:+ rest) Bn ltac:(lia))
    as (t & -> & Et & Em). simpl. rewrite Et, Em, app_assoc_str, read_uvarint. simpl.
  unfold uint64, wrap_u. rewrite Z.mod_small by lia. by rewrite take_app.
Qed.

(** One field. *)
Lemma read_encoded f rest :
  numbered f → field_utf8 f = true → (field_len f < 2 ^ 31)%Z →
  ∃ w, read_field (WireFormat.encode_field f +:+ rest) = Some (w, rest) ∧ @written WireFormat.format f w.
Proof.
  intros N U L. destruct f as [n v|n t|n t|n fs]; unfold numbered in N; cbn [pnumber] in N.
  - exists (WVarint n (uint64 v)). split; [|done]. cbn [WireFormat.encode_field]. unfold read_field.
    rewrite app_assoc_str. destruct (read_tag n 0 (WireFormat.uvarint v +:+ rest) N ltac:(lia)) as (t & -> & Et & Em).
    simpl. rewrite Et, Em, read_uvarint. simpl. do 2 f_equal. unfold uint64, wrap_u. by rewrite Z.mod_mod.
  - exists (WBytes n t). split; [|done]. cbn [WireFormat.encode_field]. rewrite app_assoc_str. apply read_delimited; [done|].
    simpl in L. pose proof (delimited_bounds n (Z.of_nat (len t))). lia.
  - exists (WBytes n t). split; [|done]. cbn [WireFormat.encode_field]. rewrite app_assoc_str. apply read_delimited; [done|].
    simpl in L. pose proof (delimited_bounds n (Z.of_nat (len t))). lia.
  - exists (WBytes n (WireFormat.encode fs)). split.
    + change (WireFormat.encode_field (PMessage n fs)) with
        (WireFormat.uvarint (tag n 2) +:+ WireFormat.uvarint (Z.of_nat (len (WireFormat.encode fs))) +:+ WireFormat.encode fs).
      rewrite app_assoc_str. apply read_delimited; [done|].
      rewrite message_len in L. pose proof (delimited_bounds n (fields_len fs)). rewrite WireFormat.encode_length. lia.
    + exists (WireFormat.encode fs). split; [done|]. simpl. simpl in U. unfold fields_utf8. by rewrite U.
Qed.

Lemma read_fields_S fuel s :
  s ≠ "" → read_fields (S fuel) s = ('(w, s) ← read_field s; ws ← read_fields fuel s; Some (w :: ws)).
Proof. by destruct s. Qed.

Lemma fields_back fs : ∀ fuel,
  len (WireFormat.encode fs) ≤ fuel → Forall numbered fs → fields_utf8 fs = true → (fields_len fs < 2 ^ 31)%Z →
  ∃ ws, read_fields fuel (WireFormat.encode fs) = Some ws ∧ Forall2 (@written WireFormat.format) fs ws.
Proof.
  induction fs as [|f fs IH]; intros fuel B N U L; [exists []; by destruct fuel|].
  apply Forall_cons in N as [Nf N]. unfold fields_utf8 in U. cbn [forallb] in U. apply andb_true_iff in U as [Uf U].
  rewrite fields_len_cons in L. pose proof (field_len_nonneg f). pose proof (fields_len_nonneg fs).
  change (WireFormat.encode (f :: fs)) with (WireFormat.encode_field f +:+ WireFormat.encode fs) in *.
  assert (0 < len (WireFormat.encode_field f)) as P.
  { pose proof (WireFormat.encode_field_length f) as E. destruct f as [n v|n t|n t|n gs]; cbn [field_len] in E; unfold delimited_len in E;
      pose proof (varint_len_bounds (tag n 0)); pose proof (varint_len_bounds (tag n 2));
      try pose proof (varint_len_bounds v); try pose proof (varint_len_bounds (Z.of_nat (len t)));
      try (pose proof (fields_len_nonneg gs) as G; unfold fields_len in G;
           pose proof (varint_len_bounds (foldr (λ f z, field_len f + z)%Z 0%Z gs))); lia. }
  rewrite len_app in B. destruct fuel as [|fuel]; [lia|]. rewrite read_fields_S.
  2: { intros E. apply (f_equal len) in E. rewrite len_app in E. simpl in E. lia. }
  destruct (read_encoded f (WireFormat.encode fs) Nf Uf ltac:(lia)) as (w & -> & W). simpl.
  destruct (IH fuel ltac:(lia) N U ltac:(lia)) as (ws & -> & F). exists (w :: ws). by split; [|constructor].
Qed.

#[export] Instance reader : @ProtobufReader WireFormat.format.
Proof.
  refine {| Fields b := read_fields (len b) b |}. intros fs b M N B. simpl in M.
  destruct (fields_utf8 fs) eqn:U; [|done]. injection M as <-. apply fields_back; [done..|].
  by rewrite <- WireFormat.encode_length.
Defined.

End WireReader.

(** ** Evaluation *)

Module ServerWireSample.

(** A demand set as a newer control plane might send it: the set has a field 7, and
    the envelope a field 12. *)
Definition pushed : ServerMessage := MkServerMessage 5 (ServerDemandSet ControllerSample.demand_set).
Definition body : list pfield := PString 7 "later" :: demand_set_fields ControllerSample.demand_set.
Definition fields : list pfield := [PVarint 12 1; PVarint 1 5; PMessage 4 body].
Definition data : string := WireFormat.encode fields.

Lemma is_written : server_writes pushed fields.
Proof.
  exists body. split; split; [reflexivity| |reflexivity|].
  - apply (bool_decide_unpack _). reflexivity.
  - apply (bool_decide_unpack _). reflexivity.
Qed.

Example received_back : @Recv WireFormat.format WireReader.reader data = Some pushed.
Proof. vm_compute. reflexivity. Qed.

(** A text that is not valid UTF-8 ends the session, and a repeated body is merged. *)
Example spoilt : @Recv WireFormat.format WireReader.reader
  (WireFormat.encode [PMessage 3 [PBytes 2 (String (ascii_of_nat 255) "")]]) = None.
Proof. vm_compute. reflexivity. Qed.

Example merged : @Recv WireFormat.format WireReader.reader
  (WireFormat.encode [PMessage 4 [PString 1 "up"]; PMessage 4 [PString 1 "down"; PVarint 2 9]])
  = Some (MkServerMessage 0 (ServerDemandSet (MkDemandSet ["up"; "down"] [] [] [] [] 9))).
Proof. vm_compute. reflexivity. Qed.

End ServerWireSample.

Lemma pushed_messages_are_handled_witness :
  let a := LifecycleSample.a3 in
  loop a = Receiving 0 ∧
  @Recv WireFormat.format WireReader.reader ServerWireSample.data = Some ServerWireSample.pushed.
Proof.
  intros a. split; [reflexivity|].
  assert (in_range ServerWireSample.pushed) as R by (split; split; vm_compute; congruence).
  refine (proj1 (proj2 (@pushed_messages_are_handled WireFormat.format WireReader.reader LiteralRegexp.engine
    QueryHandlerSample.client QueryHandlerSample.tables DiagnosticsSample.yaml LifecycleSample.cfg
    (Some LifecycleSample.mp) [] ∅ a 0 ControllerSample.env (not_elem_of_nil _) LifecycleSample.run3 eq_refl eq_refl)
    ServerWireSample.pushed ServerWireSample.fields ServerWireSample.data R ServerWireSample.is_written _) _).
  - vm_compute. reflexivity.
  - vm_compute. discriminate.
Defined.
