(* ===== verification/Resolve.v ===== *)
(** The [leansignal:] config provider (components/resolveprovider/provider.go):
    explicit environment overrides, the memoised tenant lookup at the control
    centre with its retries, and the endpoints derived from slug and region.

    The process environment and what the control centre answers are arguments;
    [requests] is the history of the lookups made. The theorems: each key gets
    its override or the derived endpoint, and a process looks up at most once. *)

From S2P Require Import Prelude GoText GoStrings.

Definition schemeName : string := "leansignal".
Definition defaultCCURL : string := "https://cc.leansignal.io".
Definition defaultResolveAAT : string := "fad77809-e6c4-49b0-a508-0e1e469e6553".
Definition envTenant : string := "LEANSIGNAL_TENANT".
Definition envCCURL : string := "LEANSIGNAL_CC_URL".
Definition envAAT : string := "LEANSIGNAL_RESOLVE_AAT".
Definition envDomain : string := "LEANSIGNAL_DOMAIN".
Definition resolveRetries : nat := 3.

Definition overrideEnvByKey : gmap string string := list_to_map
  [("region", envDomain); ("api", "LEANSIGNAL_API_ENDPOINT"); ("grpc", "LEANSIGNAL_ENDPOINT");
   ("dataplane", "LEANSIGNAL_DATAPLANE_ENDPOINT"); ("loki", "LEANSIGNAL_LOKI_ENDPOINT");
   ("tempo", "LEANSIGNAL_TEMPO_ENDPOINT")].

(** ** Lookups *)

(** What a request to the control centre came to: no response, or a status and
    the decoded body (its [api_url] and [tenant] fields) or decoding error. *)
Inductive reply :=
| RequestFailed (e : string)
| Response (status : Z) (body : result string (string * bool)).

Inductive resolve_error :=
| ErrScheme (uri : string)
| ErrNoTenant
| ErrRequest (e : string)
| ErrStatus (code : Z)
| ErrDecode (e : string)
| ErrNoSuchTenant (slug : string) (tenant : bool)
| ErrUnexpectedURL (apiURL slug : string)
| ErrCancelled
| ErrAttempts (slug base : string) (last : resolve_error)
| ErrUnknownKey (key : string) (valid : list string).

(** What the surroundings are: the process environment, the control centre's
    reply to the n-th request of the process, and whether the context is
    cancelled while waiting after it. *)
Record ResolveEnv := MkResolveEnv {
  Getenv : string → string;
  replies : nat → string → reply;
  cancelled : nat → bool;
}.

Section Provider.
Context (env : ResolveEnv).

Definition envOr (name def : string) : string :=
  let v := TrimSpace (Getenv env name) in if decide (v = "") then def else v.

Definition doResolve (r : reply) (slug : string) : result resolve_error string :=
  match r with
  | RequestFailed e => Err (ErrRequest e)
  | Response status body =>
      if decide (status ≠ 200)%Z then Err (ErrStatus status)
      else match body with
           | Err e => Err (ErrDecode e)
           | Ok (apiURL, tenant) =>
               if negb tenant || bool_decide (apiURL = "") then Err (ErrNoSuchTenant slug tenant)
               else Ok apiURL
           end
  end.

(** The [url.Values] are encoded with their keys sorted. *)
Definition resolve_endpoint (ccURL slug aat : string) : string :=
  TrimRightByte ccURL "/" +:+ "/resolve_tenant?" +:+
  "aat=" +:+ QueryEscape aat +:+ "&tenant=" +:+ QueryEscape slug.

(** What is made of the API URL: the region behind [<slug>-api.]. *)
Definition region_of (slug apiURL : string) : result resolve_error string :=
  let region := TrimPrefix apiURL (slug +:+ "-api.") in
  if decide (region = apiURL ∨ region = "") then Err (ErrUnexpectedURL apiURL slug) else Ok region.

(** The retry loop, [tries] attempts before it gives up; [requests] is the
    history of the process. *)
Fixpoint attempts (tries : nat) (base endpoint slug : string) (lastErr : resolve_error)
    (requests : list string) : result resolve_error string * list string :=
  match tries with
  | O => (Err (ErrAttempts slug base lastErr), requests)
  | S tries =>
      let r := doResolve (replies env (length requests) endpoint) slug in
      let n := length requests in
      let requests := requests ++ [endpoint] in
      match r with
      | Ok apiURL => (region_of slug apiURL, requests)
      | Err e =>
          if bool_decide (tries ≠ 0) && cancelled env n then (Err ErrCancelled, requests)
          else attempts tries base endpoint slug e requests
      end
  end.

Definition resolveRegion (ccURL slug aat : string) (requests : list string)
  : result resolve_error string * list string :=
  attempts resolveRetries (TrimRightByte ccURL "/") (resolve_endpoint ccURL slug aat) slug ErrCancelled requests.

Definition deriveEndpoints (slug region : string) : gmap string string := list_to_map
  [("region", region);
   ("api", "https://" +:+ slug +:+ "-api." +:+ region);
   ("grpc", slug +:+ "-grpc." +:+ region +:+ ":443");
   ("dataplane", "https://" +:+ slug +:+ "-metrics-ingest." +:+ region);
   ("loki", "https://" +:+ slug +:+ "-logs-ingest." +:+ region);
   ("tempo", "https://" +:+ slug +:+ "-traces-ingest." +:+ region)].

Definition resolve (requests : list string) : result resolve_error (gmap string string) * list string :=
  let slug := TrimSpace (Getenv env envTenant) in
  if decide (slug = "") then (Err ErrNoTenant, requests)
  else
    let domain := TrimSpace (Getenv env envDomain) in
    if decide (domain = "") then
      let ccURL := envOr envCCURL defaultCCURL in
      let aat := envOr envAAT defaultResolveAAT in
      match resolveRegion ccURL slug aat requests with
      | (Err e, requests) => (Err e, requests)
      | (Ok d, requests) => (Ok (deriveEndpoints slug d), requests)
      end
    else (Ok (deriveEndpoints slug domain), requests).

(** [once], [vals] and [err]: [None] before the first resolve. *)
Record provider := MkProvider {
  resolved : option (result resolve_error (gmap string string));
  requests : list string;
}.

Definition newProvider : provider := MkProvider None [].

(** [p.once.Do]. *)
Definition resolve_once (p : provider) : result resolve_error (gmap string string) * provider :=
  match resolved p with
  | Some r => (r, p)
  | None => let '(r, reqs) := resolve (requests p) in (r, MkProvider (Some r) reqs)
  end.

(** The text of an explicit override of a key. *)
Definition override (key : string) : option string :=
  envName ← overrideEnvByKey !! key;
  let v := TrimSpace (Getenv env envName) in
  if decide (v = "") then None else Some v.

(** The text handed to the YAML reader, or the error. *)
Definition Retrieve (p : provider) (uri : string) : result resolve_error string * provider :=
  match CutPrefix uri (schemeName +:+ ":") with
  | None => (Err (ErrScheme uri), p)
  | Some rest =>
      let key := TrimSpace rest in
      match override key with
      | Some v => (Ok v, p)
      | None =>
          let '(r, p) := resolve_once p in
          match r with
          | Err e => (Err e, p)
          | Ok vals =>
              match vals !! key with
              | Some val => (Ok val, p)
              | None => (Err (ErrUnknownKey key (sort_strings (map_to_list vals).*1)), p)
              end
          end
      end
  end.

(** A config's references, in the order they are retrieved. *)
Fixpoint retrieve_all (p : provider) (uris : list string) : list (result resolve_error string) * provider :=
  match uris with
  | [] => ([], p)
  | u :: uris =>
      let '(r, p) := Retrieve p u in
      let '(rs, p) := retrieve_all p uris in (r :: rs, p)
  end.

(** ** The lookup *)

Lemma attempts_requests tries base endpoint slug e reqs :
  ∃ n, n ≤ tries ∧ (attempts tries base endpoint slug e reqs).2 = reqs ++ replicate n endpoint.
Proof.
  revert e reqs. induction tries as [|tries IH]; intros e reqs; simpl.
  { exists 0. simpl. by rewrite app_nil_r. }
  destruct (doResolve _ slug) as [apiURL|e'].
  { exists 1. split; [lia|done]. }
  destruct (bool_decide (tries ≠ 0) && _).
  { exists 1. split; [lia|done]. }
  destruct (IH e' (reqs ++ [endpoint])) as (n & Hn & E). exists (S n). split; [lia|].
  rewrite E, <- app_assoc. done.
Qed.

(** The requests of one resolve: at most three, all the same. *)
Definition bounded_requests (reqs : list string) : Prop :=
  ∃ n, n ≤ resolveRetries ∧
    reqs = replicate n (resolve_endpoint (envOr envCCURL defaultCCURL) (TrimSpace (Getenv env envTenant))
                          (envOr envAAT defaultResolveAAT)).

Lemma resolve_requests : bounded_requests (resolve []).2.
Proof.
  unfold resolve. case_decide; [by exists 0; split; [lia|]|].
  case_decide; [|by exists 0; split; [lia|]]. unfold resolveRegion.
  destruct (attempts_requests resolveRetries (TrimRightByte (envOr envCCURL defaultCCURL) "/")
    (resolve_endpoint (envOr envCCURL defaultCCURL) (TrimSpace (Getenv env envTenant)) (envOr envAAT defaultResolveAAT))
    (TrimSpace (Getenv env envTenant)) ErrCancelled []) as (n & Hn & E).
  exists n. split; [done|]. destruct (attempts _ _ _ _ _ _) as [[] reqs]; exact E.
Qed.

(** The states a provider goes through: not resolved, or holding the outcome of
    its one resolve. *)
Definition provider_ok (p : provider) : Prop :=
  p = newProvider ∨ p = MkProvider (Some (resolve []).1) (resolve []).2.

Lemma resolve_once_ok p :
  provider_ok p → resolve_once p = ((resolve []).1, MkProvider (Some (resolve []).1) (resolve []).2).
Proof. intros [->| ->]; unfold resolve_once; simpl; [by destruct (resolve [])|done]. Qed.

(** The outcome of a reference, a function of the environment alone. *)
Definition spec_retrieve (uri : string) : result resolve_error string :=
  match CutPrefix uri (schemeName +:+ ":") with
  | None => Err (ErrScheme uri)
  | Some rest =>
      match override (TrimSpace rest), (resolve []).1 with
      | Some v, _ => Ok v
      | None, Err e => Err e
      | None, Ok vals =>
          match vals !! TrimSpace rest with
          | Some val => Ok val
          | None => Err (ErrUnknownKey (TrimSpace rest) (sort_strings (map_to_list vals).*1))
          end
      end
  end.

(** Whether a reference is answered without the lookup. *)
Definition needs_no_lookup (uri : string) : Prop :=
  match CutPrefix uri (schemeName +:+ ":") with
  | None => True
  | Some rest => is_Some (override (TrimSpace rest))
  end.

Lemma Retrieve_ok p uri :
  provider_ok p →
  ∃ p', Retrieve p uri = (spec_retrieve uri, p') ∧ provider_ok p' ∧ (needs_no_lookup uri → p' = p).
Proof.
  intros O. unfold Retrieve, spec_retrieve, needs_no_lookup.
  destruct (CutPrefix uri _) as [rest|]; [|by exists p].
  destruct (override (TrimSpace rest)) as [v|] eqn:Eo; [by exists p|].
  rewrite resolve_once_ok by done.
  exists (MkProvider (Some (resolve []).1) (resolve []).2).
  split; [|split; [by right|by intros [? ?]]].
  destruct (resolve []) as [[vals|e] reqs]; simpl; [|done]. by destruct (vals !! TrimSpace rest).
Qed.

Lemma retrieve_all_ok p uris :
  provider_ok p →
  ∃ p', retrieve_all p uris = (spec_retrieve <$> uris, p') ∧ provider_ok p' ∧
        (Forall needs_no_lookup uris → p' = p).
Proof.
  revert p. induction uris as [|u uris IH]; intros p O; [by exists p|].
  destruct (Retrieve_ok p u O) as (p1 & E1 & O1 & N1). destruct (IH p1 O1) as (p2 & E2 & O2 & N2).
  exists p2. cbn [retrieve_all]. rewrite E1, E2. split; [done|]. split; [done|].
  intros [Hu Hus]%Forall_cons. rewrite N2, N1 by done. done.
Qed.

(** ** Regions *)

Lemma region_of_ok slug apiURL region :
  region_of slug apiURL = Ok region ↔ apiURL = slug +:+ "-api." +:+ region ∧ region ≠ "".
Proof.
  unfold region_of, TrimPrefix. destruct (CutPrefix apiURL (slug +:+ "-api.")) as [r|] eqn:E.
  - apply CutPrefix_Some in E. subst apiURL. rewrite <- (app_assoc_str slug "-api." region).
    assert (∀ r', (slug +:+ "-api.") +:+ r = (slug +:+ "-api.") +:+ r' → r = r') as Hinj
      by (intros r'; apply (inj (String.append _))).
    case_decide as D.
    + split; [done|]. intros [Eq%Hinj N]. destruct D as [D|D]; [|congruence].
      apply (f_equal len) in D. rewrite !len_app in D. simpl in D. lia.
    + split; [intros [= <-]; naive_solver|]. by intros [->%Hinj _].
  - rewrite decide_True by auto. split; [done|]. intros [Eq _]. exfalso.
    assert (CutPrefix apiURL (slug +:+ "-api.") = Some region) as E'; [|congruence].
    apply CutPrefix_Some. by rewrite app_assoc_str.
Qed.

End Provider.

(** ** Properties *)

(** C37: Every reference of a config gets the outcome the environment determines
    for it, whatever was retrieved before: the override, the derived endpoint,
    or the error. All the references together send at most three requests, all
    to the same endpoint, and none when every reference is overridden. *)
Theorem config_resolves_once (env : ResolveEnv) (uris : list string) :
  let out := retrieve_all env newProvider uris in
  out.1 = spec_retrieve env <$> uris ∧
  bounded_requests env (requests out.2) ∧
  (Forall (needs_no_lookup env) uris → requests out.2 = []).
Proof.
  intros out. destruct (retrieve_all_ok env newProvider uris) as (p & E & O & N); [by left|].
  subst out. rewrite E. split; [done|]. split.
  - destruct O as [->| ->]; [by exists 0; split; [unfold resolveRetries; lia|]|apply resolve_requests].
  - simpl. intros F. by rewrite (N F).
Qed.

(** The derived endpoints lead back to what the control centre said: when it
    answers the first request for the tenant with an existing tenant's API host,
    the lookup succeeds exactly when the host is <slug>-api.<region> with a
    region; the api key is then that very host over https, and every key is
    derived from that region. *)
Theorem endpoints_follow_control_centre (env : ResolveEnv) (apiURL : string) :
  let slug := TrimSpace (Getenv env envTenant) in
  let endpoint := resolve_endpoint (envOr env envCCURL defaultCCURL) slug (envOr env envAAT defaultResolveAAT) in
  slug ≠ "" → TrimSpace (Getenv env envDomain) = "" →
  replies env 0 endpoint = Response 200 (Ok (apiURL, true)) → apiURL ≠ "" →
  ((∃ region, apiURL = slug +:+ "-api." +:+ region ∧ region ≠ "" ∧
              (resolve env []).1 = Ok (deriveEndpoints slug region) ∧
              deriveEndpoints slug region !! "api" = Some ("https://" +:+ apiURL)) ∨
   ((∀ region, region ≠ "" → apiURL ≠ slug +:+ "-api." +:+ region) ∧
    (resolve env []).1 = Err (ErrUnexpectedURL apiURL slug))).
Proof.
  intros slug endpoint Ns Nd R Na.
  assert (resolve env [] = (match region_of slug apiURL with
                            | Ok d => Ok (deriveEndpoints slug d) | Err e => Err e end, [endpoint])) as E.
  { unfold resolve. fold slug. rewrite decide_False by done. rewrite decide_True by done.
    unfold resolveRegion. cbn [attempts resolveRetries length]. fold endpoint. rewrite R. cbn [doResolve].
    rewrite decide_False by lia. rewrite bool_decide_false by done. cbn [negb orb app].
    by destruct (region_of slug apiURL). }
  rewrite E. cbn [fst]. destruct (region_of slug apiURL) as [region|e] eqn:Er.
  - left. exists region. apply region_of_ok in Er as [-> Nr]. done.
  - right. split.
    + intros region Nr Eq. assert (region_of slug apiURL = Ok region) by by apply region_of_ok. congruence.
    + unfold region_of in Er. case_decide; congruence.
Qed.

(** ** Evaluation *)

Module ResolveSample.

Definition getenv (name : string) : string :=
  if decide (name = envTenant) then " acme " else if decide (name = "LEANSIGNAL_LOKI_ENDPOINT") then "http://loki" else "".

(** The first two requests fail. *)
Definition env : ResolveEnv :=
  MkResolveEnv getenv
    (λ n _, if decide (n < 2) then Response 503 (Err "") else Response 200 (Ok ("acme-api.eu1.example.com", true)))
    (λ _, false).

Definition prompt : ResolveEnv :=
  MkResolveEnv getenv (λ _ _, Response 200 (Ok ("acme-api.eu1.example.com", true))) (λ _, false).

Example sample_retrieve :
  retrieve_all env newProvider ["leansignal:loki"; "leansignal: tempo"; "leansignal:grpc"; "env:X"]
  = ([Ok "http://loki"; Ok "https://acme-traces-ingest.eu1.example.com"; Ok "acme-grpc.eu1.example.com:443";
      Err (ErrScheme "env:X")],
     MkProvider (Some (Ok (deriveEndpoints "acme" "eu1.example.com")))
       (replicate 3 "https://cc.leansignal.io/resolve_tenant?aat=fad77809-e6c4-49b0-a508-0e1e469e6553&tenant=acme")).
Proof. vm_compute. reflexivity. Qed.

End ResolveSample.

Lemma endpoints_follow_control_centre_witness :
  let slug := TrimSpace (Getenv ResolveSample.prompt envTenant) in
  slug = "acme" ∧
  ((∃ region, "acme-api.eu1.example.com" = slug +:+ "-api." +:+ region ∧ region ≠ "" ∧
              (resolve ResolveSample.prompt []).1 = Ok (deriveEndpoints slug region) ∧
              deriveEndpoints slug region !! "api" = Some ("https://" +:+ "acme-api.eu1.example.com")) ∨
   ((∀ region, region ≠ "" → "acme-api.eu1.example.com" ≠ slug +:+ "-api." +:+ region) ∧
    (resolve ResolveSample.prompt []).1 = Err (ErrUnexpectedURL "acme-api.eu1.example.com" slug))).
Proof.
  intros slug. split; [vm_compute; reflexivity|].
  apply (endpoints_follow_control_centre ResolveSample.prompt "acme-api.eu1.example.com"); vm_compute; done.
Defined.
