(* ===== verification/Factories.v ===== *)
(** The factories: what each package registers with the collector (factory.go of
    the packages under components/, and the methods of component.Component they
    hand out).

    A factory is a record of its type, its default configuration, the signal it
    serves and its create function, which is the constructor modelled with the
    component. The type names go through the collector's [component.MustNewType],
    which panics on a name it does not take, before main runs; the class
    [ComponentType] is what it documents. The theorem: the agent's names pass, no
    two components of a kind share one, and the filters the factories create block
    everything until they find a controller. *)

From S2P Require Import Prelude GoText GoStrings Selector PData PromNaming Demand DemandFilter SelectorCache LogFilter.
From S2P Require Import TraceFilter TraceRouter Backoff MetricsIndex Tracker KnownCache DiscoveredCache DemandCache.
From S2P Require Import QueryHandler ConfigManager Diagnostics Delivery IndexSync AckProtocol Controller Components Resolve.

(** ** Types *)

Definition ascii_letter (c : ascii) : bool :=
  let z := code c in
  bool_decide (65 ≤ z ≤ 90)%Z || bool_decide (97 ≤ z ≤ 122)%Z.
Definition type_byte (c : ascii) : bool :=
  ascii_letter c || bool_decide (48 ≤ code c ≤ 57)%Z || bool_decide (c = "_"%char).

(** "ASCII alphabetic characters, numbers and '_', starting with a letter, at most
    63 characters". *)
Definition valid_type (s : string) : bool :=
  match bytes s with
  | [] => false
  | c :: cs => ascii_letter c && forallb type_byte cs && bool_decide (length cs ≤ 62)
  end.

(** [component.MustNewType]; [None] is its panic. *)
Class ComponentType := {
  MustNewType : string → option string;
  MustNewType_ok s : valid_type s = true → MustNewType s = Some s;
}.

Inductive signal := MetricsSignal | LogsSignal | TracesSignal | NoSignal.
Inductive registry := Processors | Exporters | Extensions.

#[export] Instance registry_eq_dec : EqDecision registry.
Proof. solve_decision. Defined.

(** A factory; the stability level is the same for all of them. *)
Record Factory (C P : Type) := MkFactory {
  f_type : option string;
  f_default : C;
  f_signal : signal;
  f_create : C → P;
}.
Arguments MkFactory {C P}.
Arguments f_type {C P}.
Arguments f_default {C P}.
Arguments f_signal {C P}.
Arguments f_create {C P}.

Definition demandfilter_type : string := "leansignal_demand_filter".
Definition logdemandfilter_type : string := "leansignal_log_demand_filter".
Definition tracedemandfilter_type : string := "leansignal_trace_demand_filter".
Definition tracker_type : string := "leansignalmetrics_tracker".
Definition router_type : string := "leansignal_trace_router".
Definition backoff_type : string := "leansignal_ingest_backoff".
Definition edgecontroller_type : string := "leansignal_edge_controller".

Definition names : list (registry * string) :=
  [(Processors, demandfilter_type); (Processors, logdemandfilter_type); (Processors, tracedemandfilter_type);
   (Processors, tracker_type); (Exporters, router_type); (Extensions, backoff_type); (Extensions, edgecontroller_type)].

(** ** Construction *)

(** The configuration of the two other filters is the same struct. *)
Definition LogFilterConfig : Type := FilterConfig.
Definition TraceFilterConfig : Type := FilterConfig.

Record BackoffConfig := MkBackoffConfig { RetryInterval : Z }.

(** The exporter without the queue and the retries of exporterhelper around it: the
    router, whose HTTP client is made when it starts. *)
Record router := MkRouter { rt_cfg : RouterConfig; rt_client : option Z }.
Definition newRouter (cfg : RouterConfig) : router := MkRouter cfg None.
Definition router_start (r : router) : router := MkRouter (rt_cfg r) (Some (Timeout (rt_cfg r))).

(** Every [RoundTripper] shares its extension's state; [base] is the transport it
    wraps, as a function of the request. *)
Record backoffRoundTripper (Req : Type) := MkRoundTripper { rt_base : Req → option Z }.
Arguments MkRoundTripper {Req}.
Arguments rt_base {Req}.

Definition RoundTripper {Req} (base : Req → option Z) : backoffRoundTripper Req := MkRoundTripper base.

Definition round_trip {Req} (rt : backoffRoundTripper Req) (b : backoffExtension) (req : Req) (t0 t1 : Z)
  : option Z * bool * backoffExtension := RoundTrip b (rt_base rt req) t0 t1.

(** The caches of a new controller. *)
Definition NewKnownTimeseriesCache : KnownTimeseriesCache := ∅.
Definition NewDiscoveredTimeseriesCache : DiscoveredTimeseriesCache := ∅.

(** Whether a component changes the data it is given. *)
Inductive consumer_kind := Processor (k : component_kind) | TraceRouterKind.
Definition Capabilities (k : consumer_kind) : bool :=
  match k with Processor k => MutatesData k | TraceRouterKind => true end.

Section Factories.
Context `{ComponentType, Regexp, UnicodeTables, PData, Namer, DemandHost}.

Definition demandfilter_factory : Factory FilterConfig demandFilterProcessor :=
  MkFactory (MustNewType demandfilter_type) demandfilter_default MetricsSignal (λ _, newDemandFilterProcessor).
Definition logdemandfilter_factory : Factory LogFilterConfig logDemandFilterProcessor :=
  MkFactory (MustNewType logdemandfilter_type) logdemandfilter_default LogsSignal (λ _, newLogDemandFilterProcessor).
Definition tracedemandfilter_factory : Factory TraceFilterConfig traceDemandFilterProcessor :=
  MkFactory (MustNewType tracedemandfilter_type) tracedemandfilter_default TracesSignal (λ _, newTraceDemandFilterProcessor).
Definition tracker_factory : Factory TrackerConfig metricsTrackerProcessor :=
  MkFactory (MustNewType tracker_type) tracker_default MetricsSignal newMetricsTrackerProcessor.
Definition router_factory : Factory RouterConfig router :=
  MkFactory (MustNewType router_type) router_default TracesSignal newRouter.
Definition backoff_factory : Factory BackoffConfig backoffExtension :=
  MkFactory (MustNewType backoff_type) (MkBackoffConfig backoff_default) NoSignal
    (λ cfg, createBackoffExtension (RetryInterval cfg)).
Definition edgecontroller_factory (buildVersion : string) (args : list string) (exe : string) : Factory Config settings :=
  MkFactory (MustNewType edgecontroller_type) edge_default NoSignal (createExtension buildVersion args exe).

(** The names of the factories, as the collector indexes them. *)
Definition registered : list (registry * option string) :=
  [(Processors, f_type demandfilter_factory); (Processors, f_type logdemandfilter_factory);
   (Processors, f_type tracedemandfilter_factory); (Processors, f_type tracker_factory);
   (Exporters, f_type router_factory); (Extensions, f_type backoff_factory);
   (Extensions, f_type (edgecontroller_factory "" [] ""))].

(** The agent starts with its components: every type name is one the collector
    takes, so no package panics while it is initialised; no two components of a
    kind have the same name; a filter that was created and found no controller
    blocks everything; and only the component that leaves its data alone says so. *)
Theorem components_register (w : World) (md : MetricsBatch) (ld : list ResourceLogs) (td : list ResourceSpans) :
  registered = prod_map id Some <$> names ∧ NoDup registered ∧
  (ConsumeMetrics (Start (f_create demandfilter_factory demandfilter_default) []) w md).1 = None ∧
  (ConsumeLogs (LogStart (f_create logdemandfilter_factory logdemandfilter_default) []) w ld).1 = None ∧
  (ConsumeTraces (TraceStart (f_create tracedemandfilter_factory tracedemandfilter_default) []) w td).1 = None ∧
  (∀ k, Capabilities k = false ↔ k = Processor TrackerKind).
Proof.
  assert (registered = prod_map id Some <$> names) as E
    by (unfold registered; simpl; by rewrite !MustNewType_ok by reflexivity).
  split_and!; [done| |done|done|done|by intros [[]|]].
  rewrite E. apply (NoDup_fmap_2 _). apply (bool_decide_unpack _). by vm_compute.
Qed.

End Factories.

(** A controller starts with the caches its constructor made. *)
Lemma edge_caches (fs : FS) : ctl_caches (start fs) = MkCaches NewKnownTimeseriesCache NewDiscoveredTimeseriesCache.
Proof. done. Qed.

(** ** Evaluation *)

Module FactoriesSample.

#[export] Instance types : ComponentType.
Proof.
  refine {| MustNewType s := if valid_type s then Some s else None |}. intros s ->. done.
Defined.

(** Two transports of one valve: a 403 seen by one holds back the other. *)
Example shared_valve :
  let one := RoundTripper (λ _ : (), Some 403%Z) in
  let two := RoundTripper (λ _ : (), Some 200%Z) in
  let b := (round_trip one (f_create (@backoff_factory types) (MkBackoffConfig 60)) () 0 1).2 in
  (round_trip two b () 2 3).1 = (Some StatusForbidden, false).
Proof. done. Qed.

(** The exporter has no client before it is started. *)
Example router_client :
  let r := f_create (@router_factory types) router_default in
  rt_client r = None ∧ rt_client (router_start r) = Some (30 * Second)%Z.
Proof. done. Qed.

Example bad_name : @MustNewType types "leansignal-tracker" = None.
Proof. done. Qed.

End FactoriesSample.
